(** * simple-ledger: ledger derivation, recurring catch-up and CSV reconciliation

    A shallow embedding of the parts of [src/App.tsx], [src/types.ts],
    [src/constants.ts] and the spreadsheet service that compute account
    balances, advance recurring templates and export or import CSV rows,
    followed by the properties proved about them.

    Conventions of the embedding.
    - A JavaScript [number] is [JS.number]: NaN, an infinity, or an exact
      finite value.  The rounding of IEEE doubles is not modelled.  On whole
      numbers whose absolute values add up to at most 2^53 ([safe_integers])
      the sums of the host are exact, and the arithmetic of [JS.number] is
      the arithmetic of the host; the statements that regroup or reorder a
      sum, or that read a number back from its digits, are made for such
      numbers.
    - A JavaScript string is a [string]: the sequence of its characters, a
      character outside ASCII standing as its UTF-8 bytes.  Every character the
      code inspects (quote, comma, line feed, digits, date separators) is
      ASCII; white space removed by [trim] is recognised in its UTF-8 form.
    - An optional property ([location?], [toAccountId?], [endDate?]) is an
      [option]; [None] is [undefined].
    - [Date.now()] and [Math.random()] are host effects: the strings built
      from them are drawn from an explicit supply passed to the functions.
    - A [Date] object is its time value ([DateObj]).  The offset of local
      time from UTC and the reading of date strings outside the ISO format
      belong to the host and are a parameter, [Host]: a function or a theorem
      that depends on them takes the host as an argument.  A date-only string
      is read as the start of that day in UTC, the getters and setters work
      on local time and [toISOString] on UTC.  Where local time is at a fixed
      offset east of UTC ([east_of_UTC]; the application's locale is zh-TW,
      UTC+8) the three see one calendar date; the statements that need this
      carry it as a hypothesis, and the lemmas [getNextDate_west_of_UTC],
      [getNextDate_stalls_at_clock_change] and [normalizeDate_west_of_UTC]
      show what happens elsewhere. *)

From Stdlib Require Import ZArith QArith Qcanon Qround String Ascii List Lia Permutation Sorted.
From stdpp Require Import base option list gmap strings.

Local Open Scope string_scope.
Local Open Scope Z_scope.

(** ** Host language *)

Module JS.

(** [number]: NaN, a finite value, or an infinity ([Inf true] is -Infinity).
    A finite value is an exact rational: the operations below do not round
    and do not overflow to an infinity, as those of the host do outside the
    whole numbers up to 2^53. *)
Inductive number : Type :=
| NaN
| Fin (q : Qc)
| Inf (negative : bool).

Definition isNaN (x : number) : bool :=
  match x with NaN => true | _ => false end.

Definition of_Z (z : Z) : number := Fin (Qc_of_Z z).
Global Arguments of_Z : simpl never.

(** Unary minus. *)
Definition neg (x : number) : number :=
  match x with
  | NaN => NaN
  | Fin q => Fin (- q)%Qc
  | Inf s => Inf (negb s)
  end.

(** [x + y]. *)
Definition add (x y : number) : number :=
  match x, y with
  | NaN, _ | _, NaN => NaN
  | Fin a, Fin b => Fin (a + b)%Qc
  | Fin _, Inf s | Inf s, Fin _ => Inf s
  | Inf s, Inf t => if Bool.eqb s t then Inf s else NaN
  end.

(** [x - y], which IEEE arithmetic computes as [x + (-y)]. *)
Definition sub (x y : number) : number := add x (neg y).

(** [ToNumber] of a property read: a missing property reads [undefined],
    which converts to NaN. *)
Definition ToNumber (v : option number) : number := default NaN v.

(** [Boolean(s)] for an optional string: [undefined] and the empty string are
    falsy. *)
Definition truthy (o : option string) : bool :=
  match o with
  | Some s => negb (String.eqb s "")
  | None => false
  end.

End JS.

(** ** Data model ([src/types.ts]) *)

Inductive TransactionType : Type := INCOME | EXPENSE | TRANSFER.

Inductive Frequency : Type :=
| DAILY | WEEKLY | MONTHLY | BI_MONTHLY_ODD | BI_MONTHLY_EVEN | YEARLY.

Inductive AccountType : Type := CASH | BANK | CREDIT | E_WALLET | OTHER.

Module Account.
Record t : Type := mk {
  id : string;
  name : string;
  type : AccountType;
  initialBalance : JS.number;
  color : string
}.
End Account.

Module Transaction.
Record t : Type := mk {
  id : string;
  date : string;
  amount : JS.number;
  type : TransactionType;
  category : string;
  description : string;
  location : option string;
  accountId : string;
  toAccountId : option string;
  receiptImage : option string;
  isRecurringInstance : option bool
}.
End Transaction.

Module RecurringTransaction.
Record t : Type := mk {
  id : string;
  frequency : Frequency;
  startDate : string;
  nextDueDate : string;
  endDate : option string;
  lastGenerated : option string;
  amount : JS.number;
  type : TransactionType;
  category : string;
  description : string;
  location : option string;
  accountId : string;
  toAccountId : option string
}.
End RecurringTransaction.

(** ** BalanceLedger: the [accountBalances] memo of [App] *)

(** [bals[k] += amt]: reads the property (NaN after conversion when it is
    missing) and writes the sum back, creating the key if needed. *)
Definition plus_assign (bals : gmap string JS.number) (k : string) (amt : JS.number)
  : gmap string JS.number :=
  <[k := JS.add (JS.ToNumber (bals !! k)) amt]> bals.

(** [bals[k] -= amt]. *)
Definition minus_assign (bals : gmap string JS.number) (k : string) (amt : JS.number)
  : gmap string JS.number :=
  <[k := JS.sub (JS.ToNumber (bals !! k)) amt]> bals.

(** The reducer over [accounts]: [acc[account.id] = account.initialBalance]. *)
Definition seed_balance (acc : gmap string JS.number) (account : Account.t)
  : gmap string JS.number :=
  <[Account.id account := Account.initialBalance account]> acc.

(** The body of [transactions.forEach].  [Transaction.amount] is typed
    [number], so the test [typeof tx.amount === 'number'] holds and [amt] is
    the amount itself; the [parseFloat] branch serves values that the type
    excludes. *)
Definition apply_transaction (bals : gmap string JS.number) (tx : Transaction.t)
  : gmap string JS.number :=
  let amt := Transaction.amount tx in
  if JS.isNaN amt then bals
  else
    match Transaction.type tx with
    | INCOME => plus_assign bals (Transaction.accountId tx) amt
    | EXPENSE => minus_assign bals (Transaction.accountId tx) amt
    | TRANSFER =>
        (* [tx.type === 'TRANSFER' && tx.toAccountId]: an absent or empty
           destination is falsy and the whole branch is skipped. *)
        match Transaction.toAccountId tx with
        | Some to_ =>
            if String.eqb to_ "" then bals
            else plus_assign (minus_assign bals (Transaction.accountId tx) amt) to_ amt
        | None => bals
        end
    end.

Definition accountBalances (accounts : list Account.t) (transactions : list Transaction.t)
  : gmap string JS.number :=
  foldl apply_transaction (foldl seed_balance ∅ accounts) transactions.

(** The ledger contract in the words of the specification: what one
    transaction contributes to the balance of account [k]. *)
Definition when_account (b : bool) (x : JS.number) : JS.number :=
  if b then x else JS.of_Z 0.

Definition contribution (k : string) (tx : Transaction.t) : JS.number :=
  let amt := Transaction.amount tx in
  if JS.isNaN amt then JS.of_Z 0
  else
    match Transaction.type tx with
    | INCOME => when_account (String.eqb (Transaction.accountId tx) k) amt
    | EXPENSE => when_account (String.eqb (Transaction.accountId tx) k) (JS.neg amt)
    | TRANSFER =>
        JS.add
          (when_account (String.eqb (Transaction.accountId tx) k) (JS.neg amt))
          (when_account (bool_decide (Transaction.toAccountId tx = Some k)) amt)
    end.

Fixpoint signed_sum (k : string) (transactions : list Transaction.t) : JS.number :=
  match transactions with
  | [] => JS.of_Z 0
  | tx :: rest => JS.add (contribution k tx) (signed_sum k rest)
  end.

(** Data-model invariant of a transaction: a TRANSFER names its destination. *)
Definition has_destination (tx : Transaction.t) : Prop :=
  Transaction.type tx = TRANSFER → JS.truthy (Transaction.toAccountId tx) = true.

(** Whole numbers whose absolute values add up to at most 2^53.  On such
    numbers every sum the program forms, and every regrouping or reordering
    of it, is exact in the doubles of the host, so that the exact arithmetic
    of [JS.number] is the arithmetic of the host. *)
Definition safe_integers (l : list JS.number) : Prop :=
  ∃ zs : list Z, l = JS.of_Z <$> zs ∧ foldr (λ z s, Z.abs z + s) 0 zs <= 2 ^ 53.

(** The numbers that the ledger adds up: the initial balances, and the
    amounts that are numbers (a transaction whose amount is NaN is passed
    over). *)
Definition ledger_numbers (accounts : list Account.t) (transactions : list Transaction.t)
  : list JS.number :=
  ((Account.initialBalance <$> accounts)
   ++ List.filter (λ x, negb (JS.isNaN x)) (Transaction.amount <$> transactions))%list.

(** *** Pointwise view of the ledger, used in the proofs *)

(** The updates [bals[k] += x] that one transaction performs, in order. *)
Definition postings (tx : Transaction.t) : list (string * JS.number) :=
  let amt := Transaction.amount tx in
  if JS.isNaN amt then []
  else
    match Transaction.type tx with
    | INCOME => [(Transaction.accountId tx, amt)]
    | EXPENSE => [(Transaction.accountId tx, JS.neg amt)]
    | TRANSFER =>
        match Transaction.toAccountId tx with
        | Some to_ =>
            if String.eqb to_ "" then []
            else [(Transaction.accountId tx, JS.neg amt); (to_, amt)]
        | None => []
        end
    end.

Definition post (bals : gmap string JS.number) (p : string * JS.number) : gmap string JS.number :=
  plus_assign bals p.1 p.2.

(** What a posting does to the value held at key [k]. *)
Definition bump (k : string) (o : option JS.number) (p : string * JS.number) : option JS.number :=
  if decide (p.1 = k) then Some (JS.add (JS.ToNumber o) p.2) else o.

(** The amount the postings of a list credit to [k], summed in list order. *)
Fixpoint posted (k : string) (ps : list (string * JS.number)) : JS.number :=
  match ps with
  | [] => JS.of_Z 0
  | p :: rest => JS.add (if decide (p.1 = k) then p.2 else JS.of_Z 0) (posted k rest)
  end.


(** ** Calendar dates

    The calendar fields of a date, the date-only strings of the ISO format,
    and the arithmetic of [MakeDay] on calendar fields.  The [Date] objects
    of the host, with their time values and time zone, follow below. *)

Module Date.

(** The calendar fields of a date: the year, the month (0 to 11) and the
    day of the month, as [getFullYear()], [getMonth()] and [getDate()] give
    them. *)
Record fields : Type := mk {
  getFullYear : Z;
  getMonth : Z;
  getDate : Z
}.

(** What a string reads as: a calendar date, or nothing. *)
Definition t : Type := option fields.

Definition is_leap (y : Z) : bool :=
  ((y mod 4 =? 0) && negb (y mod 100 =? 0)) || (y mod 400 =? 0).

(** Days of month [m] (0 to 11) of year [y]. *)
Definition days_in_month (y m : Z) : Z :=
  if m =? 1 then (if is_leap y then 29 else 28)
  else if (m =? 3) || (m =? 5) || (m =? 8) || (m =? 10) then 30
  else 31.

Definition valid (d : fields) : Prop :=
  0 <= getMonth d <= 11 ∧ 1 <= getDate d <= days_in_month (getFullYear d) (getMonth d).

(** Days past the end of month [m] are carried into the following months. *)
Fixpoint carry (fuel : nat) (y m d : Z) : fields :=
  match fuel with
  | O => mk y m d
  | S fuel' =>
      if d >? days_in_month y m
      then carry fuel' (if m =? 11 then y + 1 else y) (if m =? 11 then 0 else m + 1)
             (d - days_in_month y m)
      else mk y m d
  end.

(** [MakeDay(year, month, date)] read back as calendar fields: the month is
    reduced modulo 12 into the year, then day [date] is counted from the first
    of that month, for [date >= 1]. *)
Definition MakeDay (year month date : Z) : fields :=
  carry (Z.to_nat date) (year + month / 12) (month mod 12) date.

(** The setters on calendar fields: the calendar date that [setDate],
    [setMonth] and [setFullYear] lead to from the calendar date [d]. *)
Definition setDate (d : fields) (date : Z) : fields :=
  MakeDay (getFullYear d) (getMonth d) date.

Definition setMonth (d : fields) (month : Z) : fields :=
  MakeDay (getFullYear d) month (getDate d).

Definition setFullYear (d : fields) (year : Z) : fields :=
  MakeDay year (getMonth d) (getDate d).

(** Decimal digits. *)
Definition digit (n : Z) : ascii := ascii_of_nat (48 + Z.to_nat n).

Definition digit_value (c : ascii) : option Z :=
  let n := Z.of_nat (nat_of_ascii c) in
  if (48 <=? n) && (n <=? 57) then Some (n - 48) else None.

Fixpoint digits_value (acc : Z) (cs : list ascii) : option Z :=
  match cs with
  | [] => Some acc
  | c :: rest =>
      match digit_value c with
      | Some v => digits_value (10 * acc + v) rest
      | None => None
      end
  end.

Definition pad2 (n : Z) : string :=
  String (digit (n / 10 mod 10)) (String (digit (n mod 10)) "").

Definition pad4 (n : Z) : string :=
  String (digit (n / 1000 mod 10)) (String (digit (n / 100 mod 10)) (pad2 n)).

Definition pad6 (n : Z) : string :=
  String (digit (n / 100000 mod 10)) (String (digit (n / 10000 mod 10)) (pad4 n)).

(** The year of [toISOString]: four digits from 0 to 9999, otherwise a sign
    and six digits. *)
Definition iso_year (y : Z) : string :=
  if (0 <=? y) && (y <=? 9999) then pad4 y
  else if y <? 0 then String "-" (pad6 (- y))
  else String "+" (pad6 y).

(** The date part of [toISOString] for the calendar date [d]. *)
Definition toISODate (d : fields) : string :=
  iso_year (getFullYear d) ++ "-" ++ pad2 (getMonth d + 1) ++ "-" ++ pad2 (getDate d).

Definition of_parts (negative : bool) (y m d : list ascii) : t :=
  match digits_value 0 y, digits_value 0 m, digits_value 0 d with
  | Some yv, Some mv, Some dv =>
      let year := if negative then - yv else yv in
      if negative && (yv =? 0) then None
      else if (1 <=? mv) && (mv <=? 12) && (1 <=? dv)
              && (dv <=? days_in_month year (mv - 1))
      then Some (mk year (mv - 1) dv)
      else None
  | _, _, _ => None
  end.

(** The calendar date of a date-only string in the ISO format, [YYYY-MM-DD]
    or with an expanded year [+YYYYYY-MM-DD] / [-YYYYYY-MM-DD]; [None] for
    every other string. *)
Definition parse (s : string) : t :=
  match list_ascii_of_string s with
  | [y1; y2; y3; y4; s1; m1; m2; s2; d1; d2] =>
      if Ascii.eqb s1 "-" && Ascii.eqb s2 "-"
      then of_parts false [y1; y2; y3; y4] [m1; m2] [d1; d2]
      else None
  | [sg; y1; y2; y3; y4; y5; y6; s1; m1; m2; s2; d1; d2] =>
      if (Ascii.eqb sg "+" || Ascii.eqb sg "-") && Ascii.eqb s1 "-" && Ascii.eqb s2 "-"
      then of_parts (Ascii.eqb sg "-") [y1; y2; y3; y4; y5; y6] [m1; m2] [d1; d2]
      else None
  | _ => None
  end.

End Date.

(** How a call ends: with a value, with a thrown [RangeError], or never. *)
Inductive completion (A : Type) : Type :=
| Returns (a : A)
| Throws
| Hangs.
Arguments Returns {A} a.
Arguments Throws {A}.
Arguments Hangs {A}.

(** ** Time values and the [Date] objects of the host

    A [Date] object holds a time value: the milliseconds from the start of
    1 January 1970 in UTC, or NaN for the Invalid Date.  The getters and the
    setters that the program calls work on local time, [toISOString] and the
    parsing of a date-only string on UTC; the two differ by the offset of the
    host's time zone. *)

Definition msPerDay : Z := 86400000.

(** The day number of the first day of year [y], counted from 1970
    ([DayFromYear]). *)
Definition DayFromYear (y : Z) : Z :=
  365 * (y - 1970) + (y - 1969) / 4 - (y - 1901) / 100 + (y - 1601) / 400.

(** The days of year [y] before its month [m] (0 to 11). *)
Definition days_before_month (y m : Z) : Z :=
  foldr (λ k acc, Date.days_in_month y (Z.of_nat k) + acc) 0 (seq 0 (Z.to_nat m)).

(** The day number of a calendar date. *)
Definition Day (d : Date.fields) : Z :=
  DayFromYear (Date.getFullYear d)
  + days_before_month (Date.getFullYear d) (Date.getMonth d)
  + (Date.getDate d - 1).

(** Days before the first of month [m] are taken from the months before. *)
Fixpoint borrow (fuel : nat) (y m d : Z) : Date.fields :=
  match fuel with
  | O => Date.mk y m d
  | S fuel' =>
      if d <? 1
      then
        let y' := if m =? 0 then y - 1 else y in
        let m' := if m =? 0 then 11 else m - 1 in
        borrow fuel' y' m' (d + Date.days_in_month y' m')
      else Date.mk y m d
  end.

(** The calendar date of day number [n]: [YearFromTime], [MonthFromTime] and
    [DateFromTime] of a time value of that day.  The date is counted from
    1 January 1970, forwards or backwards; [date_of_day_Day] and
    [Day_date_of_day] show that it is the inverse of [Day]. *)
Definition date_of_day (n : Z) : Date.fields :=
  if n <? 0 then borrow (Z.to_nat (- n)) 1970 0 (n + 1)
  else Date.carry (Z.to_nat (n + 1)) 1970 0 (n + 1).

(** What the program takes from its host besides the language.
    - [LocalTZA t isUTC] is the offset of local time from UTC in
      milliseconds, at the UTC time value [t] when [isUTC] holds and at the
      local time value [t] otherwise (the abstract operation of that name).
    - [parse_other s] is the time value that [Date.parse] gives for a string
      [s] that is not a date-only string of the ISO format, [None] for NaN;
      ECMAScript leaves these strings to the implementation. *)
Class Host : Type := {
  LocalTZA : Z → bool → Z;
  parse_other : string → option Z
}.

(** A host whose local time is at a fixed offset from UTC, and which reads
    no string besides the ISO format. *)
Definition fixed_offset (offset : Z) : Host :=
  {| LocalTZA := λ _ _, offset; parse_other := λ _, None |}.

(** A host on UTC. *)
Definition utc : Host := fixed_offset 0.

(** A host eight hours behind UTC that moves its clocks forward by an hour
    on 10 March 2024 at 2 o'clock local time (10:00 UTC, the time value
    1710064800000), as the Pacific time zone did. *)
Definition spring_forward : Host :=
  {| LocalTZA := λ t isUTC,
       if t <? (if isUTC then 1710064800000 else 1710064800000 - 28800000)
       then -28800000 else -25200000;
     parse_other := λ _, None |}.

(** The local time of the host is at a fixed offset of less than a day ahead
    of UTC, without daylight saving: UTC itself, or a zone east of it. *)
Definition east_of_UTC (host : Host) : Prop :=
  ∃ offset, 0 <= offset < msPerDay ∧ ∀ t isUTC, LocalTZA t isUTC = offset.

Module DateObj.

(** The time value of a [Date] object; [None] is NaN, the Invalid Date. *)
Definition t : Type := option Z.

(** [TimeClip]: a time value is at most 8.64e15 milliseconds from the
    epoch. *)
Definition TimeClip (time : Z) : t :=
  if Z.abs time <=? 8640000000000000 then Some time else None.

(** [MakeDay(year, month, date)]: the month is reduced modulo 12 into the
    year, and day [date] is counted from the first of that month. *)
Definition MakeDay (year month date : Z) : Z :=
  Day (Date.mk (year + month / 12) (month mod 12) 1) + date - 1.

(** [MakeDate(day, time)]. *)
Definition MakeDate (day time : Z) : Z := day * msPerDay + time.

(** [d.getTime()]. *)
Definition getTime (d : t) : JS.number :=
  match d with
  | Some t => JS.of_Z t
  | None => JS.NaN
  end.

(** [d.toISOString().split('T')[0]]: the calendar date in UTC; a
    [RangeError] is thrown for the Invalid Date. *)
Definition toISODate (d : t) : completion string :=
  match d with
  | Some t => Returns (Date.toISODate (date_of_day (t / msPerDay)))
  | None => Throws
  end.

Section WithHost.
Context {host : Host}.

Definition LocalTime (t : Z) : Z := t + LocalTZA t true.

Definition UTC (t : Z) : Z := t - LocalTZA t false.

(** [new Date(s)]: a date-only string of the ISO format is the start of
    that day in UTC. *)
Definition of_string (s : string) : t :=
  match Date.parse s with
  | Some f => TimeClip (Day f * msPerDay)
  | None => parse_other s ≫= TimeClip
  end.

(** The calendar date in local time. *)
Definition local_fields (t : Z) : Date.fields := date_of_day (LocalTime t / msPerDay).

(** [d.getFullYear()], [d.getMonth()] and [d.getDate()]: [None] is NaN. *)
Definition getFullYear (d : t) : option Z := (λ t, Date.getFullYear (local_fields t)) <$> d.
Definition getMonth (d : t) : option Z := (λ t, Date.getMonth (local_fields t)) <$> d.
Definition getDate (d : t) : option Z := (λ t, Date.getDate (local_fields t)) <$> d.

(** [d.setDate(date)], [d.setMonth(month)] and [d.setFullYear(year)]: the
    time value they give to [d].  The argument may be NaN. *)
Definition setDate (d : t) (date : option Z) : t :=
  match d, date with
  | Some t, Some dt =>
      let t := LocalTime t in
      let f := date_of_day (t / msPerDay) in
      let newDate :=
        MakeDate (MakeDay (Date.getFullYear f) (Date.getMonth f) dt) (t mod msPerDay) in
      TimeClip (UTC newDate)
  | _, _ => None
  end.

Definition setMonth (d : t) (month : option Z) : t :=
  match d, month with
  | Some t, Some m =>
      let t := LocalTime t in
      let f := date_of_day (t / msPerDay) in
      let newDate :=
        MakeDate (MakeDay (Date.getFullYear f) m (Date.getDate f)) (t mod msPerDay) in
      TimeClip (UTC newDate)
  | _, _ => None
  end.

(** [setFullYear] takes the time value +0 for the Invalid Date. *)
Definition setFullYear (d : t) (year : option Z) : t :=
  match year with
  | Some y =>
      let t := match d with Some t => LocalTime t | None => 0 end in
      let f := date_of_day (t / msPerDay) in
      let newDate :=
        MakeDate (MakeDay y (Date.getMonth f) (Date.getDate f)) (t mod msPerDay) in
      TimeClip (UTC newDate)
  | None => None
  end.

End WithHost.

End DateObj.

(** [x + k] for a number [x] that is an integer or NaN. *)
Definition add_integer (x : option Z) (k : Z) : option Z := (λ v, v + k) <$> x.

(** ** RecurrenceScheduler: [getNextDate] and the catch-up effect of [App] *)

Definition bimonthly (freq : Frequency) : Prop :=
  freq = BI_MONTHLY_ODD ∨ freq = BI_MONTHLY_EVEN.

(** The exit test of the parity loop: [(freq === 'BI_MONTHLY_ODD' && isOdd) ||
    (freq === 'BI_MONTHLY_EVEN' && isEven)] on [currentMonth = getMonth() + 1].
    For the Invalid Date [currentMonth] is NaN, [currentMonth % 2 !== 0]
    holds and [currentMonth % 2 === 0] does not. *)
Definition parity_test {host : Host} (freq : Frequency) (d : DateObj.t) : bool :=
  let currentMonth := add_integer (DateObj.getMonth d) 1 in
  let isOdd :=
    match currentMonth with
    | Some c => negb (c mod 2 =? 0)
    | None => true
    end in
  let isEven :=
    match currentMonth with
    | Some c => c mod 2 =? 0
    | None => false
    end in
  match freq with
  | BI_MONTHLY_ODD => isOdd
  | BI_MONTHLY_EVEN => isEven
  | _ => false
  end.

(** The [while (true)] of [getNextDate], entered after the first
    [setMonth(getMonth() + 1)].  [fuel] bounds the unrolling; [None] stands
    for a loop that has not left within it.  On the Invalid Date the test for
    BI_MONTHLY_EVEN fails at every turn. *)
Fixpoint parity_loop {host : Host} (fuel : nat) (freq : Frequency) (d : DateObj.t)
  : option DateObj.t :=
  match fuel with
  | O => None
  | S fuel' =>
      if parity_test freq d then Some d
      else parity_loop fuel' freq (DateObj.setMonth d (add_integer (DateObj.getMonth d) 1))
  end.

(** Unrolling bound used for the parity loop: in a host east of UTC the loop
    is the one on calendar dates ([parity_loop_midnight]), which a date
    leaves within three tests ([until_parity_exits]). *)
Definition parity_fuel : nat := 12.

(** [getNextDate].  [Hangs] is a parity loop that has not left within
    [parity_fuel] tests; on the Invalid Date it never leaves
    ([parity_loop_invalid]). *)
Definition getNextDate {host : Host} (dateStr : string) (freq : Frequency)
  : completion string :=
  let d := DateObj.of_string dateStr in
  match freq with
  | DAILY => DateObj.toISODate (DateObj.setDate d (add_integer (DateObj.getDate d) 1))
  | WEEKLY => DateObj.toISODate (DateObj.setDate d (add_integer (DateObj.getDate d) 7))
  | MONTHLY => DateObj.toISODate (DateObj.setMonth d (add_integer (DateObj.getMonth d) 1))
  | YEARLY => DateObj.toISODate (DateObj.setFullYear d (add_integer (DateObj.getFullYear d) 1))
  | BI_MONTHLY_ODD | BI_MONTHLY_EVEN =>
      match parity_loop parity_fuel freq
              (DateObj.setMonth d (add_integer (DateObj.getMonth d) 1)) with
      | Some d' => DateObj.toISODate d'
      | None => Hangs
      end
  end.

(** The transaction built in the loop body; [id] is the string made from
    [Date.now()] and [Math.random()]. *)
Definition newTx (id : string) (tempRt : RecurringTransaction.t) : Transaction.t :=
  {| Transaction.id := id;
     Transaction.date := RecurringTransaction.nextDueDate tempRt;
     Transaction.amount := RecurringTransaction.amount tempRt;
     Transaction.type := RecurringTransaction.type tempRt;
     Transaction.category := RecurringTransaction.category tempRt;
     Transaction.description := RecurringTransaction.description tempRt ++ " (自動)";
     Transaction.location := RecurringTransaction.location tempRt;
     Transaction.accountId := RecurringTransaction.accountId tempRt;
     Transaction.toAccountId := RecurringTransaction.toAccountId tempRt;
     Transaction.receiptImage := None;
     Transaction.isRecurringInstance := Some true |}.

(** [tempRt.lastGenerated = tempRt.nextDueDate; tempRt.nextDueDate = next]. *)
Definition advance_to (next : string) (tempRt : RecurringTransaction.t)
  : RecurringTransaction.t :=
  {| RecurringTransaction.id := RecurringTransaction.id tempRt;
     RecurringTransaction.frequency := RecurringTransaction.frequency tempRt;
     RecurringTransaction.startDate := RecurringTransaction.startDate tempRt;
     RecurringTransaction.nextDueDate := next;
     RecurringTransaction.endDate := RecurringTransaction.endDate tempRt;
     RecurringTransaction.lastGenerated := Some (RecurringTransaction.nextDueDate tempRt);
     RecurringTransaction.amount := RecurringTransaction.amount tempRt;
     RecurringTransaction.type := RecurringTransaction.type tempRt;
     RecurringTransaction.category := RecurringTransaction.category tempRt;
     RecurringTransaction.description := RecurringTransaction.description tempRt;
     RecurringTransaction.location := RecurringTransaction.location tempRt;
     RecurringTransaction.accountId := RecurringTransaction.accountId tempRt;
     RecurringTransaction.toAccountId := RecurringTransaction.toAccountId tempRt |}.

(** [tempRt.endDate && tempRt.nextDueDate > tempRt.endDate]. *)
Definition past_end (tempRt : RecurringTransaction.t) : bool :=
  match RecurringTransaction.endDate tempRt with
  | Some e =>
      JS.truthy (Some e) && String.ltb e (RecurringTransaction.nextDueDate tempRt)
  | None => false
  end.

(** The [while (tempRt.nextDueDate <= today && loopCount < 12)] loop for one
    template.  [remaining] is [12 - loopCount]; [ids loopCount] is the id drawn
    in that iteration.  The result is the list of transactions pushed, in
    order, and the template as it is returned by the [map] callback. *)
Fixpoint catch_up_loop {host : Host} (remaining : nat) (today : string) (ids : nat → string)
    (loopCount : nat) (tempRt : RecurringTransaction.t)
  : completion (list Transaction.t * RecurringTransaction.t) :=
  match remaining with
  | O => Returns ([], tempRt)
  | S remaining' =>
      if String.leb (RecurringTransaction.nextDueDate tempRt) today then
        if past_end tempRt then Returns ([], tempRt)
        else
          match getNextDate (RecurringTransaction.nextDueDate tempRt)
                  (RecurringTransaction.frequency tempRt) with
          | Returns next =>
              match catch_up_loop remaining' today ids (S loopCount)
                      (advance_to next tempRt) with
              | Returns (txs, rt') => Returns (newTx (ids loopCount) tempRt :: txs, rt')
              | Throws => Throws
              | Hangs => Hangs
              end
          | Throws => Throws
          | Hangs => Hangs
          end
      else Returns ([], tempRt)
  end.

(** The callback of [recurringTransactions.map] for one template. *)
Definition catch_up {host : Host} (today : string) (ids : nat → string)
    (rt : RecurringTransaction.t)
  : completion (list Transaction.t * RecurringTransaction.t) :=
  catch_up_loop 12 today ids 0 rt.

(** The whole effect on the state [(transactions, recurringTransactions)]:
    every template is caught up in turn ([ids i] supplies the ids of the
    i-th template), the new transactions are put in front of the log and the
    templates are replaced, when anything was generated. *)
Fixpoint catch_up_all {host : Host} (today : string) (ids : nat → nat → string) (i : nat)
    (rts : list RecurringTransaction.t)
  : completion (list Transaction.t * list RecurringTransaction.t) :=
  match rts with
  | [] => Returns ([], [])
  | rt :: rest =>
      match catch_up today (ids i) rt with
      | Returns (txs, rt') =>
          match catch_up_all today ids (S i) rest with
          | Returns (more, rest') => Returns ((txs ++ more)%list, rt' :: rest')
          | Throws => Throws
          | Hangs => Hangs
          end
      | Throws => Throws
      | Hangs => Hangs
      end
  end.

Definition recurring_effect {host : Host} (today : string) (ids : nat → nat → string)
    (state : list Transaction.t * list RecurringTransaction.t)
  : completion (list Transaction.t * list RecurringTransaction.t) :=
  match catch_up_all today ids 0 state.2 with
  | Returns (newTransactions, updatedRecurrings) =>
      match newTransactions with
      | [] => Returns state
      | _ :: _ => Returns ((newTransactions ++ state.1)%list, updatedRecurrings)
      end
  | Throws => Throws
  | Hangs => Hangs
  end.

(** The effect run once on each of a list of days, for one template. *)
Fixpoint catch_up_days {host : Host} (todays : list string) (ids : nat → nat → string) (i : nat)
    (rt : RecurringTransaction.t)
  : completion (list Transaction.t * RecurringTransaction.t) :=
  match todays with
  | [] => Returns ([], rt)
  | today :: later =>
      match catch_up today (ids i) rt with
      | Returns (txs, rt') =>
          match catch_up_days later ids (S i) rt' with
          | Returns (more, rt'') => Returns ((txs ++ more)%list, rt'')
          | Throws => Throws
          | Hangs => Hangs
          end
      | Throws => Throws
      | Hangs => Hangs
      end
  end.

(** A date string in the form [YYYY-MM-DD] of the data model: the ISO form of
    a calendar date with a four-digit year. *)
Definition calendar_date (s : string) : Prop :=
  ∃ d, Date.valid d ∧ 0 <= Date.getFullYear d <= 9999 ∧ s = Date.toISODate d.

(** The successive due dates of a template: [dates] starts at [start], each
    date is followed by what [getNextDate] returns on it, and [stop] is what
    it returns on the last one. *)
Fixpoint due_chain {host : Host} (freq : Frequency) (start : string) (dates : list string)
    (stop : string) : Prop :=
  match dates with
  | [] => stop = start
  | date :: later =>
      date = start
      ∧ ∃ next, getNextDate start freq = Returns next ∧ due_chain freq next later stop
  end.

(** What an emitted instance takes from its template. *)
Definition instance_of (rt : RecurringTransaction.t) (tx : Transaction.t) : Prop :=
  Transaction.isRecurringInstance tx = Some true
  ∧ Transaction.amount tx = RecurringTransaction.amount rt
  ∧ Transaction.type tx = RecurringTransaction.type rt
  ∧ Transaction.category tx = RecurringTransaction.category rt
  ∧ Transaction.location tx = RecurringTransaction.location rt
  ∧ Transaction.accountId tx = RecurringTransaction.accountId rt
  ∧ Transaction.toAccountId tx = RecurringTransaction.toAccountId rt
  ∧ Transaction.description tx = RecurringTransaction.description rt +:+ " (自動)".

(** ** Host strings: the [String.prototype] and global functions the CSV code calls *)

Module Text.

Definition dquote : ascii := "034".
Definition LF : ascii := "010".

(** [l.join(sep)]. *)
Fixpoint join (sep : string) (l : list string) : string :=
  match l with
  | [] => ""
  | [x] => x
  | x :: rest => x +:+ sep +:+ join sep rest
  end.

(** [s.split(c)] for a one-character separator: the pieces between the
    occurrences of [c], at least one. *)
Fixpoint split_on (c : ascii) (s : string) : list string :=
  match s with
  | "" => [""]
  | String a r =>
      if Ascii.eqb a c then "" :: split_on c r
      else match split_on c r with
           | piece :: pieces => String a piece :: pieces
           | [] => [String a ""]
           end
  end.

(** [s.replace(/c/g, by)] for a one-character pattern. *)
Fixpoint replace_char (c : ascii) (by_ : string) (s : string) : string :=
  match s with
  | "" => ""
  | String a r =>
      if Ascii.eqb a c then by_ +:+ replace_char c by_ r
      else String a (replace_char c by_ r)
  end.

(** [s.replace(/QQ/g, 'Q')], Q being the double quote: every pair of
    quotes, found from the left, becomes one quote. *)
Fixpoint unescape_quotes (s : string) : string :=
  match s with
  | "" => ""
  | String a r =>
      match r with
      | String b r' =>
          if Ascii.eqb a dquote && Ascii.eqb b dquote
          then String dquote (unescape_quotes r')
          else String a (unescape_quotes r)
      | "" => s
      end
  end.

(** [s.replace(/^Q|Q$/g, '')], Q being the double quote: a quote at the
    start is removed, then a quote at the end of what follows it. *)
Fixpoint drop_final_quote (s : string) : string :=
  match s with
  | "" => ""
  | String a r =>
      match r with
      | "" => if Ascii.eqb a dquote then "" else s
      | String _ _ => String a (drop_final_quote r)
      end
  end.

Definition strip_outer_quotes (s : string) : string :=
  match s with
  | String a r => if Ascii.eqb a dquote then drop_final_quote r else drop_final_quote s
  | "" => ""
  end.

(** White space and line terminators of ECMAScript, as [trim] removes them:
    the ASCII ones, and U+00A0, U+1680, U+2000 to U+200A, U+2028, U+2029,
    U+202F, U+205F, U+3000 and U+FEFF in their UTF-8 bytes. *)
Definition ws1 (a : ascii) : bool :=
  let n := nat_of_ascii a in
  ((9 <=? n)%nat && (n <=? 13)%nat) || (n =? 32)%nat.

Definition ws2 (a b : ascii) : bool :=
  (nat_of_ascii a =? 194)%nat && (nat_of_ascii b =? 160)%nat.

Definition ws3 (a b c : ascii) : bool :=
  let x := nat_of_ascii a in
  let y := nat_of_ascii b in
  let z := nat_of_ascii c in
  ((x =? 225)%nat && (y =? 154)%nat && (z =? 128)%nat)
  || ((x =? 226)%nat && (y =? 128)%nat
      && (((128 <=? z)%nat && (z <=? 138)%nat) || (z =? 168)%nat || (z =? 169)%nat
          || (z =? 175)%nat))
  || ((x =? 226)%nat && (y =? 129)%nat && (z =? 159)%nat)
  || ((x =? 227)%nat && (y =? 128)%nat && (z =? 128)%nat)
  || ((x =? 239)%nat && (y =? 187)%nat && (z =? 191)%nat).

Fixpoint trimStart (s : string) : string :=
  match s with
  | "" => ""
  | String a r =>
      if ws1 a then trimStart r
      else match r with
           | String b r' =>
               if ws2 a b then trimStart r'
               else match r' with
                    | String c r'' => if ws3 a b c then trimStart r'' else s
                    | "" => s
                    end
           | "" => s
           end
  end.

(** [s] is made of white space only. *)
Fixpoint all_white (s : string) : bool :=
  match s with
  | "" => true
  | String a r =>
      if ws1 a then all_white r
      else match r with
           | String b r' =>
               if ws2 a b then all_white r'
               else match r' with
                    | String c r'' => if ws3 a b c then all_white r'' else false
                    | "" => false
                    end
           | "" => false
           end
  end.

Fixpoint trimEnd (s : string) : string :=
  match s with
  | "" => ""
  | String a r => if all_white s then "" else String a (trimEnd r)
  end.

Definition trim (s : string) : string := trimEnd (trimStart s).

(** [s] holds the character [c]. *)
Fixpoint has_char (c : ascii) (s : string) : bool :=
  match s with
  | "" => false
  | String a r => Ascii.eqb a c || has_char c r
  end.

(** [s.startsWith(p)] and [s.includes(p)]. *)
Fixpoint startsWith (p s : string) : bool :=
  match p, s with
  | "", _ => true
  | String a p', String b s' => Ascii.eqb a b && startsWith p' s'
  | String _ _, "" => false
  end.

Fixpoint includes (p s : string) : bool :=
  startsWith p s
  || match s with
     | "" => false
     | String _ r => includes p r
     end.

(** An ASCII character that is not white space. *)
Definition plain (a : ascii) : Prop :=
  ws1 a = false ∧ (nat_of_ascii a < 128)%nat.

(** The byte order mark U+FEFF. *)
Definition BOM : string := String "239" (String "187" (String "191" "")).

(** [if (s.charCodeAt(0) === 0xFEFF) s = s.slice(1)]. *)
Definition strip_BOM (s : string) : string :=
  match s with
  | String a (String b (String c r)) =>
      if Ascii.eqb a "239" && Ascii.eqb b "187" && Ascii.eqb c "191" then r else s
  | _ => s
  end.

(** Decimal digits of a non-negative integer, most significant first. *)
Fixpoint digits_of (fuel : nat) (n : Z) : string :=
  match fuel with
  | O => ""
  | S fuel' =>
      (if n <? 10 then "" else digits_of fuel' (n / 10))
      +:+ String (Date.digit (n mod 10)) ""
  end.

(** [String(z)] for an integer [z]. *)
Definition of_integer (z : Z) : string :=
  if z <? 0 then String "-" (digits_of (S (Z.to_nat (- z))) (- z))
  else digits_of (S (Z.to_nat z)) z.

(** [Math.round(x)]: the nearest integer, halves going up. *)
Definition round (x : JS.number) : JS.number :=
  match x with
  | JS.Fin q => JS.of_Z (Qfloor (q + Q2Qc (1 # 2))%Qc)
  | _ => x
  end.

(** [String(x)] for a number that [Math.round] returned. *)
Definition of_rounded (x : JS.number) : string :=
  match x with
  | JS.NaN => "NaN"
  | JS.Inf negative => if negative then "-Infinity" else "Infinity"
  | JS.Fin q => of_integer (Qfloor q)
  end.

(** The longest run of decimal digits at the start of [s]: its value after
    [acc], how many digits it has, and what follows it. *)
Fixpoint scan_digits (acc : Z) (count : nat) (s : string) : Z * nat * string :=
  match s with
  | "" => (acc, count, "")
  | String a r =>
      match Date.digit_value a with
      | Some v => scan_digits (10 * acc + v) (S count) r
      | None => (acc, count, s)
      end
  end.

(** The exponent part [e±digits] of a decimal literal, if [s] starts with a
    complete one; otherwise the exponent is 0. *)
Definition scan_exponent (s : string) : Z :=
  match s with
  | String a r =>
      if Ascii.eqb a "e" || Ascii.eqb a "E" then
        let '(negative, r') :=
          match r with
          | String b r' =>
              if Ascii.eqb b "-" then (true, r')
              else if Ascii.eqb b "+" then (false, r')
              else (false, r)
          | "" => (false, r)
          end in
        let '(e, count, _) := scan_digits 0 0 r' in
        match count with
        | O => 0
        | S _ => if negative then - e else e
        end
      else 0
  | "" => 0
  end.

(** [parseFloat(s)]: leading white space is skipped, then the longest prefix
    that is a decimal literal (sign, digits, fraction, exponent) or a signed
    [Infinity] is read; NaN when there is none.  The result is the exact
    value of the literal; the host gives the double nearest to it, the same
    number for a whole number of at most 2^53 in absolute value. *)
Definition parseFloat (s : string) : JS.number :=
  let s := trimStart s in
  let '(negative, s) :=
    match s with
    | String a r =>
        if Ascii.eqb a "-" then (true, r)
        else if Ascii.eqb a "+" then (false, r)
        else (false, s)
    | "" => (false, s)
    end in
  if startsWith "Infinity" s then JS.Inf negative
  else
    let '(int, int_count, r) := scan_digits 0 0 s in
    let '(mantissa, frac_count, r) :=
      match r with
      | String a r' =>
          if Ascii.eqb a "."
          then let '(m, c, r'') := scan_digits int 0 r' in
               match int_count, c with
               | O, O => (int, O, r)
               | _, _ => (m, c, r'')
               end
          else (int, O, r)
      | "" => (int, O, r)
      end in
    match int_count, frac_count with
    | O, O => JS.NaN
    | _, _ =>
        let e := scan_exponent r - Z.of_nat frac_count in
        let value := (inject_Z mantissa * Qpower (inject_Z 10) e)%Q in
        JS.Fin (Q2Qc (if negative then - value else value)%Q)
    end.

End Text.

(** ** Constants ([src/constants.ts], [ACCOUNT_COLORS] of [src/App.tsx]) *)

Module CategoryOption.
Record t : Type := mk {
  id : string;
  name : string;
  icon : string;
  type : TransactionType
}.
End CategoryOption.

Definition EXPENSE_CATEGORIES : list CategoryOption.t :=
  [ CategoryOption.mk "cat_food" "餐飲" "fork-knife" EXPENSE;
    CategoryOption.mk "cat_transport" "交通" "car" EXPENSE;
    CategoryOption.mk "cat_shopping" "購物" "shopping-bag" EXPENSE;
    CategoryOption.mk "cat_bills" "帳單" "receipt" EXPENSE;
    CategoryOption.mk "cat_entertainment" "娛樂" "film-strip" EXPENSE;
    CategoryOption.mk "cat_health" "醫療保健" "first-aid" EXPENSE;
    CategoryOption.mk "cat_education" "教育" "graduation-cap" EXPENSE;
    CategoryOption.mk "cat_travel" "旅行" "airplane-tilt" EXPENSE;
    CategoryOption.mk "cat_other_exp" "其他" "dots-three" EXPENSE ].

Definition INCOME_CATEGORIES : list CategoryOption.t :=
  [ CategoryOption.mk "cat_salary" "薪資" "money" INCOME;
    CategoryOption.mk "cat_investment" "投資" "chart-line-up" INCOME;
    CategoryOption.mk "cat_gift" "禮金" "gift" INCOME;
    CategoryOption.mk "cat_other_inc" "其他" "dots-three" INCOME ].

Definition TRANSFER_CATEGORY : CategoryOption.t :=
  CategoryOption.mk "cat_transfer" "轉帳" "arrows-left-right" TRANSFER.

(** [[...EXPENSE_CATEGORIES, ...INCOME_CATEGORIES, TRANSFER_CATEGORY]]. *)
Definition allCats : list CategoryOption.t :=
  (EXPENSE_CATEGORIES ++ INCOME_CATEGORIES ++ [TRANSFER_CATEGORY])%list.

Definition ACCOUNT_COLORS : list string :=
  [ "bg-orange-500"; "bg-blue-500"; "bg-purple-500";
    "bg-green-500"; "bg-red-500"; "bg-teal-500";
    "bg-indigo-500"; "bg-pink-500"; "bg-gray-600" ].

(** ** CSV export: [handleExportCSV] *)

(** [a || b] on strings: the empty string and [undefined] are falsy. *)
Definition or_else (a : option string) (b : string) : string :=
  match a with
  | Some s => if String.eqb s "" then b else s
  | None => b
  end.

(** [accounts.find(a => a.id === id)?.name]. *)
Definition account_name (accounts : list Account.t) (id : string) : option string :=
  Account.name <$> find (λ a, String.eqb (Account.id a) id) accounts.

(** [allCats.find(c => c.id === id)?.name]. *)
Definition category_name (id : string) : option string :=
  CategoryOption.name <$> find (λ c, String.eqb (CategoryOption.id c) id) allCats.

Definition type_label (t : TransactionType) : string :=
  match t with
  | INCOME => "收入"
  | EXPENSE => "支出"
  | TRANSFER => "轉帳"
  end.

(** The eight values of one row, after [String(v)]. *)
Definition export_cells (accounts : list Account.t) (tx : Transaction.t) : list string :=
  [ Transaction.date tx;
    type_label (Transaction.type tx);
    Text.of_rounded (Text.round (Transaction.amount tx));
    or_else (category_name (Transaction.category tx)) (Transaction.category tx);
    Transaction.description tx;
    or_else (Transaction.location tx) "";
    or_else (account_name accounts (Transaction.accountId tx)) "";
    match Transaction.toAccountId tx with
    | Some to_ =>
        if String.eqb to_ "" then "" else or_else (account_name accounts to_) ""
    | None => ""
    end ].

(** [v.replace(/Q/g, 'QQ')], Q being the double quote. *)
Definition escape_quotes (v : string) : string :=
  Text.replace_char Text.dquote (String Text.dquote (String Text.dquote "")) v.

(** A value between quotes, its own quotes doubled. *)
Definition quote_cell (v : string) : string :=
  String Text.dquote (escape_quotes v +:+ String Text.dquote "").

Definition export_row (accounts : list Account.t) (tx : Transaction.t) : string :=
  Text.join "," (quote_cell <$> export_cells accounts tx).

Definition headers : list string :=
  [ "日期"; "類型"; "金額"; "分類"; "備註"; "地點"; "帳戶"; "轉入帳戶" ].

(** The text put in the exported file: the byte order mark, the header line
    and one line per transaction of [sortedTransactions]. *)
Definition handleExportCSV (accounts : list Account.t)
    (sortedTransactions : list Transaction.t) : string :=
  Text.BOM
  +:+ Text.join (String Text.LF "")
        (Text.join "," headers :: (export_row accounts <$> sortedTransactions)).

(** ** CSV import: the [reader.onload] handler of [handleImportCSV] *)

(** The object pushed on [newTransactions].  [description] comes from a row
    cell and [accountId] from [accId || accounts[0]?.id]; both are
    [undefined] when the cell, or the first account, is missing. *)
Module Imported.
Record t : Type := mk {
  id : string;
  date : string;
  amount : JS.number;
  type : TransactionType;
  category : string;
  description : option string;
  location : option string;
  accountId : option string;
  toAccountId : option string
}.
End Imported.

(** [getOrCreateAccountId], on the working list [updatedAccounts];
    [newId] is the id drawn from [Date.now()] and [Math.random()] for an
    account created when the list has [length updatedAccounts] entries. *)
Definition getOrCreateAccountId (acc_ids : nat → string) (name : option string)
    (updatedAccounts : list Account.t) : string * list Account.t :=
  match name with
  | None => ("", updatedAccounts)
  | Some name =>
      if String.eqb name "" then ("", updatedAccounts)
      else
        match find (λ a, String.eqb (Account.name a) name) updatedAccounts with
        | Some existing => (Account.id existing, updatedAccounts)
        | None =>
            let newId := acc_ids (length updatedAccounts) in
            (newId,
             (updatedAccounts ++
              [ {| Account.id := newId;
                   Account.name := name;
                   Account.type := CASH;
                   Account.initialBalance := JS.of_Z 0;
                   Account.color :=
                     nth (length updatedAccounts mod length ACCOUNT_COLORS)
                       ACCOUNT_COLORS "" |} ])%list)
        end
  end.

(** [getCategoryId]: the id of the first category with that name, or the
    fallback of the transaction type. *)
Definition getCategoryId (name : option string) (type : TransactionType) : string :=
  match name with
  | Some name =>
      match find (λ c, String.eqb (CategoryOption.name c) name) allCats with
      | Some found => CategoryOption.id found
      | None =>
          match type with
          | INCOME => "cat_other_inc"
          | TRANSFER => "cat_transfer"
          | EXPENSE => "cat_other_exp"
          end
      end
  | None =>
      match type with
      | INCOME => "cat_other_inc"
      | TRANSFER => "cat_transfer"
      | EXPENSE => "cat_other_exp"
      end
  end.

(** [String(n).padStart(2, '0')]. *)
Definition padStart2 (s : string) : string :=
  if (String.length s <? 2)%nat then "0" +:+ s else s.

(** [normalizeDate]: the separators underscore, slash and dot become hyphens;
    a string the host reads as a date is rewritten from its local year, month
    and day, any other string is returned as it is. *)
Definition normalizeDate {host : Host} (dateStr : string) : string :=
  let dateObj :=
    DateObj.of_string
      (Text.replace_char "." "-"
         (Text.replace_char "/" "-" (Text.replace_char "_" "-" dateStr))) in
  match DateObj.getFullYear dateObj, DateObj.getMonth dateObj, DateObj.getDate dateObj with
  | Some y, Some m, Some d =>
      Text.of_integer y
      +:+ "-" +:+ padStart2 (Text.of_integer (m + 1))
      +:+ "-" +:+ padStart2 (Text.of_integer d)
  | _, _, _ => dateStr
  end.

(** The split of a line at every comma that is followed by an even number of
    quotes up to the end of the line (the regular expression of the import).
    [csv_scan s] is the list of pieces of [s] and whether [s] holds an odd
    number of quotes. *)
Fixpoint csv_scan (s : string) : list string * bool :=
  match s with
  | "" => ([""], false)
  | String a r =>
      let '(pieces, odd) := csv_scan r in
      if Ascii.eqb a "," && negb odd then ("" :: pieces, odd)
      else
        (match pieces with
         | piece :: others => String a piece :: others
         | [] => [String a ""]
         end,
         xorb odd (Ascii.eqb a Text.dquote))
  end.

Definition split_csv (line : string) : list string := (csv_scan line).1.

(** The [map] after the split: [v.trim()], outer quotes removed, doubled
    quotes undone. *)
Definition clean_cell (v : string) : string :=
  Text.unescape_quotes (Text.strip_outer_quotes (Text.trim v)).

(** The type read from the label; any other label is an expense. *)
Definition type_of_label (typeRaw : string) : TransactionType :=
  if String.eqb typeRaw "收入" then INCOME
  else if String.eqb typeRaw "轉帳" || String.eqb typeRaw "轉入" || String.eqb typeRaw "轉出"
  then TRANSFER
  else EXPENSE.

Record import_state : Type := mk_import_state {
  updatedAccounts : list Account.t;
  newTransactions : list Imported.t;
  importedCount : nat
}.

(** [accId || accounts[0]?.id]. *)
Definition or_first_account (accounts : list Account.t) (accId : string) : option string :=
  if String.eqb accId "" then Account.id <$> head accounts else Some accId.

(** The part of the loop body that follows the split of the line: [row] is
    the array of cleaned cells, [accounts] the account list of the
    application state, [id] the id drawn for the transaction. *)
Definition import_row {host : Host} (acc_ids : nat → string) (accounts : list Account.t)
    (id : string) (row : list string) (st : import_state) : import_state :=
  match row with
  | cell0 :: typeRaw :: cell2 :: more =>
      let date := normalizeDate cell0 in
      let amount := Text.parseFloat cell2 in
      let catName := more !! 0%nat in
      let desc := more !! 1%nat in
      let loc := more !! 2%nat in
      let accName := more !! 3%nat in
      let toAccName := more !! 4%nat in
      if JS.isNaN amount || String.eqb date "" then st
      else
        let type := type_of_label typeRaw in
        let '(accId, accs) := getOrCreateAccountId acc_ids accName (updatedAccounts st) in
        let '(toAccId, accs) :=
          match type with
          | TRANSFER =>
              if JS.truthy toAccName
              then let '(id, accs') := getOrCreateAccountId acc_ids toAccName accs in
                   (Some id, accs')
              else (None, accs)
          | _ => (None, accs)
          end in
        {| updatedAccounts := accs;
           newTransactions :=
             (newTransactions st ++
              [ {| Imported.id := id;
                   Imported.date := date;
                   Imported.amount := amount;
                   Imported.type := type;
                   Imported.category := getCategoryId catName type;
                   Imported.description := desc;
                   Imported.location := loc;
                   Imported.accountId := or_first_account accounts accId;
                   Imported.toAccountId := toAccId |} ])%list;
           importedCount := S (importedCount st) |}
  | _ => st
  end.

(** The cleaned cells of a line. *)
Definition row_of_line (line : string) : list string :=
  clean_cell <$> split_csv line.

(** One turn of the [for] loop, on line [i] of the file; [tx_ids i] is the id
    drawn for a transaction made from that line. *)
Definition import_line {host : Host} (tx_ids acc_ids : nat → string) (accounts : list Account.t)
    (i : nat) (rawLine : string) (st : import_state) : import_state :=
  let line := Text.trim rawLine in
  if String.eqb line "" then st
  else import_row acc_ids accounts (tx_ids i) (row_of_line line) st.

(** The [for (let i = 1; i < lines.length; i++)] loop. *)
Fixpoint import_lines {host : Host} (tx_ids acc_ids : nat → string) (accounts : list Account.t)
    (i : nat) (lines : list string) (st : import_state) : import_state :=
  match lines with
  | [] => st
  | line :: rest =>
      import_lines tx_ids acc_ids accounts (S i) rest
        (import_line tx_ids acc_ids accounts i line st)
  end.

(** What the handler does with a file. *)
Inductive import_outcome : Type :=
| Ignored
| FormatError
| NoData
| Imported_ (updatedAccounts : list Account.t) (newTransactions : list Imported.t).

Definition handleImportCSV {host : Host} (tx_ids acc_ids : nat → string)
    (accounts : list Account.t)
    (text : string) : import_outcome :=
  if String.eqb text "" then Ignored
  else
    match Text.split_on Text.LF text with
    | [] => FormatError
    | line0 :: rest =>
        let firstLine := Text.replace_char Text.dquote "" (Text.strip_BOM line0) in
        if negb (Text.includes "日期" firstLine) || negb (Text.includes "金額" firstLine)
        then FormatError
        else
          let st := import_lines tx_ids acc_ids accounts 1 rest
                      (mk_import_state accounts [] 0) in
          match importedCount st with
          | O => NoData
          | S _ => Imported_ (updatedAccounts st) (newTransactions st)
          end
    end.

(** The transactions an outcome adds to the log. *)
Definition imported (o : import_outcome) : list Imported.t :=
  match o with
  | Imported_ _ txs => txs
  | _ => []
  end.

(** ** Spreadsheet restore: the row callback of [restoreDataFromGoogleSheets] *)

(** One row of values, the cells being the formatted strings the sheet
    returns: the transaction pushed (its account fields hold the account
    names) and the grown set [accountNames]; rows of fewer than three cells
    are skipped.  [id] is the random id of the transaction. *)
Definition restore_row (id : string) (row : list string)
    (acc : list Transaction.t * gset string) : list Transaction.t * gset string :=
  match row with
  | date :: typeLabel :: cell2 :: more =>
      let amount := Text.parseFloat (Text.replace_char "," "" cell2) in
      let categoryName := more !! 0%nat in
      let description := or_else (more !! 1%nat) "" in
      let location := or_else (more !! 2%nat) "" in
      let accountName := or_else (more !! 3%nat) "" in
      let toAccountName := or_else (more !! 4%nat) "" in
      let type := type_of_label typeLabel in
      let names :=
        (if String.eqb accountName "" then ∅ else {[accountName]})
        ∪ (if String.eqb toAccountName "" then ∅ else {[toAccountName]})
        ∪ acc.2 in
      ((acc.1 ++
        [ {| Transaction.id := id;
             Transaction.date := date;
             Transaction.type := type;
             Transaction.amount := if JS.isNaN amount then JS.of_Z 0 else amount;
             Transaction.category := getCategoryId categoryName type;
             Transaction.description := description;
             Transaction.location := Some location;
             Transaction.accountId := accountName;
             Transaction.toAccountId := Some toAccountName;
             Transaction.receiptImage := None;
             Transaction.isRecurringInstance := None |} ])%list,
       names)
  | _ => acc
  end.

(** The two [forEach] loops over the value ranges read from the sheets: a
    range without [values] is passed over; [ids n] is the id drawn when [n]
    transactions have been pushed.  The result is [{ transactions,
    accountNames }]. *)
Definition restoreDataFromGoogleSheets (ids : nat → string)
    (valueRanges : list (option (list (list string))))
  : list Transaction.t * gset string :=
  foldl
    (λ acc range,
       match range with
       | Some values => foldl (λ acc row, restore_row (ids (length acc.1)) row acc) acc values
       | None => acc
       end)
    ([], ∅) valueRanges.

(** *** Views of one line, used to state the properties *)

(** The line passes the guards of the loop: it is not blank, has at least
    three cells, a numeric amount and a date. *)
Definition importable {host : Host} (rawLine : string) : bool :=
  let line := Text.trim rawLine in
  negb (String.eqb line "")
  && match row_of_line line with
     | cell0 :: _ :: cell2 :: _ =>
         negb (JS.isNaN (Text.parseFloat cell2) || String.eqb (normalizeDate cell0) "")
     | _ => false
     end.

(** The cell starts with a number, as [parseFloat] reads it: after leading
    white space and an optional sign comes a digit, a dot followed by a
    digit, or the word Infinity.  What follows the number does not matter. *)
Definition is_digit (c : ascii) : bool :=
  match Date.digit_value c with
  | Some _ => true
  | None => false
  end.

Definition numeric_prefix (cell : string) : bool :=
  let unsigned :=
    match Text.trimStart cell with
    | String a r => if Ascii.eqb a "-" || Ascii.eqb a "+" then r else String a r
    | "" => ""
    end in
  Text.startsWith "Infinity" unsigned
  || match unsigned with
     | String a r =>
         is_digit a
         || (Ascii.eqb a "."
             && match r with
                | String b _ => is_digit b
                | "" => false
                end)
     | "" => false
     end.

(** The account name of the line: its seventh cell. *)
Definition row_account (rawLine : string) : option string :=
  row_of_line (Text.trim rawLine) !! 6%nat.

(** [name] resolves to [id] in the working list [working]: the first account
    with that name has that id; a missing or empty name resolves to the
    empty id. *)
Definition resolves (working : list Account.t) (name : option string) (id : string) : Prop :=
  match name with
  | Some n =>
      if String.eqb n "" then id = ""
      else ∃ a, find (λ a, String.eqb (Account.name a) n) working = Some a
                ∧ Account.id a = id
  | None => id = ""
  end.

(** *** The round trip through a CSV file *)

(** A transaction of the data model whose fields fit on one line of the
    file: the date is a calendar date with a four-digit year from 1000 on,
    the amount is an integer, no text holds a line feed, the category is one
    of the registry, the account (and, for a transfer, the destination) is an
    account of the list with a name. *)
Definition exportable (accounts : list Account.t) (tx : Transaction.t) : Prop :=
  (∃ d, Date.valid d ∧ 1000 <= Date.getFullYear d <= 9999
        ∧ Transaction.date tx = Date.toISODate d)
  ∧ (∃ z, Transaction.amount tx = JS.of_Z z)
  ∧ Text.has_char Text.LF (Transaction.description tx) = false
  ∧ Text.has_char Text.LF (or_else (Transaction.location tx) "") = false
  ∧ (∃ n, category_name (Transaction.category tx) = Some n)
  ∧ (∃ n, account_name accounts (Transaction.accountId tx) = Some n ∧ n ≠ "")
  ∧ (Transaction.type tx = TRANSFER →
     ∃ to_ n, Transaction.toAccountId tx = Some to_ ∧ to_ ≠ ""
              ∧ account_name accounts to_ = Some n ∧ n ≠ "").

(** The amount is a whole number of at most 2^53 in absolute value: a number
    that a double holds exactly and that [String] and [parseFloat] write and
    read digit by digit. *)
Definition safe_amount (tx : Transaction.t) : Prop :=
  ∃ z, Transaction.amount tx = JS.of_Z z ∧ Z.abs z <= 2 ^ 53.

(** The accounts of the list have ids, and names without line feeds. *)
Definition well_named (accounts : list Account.t) : Prop :=
  Forall (λ a, Account.id a ≠ "" ∧ Text.has_char Text.LF (Account.name a) = false) accounts.

(** [id'] is the id of an account of the list that bears the name of the
    account [id]. *)
Definition same_name (accounts : list Account.t) (id id' : string) : Prop :=
  ∃ a', a' ∈ accounts ∧ Account.id a' = id'
        ∧ account_name accounts id = Some (Account.name a').

(** What the import gives back for an exported transaction. *)
Definition round_trip (accounts : list Account.t) (tx : Transaction.t) (t : Imported.t)
  : Prop :=
  Imported.date t = Transaction.date tx
  ∧ Imported.amount t = Transaction.amount tx
  ∧ Imported.type t = Transaction.type tx
  ∧ Imported.description t = Some (Transaction.description tx)
  ∧ Imported.location t = Some (or_else (Transaction.location tx) "")
  ∧ (∃ id', Imported.accountId t = Some id'
            ∧ same_name accounts (Transaction.accountId tx) id')
  ∧ (Transaction.type tx = TRANSFER →
     ∃ to_ id', Transaction.toAccountId tx = Some to_
                ∧ Imported.toAccountId t = Some id'
                ∧ same_name accounts to_ id').

(** ** Calendar order and calendar steps

    The notions in which the behaviour of [getNextDate] and of the catch-up
    loop is stated. *)

(** A number that orders the calendar dates as the calendar does. *)
Definition calendar_ordinal (d : Date.fields) : Z :=
  (Date.getFullYear d * 12 + Date.getMonth d) * 32 + Date.getDate d.

(** *** The steps of [getNextDate] on the calendar

    What [getNextDate] does, written on calendar dates with the setters of
    [Date] above, without time values and time zone: in a host east of UTC
    this is what [getNextDate] computes ([getNextDate_calendar]); west of UTC
    it is not ([getNextDate_west_of_UTC]). *)

(** The calendar date a month after [d], by [setMonth(getMonth() + 1)]. *)
Definition next_month (d : Date.fields) : Date.fields :=
  Date.setMonth d (Date.getMonth d + 1).

(** The month number (1 to 12) of [d] has the parity that [freq] asks for. *)
Definition parity_reached (freq : Frequency) (d : Date.fields) : bool :=
  let currentMonth := Date.getMonth d + 1 in
  let isOdd := negb (currentMonth mod 2 =? 0) in
  let isEven := currentMonth mod 2 =? 0 in
  match freq with
  | BI_MONTHLY_ODD => isOdd
  | BI_MONTHLY_EVEN => isEven
  | _ => false
  end.

(** The first of [d], [next_month d], ... that has the parity asked for, if
    one is found within [fuel] tests. *)
Fixpoint until_parity (fuel : nat) (freq : Frequency) (d : Date.fields) : option Date.fields :=
  match fuel with
  | O => None
  | S fuel' =>
      if parity_reached freq d then Some d
      else until_parity fuel' freq (Date.setMonth d (Date.getMonth d + 1))
  end.

(** The step from the calendar date [d] for each frequency. *)
Definition calendar_step (d : Date.fields) (freq : Frequency) : completion string :=
  match freq with
  | DAILY => Returns (Date.toISODate (Date.setDate d (Date.getDate d + 1)))
  | WEEKLY => Returns (Date.toISODate (Date.setDate d (Date.getDate d + 7)))
  | MONTHLY => Returns (Date.toISODate (Date.setMonth d (Date.getMonth d + 1)))
  | YEARLY => Returns (Date.toISODate (Date.setFullYear d (Date.getFullYear d + 1)))
  | BI_MONTHLY_ODD | BI_MONTHLY_EVEN =>
      match until_parity parity_fuel freq (Date.setMonth d (Date.getMonth d + 1)) with
      | Some d' => Returns (Date.toISODate d')
      | None => Hangs
      end
  end.

(** The day after [d]. *)
Definition following_day (d : Date.fields) : Date.fields :=
  if Date.getDate d <? Date.days_in_month (Date.getFullYear d) (Date.getMonth d)
  then Date.mk (Date.getFullYear d) (Date.getMonth d) (Date.getDate d + 1)
  else if Date.getMonth d =? 11 then Date.mk (Date.getFullYear d + 1) 0 1
  else Date.mk (Date.getFullYear d) (Date.getMonth d + 1) 1.

(** The month after that of [d]: its year and its month. *)
Definition following_month (d : Date.fields) : Z * Z :=
  if Date.getMonth d =? 11 then (Date.getFullYear d + 1, 0)
  else (Date.getFullYear d, Date.getMonth d + 1).

(** The day of [d] in the following month; when that month is too short for
    it, the days in excess are counted into the month after. *)
Definition a_month_later (d : Date.fields) : Date.fields :=
  let '(y, m) := following_month d in
  if Date.getDate d <=? Date.days_in_month y m then Date.mk y m (Date.getDate d)
  else Date.mk y (m + 1) (Date.getDate d - Date.days_in_month y m).

(** The day of [d] in the following year; the 29th of February becomes the
    1st of March. *)
Definition a_year_later (d : Date.fields) : Date.fields :=
  if (Date.getMonth d =? 1) && (Date.getDate d =? 29)
  then Date.mk (Date.getFullYear d + 1) 2 1
  else Date.mk (Date.getFullYear d + 1) (Date.getMonth d) (Date.getDate d).

(** Two versions of a template differ at most in [nextDueDate] and
    [lastGenerated]. *)
Definition same_template (rt rt' : RecurringTransaction.t) : Prop :=
  RecurringTransaction.id rt' = RecurringTransaction.id rt
  ∧ RecurringTransaction.frequency rt' = RecurringTransaction.frequency rt
  ∧ RecurringTransaction.startDate rt' = RecurringTransaction.startDate rt
  ∧ RecurringTransaction.endDate rt' = RecurringTransaction.endDate rt
  ∧ RecurringTransaction.amount rt' = RecurringTransaction.amount rt
  ∧ RecurringTransaction.type rt' = RecurringTransaction.type rt
  ∧ RecurringTransaction.category rt' = RecurringTransaction.category rt
  ∧ RecurringTransaction.description rt' = RecurringTransaction.description rt
  ∧ RecurringTransaction.location rt' = RecurringTransaction.location rt
  ∧ RecurringTransaction.accountId rt' = RecurringTransaction.accountId rt
  ∧ RecurringTransaction.toAccountId rt' = RecurringTransaction.toAccountId rt.

(** ** Name lookups of the spreadsheet service *)

(** [getCategoryName]: [all.find(c => c.id === catId)?.name || catId]. *)
Definition getCategoryName (catId : string) : string :=
  or_else (category_name catId) catId.

(** [getCategoryIdByName]: the service's copy of [getCategoryId], with the
    same body. *)
Definition getCategoryIdByName (name : option string) (type : TransactionType) : string :=
  getCategoryId name type.

(** [getAccountName]: [accounts.find(a => a.id === accId)?.name || accId]. *)
Definition getAccountName (accId : string) (accounts : list Account.t) : string :=
  or_else (account_name accounts accId) accId.

(** *** Notions used to state the properties of export, import and restore *)

(** The category id that the name of category [c] is read back as. *)
Definition category_read_back (c : string) : string :=
  if String.eqb c "cat_other_inc" then "cat_other_exp" else c.

(** The fallback category of a transaction type. *)
Definition fallback_category (type : TransactionType) : string :=
  match type with
  | INCOME => "cat_other_inc"
  | TRANSFER => "cat_transfer"
  | EXPENSE => "cat_other_exp"
  end.

(** A date written with [sep] between its parts. *)
Definition written_date (sep : ascii) (d : Date.fields) : string :=
  Date.pad4 (Date.getFullYear d)
  +:+ String sep (Date.pad2 (Date.getMonth d + 1) +:+ String sep (Date.pad2 (Date.getDate d))).

(** An account as the import creates it: a cash account with a name, no
    balance and a colour of the palette. *)
Definition created_by_import (a : Account.t) : Prop :=
  Account.type a = CASH
  ∧ Account.initialBalance a = JS.of_Z 0
  ∧ Account.name a ≠ ""
  ∧ Account.color a ∈ ACCOUNT_COLORS.

(** The working list [working] is the list [accounts] followed by accounts
    created by the import, whose names differ from one another and from every
    name of the working list before them. *)
Definition grown_from (accounts working : list Account.t) : Prop :=
  ∃ created,
    working = (accounts ++ created)%list
    ∧ Forall created_by_import created
    ∧ NoDup (Account.name <$> created)
    ∧ ∀ a b, a ∈ created → b ∈ accounts → Account.name a ≠ Account.name b.

(** A row of a sheet that the restore reads: it has at least three cells. *)
Definition restorable (row : list string) : bool := (3 <=? length row)%nat.

(** The rows of all value ranges, in order. *)
Definition sheet_rows (valueRanges : list (option (list (list string)))) : list (list string) :=
  concat (default [] <$> valueRanges).

(** ** The total of the balances and the deletion handlers of [App] *)

(** [Object.values(accountBalances).reduce((a, b) => a + b, 0)].  The host
    adds the values in the order in which the keys were put into the object;
    here they are taken in the order in which the map lists them.  With exact
    numbers the sum is the same in every order ([sum_values_permutation]);
    for the host this holds on [safe_integers], for which the properties of
    the total that depend on it are stated. *)
Definition totalBalance (accountBalances : gmap string JS.number) : JS.number :=
  foldl JS.add (JS.of_Z 0) (map_to_list accountBalances).*2.

(** [setTransactions(prev => prev.filter(t => t.id !== id))]. *)
Definition deleteTransaction (id : string) (prev : list Transaction.t) : list Transaction.t :=
  List.filter (λ t, negb (String.eqb (Transaction.id t) id)) prev.

(** [setRecurringTransactions(prev => prev.filter(r => r.id !== id))]. *)
Definition deleteRecurring (id : string) (prev : list RecurringTransaction.t)
  : list RecurringTransaction.t :=
  List.filter (λ r, negb (String.eqb (RecurringTransaction.id r) id)) prev.

(** [handleDeleteAccount]: after the user has answered the confirmation
    dialog ([confirmed]), the account list of the state. *)
Definition handleDeleteAccount (confirmed : bool) (id : string) (prev : list Account.t)
  : list Account.t :=
  if confirmed then List.filter (λ a, negb (String.eqb (Account.id a) id)) prev
  else prev.

(** *** Notions used to state the properties of the total *)

Definition infinite (x : JS.number) : bool :=
  match x with JS.Inf _ => true | _ => false end.

(** The sum of a list of numbers. *)
Definition sum_numbers (l : list JS.number) : JS.number :=
  foldr JS.add (JS.of_Z 0) l.

(** What a transaction adds to the money held in all accounts together. *)
Definition net_flow (tx : Transaction.t) : JS.number :=
  let amt := Transaction.amount tx in
  if JS.isNaN amt then JS.of_Z 0
  else
    match Transaction.type tx with
    | INCOME => amt
    | EXPENSE => JS.neg amt
    | TRANSFER => JS.of_Z 0
    end.

(** The accounts a transaction names are accounts of the list: its account,
    and for a transfer its destination when it has one. *)
Definition booked (accounts : list Account.t) (tx : Transaction.t) : Prop :=
  Transaction.accountId tx ∈ (Account.id <$> accounts)
  ∧ (Transaction.type tx = TRANSFER →
     ∀ to_, Transaction.toAccountId tx = Some to_ → to_ ≠ "" →
            to_ ∈ (Account.id <$> accounts)).

(** An income or an expense with a numeric amount. *)
Definition posts_to (k : string) (tx : Transaction.t) : Prop :=
  Transaction.accountId tx = k
  ∧ JS.isNaN (Transaction.amount tx) = false
  ∧ Transaction.type tx ≠ TRANSFER.

(** ** More of the host language

    The operators and functions that the rest of [App] calls. *)

Module Num.

(** [x < y]: false when either side is NaN. *)
Definition lt (x y : JS.number) : bool :=
  match x, y with
  | JS.NaN, _ | _, JS.NaN => false
  | JS.Fin a, JS.Fin b => match (a ?= b)%Qc with Lt => true | _ => false end
  | JS.Fin _, JS.Inf negative => negb negative
  | JS.Inf negative, JS.Fin _ => negative
  | JS.Inf s, JS.Inf t => s && negb t
  end.

(** [x === y] on numbers: NaN equals nothing. *)
Definition eq (x y : JS.number) : bool :=
  match x, y with
  | JS.Fin a, JS.Fin b => Qc_eq_bool a b
  | JS.Inf s, JS.Inf t => Bool.eqb s t
  | _, _ => false
  end.

(** [x <= y] and [x >= y]. *)
Definition le (x y : JS.number) : bool := lt x y || eq x y.
Definition ge (x y : JS.number) : bool := le y x.

(** [x || d] on numbers: NaN and zero are falsy. *)
Definition or_else (x d : JS.number) : JS.number :=
  match x with
  | JS.NaN => d
  | JS.Fin q => if Qc_eq_bool q (Qc_of_Z 0) then d else x
  | JS.Inf _ => x
  end.

(** The integers among the numbers. *)
Definition integer (x : JS.number) : Prop := ∃ z, x = JS.of_Z z.

End Num.

(** The value of a hexadecimal digit. *)
Definition hex_value (c : ascii) : option Z :=
  let n := Z.of_nat (nat_of_ascii c) in
  if (48 <=? n) && (n <=? 57) then Some (n - 48)
  else if (97 <=? n) && (n <=? 102) then Some (n - 87)
  else if (65 <=? n) && (n <=? 70) then Some (n - 55)
  else None.

(** The longest run of hexadecimal digits at the start of [s]: its value
    after [acc] and how many digits it has. *)
Fixpoint scan_hex (acc : Z) (count : nat) (s : string) : Z * nat :=
  match s with
  | "" => (acc, count)
  | String a r =>
      match hex_value a with
      | Some v => scan_hex (16 * acc + v) (S count) r
      | None => (acc, count)
      end
  end.

(** [parseInt(s)] without a radix: leading white space is skipped, a sign is
    read, then the digits that follow, hexadecimal ones after a prefix [0x] or
    [0X] and decimal ones otherwise; NaN when there is no digit. *)
Definition parseInt (s : string) : JS.number :=
  let s := Text.trimStart s in
  let '(negative, s) :=
    match s with
    | String a r =>
        if Ascii.eqb a "-" then (true, r)
        else if Ascii.eqb a "+" then (false, r)
        else (false, s)
    | "" => (false, s)
    end in
  let decimal := let '(v, c, _) := Text.scan_digits 0 0 s in (v, c) in
  let '(value, count) :=
    match s with
    | String a (String b r) =>
        if Ascii.eqb a "0" && (Ascii.eqb b "x" || Ascii.eqb b "X")
        then scan_hex 0 0 r
        else decimal
    | _ => decimal
    end in
  match count with
  | O => JS.NaN
  | S _ => JS.of_Z (if negative then - value else value)
  end.

(** [l.sort(comparefn)], a stable sort: [x] goes after [y] when
    [comparefn(x, y) > 0]; a result that is NaN counts as 0.  For a comparefn
    that orders the elements consistently this insertion sort gives the
    result the specification prescribes; for any other comparefn the
    specification leaves the order to the implementation. *)
Fixpoint insert_by {A : Type} (comparefn : A → A → JS.number) (x : A) (sorted : list A)
  : list A :=
  match sorted with
  | [] => [x]
  | y :: rest =>
      if Num.lt (JS.of_Z 0) (comparefn x y) then y :: insert_by comparefn x rest
      else x :: sorted
  end.

Definition sort {A : Type} (comparefn : A → A → JS.number) (l : list A) : list A :=
  foldr (insert_by comparefn) [] l.

(** ** The account handlers of [App] *)

(** [AccountFormState]: [id] is absent for a new account. *)
Module AccountFormState.
Record t : Type := mk {
  id : option string;
  name : string;
  type : AccountType;
  initialBalance : string;
  color : string
}.
End AccountFormState.

(** [handleAddAccount] and [handleEditAccount]: the form state they set.
    [balanceText] is [acc.initialBalance.toString()]. *)
Definition handleAddAccount : AccountFormState.t :=
  AccountFormState.mk None "" CASH "0" (nth 0 ACCOUNT_COLORS "").

Definition handleEditAccount (balanceText : string) (acc : Account.t) : AccountFormState.t :=
  AccountFormState.mk (Some (Account.id acc)) (Account.name acc) (Account.type acc)
    balanceText (Account.color acc).

(** [handleSaveAccount]: the new account list ([accountFormState] is then
    reset to [null]); without a form state nothing happens.  [newId] is the
    string made from [Date.now()].  In [{ ...a, ...accountFormState,
    initialBalance }] every field of the account is replaced; in the branch
    of a new account the [id] of the form state, when it has one, is the
    empty string and replaces the new id. *)
Definition handleSaveAccount (newId : string) (accountFormState : option AccountFormState.t)
    (prev : list Account.t) : list Account.t :=
  match accountFormState with
  | None => prev
  | Some form =>
      let initialBalance :=
        Num.or_else (parseInt (AccountFormState.initialBalance form)) (JS.of_Z 0) in
      if JS.truthy (AccountFormState.id form) then
        (λ a : Account.t,
           if bool_decide (Some (Account.id a) = AccountFormState.id form)
           then {| Account.id := Account.id a;
                   Account.name := AccountFormState.name form;
                   Account.type := AccountFormState.type form;
                   Account.initialBalance := initialBalance;
                   Account.color := AccountFormState.color form |}
           else a) <$> prev
      else
        (prev ++
         [ {| Account.id := default newId (AccountFormState.id form);
              Account.name := AccountFormState.name form;
              Account.type := AccountFormState.type form;
              Account.initialBalance := initialBalance;
              Account.color := AccountFormState.color form |} ])%list
  end.

Inductive Direction : Type := UP | DOWN.

(** [newAccounts[i] = v] on a copy of the array: inside the array the entry
    is replaced; at the index [length] the array grows by one entry. *)
Definition array_set {A : Type} (l : list (option A)) (i : nat) (v : option A)
  : list (option A) :=
  if (i <? length l)%nat then <[i := v]> l
  else (l ++ replicate (i - length l) None ++ [v])%list.

(** [moveAccount], for the index of a row of the account list (a natural
    number): the array handed to [setAccounts], an entry [None] being
    [undefined], or [None] when the function returns without setting
    anything. *)
Definition moveAccount (fromIndex : nat) (direction : Direction) (accounts : list Account.t)
  : option (list (option Account.t)) :=
  let toIndex : Z :=
    match direction with
    | UP => Z.of_nat fromIndex - 1
    | DOWN => Z.of_nat fromIndex + 1
    end in
  if (toIndex <? 0) || (Z.of_nat (length accounts) <=? toIndex) then None
  else
    let newAccounts := Some <$> accounts in
    let temp := mjoin (newAccounts !! fromIndex) in
    let newAccounts :=
      array_set newAccounts fromIndex (mjoin (newAccounts !! Z.to_nat toIndex)) in
    let newAccounts := array_set newAccounts (Z.to_nat toIndex) temp in
    Some newAccounts.

(** The account list after [moveAccount], when every entry is an account. *)
Definition accounts_of (entries : list (option Account.t)) : option (list Account.t) :=
  mapM id entries.

(** [handleDragOver] on the row [index], [draggedAccountIndex] being the
    state of that name: the array handed to [setAccounts], an entry [None]
    being [undefined], and the new [draggedAccountIndex]; [None] when the
    function returns without setting anything.  [splice(i, 1)] removes
    nothing past the end of the array and [splice(i, 0, x)] inserts at the
    end when [i] is past it. *)
Definition handleDragOver (draggedAccountIndex : option nat) (index : nat)
    (accounts : list Account.t) : option (list (option Account.t) * nat) :=
  match draggedAccountIndex with
  | None => None
  | Some dragged =>
      if (dragged =? index)%nat then None
      else
        let newAccounts := Some <$> accounts in
        let draggedItem := mjoin (newAccounts !! dragged) in
        let newAccounts := delete dragged newAccounts in
        let newAccounts :=
          (take index newAccounts ++ draggedItem :: drop index newAccounts)%list in
        Some (newAccounts, index)
  end.

(** ** The derived views of [App]: filters, sorting and statistics *)

(** [new Date(year, month, date)] on integers, read back through the local
    getters: a year from 0 to 99 stands for 1900 plus that year, the month is
    reduced modulo 12 into the year, and day [date] is counted from the first
    of that month, backwards when it is less than 1.  The time range of
    [Date] (some 275,000 years either side of 1970) is not modelled. *)
Definition new_Date (year month date : Z) : Date.fields :=
  let yr := if (0 <=? year) && (year <=? 99) then 1900 + year else year in
  let ym := yr + month / 12 in
  let mn := month mod 12 in
  if date <? 1 then borrow (Z.to_nat (1 - date)) ym mn date
  else Date.carry (Z.to_nat date) ym mn date.

(** The local [format] of [handleDashboardCardClick]: year, month and day of
    the local getters, month and day padded to two digits. *)
Definition format (d : Date.fields) : string :=
  Text.of_integer (Date.getFullYear d)
  +:+ "-" +:+ padStart2 (Text.of_integer (Date.getMonth d + 1))
  +:+ "-" +:+ padStart2 (Text.of_integer (Date.getDate d)).

(** [FilterState]; the type ['ALL'] is [None]. *)
Module FilterState.
Record t : Type := mk {
  startDate : string;
  endDate : string;
  type : option TransactionType;
  categoryId : string;
  minAmount : string;
  maxAmount : string
}.
End FilterState.

Definition INITIAL_FILTERS : FilterState.t := FilterState.mk "" "" None "" "" "".

Definition TransactionType_eqb (a b : TransactionType) : bool :=
  match a, b with
  | INCOME, INCOME | EXPENSE, EXPENSE | TRANSFER, TRANSFER => true
  | _, _ => false
  end.

(** [a.filter(...).reduce((s, t) => s + t.amount, 0)] on the transactions of
    one type. *)
Definition sum_of_type (type : TransactionType) (txs : list Transaction.t) : JS.number :=
  foldl (λ s t, JS.add s (Transaction.amount t)) (JS.of_Z 0)
    (List.filter (λ t, TransactionType_eqb (Transaction.type t) type) txs).

Section Search.

(** [String.prototype.toLowerCase], whose case tables are the host's. *)
Variable toLowerCase : string → string.

(** The predicate of the search filter. *)
Definition matches_search (term : string) (tx : Transaction.t) : bool :=
  Text.includes term (toLowerCase (Transaction.description tx))
  || match Transaction.location tx with
     | Some loc => negb (String.eqb loc "") && Text.includes term (toLowerCase loc)
     | None => false
     end
  || Text.includes term
       (toLowerCase (or_else (category_name (Transaction.category tx)) "")).

(** The [filteredTransactions] memo. *)
Definition filteredTransactions (transactions : list Transaction.t) (searchTerm : string)
    (filters : FilterState.t) : list Transaction.t :=
  let result := transactions in
  let result :=
    if negb (String.eqb (Text.trim searchTerm) "")
    then List.filter (matches_search (toLowerCase searchTerm)) result
    else result in
  let result :=
    if negb (String.eqb (FilterState.startDate filters) "")
    then List.filter (λ tx, String.leb (FilterState.startDate filters) (Transaction.date tx))
           result
    else result in
  let result :=
    if negb (String.eqb (FilterState.endDate filters) "")
    then List.filter (λ tx, String.leb (Transaction.date tx) (FilterState.endDate filters))
           result
    else result in
  let result :=
    match FilterState.type filters with
    | Some type => List.filter (λ tx, TransactionType_eqb (Transaction.type tx) type) result
    | None => result
    end in
  let result :=
    if negb (String.eqb (FilterState.categoryId filters) "")
    then List.filter (λ tx, String.eqb (Transaction.category tx)
                              (FilterState.categoryId filters)) result
    else result in
  let result :=
    if negb (String.eqb (FilterState.minAmount filters) "")
    then List.filter (λ tx, Num.ge (Transaction.amount tx)
                              (Text.parseFloat (FilterState.minAmount filters))) result
    else result in
  let result :=
    if negb (String.eqb (FilterState.maxAmount filters) "")
    then List.filter (λ tx, Num.le (Transaction.amount tx)
                              (Text.parseFloat (FilterState.maxAmount filters))) result
    else result in
  result.

End Search.

(** [resetFilters]: the filters and the search term it sets. *)
Definition resetFilters : FilterState.t * string := (INITIAL_FILTERS, "").

(** [SortConfig]. *)
Inductive SortKey : Type := by_date | by_amount.
Inductive SortDirection : Type := asc | desc.

(** The comparefn of [sortedTransactions], as it is written: for the key
    [date] and the direction [asc] both operands of the subtraction are read
    from [a]. *)
Definition sort_comparefn {host : Host} (key : SortKey) (direction : SortDirection)
    (a b : Transaction.t) : JS.number :=
  match key with
  | by_date =>
      match direction with
      | asc => JS.sub (DateObj.getTime (DateObj.of_string (Transaction.date a)))
                 (DateObj.getTime (DateObj.of_string (Transaction.date a)))
      | desc => JS.sub (DateObj.getTime (DateObj.of_string (Transaction.date b)))
                  (DateObj.getTime (DateObj.of_string (Transaction.date a)))
      end
  | by_amount =>
      match direction with
      | asc => JS.sub (Transaction.amount a) (Transaction.amount b)
      | desc => JS.sub (Transaction.amount b) (Transaction.amount a)
      end
  end.

(** The [sortedTransactions] memo. *)
Definition sortedTransactions {host : Host} (filteredTransactions : list Transaction.t)
    (key : SortKey) (direction : SortDirection) : list Transaction.t :=
  sort (sort_comparefn key direction) filteredTransactions.

(** [handleDashboardCardClick]: the filters it sets; [now] is the local date
    of [new Date()]. *)
Definition handleDashboardCardClick (now : Date.fields) (type : TransactionType)
  : FilterState.t :=
  let year := Date.getFullYear now in
  let month := Date.getMonth now in
  let startDate := new_Date year month 1 in
  let endDate := new_Date year (month + 1) 0 in
  {| FilterState.startDate := format startDate;
     FilterState.endDate := format endDate;
     FilterState.type := Some type;
     FilterState.categoryId := "";
     FilterState.minAmount := "";
     FilterState.maxAmount := "" |}.

(** The test [d.getMonth() === month && d.getFullYear() === year] on
    [d = new Date(t.date)]; the getters of the Invalid Date give NaN, which
    equals nothing. *)
Definition in_month {host : Host} (year month : Z) (t : Transaction.t) : bool :=
  let d := DateObj.of_string (Transaction.date t) in
  match DateObj.getMonth d, DateObj.getFullYear d with
  | Some m, Some y => (m =? month) && (y =? year)
  | _, _ => false
  end.

Module DashboardStats.
Record t : Type := mk {
  income : JS.number;
  expense : JS.number;
  prevIncome : JS.number;
  prevExpense : JS.number
}.
End DashboardStats.

(** The [dashboardStats] memo; [now] is the local date of [new Date()]. *)
Definition dashboardStats {host : Host} (now : Date.fields) (transactions : list Transaction.t)
  : DashboardStats.t :=
  let currentYear := Date.getFullYear now in
  let currentMonth := Date.getMonth now in
  let currentTx := List.filter (in_month currentYear currentMonth) transactions in
  let prevDate := new_Date currentYear (currentMonth - 1) 1 in
  let prevTx :=
    List.filter (in_month (Date.getFullYear prevDate) (Date.getMonth prevDate))
      transactions in
  {| DashboardStats.income := sum_of_type INCOME currentTx;
     DashboardStats.expense := sum_of_type EXPENSE currentTx;
     DashboardStats.prevIncome := sum_of_type INCOME prevTx;
     DashboardStats.prevExpense := sum_of_type EXPENSE prevTx |}.

(** [categoryData[catName] = (categoryData[catName] || 0) + amount] on an
    object whose keys are category names: the entry is updated in its place,
    or added behind the others. *)
Fixpoint add_to_category (categoryData : list (string * JS.number)) (catName : string)
    (amount : JS.number) : list (string * JS.number) :=
  match categoryData with
  | [] => [(catName, JS.add (JS.of_Z 0) amount)]
  | (name, value) :: rest =>
      if String.eqb name catName
      then (name, JS.add (Num.or_else value (JS.of_Z 0)) amount) :: rest
      else (name, value) :: add_to_category rest catName amount
  end.

(** [EXPENSE_CATEGORIES.find(c => c.id === t.category)?.name || '其他']. *)
Definition expense_category_name (category : string) : string :=
  or_else
    (CategoryOption.name <$>
       find (λ c, String.eqb (CategoryOption.id c) category) EXPENSE_CATEGORIES)
    "其他".

Module MonthlyStats.
Record t : Type := mk {
  income : JS.number;
  expense : JS.number;
  chartData : list (string * JS.number);
  hasData : bool;
  monthlyTx : list Transaction.t
}.
End MonthlyStats.

(** The filter of [monthlyStats]: [year] and [month] are the results of
    [parseInt], numbers that may be NaN. *)
Definition in_selected_month {host : Host} (year month : JS.number) (t : Transaction.t)
  : bool :=
  if String.eqb (Transaction.date t) "" then false
  else
    let d := DateObj.of_string (Transaction.date t) in
    match DateObj.getMonth d, DateObj.getFullYear d with
    | Some m, Some y => Num.eq (JS.of_Z m) month && Num.eq (JS.of_Z y) year
    | _, _ => false
    end.

(** The [monthlyStats] memo.  A missing second part of [selectedMonth] is
    [undefined], which [parseInt] reads as NaN. *)
Definition monthlyStats {host : Host} (transactions : list Transaction.t) (selectedMonth : string)
  : MonthlyStats.t :=
  let parts := Text.split_on "-" selectedMonth in
  let year := parseInt (nth 0 parts "") in
  let month :=
    JS.sub (match parts !! 1%nat with
            | Some monthStr => parseInt monthStr
            | None => JS.NaN
            end) (JS.of_Z 1) in
  let monthlyTx :=
    sort (λ a b, JS.sub (DateObj.getTime (DateObj.of_string (Transaction.date b)))
                   (DateObj.getTime (DateObj.of_string (Transaction.date a))))
      (List.filter (in_selected_month year month) transactions) in
  let income := sum_of_type INCOME monthlyTx in
  let expense := sum_of_type EXPENSE monthlyTx in
  let expenseTx :=
    List.filter (λ t, TransactionType_eqb (Transaction.type t) EXPENSE) monthlyTx in
  let categoryData :=
    foldl (λ data t, add_to_category data (expense_category_name (Transaction.category t))
                       (Transaction.amount t)) [] expenseTx in
  let chartData := sort (λ a b, JS.sub b.2 a.2) categoryData in
  {| MonthlyStats.income := income;
     MonthlyStats.expense := expense;
     MonthlyStats.chartData := chartData;
     MonthlyStats.hasData := negb (length monthlyTx =? 0)%nat;
     MonthlyStats.monthlyTx := monthlyTx |}.

(** *** Notions used to state the properties of the views *)

(** A number that is neither NaN nor infinite. *)
Definition finite (x : JS.number) : Prop := ∃ q, x = JS.Fin q.

(** The selected month as [changeMonth] and the initial state write it: the
    year, a hyphen and the month number on two digits. *)
Definition month_key (year month : Z) : string :=
  Text.of_integer year +:+ "-" +:+ padStart2 (Text.of_integer (month + 1)).

Section Criteria.

Variable toLowerCase : string → string.

(** A transaction meets the search term and the filters: every criterion
    that is set holds of it. *)
Definition meets (searchTerm : string) (filters : FilterState.t) (tx : Transaction.t)
  : bool :=
  (String.eqb (Text.trim searchTerm) ""
   || matches_search toLowerCase (toLowerCase searchTerm) tx)
  && (String.eqb (FilterState.startDate filters) ""
      || String.leb (FilterState.startDate filters) (Transaction.date tx))
  && (String.eqb (FilterState.endDate filters) ""
      || String.leb (Transaction.date tx) (FilterState.endDate filters))
  && match FilterState.type filters with
     | Some type => TransactionType_eqb (Transaction.type tx) type
     | None => true
     end
  && (String.eqb (FilterState.categoryId filters) ""
      || String.eqb (Transaction.category tx) (FilterState.categoryId filters))
  && (String.eqb (FilterState.minAmount filters) ""
      || Num.ge (Transaction.amount tx) (Text.parseFloat (FilterState.minAmount filters)))
  && (String.eqb (FilterState.maxAmount filters) ""
      || Num.le (Transaction.amount tx) (Text.parseFloat (FilterState.maxAmount filters))).

End Criteria.

(** The date string of the transaction, read as a date of the ISO format
    [YYYY-MM-DD], lies in month [month] (0 to 11) of year [year]. *)
Definition dated_in (year month : Z) (t : Transaction.t) : bool :=
  match Date.parse (Transaction.date t) with
  | Some d => (Date.getMonth d =? month) && (Date.getFullYear d =? year)
  | None => false
  end.

(** The calendar month before month [month] of year [year]. *)
Definition month_before (year month : Z) : Z * Z :=
  if month =? 0 then (year - 1, 11) else (year, month - 1).

(** The amounts of a list of transactions, added from 0 in list order. *)
Definition sum_amounts (txs : list Transaction.t) : JS.number :=
  foldl (λ s t, JS.add s (Transaction.amount t)) (JS.of_Z 0) txs.

(** The amounts of the transactions that the chart of [monthlyStats] counts
    under the category name [name], added from 0 in list order. *)
Definition slice (name : string) (expenses : list Transaction.t) : JS.number :=
  sum_amounts
    (List.filter (λ t, String.eqb (expense_category_name (Transaction.category t)) name)
       expenses).

(** ** Saving a transaction: [TransactionForm.handleSubmit] and
    [App.handleSaveTransaction] *)

Inductive TransferSubType : Type := INTERNAL | OUT | IN.

(** The state of [TransactionForm] that [handleSubmit] reads. *)
Module FormState.
Record t : Type := mk {
  type : TransactionType;
  amount : string;
  date : string;
  description : string;
  location : string;
  category : string;
  accountId : string;
  toAccountId : string;
  transferSubType : TransferSubType;
  isRecurring : bool;
  frequency : Frequency;
  endDate : string
}.
End FormState.

(** The object that [handleSubmit] hands to [onSubmit].  Its keys
    [isRecurring], [frequency] and [endDate] are the one field [recurring]:
    [frequency] is defined exactly when [isRecurring] is set, and [endDate]
    only then. *)
Module FormData.
Record t : Type := mk {
  type : TransactionType;
  amount : JS.number;
  date : string;
  description : string;
  location : string;
  category : string;
  accountId : string;
  toAccountId : option string;
  receiptImage : option string;
  recurring : option (Frequency * option string)
}.
End FormData.

(** [handleSubmit]; [receiptImage] is the property of the component. *)
Definition handleSubmit (receiptImage : option string) (form : FormState.t) : FormData.t :=
  let '(finalType, finalCategory, finalToAccount) :=
    match FormState.type form with
    | TRANSFER =>
        match FormState.transferSubType form with
        | INTERNAL => (TRANSFER, "cat_transfer", Some (FormState.toAccountId form))
        | OUT => (EXPENSE, "cat_transfer", None)
        | IN => (INCOME, "cat_transfer", None)
        end
    | type => (type, FormState.category form, None)
    end in
  {| FormData.type := finalType;
     FormData.amount :=
       Text.round (Num.or_else (Text.parseFloat (FormState.amount form)) (JS.of_Z 0));
     FormData.date := FormState.date form;
     FormData.description := FormState.description form;
     FormData.location := FormState.location form;
     FormData.category := finalCategory;
     FormData.accountId := FormState.accountId form;
     FormData.toAccountId := finalToAccount;
     FormData.receiptImage := receiptImage;
     FormData.recurring :=
       if FormState.isRecurring form
       then Some (FormState.frequency form,
                  if String.eqb (FormState.endDate form) "" then None
                  else Some (FormState.endDate form))
       else None |}.

(** [{ ...t, ...data, amount: safeAmount }] as a [Transaction]: every key of
    [data] replaces that of [t], which keeps its [id] and
    [isRecurringInstance]. *)
Definition overwrite (t : Transaction.t) (data : FormData.t) (safeAmount : JS.number)
  : Transaction.t :=
  {| Transaction.id := Transaction.id t;
     Transaction.date := FormData.date data;
     Transaction.amount := safeAmount;
     Transaction.type := FormData.type data;
     Transaction.category := FormData.category data;
     Transaction.description := FormData.description data;
     Transaction.location := Some (FormData.location data);
     Transaction.accountId := FormData.accountId data;
     Transaction.toAccountId := FormData.toAccountId data;
     Transaction.receiptImage := FormData.receiptImage data;
     Transaction.isRecurringInstance := Transaction.isRecurringInstance t |}.

(** [{ id, ...data, amount: safeAmount }] as a [Transaction]. *)
Definition created (id : string) (data : FormData.t) (safeAmount : JS.number)
  : Transaction.t :=
  {| Transaction.id := id;
     Transaction.date := FormData.date data;
     Transaction.amount := safeAmount;
     Transaction.type := FormData.type data;
     Transaction.category := FormData.category data;
     Transaction.description := FormData.description data;
     Transaction.location := Some (FormData.location data);
     Transaction.accountId := FormData.accountId data;
     Transaction.toAccountId := FormData.toAccountId data;
     Transaction.receiptImage := FormData.receiptImage data;
     Transaction.isRecurringInstance := None |}.

(** [newRecurring]. *)
Definition newRecurring (id nextDueDate : string) (frequency : Frequency)
    (endDate : option string) (data : FormData.t) (safeAmount : JS.number)
  : RecurringTransaction.t :=
  {| RecurringTransaction.id := id;
     RecurringTransaction.frequency := frequency;
     RecurringTransaction.startDate := FormData.date data;
     RecurringTransaction.nextDueDate := nextDueDate;
     RecurringTransaction.endDate := endDate;
     RecurringTransaction.lastGenerated := None;
     RecurringTransaction.amount := safeAmount;
     RecurringTransaction.type := FormData.type data;
     RecurringTransaction.category := FormData.category data;
     RecurringTransaction.description := FormData.description data;
     RecurringTransaction.location := Some (FormData.location data);
     RecurringTransaction.accountId := FormData.accountId data;
     RecurringTransaction.toAccountId := FormData.toAccountId data |}.

(** [handleSaveTransaction] on the state [(transactions,
    recurringTransactions)]; [editingId] is the state of that name, [recId]
    and [txId] are the ids made from [Date.now()].  When [getNextDate] does
    not return, no state is set. *)
Definition handleSaveTransaction {host : Host} (recId txId : string) (editingId : option string)
    (data : FormData.t) (isDuplicate : bool)
    (state : list Transaction.t * list RecurringTransaction.t)
  : completion (list Transaction.t * list RecurringTransaction.t) :=
  let safeAmount :=
    if JS.isNaN (FormData.amount data) then JS.of_Z 0 else FormData.amount data in
  let updating := JS.truthy editingId && negb isDuplicate in
  let saved (recurrings : list RecurringTransaction.t) :=
    let shouldSaveTransaction :=
      negb (bool_decide (is_Some (FormData.recurring data)))
      || JS.truthy editingId || isDuplicate in
    if shouldSaveTransaction then
      if updating
      then ((λ t, if bool_decide (Some (Transaction.id t) = editingId)
                  then overwrite t data safeAmount else t) <$> state.1, recurrings)
      else (created txId data safeAmount :: state.1, recurrings)
    else (state.1, recurrings) in
  match FormData.recurring data with
  | Some (frequency, endDate) =>
      match (if updating then getNextDate (FormData.date data) frequency
             else Returns (FormData.date data)) with
      | Returns nextDueDate =>
          Returns (saved (state.2 ++ [newRecurring recId nextDueDate frequency endDate
                                        data safeAmount])%list)
      | Throws => Throws
      | Hangs => Hangs
      end
  | None => Returns (saved state.2)
  end.

(** ** The persistence effect of [App]: [saveData] *)

(** How [localStorage.setItem] ends: it stores the text, or throws a quota
    error, or throws another error. *)
Inductive setItem_outcome : Type := Stored | QuotaExceeded | OtherError.

(** [t.receiptImage] as a condition. *)
Definition has_image (t : Transaction.t) : bool := JS.truthy (Transaction.receiptImage t).

(** [const { receiptImage, ...rest } = t; return rest]. *)
Definition without_image (t : Transaction.t) : Transaction.t :=
  {| Transaction.id := Transaction.id t;
     Transaction.date := Transaction.date t;
     Transaction.amount := Transaction.amount t;
     Transaction.type := Transaction.type t;
     Transaction.category := Transaction.category t;
     Transaction.description := Transaction.description t;
     Transaction.location := Transaction.location t;
     Transaction.accountId := Transaction.accountId t;
     Transaction.toAccountId := Transaction.toAccountId t;
     Transaction.receiptImage := None;
     Transaction.isRecurringInstance := Transaction.isRecurringInstance t |}.

(** [optimizedTransactions] for one value of [keepCount]. *)
Definition optimizedTransactions (transactions sorted : list Transaction.t) (keepCount : Z)
  : list Transaction.t :=
  let keepImageIds :=
    Transaction.id <$> take (Z.to_nat keepCount) (List.filter has_image sorted) in
  (λ t, if has_image t && negb (bool_decide (Transaction.id t ∈ keepImageIds))
        then without_image t else t) <$> transactions.

Section Storage.

(** [localStorage.setItem(STORAGE_KEY, JSON.stringify(data))] as a function
    of the transactions of [data]; the accounts, the templates and the theme
    are the same in every attempt of one run. *)
Variable setItem : list Transaction.t → setItem_outcome.

(** The [while (keepCount >= 0)] loop: what was stored, if anything.  The
    retry catches every error.  [Hangs] stands for a loop that the fuel does
    not see the end of. *)
Fixpoint quota_loop (fuel : nat) (transactions sorted : list Transaction.t)
    (keepCount : Z) : completion (option (list Transaction.t)) :=
  match fuel with
  | O => Hangs
  | S fuel' =>
      if 0 <=? keepCount then
        let optimized := optimizedTransactions transactions sorted keepCount in
        match setItem optimized with
        | Stored => Returns (Some optimized)
        | _ =>
            let keepCount := keepCount - 5 in
            let keepCount :=
              if (keepCount <? 0) && (-5 <? keepCount) then 0 else keepCount in
            quota_loop fuel' transactions sorted keepCount
        end
      else Returns None
  end.

(** [saveData]: the transactions of the data that were stored, if any. *)
Definition saveData {host : Host} (transactions : list Transaction.t)
  : completion (option (list Transaction.t)) :=
  match setItem transactions with
  | Stored => Returns (Some transactions)
  | QuotaExceeded =>
      let sorted :=
        sort (λ a b, JS.sub (DateObj.getTime (DateObj.of_string (Transaction.date b)))
                       (DateObj.getTime (DateObj.of_string (Transaction.date a)))) transactions in
      let totalWithImages := Z.of_nat (length (List.filter has_image sorted)) in
      let keepCount := Z.max 0 (totalWithImages - 10) in
      quota_loop (Z.to_nat keepCount + 2) transactions sorted keepCount
  | OtherError => Returns None
  end.

End Storage.

(** ** The export of one account: [handleExportAccountCSV] *)

(** [String(x || '')] for a number that [Math.round] returned: NaN and zero
    are falsy and give the empty string. *)
Definition number_cell (x : JS.number) : string :=
  match x with
  | JS.NaN => ""
  | JS.Fin q => if Qc_eq_bool q (Qc_of_Z 0) then "" else Text.of_rounded x
  | JS.Inf _ => Text.of_rounded x
  end.

(** [isIncome] of a row. *)
Definition isIncome (acc : Account.t) (tx : Transaction.t) : bool :=
  (TransactionType_eqb (Transaction.type tx) INCOME
   && String.eqb (Transaction.accountId tx) (Account.id acc))
  || (TransactionType_eqb (Transaction.type tx) TRANSFER
      && bool_decide (Transaction.toAccountId tx = Some (Account.id acc))).

(** [otherName]: the name of the other account of a transfer, when it is
    found; a hyphen for the other types. *)
Definition otherName (acc : Account.t) (accounts : list Account.t) (tx : Transaction.t)
  : option string :=
  match Transaction.type tx with
  | TRANSFER =>
      if isIncome acc tx then account_name accounts (Transaction.accountId tx)
      else to_ ← Transaction.toAccountId tx; account_name accounts to_
  | _ => Some "-"
  end.

(** The seven values of one row, after [String(v || '')]. *)
Definition account_export_cells (acc : Account.t) (accounts : list Account.t)
    (tx : Transaction.t) : list string :=
  [ Transaction.date tx;
    match Transaction.type tx with
    | TRANSFER => if isIncome acc tx then "轉入" else "轉出"
    | type => type_label type
    end;
    number_cell (Text.round (Transaction.amount tx));
    or_else (category_name (Transaction.category tx)) "";
    Transaction.description tx;
    or_else (Transaction.location tx) "";
    or_else (otherName acc accounts tx) "" ].

Definition account_export_row (acc : Account.t) (accounts : list Account.t)
    (tx : Transaction.t) : string :=
  Text.join "," (quote_cell <$> account_export_cells acc accounts tx).

Definition account_headers : list string :=
  [ "日期"; "類型"; "金額"; "分類"; "備註"; "地點"; "對方帳戶" ].

(** [accountTxs]: the transactions of the account or into it, newest
    first. *)
Definition accountTxs {host : Host} (acc : Account.t) (transactions : list Transaction.t)
  : list Transaction.t :=
  sort (λ a b, JS.sub (DateObj.getTime (DateObj.of_string (Transaction.date b)))
                 (DateObj.getTime (DateObj.of_string (Transaction.date a))))
    (List.filter (λ tx, String.eqb (Transaction.accountId tx) (Account.id acc)
                        || bool_decide (Transaction.toAccountId tx = Some (Account.id acc)))
       transactions).

(** [handleExportAccountCSV]: the text put in the file, if any. *)
Definition handleExportAccountCSV {host : Host} (targetAccount viewingAccount : option Account.t)
    (accounts : list Account.t) (transactions : list Transaction.t) : option string :=
  match (match targetAccount with Some acc => Some acc | None => viewingAccount end) with
  | None => None
  | Some acc =>
      Some (Text.BOM
            +:+ Text.join (String Text.LF "")
                  (Text.join "," account_headers
                   :: (account_export_row acc accounts <$> accountTxs acc transactions)))
  end.

(** ** The month selector of [App]: [changeMonth] *)

(** The longest run of digits of base [base] at the start of [s]: its value
    after [acc], how many digits it has, and what follows it. *)
Fixpoint scan_base (base acc : Z) (count : nat) (s : string) : Z * nat * string :=
  match s with
  | "" => (acc, count, "")
  | String a r =>
      match hex_value a with
      | Some v =>
          if v <? base then scan_base base (base * acc + v) (S count) r
          else (acc, count, s)
      | None => (acc, count, s)
      end
  end.

(** The exponent part [e±digits] of a decimal literal when [s] is one as a
    whole, 0 when [s] is empty. *)
Definition whole_exponent (s : string) : option Z :=
  match s with
  | "" => Some 0
  | String a r =>
      if Ascii.eqb a "e" || Ascii.eqb a "E" then
        let '(negative, r') :=
          match r with
          | String b r' =>
              if Ascii.eqb b "-" then (true, r')
              else if Ascii.eqb b "+" then (false, r')
              else (false, r)
          | "" => (false, r)
          end in
        match Text.scan_digits 0 0 r' with
        | (e, S _, "") => Some (if negative then - e else e)
        | _ => None
        end
      else None
  end.

(** A signed decimal literal or a signed [Infinity] that is the whole of
    [s]. *)
Definition decimal_literal (s : string) : JS.number :=
  let '(negative, s) :=
    match s with
    | String a r =>
        if Ascii.eqb a "-" then (true, r)
        else if Ascii.eqb a "+" then (false, r)
        else (false, s)
    | "" => (false, s)
    end in
  if String.eqb s "Infinity" then JS.Inf negative
  else
    let '(int, int_count, r) := Text.scan_digits 0 0 s in
    let '(mantissa, frac_count, r) :=
      match r with
      | String a r' =>
          if Ascii.eqb a "." then Text.scan_digits int 0 r' else (int, O, r)
      | "" => (int, O, r)
      end in
    match int_count, frac_count with
    | O, O => JS.NaN
    | _, _ =>
        match whole_exponent r with
        | Some e =>
            let value :=
              (inject_Z mantissa * Qpower (inject_Z 10) (e - Z.of_nat frac_count))%Q in
            JS.Fin (Q2Qc (if negative then - value else value)%Q)
        | None => JS.NaN
        end
    end.

(** [Number(s)]: the string without the white space around it is read as a
    whole; the empty string is 0, an integer after [0x], [0o] or [0b] is read
    in that base, any other string as a decimal literal; NaN when it is
    none. *)
Definition StringToNumber (s : string) : JS.number :=
  let s := Text.trim s in
  let non_decimal (base : Z) (r : string) : JS.number :=
    match scan_base base 0 0 r with
    | (v, S _, "") => JS.of_Z v
    | _ => JS.NaN
    end in
  match s with
  | "" => JS.of_Z 0
  | String a (String b r) =>
      if Ascii.eqb a "0" && (Ascii.eqb b "x" || Ascii.eqb b "X") then non_decimal 16 r
      else if Ascii.eqb a "0" && (Ascii.eqb b "o" || Ascii.eqb b "O") then non_decimal 8 r
      else if Ascii.eqb a "0" && (Ascii.eqb b "b" || Ascii.eqb b "B") then non_decimal 2 r
      else decimal_literal s
  | _ => decimal_literal s
  end.

(** The integer that the [Date] constructor makes of an argument: the
    number without its fraction; none for NaN and the infinities, which give
    the Invalid Date. *)
Definition truncate (x : JS.number) : option Z :=
  match x with
  | JS.Fin q => Some (if Qle_bool 0 q then Qfloor q else Qceiling q)
  | _ => None
  end.

(** [changeMonth(delta)] for an integer [delta]: the new [selectedMonth].
    The getters of the Invalid Date give NaN. *)
Definition changeMonth (selectedMonth : string) (delta : Z) : string :=
  let parts := StringToNumber <$> Text.split_on "-" selectedMonth in
  let y := default JS.NaN (parts !! 0%nat) in
  let m := default JS.NaN (parts !! 1%nat) in
  match truncate y, truncate (JS.add (JS.sub m (JS.of_Z 1)) (JS.of_Z delta)) with
  | Some year, Some month =>
      let d := new_Date year month 1 in
      Text.of_integer (Date.getFullYear d)
      +:+ "-" +:+ padStart2 (Text.of_integer (Date.getMonth d + 1))
  | _, _ => "NaN-NaN"
  end.

(** ** Sample data *)

(** The specification's example: balances [{a1: 500, a2: 151000}]. *)
Definition example_accounts : list Account.t :=
  [ Account.mk "a1" "Wallet" CASH (JS.of_Z 2000) "bg-orange-500";
    Account.mk "a2" "Bank" BANK (JS.of_Z 150000) "bg-blue-500" ].

Definition example_transactions : list Transaction.t :=
  [ Transaction.mk "t1" "2024-05-01" (JS.of_Z 500) EXPENSE "cat_food" "lunch"
      None "a1" None None None;
    Transaction.mk "t2" "2024-05-02" (JS.of_Z 1000) TRANSFER "cat_transfer" "deposit"
      None "a1" (Some "a2") None None ].

(** Two accounts listed under one id. *)
Definition twice_listed : list Account.t :=
  [ Account.mk "a1" "Wallet" CASH (JS.of_Z 100) "bg-orange-500";
    Account.mk "a1" "Purse" CASH (JS.of_Z 5) "bg-blue-500" ].

(** A transfer stored without its destination. *)
Definition dangling_transfer : Transaction.t :=
  Transaction.mk "t3" "2024-05-03" (JS.of_Z 30) TRANSFER "cat_transfer" "lost"
    None "a1" None None None.

(** Ids as the scheduler draws them. *)
Definition sample_ids (k : nat) : string :=
  "auto_1718409600000_k3x9q2m" +:+ Date.pad2 (Z.of_nat k).

(** A monthly rent whose due date lies years back. *)
Definition stale_rent : RecurringTransaction.t :=
  RecurringTransaction.mk "r1" MONTHLY "2019-01-31" "2019-01-31" None None
    (JS.of_Z 12000) EXPENSE "cat_bills" "rent" None "a1" None.

(** A rent that is three months behind. *)
Definition recent_rent : RecurringTransaction.t :=
  RecurringTransaction.mk "r2" MONTHLY "2024-01-05" "2024-04-05" None (Some "2024-03-05")
    (JS.of_Z 12000) EXPENSE "cat_bills" "rent" (Some "home") "a1" None.

(** Templates saved from a form whose date field was left empty. *)
Definition undated_rent : RecurringTransaction.t :=
  RecurringTransaction.mk "r4" MONTHLY "" "" None None
    (JS.of_Z 12000) EXPENSE "cat_bills" "rent" None "a1" None.

Definition undated_bimonthly : RecurringTransaction.t :=
  RecurringTransaction.mk "r5" BI_MONTHLY_EVEN "" "" None None
    (JS.of_Z 800) EXPENSE "cat_bills" "water" None "a1" None.

(** A subscription that ended in 2023. *)
Definition ended_subscription : RecurringTransaction.t :=
  RecurringTransaction.mk "r3" WEEKLY "2023-01-02" "2023-07-03" (Some "2023-06-30")
    (Some "2023-06-26") (JS.of_Z 99) EXPENSE "cat_entertainment" "magazine" None "a2" None.

(** A spreadsheet row whose amount cell is not a number. *)
Definition unreadable_row : list string :=
  [ "2024-05-01"; "支出"; "abc"; "餐飲"; "lunch"; ""; "Wallet"; "" ].

(** A spreadsheet row whose amount is written with a thousands separator. *)
Definition grouped_row : list string :=
  [ "2024-05-02"; "收入"; "1,234"; "薪資"; "pay"; ""; "Bank"; "" ].

(** A line of a file whose amount cell holds a number followed by letters. *)
Definition suffixed_amount_line : string :=
  "2024-05-01,支出,12abc,餐飲,lunch,,Stranger,".

(** A line whose amount cell is quoted and written with a thousands
    separator. *)
Definition quoted_amount_line : string :=
  "2024-05-02,收入," +:+ String Text.dquote "1,234"
  +:+ String Text.dquote ",薪資,pay,,Bank,".

(** Ids as the import draws them. *)
Definition import_ids (i : nat) : string :=
  "import_1718409600000_" +:+ Date.pad2 (Z.of_nat i) +:+ "_x7k2p".

Definition account_ids (i : nat) : string :=
  "acc_1718409600000_" +:+ Date.pad2 (Z.of_nat i).

(** Two lines of a file that name an account the application does not have. *)
Definition travel_lines : list string :=
  [ "2024-05-01,支出,100,餐飲,noodles,,Travel,";
    "not a row";
    "2024-05-02,支出,200,交通,train,Taipei,Travel," ].

(** A purchase whose description was entered on two lines. *)
Definition two_line_memo : Transaction.t :=
  Transaction.mk "t4" "2024-05-04" (JS.of_Z 180) EXPENSE "cat_food"
    ("milk" +:+ String Text.LF "eggs") None "a1" None None None.

(** * Properties *)

(** ** Arithmetic of [JS.number] *)

Section NumberLaws.
Import JS.

Lemma add_comm (x y : number) : add x y = add y x.
Proof.
  destruct x as [|a|[]], y as [|b|[]]; simpl; try reflexivity.
  f_equal. apply Qcplus_comm.
Qed.

Lemma add_assoc (x y z : number) : add x (add y z) = add (add x y) z.
Proof.
  destruct x as [|a|[]], y as [|b|[]], z as [|c|[]]; simpl; try reflexivity.
  f_equal. apply Qcplus_assoc.
Qed.

Lemma add_zero_r (x : number) : add x (of_Z 0) = x.
Proof.
  destruct x as [|a|s]; simpl; try reflexivity.
  f_equal. apply Qcplus_0_r.
Qed.

Lemma add_zero_l (x : number) : add (of_Z 0) x = x.
Proof. rewrite add_comm. apply add_zero_r. Qed.

Lemma add_swap (v x y : number) : add (add v x) y = add (add v y) x.
Proof. rewrite <- !add_assoc. f_equal. apply add_comm. Qed.

End NumberLaws.

(** ** BalanceLedger *)

Section Ledger.
Import JS.

Lemma apply_transaction_postings (bals : gmap string number) tx :
  apply_transaction bals tx = foldl post bals (postings tx).
Proof.
  unfold apply_transaction, postings.
  destruct (isNaN (Transaction.amount tx)); [reflexivity|].
  destruct (Transaction.type tx); try reflexivity.
  destruct (Transaction.toAccountId tx) as [to_|]; [|reflexivity].
  destruct (String.eqb to_ ""); reflexivity.
Qed.

Lemma foldl_apply_transaction (txs : list Transaction.t) :
  ∀ bals : gmap string number,
    foldl apply_transaction bals txs = foldl post bals (flat_map postings txs).
Proof.
  induction txs as [|tx txs IH]; intros bals; simpl; [reflexivity|].
  by rewrite foldl_app, IH, apply_transaction_postings.
Qed.

Lemma lookup_post (bals : gmap string number) p k :
  post bals p !! k = bump k (bals !! k) p.
Proof.
  unfold post, plus_assign, bump. destruct (decide (p.1 = k)) as [<-|Hne].
  - by rewrite lookup_insert_eq.
  - by rewrite lookup_insert_ne.
Qed.

Lemma lookup_foldl_post (ps : list (string * number)) k :
  ∀ bals : gmap string number,
    foldl post bals ps !! k = foldl (bump k) (bals !! k) ps.
Proof.
  induction ps as [|p ps IH]; intros bals; simpl; [reflexivity|].
  by rewrite IH, lookup_post.
Qed.

Lemma bump_swap k o p q : bump k (bump k o p) q = bump k (bump k o q) p.
Proof.
  unfold bump. destruct (decide (p.1 = k)), (decide (q.1 = k)); simpl; try reflexivity.
  f_equal. apply add_swap.
Qed.

Lemma foldl_bump_perm k (l1 l2 : list (string * number)) :
  Permutation l1 l2 → ∀ o, foldl (bump k) o l1 = foldl (bump k) o l2.
Proof.
  induction 1 as [|x l l' _ IH|x y l|l l' l'' _ IH1 _ IH2]; intros o; simpl.
  - reflexivity.
  - apply IH.
  - by rewrite bump_swap.
  - by rewrite IH1.
Qed.

Lemma postings_perm (l1 l2 : list Transaction.t) :
  Permutation l1 l2 → Permutation (flat_map postings l1) (flat_map postings l2).
Proof.
  induction 1 as [|x l l' _ IH|x y l|l l' l'' _ IH1 _ IH2]; simpl.
  - constructor.
  - by apply Permutation_app_head.
  - rewrite !app_assoc. apply Permutation_app_tail, Permutation_app_comm.
  - by etransitivity.
Qed.

Lemma foldl_bump_Some k ps :
  ∀ v, foldl (bump k) (Some v) ps = Some (add v (posted k ps)).
Proof.
  induction ps as [|p ps IH]; intros v; simpl.
  - by rewrite add_zero_r.
  - rewrite add_assoc, <- IH. f_equal.
    unfold bump. destruct (decide (p.1 = k)); simpl; [reflexivity|].
    by rewrite add_zero_r.
Qed.

Lemma posted_app k ps qs : posted k (ps ++ qs) = add (posted k ps) (posted k qs).
Proof.
  induction ps as [|p ps IH]; cbn [posted app].
  - by rewrite add_zero_l.
  - by rewrite IH, add_assoc.
Qed.

Lemma posted_postings k tx :
  has_destination tx → posted k (postings tx) = contribution k tx.
Proof.
  intros Hdest. unfold postings, contribution, when_account.
  destruct (isNaN (Transaction.amount tx)); [reflexivity|].
  unfold has_destination in Hdest.
  destruct (Transaction.type tx); simpl.
  - destruct (decide _) as [->|Hne].
    + by rewrite String.eqb_refl, add_zero_r.
    + apply String.eqb_neq in Hne. by rewrite Hne, add_zero_r.
  - destruct (decide _) as [->|Hne].
    + by rewrite String.eqb_refl, add_zero_r.
    + apply String.eqb_neq in Hne. by rewrite Hne, add_zero_r.
  - specialize (Hdest eq_refl).
    destruct (Transaction.toAccountId tx) as [to_|]; [|discriminate].
    simpl in Hdest. destruct (String.eqb to_ ""); [discriminate|]. simpl.
    rewrite add_zero_r. f_equal.
    + destruct (decide _) as [->|Hne].
      * by rewrite String.eqb_refl.
      * apply String.eqb_neq in Hne. by rewrite Hne.
    + destruct (decide (to_ = k)) as [->|Hne].
      * by rewrite bool_decide_eq_true_2.
      * rewrite bool_decide_eq_false_2; [reflexivity|congruence].
Qed.

Lemma posted_flat_map k txs :
  Forall has_destination txs →
  posted k (flat_map postings txs) = signed_sum k txs.
Proof.
  induction 1 as [|tx txs Htx _ IH]; simpl; [reflexivity|].
  by rewrite posted_app, IH, posted_postings.
Qed.

(** The seeded balance object. *)
Lemma lookup_seed_other (accounts : list Account.t) k :
  ∀ acc : gmap string number,
    k ∉ (Account.id <$> accounts) →
    foldl seed_balance acc accounts !! k = acc !! k.
Proof.
  induction accounts as [|a accounts IH]; intros acc Hk; simpl; [reflexivity|].
  rewrite fmap_cons in Hk. apply not_elem_of_cons in Hk as [Hne Hk].
  rewrite IH by assumption. unfold seed_balance. by rewrite lookup_insert_ne.
Qed.

Lemma lookup_seed_listed (accounts : list Account.t) a :
  NoDup (Account.id <$> accounts) → a ∈ accounts →
  ∀ acc : gmap string number,
    foldl seed_balance acc accounts !! Account.id a = Some (Account.initialBalance a).
Proof.
  induction accounts as [|b accounts IH]; intros Hnd Hin acc; [by inversion Hin|].
  rewrite fmap_cons in Hnd. apply NoDup_cons in Hnd as [Hb Hnd]. simpl.
  apply elem_of_cons in Hin as [->|Hin].
  - rewrite lookup_seed_other by assumption.
    unfold seed_balance. by rewrite lookup_insert_eq.
  - by apply IH.
Qed.

Lemma lookup_seed_is_Some (accounts : list Account.t) k :
  ∀ acc : gmap string number,
    k ∈ (Account.id <$> accounts) ∨ is_Some (acc !! k) →
    is_Some (foldl seed_balance acc accounts !! k).
Proof.
  induction accounts as [|b accounts IH]; intros acc H; simpl.
  - destruct H as [H|H]; [by inversion H|exact H].
  - apply IH. rewrite fmap_cons in H. unfold seed_balance.
    destruct (decide (Account.id b = k)) as [->|Hne].
    + right. rewrite lookup_insert_eq. eauto.
    + destruct H as [H|H].
      * apply elem_of_cons in H as [H|H]; [congruence|by left].
      * right. by rewrite lookup_insert_ne.
Qed.

Lemma foldl_bump_is_Some k ps : ∀ o, is_Some o → is_Some (foldl (bump k) o ps).
Proof.
  induction ps as [|p ps IH]; intros o Ho; simpl; [exact Ho|].
  apply IH. unfold bump. destruct (decide _); eauto.
Qed.

Lemma of_Z_neq (x y : Z) : x ≠ y → of_Z x ≠ of_Z y.
Proof.
  intros Hne H. apply Hne. unfold of_Z in H. by injection H as H.
Qed.

(** C1 as stated fails.  A TRANSFER without [toAccountId] is passed over,
    so the source account keeps 500 where the formula subtracts 30; and of
    two accounts listed under one id the balance starts from the second,
    5, where the formula starts from the initial balance of each, 100 for
    the first. *)
Lemma balance_formula_fails :
  (∃ a, a ∈ example_accounts
        ∧ accountBalances example_accounts (example_transactions ++ [dangling_transfer])
            !! Account.id a
          = Some (of_Z 500)
        ∧ add (Account.initialBalance a)
            (signed_sum (Account.id a) (example_transactions ++ [dangling_transfer]))
          = of_Z 470)
  ∧ (∃ a, a ∈ twice_listed
          ∧ accountBalances twice_listed [] !! Account.id a = Some (of_Z 5)
          ∧ add (Account.initialBalance a) (signed_sum (Account.id a) []) = of_Z 100)
  ∧ of_Z 500 ≠ of_Z 470 ∧ of_Z 5 ≠ of_Z 100.
Proof.
  split; [|split; [|split; apply of_Z_neq; discriminate]].
  - exists (Account.mk "a1" "Wallet" CASH (of_Z 2000) "bg-orange-500").
    split; [by left|]. split.
    + destruct (accountBalances _ _ !! _) as [[|q|]|] eqn:E; vm_compute in E;
        try discriminate E.
      injection E as <-. unfold of_Z. do 2 f_equal. by apply Qc_is_canon.
    + destruct (add _ _) as [|q|] eqn:E; vm_compute in E; try discriminate E.
      injection E as <-. unfold of_Z. f_equal. by apply Qc_is_canon.
  - exists (Account.mk "a1" "Wallet" CASH (of_Z 100) "bg-orange-500").
    split; [by left|]. split; [reflexivity|]. apply add_zero_r.
Qed.

(** C1, amended. For an account list with distinct ids and transactions
    that name their transfer destinations, the initial balances and the
    numeric amounts being whole numbers whose absolute values add up to at
    most 2^53, the balance object maps every listed account's id to its
    initial balance plus the signed sum of the contributions of the
    transactions (INCOME adds to accountId, EXPENSE subtracts from it,
    TRANSFER subtracts from accountId and adds to toAccountId); every listed
    account has an entry whatever the accounts and the transactions are; and
    for such whole numbers the whole result is the same for every
    permutation of the transaction list. *)
Theorem accountBalances_correct
  (accounts : list Account.t) (transactions : list Transaction.t) :
  (NoDup (Account.id <$> accounts) →
   Forall has_destination transactions →
   safe_integers (ledger_numbers accounts transactions) →
   ∀ a, a ∈ accounts →
     accountBalances accounts transactions !! Account.id a
     = Some (add (Account.initialBalance a) (signed_sum (Account.id a) transactions)))
  ∧ (∀ a, a ∈ accounts →
       is_Some (accountBalances accounts transactions !! Account.id a))
  ∧ (safe_integers (ledger_numbers accounts transactions) →
     ∀ shuffled, Permutation transactions shuffled →
       accountBalances accounts shuffled = accountBalances accounts transactions).
Proof.
  unfold accountBalances. repeat split.
  - intros Hnd Hdest _ a Ha.
    rewrite foldl_apply_transaction, lookup_foldl_post.
    rewrite (lookup_seed_listed accounts a Hnd Ha), foldl_bump_Some.
    by rewrite posted_flat_map.
  - intros a Ha.
    rewrite foldl_apply_transaction, lookup_foldl_post.
    apply foldl_bump_is_Some, lookup_seed_is_Some. left.
    by apply list_elem_of_fmap_2.
  - intros _ shuffled Hperm. apply map_eq. intros k.
    rewrite !foldl_apply_transaction, !lookup_foldl_post.
    apply foldl_bump_perm, postings_perm. by symmetry.
Qed.

Lemma example_ledger_safe :
  safe_integers (ledger_numbers example_accounts example_transactions).
Proof.
  exists [2000; 150000; 500; 1000]. split; [reflexivity|]. vm_compute. discriminate.
Qed.

Lemma accountBalances_correct_witness :
  accountBalances example_accounts example_transactions !! "a2"
  = Some (add (of_Z 150000) (signed_sum "a2" example_transactions)).
Proof.
  refine (proj1 (accountBalances_correct example_accounts example_transactions)
            _ _ example_ledger_safe (Account.mk "a2" "Bank" BANK (of_Z 150000) "bg-blue-500") _).
  - apply (bool_decide_unpack _). vm_compute. exact I.
  - repeat constructor; intros H; try discriminate H; reflexivity.
  - unfold example_accounts. repeat constructor.
Defined.

(** The worked example of the specification: [{a1: 500, a2: 151000}]. *)
Example example_balances :
  accountBalances example_accounts example_transactions !! "a1" = Some (of_Z 500)
  ∧ accountBalances example_accounts example_transactions !! "a2" = Some (of_Z 151000).
Proof.
  split.
  - destruct (accountBalances example_accounts example_transactions !! "a1")
      as [[|q|]|] eqn:E; vm_compute in E; try discriminate E.
    injection E as <-. unfold of_Z. do 2 f_equal. by apply Qc_is_canon.
  - destruct (accountBalances example_accounts example_transactions !! "a2")
      as [[|q|]|] eqn:E; vm_compute in E; try discriminate E.
    injection E as <-. unfold of_Z. do 2 f_equal. by apply Qc_is_canon.
Qed.

(** C2 as stated fails: a TRANSFER without [toAccountId] leaves the source
    account at 100 instead of debiting 30 from it. *)
Lemma dangling_transfer_source_not_debited :
  accountBalances [Account.mk "a1" "Wallet" CASH (of_Z 100) "bg-orange-500"]
    [dangling_transfer] !! "a1" = Some (of_Z 100)
  ∧ of_Z 100 ≠ sub (of_Z 100) (of_Z 30).
Proof.
  split; [reflexivity|].
  intros H. apply (f_equal (λ x, match x with Fin q => this q | _ => 0%Q end)) in H.
  vm_compute in H. discriminate H.
Qed.

(** C2, amended. A TRANSFER whose [toAccountId] is absent (or empty) is
    skipped as a whole: the balance object is returned unchanged, neither the
    source is debited nor any account credited, and removing such a
    transaction from the list changes no balance. *)
Theorem transfer_without_destination_is_skipped
  (tx : Transaction.t) :
  Transaction.type tx = TRANSFER →
  truthy (Transaction.toAccountId tx) = false →
  (∀ bals : gmap string number, apply_transaction bals tx = bals)
  ∧ (∀ accounts before after,
       accountBalances accounts (before ++ tx :: after)
       = accountBalances accounts (before ++ after)).
Proof.
  intros Htype Hfalsy.
  assert (Hskip : ∀ bals : gmap string number, apply_transaction bals tx = bals).
  { intros bals. unfold apply_transaction. rewrite Htype.
    destruct (isNaN (Transaction.amount tx)); [reflexivity|].
    destruct (Transaction.toAccountId tx) as [to_|]; [|reflexivity].
    simpl in Hfalsy. apply negb_false_iff in Hfalsy. by rewrite Hfalsy. }
  split; [exact Hskip|].
  intros accounts before after. unfold accountBalances.
  rewrite !foldl_app. simpl. by rewrite Hskip.
Qed.

Lemma transfer_without_destination_is_skipped_witness :
  accountBalances example_accounts (example_transactions ++ dangling_transfer :: [])
  = accountBalances example_accounts (example_transactions ++ []).
Proof.
  apply (proj2 (transfer_without_destination_is_skipped dangling_transfer
                  eq_refl eq_refl)).
Defined.

End Ledger.

(** ** The host's [Date] *)

Section DateLaws.
Import Date.

Lemma digit_value_digit (k : Z) : 0 <= k <= 9 → digit_value (digit k) = Some k.
Proof.
  intros Hk.
  assert (H : k = 0 ∨ k = 1 ∨ k = 2 ∨ k = 3 ∨ k = 4 ∨ k = 5 ∨ k = 6 ∨ k = 7
              ∨ k = 8 ∨ k = 9) by lia.
  repeat destruct H as [->|H]; try subst k; reflexivity.
Qed.

Lemma mod10_digit (n : Z) : 0 <= n mod 10 <= 9.
Proof. pose proof (Z.mod_pos_bound n 10). lia. Qed.

Lemma digits_value_2 (n : Z) :
  0 <= n <= 99 →
  digits_value 0 [digit (n / 10 mod 10); digit (n mod 10)] = Some n.
Proof.
  intros Hn. cbn [digits_value].
  rewrite !digit_value_digit by apply mod10_digit.
  f_equal. Z.div_mod_to_equations. lia.
Qed.

Lemma digits_value_4 (n : Z) :
  0 <= n <= 9999 →
  digits_value 0 [digit (n / 1000 mod 10); digit (n / 100 mod 10);
                  digit (n / 10 mod 10); digit (n mod 10)] = Some n.
Proof.
  intros Hn. cbn [digits_value].
  rewrite !digit_value_digit by apply mod10_digit.
  f_equal. Z.div_mod_to_equations. lia.
Qed.

Lemma digits_value_6 (n : Z) :
  0 <= n <= 999999 →
  digits_value 0 [digit (n / 100000 mod 10); digit (n / 10000 mod 10);
                  digit (n / 1000 mod 10); digit (n / 100 mod 10);
                  digit (n / 10 mod 10); digit (n mod 10)] = Some n.
Proof.
  intros Hn. cbn [digits_value].
  rewrite !digit_value_digit by apply mod10_digit.
  f_equal. Z.div_mod_to_equations. lia.
Qed.

Lemma days_in_month_bounds (y m : Z) : 28 <= days_in_month y m <= 31.
Proof.
  unfold days_in_month.
  destruct (m =? 1); [destruct (is_leap y); lia|].
  destruct ((m =? 3) || (m =? 5) || (m =? 8) || (m =? 10)); lia.
Qed.

Lemma of_parts_valid (y m d : Z) (ys ms ds : list ascii) :
  digits_value 0 ys = Some y →
  digits_value 0 ms = Some (m + 1) →
  digits_value 0 ds = Some d →
  valid (mk y m d) →
  of_parts false ys ms ds = Some (mk y m d).
Proof.
  intros Hy Hm Hd [Hmonth Hday]. simpl in Hmonth, Hday.
  unfold of_parts. rewrite Hy, Hm, Hd. cbn [andb].
  replace (m + 1 - 1) with m by lia.
  destruct (Z.leb_spec 1 (m + 1)); [|lia].
  destruct (Z.leb_spec (m + 1) 12); [|lia].
  destruct (Z.leb_spec 1 d); [|lia].
  destruct (Z.leb_spec d (days_in_month y m)); [|lia].
  reflexivity.
Qed.

(** A formatted date reads back as itself. *)
Lemma parse_toISODate (d : fields) :
  valid d → 0 <= getFullYear d <= 999999 → parse (toISODate d) = Some d.
Proof.
  destruct d as [y m dd]. intros Hv Hy. pose proof Hv as [Hm Hd].
  pose proof (days_in_month_bounds y m). simpl in *.
  unfold toISODate, iso_year. cbn [getFullYear getMonth getDate].
  destruct ((0 <=? y) && (y <=? 9999)) eqn:Hsmall.
  - apply andb_prop in Hsmall as [H0 H1]. apply Z.leb_le in H0, H1.
    unfold parse, pad4, pad2. cbn [append list_ascii_of_string].
    change (Ascii.eqb "-" "-") with true. cbn [andb].
    apply of_parts_valid; [apply digits_value_4|apply digits_value_2|apply digits_value_2|]; try lia; exact Hv.
  - assert (9999 < y) by (destruct (Z.leb_spec 0 y), (Z.leb_spec y 9999); simpl in Hsmall; try discriminate; lia).
    destruct (Z.ltb_spec y 0); [lia|].
    unfold parse, pad6, pad4, pad2. cbn [append list_ascii_of_string].
    change (Ascii.eqb "-" "-") with true. change (Ascii.eqb "+" "+") with true.
    change (Ascii.eqb "+" "-") with false. cbn [andb orb].
    apply of_parts_valid; [apply digits_value_6|apply digits_value_2|apply digits_value_2|]; try lia; exact Hv.
Qed.

Lemma carry_fits (fuel : nat) (y m d : Z) :
  d <= days_in_month y m → carry fuel y m d = mk y m d.
Proof.
  intros Hd. destruct fuel as [|fuel]; [reflexivity|]. simpl.
  destruct (Z.gtb_spec d (days_in_month y m)); [lia|reflexivity].
Qed.

(** [MakeDay] on the arguments the setters below receive: a month from 0 to
    12 and a day from 1 to 38. *)
Lemma MakeDay_spec (year month date : Z) :
  0 <= month <= 12 → 1 <= date <= 38 →
  MakeDay year month date =
    let ym := if month =? 12 then year + 1 else year in
    let mn := if month =? 12 then 0 else month in
    if date >? days_in_month ym mn
    then mk (if mn =? 11 then ym + 1 else ym) (if mn =? 11 then 0 else mn + 1)
           (date - days_in_month ym mn)
    else mk ym mn date.
Proof.
  intros Hm Hd. unfold MakeDay.
  assert (Hdiv : year + month / 12 = (if month =? 12 then year + 1 else year)
                 ∧ month mod 12 = (if month =? 12 then 0 else month)).
  { destruct (Z.eqb_spec month 12) as [->|Hne]; [split; reflexivity|].
    rewrite Z.div_small, Z.mod_small by lia. split; lia. }
  destruct Hdiv as [-> ->]. cbv zeta.
  set (ym := if month =? 12 then year + 1 else year).
  set (mn := if month =? 12 then 0 else month).
  destruct (Z.to_nat date) as [|fuel] eqn:Hfuel; [lia|]. cbn [carry].
  destruct (Z.gtb_spec date (days_in_month ym mn)); [|reflexivity].
  apply carry_fits.
  pose proof (days_in_month_bounds ym mn).
  pose proof (days_in_month_bounds (if mn =? 11 then ym + 1 else ym)
                (if mn =? 11 then 0 else mn + 1)).
  lia.
Qed.

Lemma MakeDay_valid (year month date : Z) :
  0 <= month <= 12 → 1 <= date <= 38 →
  valid (MakeDay year month date)
  ∧ year <= getFullYear (MakeDay year month date) <= year + 1.
Proof.
  intros Hm Hd. rewrite MakeDay_spec by assumption. cbv zeta.
  set (ym := if month =? 12 then year + 1 else year).
  set (mn := if month =? 12 then 0 else month).
  assert (Hmn : 0 <= mn <= 11) by (subst mn; destruct (Z.eqb_spec month 12); lia).
  assert (Hym : year <= ym <= year + 1 ∧ (ym = year + 1 → mn = 0))
    by (subst ym mn; destruct (Z.eqb_spec month 12); lia).
  pose proof (days_in_month_bounds ym mn).
  pose proof (days_in_month_bounds (if mn =? 11 then ym + 1 else ym)
                (if mn =? 11 then 0 else mn + 1)).
  destruct (Z.gtb_spec date (days_in_month ym mn)); unfold valid; simpl;
    destruct (Z.eqb_spec mn 11); lia.
Qed.

Lemma short_month (y m : Z) :
  days_in_month y m < 31 → m = 1 ∨ m = 3 ∨ m = 5 ∨ m = 8 ∨ m = 10.
Proof.
  unfold days_in_month.
  destruct (Z.eqb_spec m 1); [lia|].
  destruct (Z.eqb_spec m 3), (Z.eqb_spec m 5), (Z.eqb_spec m 8), (Z.eqb_spec m 10);
    simpl; lia.
Qed.

End DateLaws.


(** ** Day numbers *)

Section DayNumbers.
Import Date.

Lemma year_length (y : Z) :
  DayFromYear (y + 1) - DayFromYear y = if is_leap y then 366 else 365.
Proof.
  unfold DayFromYear, is_leap.
  destruct (Z.eqb_spec (y mod 4) 0), (Z.eqb_spec (y mod 100) 0), (Z.eqb_spec (y mod 400) 0);
    cbn [andb orb negb]; Z.div_mod_to_equations; lia.
Qed.

Lemma DayFromYear_mono (y y' : Z) : y <= y' → DayFromYear y <= DayFromYear y'.
Proof. unfold DayFromYear. intros Hy. Z.div_mod_to_equations. lia. Qed.

Lemma days_before_month_succ (y : Z) (m : nat) :
  days_before_month y (Z.of_nat (S m))
  = days_before_month y (Z.of_nat m) + days_in_month y (Z.of_nat m).
Proof.
  unfold days_before_month. rewrite !Nat2Z.id.
  rewrite seq_S, foldr_app. cbn [foldr plus].
  generalize (seq 0 m). intros l. induction l as [|k l IH]; cbn [foldr]; lia.
Qed.

Lemma days_before_month_mono (y : Z) (m m' : nat) :
  (m <= m')%nat → days_before_month y (Z.of_nat m) <= days_before_month y (Z.of_nat m').
Proof.
  induction 1 as [|m' _ IH]; [lia|].
  rewrite days_before_month_succ. pose proof (days_in_month_bounds y (Z.of_nat m')). lia.
Qed.

Lemma days_before_month_12 (y : Z) :
  days_before_month y 12 = if is_leap y then 366 else 365.
Proof.
  change 12 with (Z.of_nat 12). rewrite !days_before_month_succ.
  change (days_before_month y (Z.of_nat 0)) with 0.
  unfold days_in_month. cbn. by destruct (is_leap y).
Qed.

(** The day numbers follow the calendar. *)
Lemma Day_lt (d e : fields) :
  valid d → valid e → calendar_ordinal d < calendar_ordinal e → Day d < Day e.
Proof.
  destruct d as [y m dd], e as [y' m' dd'].
  intros [Hm Hd] [Hm' Hd'] Hord. unfold calendar_ordinal in Hord. simpl in *.
  pose proof (days_in_month_bounds y m). pose proof (days_in_month_bounds y' m').
  unfold Day. cbn [getFullYear getMonth getDate].
  assert (Hend : ∀ y (n : nat) dd,
            (n <= 11)%nat → 1 <= dd <= days_in_month y (Z.of_nat n) →
            0 <= days_before_month y (Z.of_nat n)
            ∧ days_before_month y (Z.of_nat n) + dd <= days_before_month y (Z.of_nat (S n))
            ∧ days_before_month y (Z.of_nat (S n)) <= DayFromYear (y + 1) - DayFromYear y).
  { clear. intros y n dd Hn Hd.
    rewrite year_length, <- days_before_month_12.
    split; [|split].
    - change 0 with (days_before_month y (Z.of_nat 0)). apply days_before_month_mono. lia.
    - rewrite days_before_month_succ. lia.
    - change 12 with (Z.of_nat 12). apply days_before_month_mono. lia. }
  destruct (Hend y (Z.to_nat m) dd) as (Ha0 & Ha1 & Ha2); [lia|by rewrite Z2Nat.id by lia|].
  destruct (Hend y' (Z.to_nat m') dd') as (Hb0 & Hb1 & Hb2);
    [lia|by rewrite Z2Nat.id by lia|].
  replace (Z.of_nat (S (Z.to_nat m))) with (m + 1) in * by lia.
  replace (Z.of_nat (S (Z.to_nat m'))) with (m' + 1) in * by lia.
  rewrite Z2Nat.id in * by lia.
  destruct (Z.lt_trichotomy y y') as [Hy|[<-|Hy]]; [| |lia].
  - pose proof (DayFromYear_mono (y + 1) y'). lia.
  - destruct (Z.lt_trichotomy m m') as [Hmm|[<-|Hmm]]; [|lia|lia].
    assert (days_before_month y (m + 1) <= days_before_month y m'); [|lia].
    rewrite <- (Z2Nat.id (m + 1)), <- (Z2Nat.id m') by lia.
    apply days_before_month_mono. lia.
Qed.

Lemma Day_le (d e : fields) :
  valid d → valid e → (Day d <= Day e ↔ calendar_ordinal d <= calendar_ordinal e).
Proof.
  intros Hd He. split; intros Hle.
  - destruct (Z.le_gt_cases (calendar_ordinal d) (calendar_ordinal e)) as [|Hgt]; [done|].
    apply (Day_lt e d He Hd) in Hgt. lia.
  - destruct (Z.le_gt_cases (Day d) (Day e)) as [|Hgt]; [done|].
    destruct (Z.eq_dec (calendar_ordinal d) (calendar_ordinal e)) as [Heq|Hne].
    + destruct d as [y m dd], e as [y' m' dd']. destruct Hd as [Hm Hdd], He as [Hm' Hdd'].
      unfold calendar_ordinal in Heq. simpl in *.
      pose proof (days_in_month_bounds y m). pose proof (days_in_month_bounds y' m').
      assert (y = y' ∧ m = m' ∧ dd = dd') as (-> & -> & ->) by lia. lia.
    + assert (Hlt : calendar_ordinal d < calendar_ordinal e) by lia.
      apply (Day_lt d e Hd He) in Hlt. lia.
Qed.

End DayNumbers.

(** ** Time values *)

Section TimeValues.
Import Date.

Lemma Day_first (y m d : Z) : Day (mk y m d) = Day (mk y m 1) + d - 1.
Proof. unfold Day. cbn [getFullYear getMonth getDate]. lia. Qed.

(** From the first of a month to the first of the next. *)
Lemma Day_following_month (y m : Z) :
  0 <= m <= 11 →
  Day (mk (if m =? 11 then y + 1 else y) (if m =? 11 then 0 else m + 1) 1)
  = Day (mk y m 1) + days_in_month y m.
Proof.
  intros Hm. unfold Day. cbn [getFullYear getMonth getDate].
  destruct (Z.eqb_spec m 11) as [->|Hne].
  - pose proof (year_length y) as Hlen. rewrite <- days_before_month_12 in Hlen.
    change (days_before_month (y + 1) 0) with 0.
    change 12 with (Z.of_nat 12) in Hlen. rewrite days_before_month_succ in Hlen.
    change (Z.of_nat 11) with 11 in Hlen. lia.
  - replace (m + 1) with (Z.of_nat (S (Z.to_nat m))) by lia.
    rewrite days_before_month_succ, Z2Nat.id by lia. lia.
Qed.

(** From the first of a month to the first of the month before. *)
Lemma Day_preceding_month (y m : Z) :
  0 <= m <= 11 →
  Day (mk (if m =? 0 then y - 1 else y) (if m =? 0 then 11 else m - 1) 1)
  = Day (mk y m 1)
    - days_in_month (if m =? 0 then y - 1 else y) (if m =? 0 then 11 else m - 1).
Proof.
  intros Hm.
  pose proof (Day_following_month (if m =? 0 then y - 1 else y)
                (if m =? 0 then 11 else m - 1)) as H.
  destruct (Z.eqb_spec m 0) as [->|Hne].
  - change (11 =? 11) with true in H. cbv iota in H.
    replace (y - 1 + 1) with y in H by lia. rewrite H by lia. lia.
  - destruct (Z.eqb_spec (m - 1) 11); [lia|].
    replace (m - 1 + 1) with m in H by lia. rewrite H by lia. lia.
Qed.

(** [carry] keeps the day number and ends on a calendar date. *)
Lemma carry_Day (fuel : nat) :
  ∀ y m d, 0 <= m <= 11 → 1 <= d → (Z.to_nat d <= fuel)%nat →
    valid (carry fuel y m d) ∧ Day (carry fuel y m d) = Day (mk y m 1) + d - 1.
Proof.
  induction fuel as [|fuel IH]; intros y m d Hm Hd Hfuel; [lia|].
  cbn [carry]. pose proof (days_in_month_bounds y m).
  destruct (Z.gtb_spec d (days_in_month y m)) as [Hover|Hfit].
  - destruct (IH (if m =? 11 then y + 1 else y) (if m =? 11 then 0 else m + 1)
                (d - days_in_month y m)) as [Hv Hday];
      [destruct (Z.eqb_spec m 11); lia|lia|lia|].
    split; [exact Hv|]. rewrite Hday, Day_following_month by assumption. lia.
  - split; [split; cbn; lia|]. apply Day_first.
Qed.

(** So does [borrow]. *)
Lemma borrow_Day (fuel : nat) :
  ∀ y m d, 0 <= m <= 11 → d <= days_in_month y m → (Z.to_nat (1 - d) <= fuel)%nat →
    valid (borrow fuel y m d) ∧ Day (borrow fuel y m d) = Day (mk y m 1) + d - 1.
Proof.
  induction fuel as [|fuel IH]; intros y m d Hm Hd Hfuel.
  - cbn [borrow]. split; [split; cbn; lia|]. apply Day_first.
  - cbn [borrow]. destruct (Z.ltb_spec d 1) as [Hlow|Hfit].
    + cbv zeta.
      pose proof (days_in_month_bounds (if m =? 0 then y - 1 else y)
                    (if m =? 0 then 11 else m - 1)).
      destruct (IH (if m =? 0 then y - 1 else y) (if m =? 0 then 11 else m - 1)
                  (d + days_in_month (if m =? 0 then y - 1 else y)
                         (if m =? 0 then 11 else m - 1))) as [Hv Hday];
        [destruct (Z.eqb_spec m 0); lia|lia|lia|].
      split; [exact Hv|]. rewrite Hday, Day_preceding_month by assumption. lia.
    + split; [split; cbn; lia|]. apply Day_first.
Qed.

(** [date_of_day] gives the calendar date that has the day number. *)
Lemma Day_date_of_day (n : Z) : valid (date_of_day n) ∧ Day (date_of_day n) = n.
Proof.
  unfold date_of_day. destruct (Z.ltb_spec n 0) as [Hneg|Hpos].
  - destruct (borrow_Day (Z.to_nat (- n)) 1970 0 (n + 1)) as [Hv Hday];
      [lia|change (days_in_month 1970 0) with 31; lia|lia|].
    split; [exact Hv|]. rewrite Hday. change (Day (mk 1970 0 1)) with 0. lia.
  - destruct (carry_Day (Z.to_nat (n + 1)) 1970 0 (n + 1)) as [Hv Hday]; [lia|lia|lia|].
    split; [exact Hv|]. rewrite Hday. change (Day (mk 1970 0 1)) with 0. lia.
Qed.

Lemma Day_inj (d e : fields) : valid d → valid e → Day d = Day e → d = e.
Proof.
  intros Hd He Heq.
  destruct (Z.lt_trichotomy (calendar_ordinal d) (calendar_ordinal e)) as [Hlt|[Hord|Hlt]].
  - apply (Day_lt d e Hd He) in Hlt. lia.
  - destruct d as [y m dd], e as [y' m' dd']. destruct Hd as [Hm Hdd], He as [Hm' Hdd'].
    unfold calendar_ordinal in Hord. simpl in *.
    pose proof (days_in_month_bounds y m). pose proof (days_in_month_bounds y' m').
    assert (y = y' ∧ m = m' ∧ dd = dd') as (-> & -> & ->) by lia. reflexivity.
  - apply (Day_lt e d He Hd) in Hlt. lia.
Qed.

Lemma date_of_day_Day (d : fields) : valid d → date_of_day (Day d) = d.
Proof.
  intros Hd. destruct (Day_date_of_day (Day d)) as [Hv Hday]. by apply Day_inj.
Qed.

(** The day numbers of the years from 0 to 200002 are time values. *)
Lemma Day_in_range (d : fields) :
  valid d → 0 <= getFullYear d <= 200002 →
  Z.abs (Day d * msPerDay) <= 8640000000000000.
Proof.
  destruct d as [y m dd]. intros [Hm Hd] Hy. simpl in *.
  pose proof (days_in_month_bounds y m).
  assert (Hin : 0 <= days_before_month y m
                ∧ days_before_month y m + dd <= 366).
  { rewrite <- (Z2Nat.id m) in * by lia.
    pose proof (days_before_month_mono y 0 (Z.to_nat m) ltac:(lia)) as H0.
    pose proof (days_before_month_mono y (S (Z.to_nat m)) 12 ltac:(lia)) as H1.
    rewrite days_before_month_succ in H1.
    change (days_before_month y (Z.of_nat 0)) with 0 in H0.
    change (Z.of_nat 12) with 12 in H1. rewrite days_before_month_12 in H1.
    destruct (is_leap y); lia. }
  unfold Day, DayFromYear, msPerDay. cbn [getFullYear getMonth getDate].
  Z.div_mod_to_equations. lia.
Qed.

Lemma TimeClip_Day (d : fields) :
  valid d → 0 <= getFullYear d <= 200002 →
  DateObj.TimeClip (Day d * msPerDay) = Some (Day d * msPerDay).
Proof.
  intros Hv Hy. unfold DateObj.TimeClip.
  pose proof (Day_in_range d Hv Hy).
  by destruct (Z.leb_spec (Z.abs (Day d * msPerDay)) 8640000000000000); [|lia].
Qed.

(** [toISOString] on the start of a day. *)
Lemma toISODate_midnight (d : fields) :
  valid d → DateObj.toISODate (Some (Day d * msPerDay)) = Returns (toISODate d).
Proof.
  intros Hv. unfold DateObj.toISODate.
  rewrite Z.div_mul by (unfold msPerDay; lia). by rewrite date_of_day_Day.
Qed.

Section AnyHost.
Context {host : Host}.

(** A date-only string is read as the start of that day in UTC, in every
    host. *)
Lemma of_string_toISODate (d : fields) :
  valid d → 0 <= getFullYear d <= 200002 →
  DateObj.of_string (toISODate d) = Some (Day d * msPerDay).
Proof.
  intros Hv Hy. unfold DateObj.of_string.
  rewrite parse_toISODate by (assumption || lia). by apply TimeClip_Day.
Qed.

Lemma getTime_toISODate (d : fields) :
  valid d → 0 <= getFullYear d <= 200002 →
  DateObj.getTime (DateObj.of_string (toISODate d)) = JS.of_Z (Day d * msPerDay).
Proof. intros Hv Hy. by rewrite of_string_toISODate. Qed.

(** In a host east of UTC the local date at the start of a day in UTC is
    the date of that day, and the setters step on the calendar as the
    setters on calendar fields do. *)
Section East.
Hypothesis Heast : east_of_UTC host.

Lemma local_midnight (d : fields) :
  valid d → date_of_day (DateObj.LocalTime (Day d * msPerDay) / msPerDay) = d.
Proof.
  intros Hv.
  destruct Heast as (offset & Hoff & Hfix). unfold DateObj.LocalTime. rewrite Hfix.
  unfold msPerDay in *. rewrite Z.div_add_l, Z.div_small by lia.
  rewrite Z.add_0_r. by apply date_of_day_Day.
Qed.

Lemma local_fields_midnight (d : fields) :
  valid d → DateObj.local_fields (Day d * msPerDay) = d.
Proof. intros Hv. unfold DateObj.local_fields. by apply local_midnight. Qed.

Lemma getFullYear_midnight (d : fields) :
  valid d → DateObj.getFullYear (Some (Day d * msPerDay)) = Some (getFullYear d).
Proof. intros Hv. cbn. by rewrite local_fields_midnight. Qed.

Lemma getMonth_midnight (d : fields) :
  valid d → DateObj.getMonth (Some (Day d * msPerDay)) = Some (getMonth d).
Proof. intros Hv. cbn. by rewrite local_fields_midnight. Qed.

Lemma getDate_midnight (d : fields) :
  valid d → DateObj.getDate (Some (Day d * msPerDay)) = Some (getDate d).
Proof. intros Hv. cbn. by rewrite local_fields_midnight. Qed.

(** The local time set from calendar fields is converted back to the start
    of the day in UTC. *)
Lemma set_midnight (d : fields) (day : Z) :
  valid d →
  DateObj.UTC (DateObj.MakeDate day (DateObj.LocalTime (Day d * msPerDay) mod msPerDay))
  = day * msPerDay.
Proof.
  intros Hv. destruct Heast as (offset & Hoff & Hfix).
  unfold DateObj.UTC, DateObj.MakeDate, DateObj.LocalTime. rewrite !Hfix.
  unfold msPerDay in *.
  replace ((Day d * 86400000 + offset) mod 86400000) with offset; [lia|].
  by rewrite Z.add_comm, Z_mod_plus_full, Z.mod_small by lia.
Qed.

Lemma MakeDay_Day (year month date : Z) :
  1 <= date →
  valid (MakeDay year month date)
  ∧ DateObj.MakeDay year month date = Day (MakeDay year month date).
Proof.
  intros Hd. unfold MakeDay, DateObj.MakeDay.
  destruct (carry_Day (Z.to_nat date) (year + month / 12) (month mod 12) date)
    as [Hv Hday]; [pose proof (Z.mod_pos_bound month 12); lia|lia|lia|].
  split; [exact Hv|]. by rewrite Hday.
Qed.

Lemma setDate_midnight (d : fields) (date : Z) :
  valid d → 1 <= date → 0 <= getFullYear (setDate d date) <= 200002 →
  DateObj.setDate (Some (Day d * msPerDay)) (Some date)
  = Some (Day (setDate d date) * msPerDay).
Proof.
  intros Hv Hd Hy. unfold DateObj.setDate. cbv zeta.
  rewrite (local_midnight d Hv), set_midnight by assumption.
  destruct (MakeDay_Day (getFullYear d) (getMonth d) date Hd) as [Hv' ->].
  by apply TimeClip_Day.
Qed.

Lemma setMonth_midnight (d : fields) (month : Z) :
  valid d → 0 <= getFullYear (setMonth d month) <= 200002 →
  DateObj.setMonth (Some (Day d * msPerDay)) (Some month)
  = Some (Day (setMonth d month) * msPerDay).
Proof.
  intros Hv Hy. unfold DateObj.setMonth. cbv zeta.
  rewrite (local_midnight d Hv), set_midnight by assumption.
  destruct (MakeDay_Day (getFullYear d) month (getDate d)) as [Hv' ->]; [apply Hv|].
  by apply TimeClip_Day.
Qed.

Lemma setFullYear_midnight (d : fields) (year : Z) :
  valid d → 0 <= getFullYear (setFullYear d year) <= 200002 →
  DateObj.setFullYear (Some (Day d * msPerDay)) (Some year)
  = Some (Day (setFullYear d year) * msPerDay).
Proof.
  intros Hv Hy. unfold DateObj.setFullYear. cbv zeta.
  rewrite (local_midnight d Hv), set_midnight by assumption.
  destruct (MakeDay_Day year (getMonth d) (getDate d)) as [Hv' ->]; [apply Hv|].
  by apply TimeClip_Day.
Qed.

End East.
End AnyHost.
End TimeValues.
(** ** RecurrenceScheduler *)

Section Scheduler.
Import Date.


Lemma next_month_cases (d : fields) :
  valid d →
  (getDate d <= days_in_month (getFullYear (next_month d)) (getMonth (next_month d))
   ∧ next_month d
     = mk (if getMonth d =? 11 then getFullYear d + 1 else getFullYear d)
          (if getMonth d =? 11 then 0 else getMonth d + 1) (getDate d))
  ∨ (getMonth d <= 9
     ∧ 28 < getDate d
     ∧ 1 <= getDate (next_month d) <= 3
     ∧ getFullYear (next_month d) = getFullYear d
     ∧ getMonth (next_month d) = getMonth d + 2).
Proof.
  destruct d as [y m dd]. intros [Hm Hd]. simpl in Hm, Hd.
  pose proof (days_in_month_bounds y m).
  unfold next_month, setMonth. cbn [getFullYear getMonth getDate].
  rewrite MakeDay_spec by lia. cbv zeta.
  destruct (Z.eqb_spec (m + 1) 12) as [H12|H12].
  - assert (m = 11) as -> by lia. left.
    change (days_in_month (y + 1) 0) with 31.
    destruct (Z.gtb_spec dd 31); [lia|]. cbn [getFullYear getMonth getDate].
    split; [change (days_in_month (y + 1) 0) with 31; lia|reflexivity].
  - destruct (Z.eqb_spec m 11); [lia|].
    destruct (Z.gtb_spec dd (days_in_month y (m + 1))) as [Hover|Hfit].
    + right. pose proof (days_in_month_bounds y (m + 1)).
      assert (Hshort : days_in_month y (m + 1) < 31) by lia.
      apply short_month in Hshort.
      destruct (Z.eqb_spec (m + 1) 11); [lia|].
      cbn [getFullYear getMonth getDate]. lia.
    + left. cbn [getFullYear getMonth getDate]. split; [lia|reflexivity].
Qed.

Lemma next_month_valid (d : fields) :
  valid d →
  valid (next_month d) ∧ getFullYear d <= getFullYear (next_month d) <= getFullYear d + 1.
Proof.
  intros [Hm Hd]. pose proof (days_in_month_bounds (getFullYear d) (getMonth d)).
  apply MakeDay_valid; lia.
Qed.

Lemma parity_reached_flip (freq : Frequency) (d e : fields) :
  bimonthly freq →
  (getMonth e + 1) mod 2 = (getMonth d + 2) mod 2 →
  parity_reached freq e = negb (parity_reached freq d).
Proof.
  intros [-> | ->] He; unfold parity_reached; cbv zeta; rewrite He;
    destruct (Z.eqb_spec ((getMonth d + 2) mod 2) 0),
             (Z.eqb_spec ((getMonth d + 1) mod 2) 0); simpl; try reflexivity;
    exfalso; Z.div_mod_to_equations; lia.
Qed.

(** A valid date leaves the parity loop at the first, second or third test. *)
Lemma until_parity_exits (fuel : nat) (freq : Frequency) (d : fields) :
  bimonthly freq → valid d →
  ∃ d', until_parity (S (S (S fuel))) freq d = Some d'
        ∧ valid d'
        ∧ getFullYear d <= getFullYear d' <= getFullYear d + 1.
Proof.
  intros Hfreq Hv. cbn [until_parity].
  destruct (parity_reached freq d) eqn:H0; [exists d; repeat split; try apply Hv; lia|].
  fold (next_month d).
  destruct (next_month_valid d Hv) as [Hv1 Hy1].
  destruct (next_month_cases d Hv) as [[_ Hfit] | (Hm & _ & Hday & Hyear & Hmonth)].
  - assert (H1 : parity_reached freq (next_month d) = true).
    { rewrite (parity_reached_flip freq d); [by rewrite H0|assumption|].
      rewrite Hfit. cbn [getMonth].
      destruct (Z.eqb_spec (getMonth d) 11) as [->|_]; [reflexivity|f_equal; lia]. }
    rewrite H1. exists (next_month d). repeat split; try apply Hv1; lia.
  - assert (H1 : parity_reached freq (next_month d) = false).
    { unfold parity_reached in *. cbv zeta in *. rewrite Hmonth.
      replace ((getMonth d + 2 + 1) mod 2) with ((getMonth d + 1) mod 2); [exact H0|].
      Z.div_mod_to_equations; lia. }
    rewrite H1. fold (next_month (next_month d)).
    destruct (next_month_valid _ Hv1) as [Hv2 Hy2].
    destruct (next_month_cases _ Hv1) as [[_ Hfit] | (_ & Hlate & _)]; [|lia].
    assert (H2 : parity_reached freq (next_month (next_month d)) = true).
    { rewrite (parity_reached_flip freq (next_month d)); [by rewrite H1|assumption|].
      rewrite Hfit. cbn [getMonth].
      destruct (Z.eqb_spec (getMonth (next_month d)) 11) as [->|_]; [reflexivity|f_equal; lia]. }
    rewrite H2. exists (next_month (next_month d)).
    repeat split; try apply Hv2; lia.
Qed.

(** What the loop returns is the first date of the [next_month] sequence
    whose month number has the parity asked for. *)
Lemma until_parity_first (fuel : nat) (freq : Frequency) :
  ∀ d d', until_parity fuel freq d = Some d' →
    ∃ n : nat, d' = Nat.iter n next_month d
      ∧ parity_reached freq d' = true
      ∧ ∀ k : nat, (k < n)%nat → parity_reached freq (Nat.iter k next_month d) = false.
Proof.
  induction fuel as [|fuel IH]; intros d d' H; [discriminate H|].
  cbn [until_parity] in H.
  destruct (parity_reached freq d) eqn:H0.
  - injection H as <-. exists 0%nat. repeat split; [exact H0|]. intros k Hk. lia.
  - apply IH in H as (n & -> & Hreached & Hfirst).
    exists (S n). repeat split.
    + clear. induction n as [|n IHn]; [reflexivity|]. simpl. by rewrite IHn.
    + exact Hreached.
    + intros [|k] Hk; [exact H0|].
      assert (Hshift : ∀ j, Nat.iter (S j) next_month d = Nat.iter j next_month (next_month d)).
      { clear. induction j as [|j IHj]; [reflexivity|]. simpl. simpl in IHj. by rewrite IHj. }
      rewrite Hshift. apply Hfirst. lia.
Qed.

Lemma iter_next_month_shift (n : nat) (d : fields) :
  Nat.iter n next_month (next_month d) = Nat.iter (S n) next_month d.
Proof. induction n as [|n IH]; [reflexivity|]. simpl. simpl in IH. by rewrite IH. Qed.

Lemma until_parity_valid (fuel : nat) (freq : Frequency) :
  ∀ d d', valid d → until_parity fuel freq d = Some d' →
    valid d' ∧ getFullYear d <= getFullYear d' <= getFullYear d + Z.of_nat fuel.
Proof.
  induction fuel as [|fuel IH]; intros d d' Hv H; [discriminate H|].
  cbn [until_parity] in H. destruct (parity_reached freq d).
  - injection H as <-. split; [exact Hv|lia].
  - fold (next_month d) in H. destruct (next_month_valid d Hv) as [Hv1 Hy1].
    destruct (IH _ _ Hv1 H) as [Hv' Hy']. split; [exact Hv'|lia].
Qed.

(** *** [getNextDate] in a host east of UTC

    There the [Date] object that [getNextDate] works on stays at the start of
    a day in UTC, and its local date is the date of that day: the function
    steps on the calendar. *)

Lemma parity_test_midnight {host : Host} (freq : Frequency) (d : fields) :
  east_of_UTC host → valid d →
  parity_test freq (Some (Day d * msPerDay)) = parity_reached freq d.
Proof.
  intros Heast Hv. unfold parity_test, parity_reached.
  by rewrite getMonth_midnight.
Qed.

Lemma parity_loop_midnight {host : Host} (freq : Frequency) (fuel : nat) :
  east_of_UTC host →
  ∀ d, valid d → 0 <= getFullYear d <= 200002 - Z.of_nat fuel →
    parity_loop fuel freq (Some (Day d * msPerDay))
    = fmap (M:=option) (λ d', Some (Day d' * msPerDay)) (until_parity fuel freq d).
Proof.
  intros Heast. induction fuel as [|fuel IH]; intros d Hv Hy; [reflexivity|].
  cbn [parity_loop until_parity]. rewrite parity_test_midnight by assumption.
  destruct (parity_reached freq d); [reflexivity|].
  rewrite getMonth_midnight by assumption. cbn [add_integer fmap option_fmap option_map].
  fold (next_month d). destruct (next_month_valid d Hv) as [Hv1 Hy1].
  rewrite setMonth_midnight by (assumption || (fold (next_month d); lia)).
  fold (next_month d). apply IH; [assumption|lia].
Qed.

(** In a host east of UTC [getNextDate] takes the calendar step. *)
Lemma getNextDate_calendar {host : Host} (d : fields) (freq : Frequency) :
  east_of_UTC host → valid d → 0 <= getFullYear d <= 100000 →
  getNextDate (toISODate d) freq = calendar_step d freq.
Proof.
  intros Heast Hv Hy. pose proof Hv as [Hm Hd].
  pose proof (days_in_month_bounds (getFullYear d) (getMonth d)).
  unfold getNextDate, calendar_step. rewrite of_string_toISODate by (assumption || lia).
  cbv zeta.
  rewrite getDate_midnight, getMonth_midnight, getFullYear_midnight by assumption.
  cbn [add_integer fmap option_fmap option_map].
  destruct (next_month_valid d Hv) as [Hv1 Hy1]. unfold next_month in Hv1, Hy1.
  assert (Hbi : match parity_loop parity_fuel freq (Some (Day (next_month d) * msPerDay)) with
                | Some d' => DateObj.toISODate d'
                | None => Hangs
                end
                = match until_parity parity_fuel freq (next_month d) with
                  | Some d' => Returns (toISODate d')
                  | None => Hangs
                  end).
  { rewrite parity_loop_midnight;
      [|assumption|assumption|unfold next_month, parity_fuel; lia].
    destruct (until_parity parity_fuel freq (next_month d)) as [d'|] eqn:Hloop;
      [|reflexivity].
    cbn [fmap option_fmap option_map]. apply toISODate_midnight.
    by apply (until_parity_valid _ _ _ _ Hv1 Hloop). }
  unfold next_month in Hbi.
  destruct freq.
  - destruct (MakeDay_valid (getFullYear d) (getMonth d) (getDate d + 1)) as [Hv' Hy'];
      [lia|lia|].
    rewrite setDate_midnight by (assumption || (unfold setDate; lia)).
    by apply toISODate_midnight.
  - destruct (MakeDay_valid (getFullYear d) (getMonth d) (getDate d + 7)) as [Hv' Hy'];
      [lia|lia|].
    rewrite setDate_midnight by (assumption || (unfold setDate; lia)).
    by apply toISODate_midnight.
  - rewrite setMonth_midnight by (assumption || lia). by apply toISODate_midnight.
  - rewrite setMonth_midnight by (assumption || lia). exact Hbi.
  - rewrite setMonth_midnight by (assumption || lia). exact Hbi.
  - destruct (MakeDay_valid (getFullYear d + 1) (getMonth d) (getDate d)) as [Hv' Hy'];
      [lia|lia|].
    rewrite setFullYear_midnight by (assumption || (unfold setFullYear; lia)).
    by apply toISODate_midnight.
Qed.

(** On the ISO string of a valid date [getNextDate] returns the ISO string of
    a valid date, at most two years later. *)
Lemma getNextDate_returns {host : Host} (d : fields) (freq : Frequency) :
  east_of_UTC host → valid d → 0 <= getFullYear d <= 100000 →
  ∃ d', getNextDate (toISODate d) freq = Returns (toISODate d')
        ∧ valid d'
        ∧ getFullYear d <= getFullYear d' <= getFullYear d + 2.
Proof.
  intros Heast Hv Hy. rewrite getNextDate_calendar by assumption. unfold calendar_step.
  pose proof Hv as [Hm Hd].
  pose proof (days_in_month_bounds (getFullYear d) (getMonth d)).
  assert (Hbi : bimonthly freq →
    ∃ d', match until_parity parity_fuel freq (setMonth d (getMonth d + 1)) with
          | Some d' => Returns (toISODate d')
          | None => Hangs
          end = Returns (toISODate d')
          ∧ valid d' ∧ getFullYear d <= getFullYear d' <= getFullYear d + 2).
  { intros Hfreq. fold (next_month d).
    destruct (next_month_valid d Hv) as [Hv1 Hy1].
    change parity_fuel with (S (S (S 9))).
    destruct (until_parity_exits 9 freq _ Hfreq Hv1) as (d' & -> & Hv' & Hy').
    exists d'. repeat split; try apply Hv'; lia. }
  destruct freq.
  - eexists. split; [reflexivity|].
    destruct (MakeDay_valid (getFullYear d) (getMonth d) (getDate d + 1)) as [? ?];
      [lia|lia|]. unfold setDate. split; [assumption|lia].
  - eexists. split; [reflexivity|].
    destruct (MakeDay_valid (getFullYear d) (getMonth d) (getDate d + 7)) as [? ?];
      [lia|lia|]. unfold setDate. split; [assumption|lia].
  - eexists. split; [reflexivity|].
    destruct (next_month_valid d Hv) as [? ?]. split; [assumption|].
    unfold next_month in *. lia.
  - apply Hbi. by left.
  - apply Hbi. by right.
  - eexists. split; [reflexivity|].
    destruct (MakeDay_valid (getFullYear d + 1) (getMonth d) (getDate d)) as [? ?];
      [lia|lia|]. unfold setFullYear. split; [assumption|lia].
Qed.

(** The loop of one template ends with a value when the due date is a valid
    date, and pushes at most [remaining] transactions. *)
Lemma catch_up_loop_returns {host : Host} (today : string) (ids : nat → string)
    (remaining : nat) :
  east_of_UTC host →
  ∀ (loopCount : nat) (tempRt : RecurringTransaction.t) (d : fields),
    valid d →
    0 <= getFullYear d <= 100000 - 2 * Z.of_nat remaining →
    RecurringTransaction.nextDueDate tempRt = toISODate d →
    ∃ txs rt', catch_up_loop remaining today ids loopCount tempRt = Returns (txs, rt')
               ∧ (length txs <= remaining)%nat.
Proof.
  intros Heast.
  induction remaining as [|remaining IH]; intros loopCount tempRt d Hv Hy Hdue.
  - exists [], tempRt. split; [reflexivity|]. simpl. lia.
  - cbn [catch_up_loop].
    destruct (String.leb _ today); [|exists [], tempRt; split; [reflexivity|simpl; lia]].
    destruct (past_end tempRt); [exists [], tempRt; split; [reflexivity|simpl; lia]|].
    rewrite Hdue.
    destruct (getNextDate_returns d (RecurringTransaction.frequency tempRt) Heast Hv)
      as (d' & -> & Hv' & Hy'); [lia|].
    destruct (IH (S loopCount) (advance_to (toISODate d') tempRt) d' Hv')
      as (txs & rt' & -> & Hlen); [lia|reflexivity|].
    eexists _, rt'. split; [reflexivity|]. simpl. lia.
Qed.

(** On calendar dates every host east of UTC computes what a host on UTC
    computes. *)
Lemma utc_east : east_of_UTC utc.
Proof. exists 0. split; [unfold msPerDay; lia|reflexivity]. Qed.

Lemma getNextDate_as_utc {host : Host} (d : fields) (freq : Frequency) :
  east_of_UTC host → valid d → 0 <= getFullYear d <= 100000 →
  getNextDate (toISODate d) freq = getNextDate (host:=utc) (toISODate d) freq.
Proof.
  intros Heast Hv Hy.
  rewrite getNextDate_calendar, (getNextDate_calendar (host:=utc))
    by (assumption || apply utc_east).
  reflexivity.
Qed.

Lemma catch_up_loop_as_utc {host : Host} (today : string) (ids : nat → string) (remaining : nat) :
  east_of_UTC host →
  ∀ (loopCount : nat) (tempRt : RecurringTransaction.t) (d : fields),
    valid d →
    0 <= getFullYear d <= 100000 - 2 * Z.of_nat remaining →
    RecurringTransaction.nextDueDate tempRt = toISODate d →
    catch_up_loop remaining today ids loopCount tempRt
    = catch_up_loop (host:=utc) remaining today ids loopCount tempRt.
Proof.
  intros Heast.
  induction remaining as [|remaining IH]; intros loopCount tempRt d Hv Hy Hdue;
    [reflexivity|].
  cbn [catch_up_loop].
  destruct (String.leb _ today); [|reflexivity].
  destruct (past_end tempRt); [reflexivity|].
  rewrite Hdue, <- getNextDate_as_utc by (assumption || lia).
  destruct (getNextDate_returns d (RecurringTransaction.frequency tempRt) Heast Hv)
    as (d' & -> & Hv' & Hy'); [lia|].
  by rewrite (IH (S loopCount) (advance_to (toISODate d') tempRt) d' Hv') by (lia || reflexivity).
Qed.

Lemma catch_up_as_utc {host : Host} (today : string) (ids : nat → string)
    (rt : RecurringTransaction.t) :
  east_of_UTC host → calendar_date (RecurringTransaction.nextDueDate rt) →
  catch_up today ids rt = catch_up (host:=utc) today ids rt.
Proof.
  intros Heast (d & Hv & Hy & Hdue).
  apply (catch_up_loop_as_utc today ids 12 Heast 0%nat rt d Hv); [simpl; lia|exact Hdue].
Qed.

(** The month-end example of the specification: the day is carried into the
    next month, it is not clamped to the end of February. *)
Example getNextDate_month_end {host : Host} :
  east_of_UTC host → getNextDate "2024-01-31" MONTHLY = Returns "2024-03-02".
Proof.
  intros Heast. change "2024-01-31" with (toISODate (mk 2024 0 31)).
  rewrite getNextDate_calendar; [reflexivity|assumption| |simpl; lia].
  split; simpl; [lia|]. change (days_in_month 2024 0) with 31. lia.
Qed.

(** The whole effect ends with a value when every template is due on a
    calendar date. *)
Lemma recurring_effect_returns {host : Host} (today : string) (ids : nat → nat → string)
    (state : list Transaction.t * list RecurringTransaction.t) :
  east_of_UTC host →
  Forall (λ rt, calendar_date (RecurringTransaction.nextDueDate rt)) state.2 →
  ∃ state', recurring_effect today ids state = Returns state'.
Proof.
  intros Heast Hall. unfold recurring_effect.
  assert (Hmap : ∀ i, ∃ txs rts, catch_up_all today ids i state.2 = Returns (txs, rts)).
  { induction Hall as [|rt rts (d & Hv & Hy & Hdue) _ IH]; intros i.
    - by exists [], [].
    - cbn [catch_up_all]. unfold catch_up.
      destruct (catch_up_loop_returns today (ids i) 12 Heast 0%nat rt d Hv)
        as (txs & rt' & -> & _);
        [simpl; lia|exact Hdue|].
      destruct (IH (S i)) as (more & rts' & ->). by eexists _, _. }
  destruct (Hmap 0%nat) as (txs & rts & ->). destruct txs; by eexists.
Qed.

(** On the Invalid Date the parity loop for BI_MONTHLY_EVEN is never left,
    whatever the number of turns. *)
Lemma parity_loop_invalid {host : Host} (fuel : nat) :
  parity_loop fuel BI_MONTHLY_EVEN None = None.
Proof. induction fuel as [|fuel IH]; [reflexivity|exact IH]. Qed.




(** Why the loop of one template stops before its cap: the due date is after
    today, or past the end date. *)
Lemma catch_up_loop_exit {host : Host} (today : string) (ids : nat → string) (remaining : nat) :
  ∀ loopCount tempRt txs rt',
    catch_up_loop remaining today ids loopCount tempRt = Returns (txs, rt') →
    (length txs < remaining)%nat →
    String.leb (RecurringTransaction.nextDueDate rt') today = false
    ∨ past_end rt' = true.
Proof.
  induction remaining as [|remaining IH]; intros loopCount tempRt txs rt' Hrun Hlen.
  - lia.
  - cbn [catch_up_loop] in Hrun.
    destruct (String.leb _ today) eqn:Hdue; [|injection Hrun as <- <-; by left].
    destruct (past_end tempRt) eqn:Hend; [injection Hrun as <- <-; by right|].
    destruct (getNextDate _ _) as [next| |]; try discriminate Hrun.
    destruct (catch_up_loop remaining _ _ _ _) as [[txs0 rt0]| |] eqn:Hrest;
      try discriminate Hrun.
    injection Hrun as <- <-. apply (IH _ _ _ _ Hrest). simpl in Hlen. lia.
Qed.

Lemma catch_up_loop_idle {host : Host} (today : string) (ids : nat → string)
    (remaining loopCount : nat)
    (rt : RecurringTransaction.t) :
  String.leb (RecurringTransaction.nextDueDate rt) today = false ∨ past_end rt = true →
  catch_up_loop remaining today ids loopCount rt = Returns ([], rt).
Proof.
  intros H. destruct remaining as [|remaining]; [reflexivity|]. cbn [catch_up_loop].
  destruct H as [-> | H]; [reflexivity|]. rewrite H.
  by destruct (String.leb _ today).
Qed.

(** C4 as stated fails: the daily template due since 2024-01-01, caught up on
    2024-03-01 in a host on UTC, emits 12 instances, and a second run on the
    same day emits 12 more and advances the template again. *)
Lemma second_run_after_cap_emits :
  ∃ txs rt' more rt'',
    catch_up (host:=utc) "2024-03-01" sample_ids
      (RecurringTransaction.mk "r0" DAILY "2024-01-01" "2024-01-01" None None
         (JS.of_Z 50) EXPENSE "cat_food" "coffee" None "a1" None)
    = Returns (txs, rt')
    ∧ catch_up (host:=utc) "2024-03-01" sample_ids rt' = Returns (more, rt'')
    ∧ length more = 12%nat
    ∧ RecurringTransaction.nextDueDate rt' = "2024-01-13"
    ∧ RecurringTransaction.nextDueDate rt'' = "2024-01-25".
Proof.
  eexists _, _, _, _. split; [vm_compute; reflexivity|].
  split; [vm_compute; reflexivity|]. repeat split.
Qed.

(** C4, amended. When a run of the catch-up for a template stops before the
    cap (it emitted fewer than 12 instances) or ends with a due date after
    today, a second run with the same today emits nothing and returns the
    template unchanged. *)
Theorem catch_up_idempotent_below_cap {host : Host}
  (today : string) (ids ids' : nat → string)
  (rt rt' : RecurringTransaction.t) (txs : list Transaction.t) :
  catch_up today ids rt = Returns (txs, rt') →
  (length txs < 12)%nat
  ∨ String.leb (RecurringTransaction.nextDueDate rt') today = false →
  catch_up today ids' rt' = Returns ([], rt').
Proof.
  intros Hrun Hstop. apply catch_up_loop_idle.
  destruct Hstop as [Hlen | Hafter]; [|by left].
  exact (catch_up_loop_exit today ids 12 0%nat rt txs rt' Hrun Hlen).
Qed.

Lemma catch_up_idempotent_below_cap_witness :
  catch_up (host:=utc) "2024-06-15" sample_ids
    (advance_to "2024-07-05" (advance_to "2024-06-05" (advance_to "2024-05-05" recent_rent)))
  = Returns ([], advance_to "2024-07-05"
                   (advance_to "2024-06-05" (advance_to "2024-05-05" recent_rent))).
Proof.
  apply (catch_up_idempotent_below_cap (host:=utc) "2024-06-15" sample_ids sample_ids
           recent_rent _
           [newTx (sample_ids 0) recent_rent;
            newTx (sample_ids 1) (advance_to "2024-05-05" recent_rent);
            newTx (sample_ids 2) (advance_to "2024-06-05" (advance_to "2024-05-05" recent_rent))]).
  - vm_compute. reflexivity.
  - left. simpl. lia.
Defined.

(** C5. A template with an end date whose due date is after that end date is
    dormant: the catch-up emits nothing for it and returns it unchanged, on
    that run and on every later run, whatever the days are. *)
Theorem dormant_past_endDate {host : Host}
  (rt : RecurringTransaction.t) (e : string) :
  RecurringTransaction.endDate rt = Some e →
  e ≠ "" →
  String.ltb e (RecurringTransaction.nextDueDate rt) = true →
  (∀ today ids, catch_up today ids rt = Returns ([], rt))
  ∧ (∀ todays ids i, catch_up_days todays ids i rt = Returns ([], rt)).
Proof.
  intros Hend Hne Hpast.
  assert (Hdormant : past_end rt = true).
  { unfold past_end. rewrite Hend, Hpast. simpl.
    apply String.eqb_neq in Hne. by rewrite Hne. }
  assert (Hone : ∀ today ids, catch_up today ids rt = Returns ([], rt)).
  { intros today ids. apply catch_up_loop_idle. by right. }
  split; [exact Hone|].
  intros todays. induction todays as [|today later IH]; intros ids i; [reflexivity|].
  cbn [catch_up_days]. by rewrite Hone, IH.
Qed.

Lemma dormant_past_endDate_witness :
  catch_up_days (host:=utc) ["2023-07-03"; "2023-07-04"; "2024-01-01"] (λ _, sample_ids) 0
    ended_subscription
  = Returns ([], ended_subscription).
Proof.
  apply (proj2 (dormant_past_endDate (host:=utc) ended_subscription "2023-06-30" eq_refl
                  ltac:(discriminate) eq_refl)).
Defined.

(** The month number (1 to 12) is odd exactly when the loop's [isOdd] holds. *)
Lemma parity_reached_odd (d : fields) :
  parity_reached BI_MONTHLY_ODD d = Z.odd (getMonth d + 1).
Proof.
  unfold parity_reached. cbv zeta. rewrite Zmod_odd.
  by destruct (Z.odd (getMonth d + 1)).
Qed.

Lemma parity_reached_even (d : fields) :
  parity_reached BI_MONTHLY_EVEN d = Z.even (getMonth d + 1).
Proof.
  unfold parity_reached. cbv zeta. rewrite Zmod_even.
  by destruct (Z.even (getMonth d + 1)).
Qed.

(** The bimonthly step: the first date of [d + 1 month, + 1 month, ...] whose
    month has the parity asked for. *)
Lemma getNextDate_bimonthly {host : Host} (d : fields) (freq : Frequency) :
  east_of_UTC host → bimonthly freq → valid d → 0 <= getFullYear d <= 9999 →
  ∃ d' n, getNextDate (toISODate d) freq = Returns (toISODate d')
          ∧ valid d'
          ∧ parity_reached freq d' = true
          ∧ d' = Nat.iter (S n) next_month d
          ∧ ∀ k : nat, (k < n)%nat →
              parity_reached freq (Nat.iter (S k) next_month d) = false.
Proof.
  intros Heast Hfreq Hv Hy. rewrite getNextDate_calendar by (assumption || lia).
  unfold calendar_step.
  destruct (next_month_valid d Hv) as [Hv1 _].
  assert (Hloop : ∃ d', until_parity parity_fuel freq (next_month d) = Some d' ∧ valid d').
  { change parity_fuel with (S (S (S 9))).
    destruct (until_parity_exits 9 freq _ Hfreq Hv1) as (d' & H & Hv' & _). eauto. }
  destruct Hloop as (d' & Hloop & Hv').
  destruct (until_parity_first _ _ _ _ Hloop) as (n & Hiter & Hreached & Hfirst).
  exists d', n. fold (next_month d).
  assert (Hret : match until_parity parity_fuel freq (next_month d) with
                 | Some d' => Returns (toISODate d')
                 | None => Hangs
                 end = Returns (toISODate d')) by (by rewrite Hloop).
  split; [|split; [|split; [|split]]].
  - destruct Hfreq as [-> | ->]; exact Hret.
  - exact Hv'.
  - exact Hreached.
  - by rewrite <- iter_next_month_shift.
  - intros k Hk. rewrite <- iter_next_month_shift. by apply Hfirst.
Qed.




Lemma instance_of_advance_to (rt : RecurringTransaction.t) (next : string)
    (tx : Transaction.t) :
  instance_of (advance_to next rt) tx → instance_of rt tx.
Proof. exact id. Qed.

Lemma catch_up_loop_emits {host : Host} (today : string) (ids : nat → string) (remaining : nat) :
  ∀ loopCount tempRt txs rt',
    catch_up_loop remaining today ids loopCount tempRt = Returns (txs, rt') →
    Forall (instance_of tempRt) txs
    ∧ due_chain (RecurringTransaction.frequency tempRt)
        (RecurringTransaction.nextDueDate tempRt) (Transaction.date <$> txs)
        (RecurringTransaction.nextDueDate rt').
Proof.
  induction remaining as [|remaining IH]; intros loopCount tempRt txs rt' Hrun.
  - injection Hrun as <- <-. split; [constructor|reflexivity].
  - cbn [catch_up_loop] in Hrun.
    destruct (String.leb _ today);
      [|injection Hrun as <- <-; split; [constructor|reflexivity]].
    destruct (past_end tempRt);
      [injection Hrun as <- <-; split; [constructor|reflexivity]|].
    destruct (getNextDate _ _) as [next| |] eqn:Hnext; try discriminate Hrun.
    destruct (catch_up_loop remaining _ _ _ _) as [[txs0 rt0]| |] eqn:Hrest;
      try discriminate Hrun.
    injection Hrun as <- <-.
    destruct (IH _ _ _ _ Hrest) as [Hall Hchain]. split.
    + constructor; [by repeat split|].
      eapply Forall_impl; [exact Hall|]. intros tx. apply instance_of_advance_to.
    + rewrite fmap_cons. cbn [due_chain]. split; [reflexivity|].
      exists next. split; [exact Hnext|exact Hchain].
Qed.

Lemma append_longer (s t : string) : t ≠ "" → s +:+ t ≠ s.
Proof.
  intros Ht. induction s as [|c s IH]; simpl; [exact Ht|].
  intros H. injection H as H. by apply IH.
Qed.

(** C10. Every instance emitted by the catch-up of a template is flagged
    [isRecurringInstance = true], copies the template's amount, type,
    category, location, accountId and toAccountId, carries the template's
    description followed by the suffix " (自動)" (so not the description
    itself), and is dated with the due date the template had when it was
    emitted: the dates are the template's successive due dates, starting at
    its [nextDueDate] and ending before the [nextDueDate] it is left with. *)
Theorem emitted_instances {host : Host}
  (today : string) (ids : nat → string)
  (rt rt' : RecurringTransaction.t) (txs : list Transaction.t) :
  catch_up today ids rt = Returns (txs, rt') →
  Forall (λ tx, instance_of rt tx
                ∧ Transaction.description tx ≠ RecurringTransaction.description rt) txs
  ∧ due_chain (RecurringTransaction.frequency rt) (RecurringTransaction.nextDueDate rt)
      (Transaction.date <$> txs) (RecurringTransaction.nextDueDate rt').
Proof.
  intros Hrun.
  destruct (catch_up_loop_emits today ids 12 0%nat rt txs rt' Hrun) as [Hall Hchain].
  split; [|exact Hchain].
  eapply Forall_impl; [exact Hall|]. intros tx Htx. split; [exact Htx|].
  destruct Htx as (_ & _ & _ & _ & _ & _ & _ & ->).
  apply append_longer. discriminate.
Qed.

Lemma emitted_instances_witness :
  Forall (λ tx, instance_of recent_rent tx
                ∧ Transaction.description tx ≠ RecurringTransaction.description recent_rent)
    [newTx (sample_ids 0) recent_rent;
     newTx (sample_ids 1) (advance_to "2024-05-05" recent_rent);
     newTx (sample_ids 2) (advance_to "2024-06-05" (advance_to "2024-05-05" recent_rent))]
  ∧ due_chain (host:=utc) MONTHLY "2024-04-05" ["2024-04-05"; "2024-05-05"; "2024-06-05"]
      "2024-07-05".
Proof.
  apply (emitted_instances (host:=utc) "2024-06-15" sample_ids recent_rent
           (advance_to "2024-07-05"
              (advance_to "2024-06-05" (advance_to "2024-05-05" recent_rent)))).
  vm_compute. reflexivity.
Defined.

End Scheduler.

(** ** Host strings *)

Section TextLaws.
Import Text.

Lemma append_cons (a : ascii) (s t : string) : String a s +:+ t = String a (s +:+ t).
Proof. reflexivity. Qed.

Lemma append_nil_l (s : string) : "" +:+ s = s.
Proof. reflexivity. Qed.

Lemma append_nil_r (s : string) : s +:+ "" = s.
Proof. induction s as [|a s IH]; [reflexivity|]. by rewrite append_cons, IH. Qed.

Lemma append_assoc (s t u : string) : (s +:+ t) +:+ u = s +:+ (t +:+ u).
Proof. induction s as [|a s IH]; [reflexivity|]. by rewrite !append_cons, IH. Qed.

Lemma has_char_append (c : ascii) (s t : string) :
  has_char c (s +:+ t) = has_char c s || has_char c t.
Proof.
  induction s as [|a s IH]; [reflexivity|].
  rewrite append_cons. cbn [has_char]. rewrite IH. apply orb_assoc.
Qed.

(** *** [split] and [join] *)

Lemma split_on_lacking (c : ascii) (s : string) :
  has_char c s = false → split_on c s = [s].
Proof.
  induction s as [|a s IH]; simpl; [reflexivity|]. intros H.
  apply orb_false_elim in H as [Ha Hs]. rewrite Ha, (IH Hs). reflexivity.
Qed.

Lemma split_on_append (c : ascii) (s t : string) :
  has_char c s = false →
  split_on c (s +:+ String c t) = s :: split_on c t.
Proof.
  induction s as [|a s IH]; intros H.
  - rewrite append_nil_l. cbn [split_on]. by rewrite Ascii.eqb_refl.
  - cbn [has_char] in H. apply orb_false_elim in H as [Ha Hs].
    rewrite append_cons. cbn [split_on]. rewrite Ha, (IH Hs). reflexivity.
Qed.

Lemma split_on_join (c : ascii) (l : list string) :
  l ≠ [] → Forall (λ s, has_char c s = false) l →
  split_on c (join (String c "") l) = l.
Proof.
  intros Hne Hall. induction Hall as [|x l Hx Hall IH]; [done|].
  destruct l as [|y l].
  - cbn [join]. by apply split_on_lacking.
  - change (join (String c "") (x :: y :: l))
      with (x +:+ String c "" +:+ join (String c "") (y :: l)).
    change (String c "" +:+ join (String c "") (y :: l))
      with (String c (join (String c "") (y :: l))).
    rewrite split_on_append by assumption. f_equal. by apply IH.
Qed.

Lemma join_prepend (p sep x : string) (l : list string) :
  p +:+ join sep (x :: l) = join sep ((p +:+ x) :: l).
Proof.
  destruct l as [|y l]; [reflexivity|].
  change (join sep (x :: y :: l)) with (x +:+ sep +:+ join sep (y :: l)).
  change (join sep ((p +:+ x) :: y :: l)) with ((p +:+ x) +:+ sep +:+ join sep (y :: l)).
  by rewrite append_assoc.
Qed.

Lemma has_char_join (c : ascii) (sep : string) (l : list string) :
  has_char c sep = false → Forall (λ s, has_char c s = false) l →
  has_char c (join sep l) = false.
Proof.
  intros Hsep Hall. induction Hall as [|x l Hx Hall IH]; [reflexivity|].
  destruct l as [|y l]; [exact Hx|].
  change (join sep (x :: y :: l)) with (x +:+ sep +:+ join sep (y :: l)).
  by rewrite !has_char_append, Hx, Hsep, IH.
Qed.

Lemma replace_char_lacking (c : ascii) (by_ s : string) :
  has_char c s = false → replace_char c by_ s = s.
Proof.
  induction s as [|a s IH]; simpl; [reflexivity|]. intros H.
  apply orb_false_elim in H as [Ha Hs]. by rewrite Ha, (IH Hs).
Qed.

Lemma has_char_replace_char (c x : ascii) (by_ s : string) :
  has_char c by_ = false → has_char c s = false →
  has_char c (replace_char x by_ s) = false.
Proof.
  intros Hby. induction s as [|a s IH]; simpl; [reflexivity|]. intros H.
  apply orb_false_elim in H as [Ha Hs]. destruct (Ascii.eqb a x).
  - by rewrite has_char_append, Hby, IH.
  - cbn [has_char]. by rewrite Ha, IH.
Qed.

(** *** [trim] *)

Lemma ws2_plain (a b : ascii) : (nat_of_ascii a < 128)%nat → ws2 a b = false.
Proof.
  intros Ha. unfold ws2.
  destruct (Nat.eqb_spec (nat_of_ascii a) 194); [lia|reflexivity].
Qed.

Lemma ws3_plain (a b c : ascii) : (nat_of_ascii a < 128)%nat → ws3 a b c = false.
Proof.
  intros Ha. unfold ws3. cbv zeta.
  destruct (Nat.eqb_spec (nat_of_ascii a) 225); [lia|].
  destruct (Nat.eqb_spec (nat_of_ascii a) 226); [lia|].
  destruct (Nat.eqb_spec (nat_of_ascii a) 227); [lia|].
  destruct (Nat.eqb_spec (nat_of_ascii a) 239); [lia|]. reflexivity.
Qed.

Lemma ws2_plain_last (a b : ascii) : (nat_of_ascii b < 128)%nat → ws2 a b = false.
Proof.
  intros Hb. unfold ws2.
  destruct (Nat.eqb_spec (nat_of_ascii b) 160); [lia|]. apply andb_false_r.
Qed.

Lemma ws3_plain_last (a b c : ascii) : (nat_of_ascii c < 128)%nat → ws3 a b c = false.
Proof.
  intros Hc. unfold ws3. cbv zeta.
  destruct (Nat.eqb_spec (nat_of_ascii c) 128); [lia|].
  destruct (Nat.eqb_spec (nat_of_ascii c) 168); [lia|].
  destruct (Nat.eqb_spec (nat_of_ascii c) 169); [lia|].
  destruct (Nat.eqb_spec (nat_of_ascii c) 175); [lia|].
  destruct (Nat.eqb_spec (nat_of_ascii c) 159); [lia|].
  destruct (Nat.eqb_spec (nat_of_ascii c) 191); [lia|].
  destruct (Nat.leb_spec 128 (nat_of_ascii c)); [lia|].
  rewrite !andb_false_r. reflexivity.
Qed.

Lemma trimStart_plain (a : ascii) (r : string) :
  plain a → trimStart (String a r) = String a r.
Proof.
  intros [Hws Ha]. cbn [trimStart]. rewrite Hws.
  destruct r as [|b [|c r]]; rewrite ?ws2_plain, ?ws3_plain by assumption; reflexivity.
Qed.

Lemma all_white_plain_last (q : ascii) :
  plain q → ∀ (n : nat) (s : string),
    (String.length s <= n)%nat → all_white (s +:+ String q "") = false.
Proof.
  intros [Hws Hq]. induction n as [|n IH]; intros s Hlen.
  - destruct s; [|simpl in Hlen; lia]. rewrite append_nil_l. cbn [all_white].
    by rewrite Hws.
  - destruct s as [|a [|b [|c s]]]; rewrite ?append_cons, ?append_nil_l; cbn [all_white].
    + by rewrite Hws.
    + destruct (ws1 a).
      * cbn [all_white]. by rewrite Hws.
      * by rewrite ws2_plain_last.
    + simpl in Hlen. destruct (ws1 a).
      * apply (IH (String b "")). simpl. lia.
      * destruct (ws2 a b).
        { cbn [all_white]. by rewrite Hws. }
        { by rewrite ws3_plain_last. }
    + simpl in Hlen. destruct (ws1 a).
      * apply (IH (String b (String c s))). simpl. lia.
      * destruct (ws2 a b).
        { apply (IH (String c s)). simpl. lia. }
        { destruct (ws3 a b c); [|reflexivity]. apply (IH s). lia. }
Qed.

Lemma trimEnd_plain_last (q : ascii) (s : string) :
  plain q → trimEnd (s +:+ String q "") = s +:+ String q "".
Proof.
  intros Hq. induction s as [|a s IH].
  - rewrite append_nil_l. cbn [trimEnd all_white]. destruct Hq as [-> _]. reflexivity.
  - rewrite append_cons. cbn [trimEnd].
    rewrite <- append_cons, (all_white_plain_last q Hq _ (String a s) (le_n _)).
    rewrite append_cons. by rewrite IH.
Qed.

(** A string that starts and ends with plain characters is its own trim. *)
Lemma trim_plain_ends (a q : ascii) (r s : string) :
  plain a → plain q → String a r = s +:+ String q "" →
  trim (String a r) = String a r.
Proof.
  intros Ha Hq Heq. unfold trim. rewrite trimStart_plain by assumption.
  rewrite Heq. by apply trimEnd_plain_last.
Qed.

Lemma plain_dquote : plain dquote.
Proof. split; [reflexivity|]. apply Nat.ltb_lt. reflexivity. Qed.

(** *** Quoting *)

Lemma escape_quotes_cons (a : ascii) (v : string) :
  escape_quotes (String a v)
  = if Ascii.eqb a dquote then String dquote (String dquote (escape_quotes v))
    else String a (escape_quotes v).
Proof. unfold escape_quotes. cbn [replace_char]. by destruct (Ascii.eqb a dquote). Qed.

Lemma unescape_escape (v : string) : unescape_quotes (escape_quotes v) = v.
Proof.
  induction v as [|a v IH]; [reflexivity|]. rewrite escape_quotes_cons.
  destruct (Ascii.eqb_spec a dquote) as [->|Hne].
  - cbn [unescape_quotes]. rewrite Ascii.eqb_refl. cbn [andb]. by rewrite IH.
  - cbn [unescape_quotes]. destruct (escape_quotes v) as [|b w] eqn:Hw.
    + by rewrite <- IH.
    + apply Ascii.eqb_neq in Hne. rewrite Hne. cbn [andb]. by rewrite IH.
Qed.

Lemma drop_final_quote_append (s : string) :
  drop_final_quote (s +:+ String dquote "") = s.
Proof.
  induction s as [|a s IH]; [reflexivity|]. rewrite append_cons.
  cbn [drop_final_quote]. destruct (s +:+ String dquote "") as [|b w] eqn:Hs.
  - destruct s; discriminate Hs.
  - by rewrite IH.
Qed.

Lemma trim_quote_cell (v : string) : trim (quote_cell v) = quote_cell v.
Proof.
  apply (trim_plain_ends dquote dquote _ (String dquote (escape_quotes v)));
    [apply plain_dquote|apply plain_dquote|reflexivity].
Qed.

(** Reading a written cell gives the value back. *)
Lemma clean_quote_cell (v : string) : clean_cell (quote_cell v) = v.
Proof.
  unfold clean_cell. rewrite trim_quote_cell. unfold quote_cell.
  cbn [strip_outer_quotes]. rewrite Ascii.eqb_refl.
  by rewrite drop_final_quote_append, unescape_escape.
Qed.

(** *** The split of a line into cells *)

Lemma csv_scan_cons (a : ascii) (r : string) :
  csv_scan (String a r)
  = (if Ascii.eqb a "," && negb (csv_scan r).2 then ("" :: (csv_scan r).1, (csv_scan r).2)
     else (match (csv_scan r).1 with
           | piece :: others => String a piece :: others
           | [] => [String a ""]
           end, xorb (csv_scan r).2 (Ascii.eqb a dquote))).
Proof. cbn [csv_scan]. by destruct (csv_scan r). Qed.

Lemma csv_scan_escape (v r piece : string) (pieces : list string) :
  csv_scan r = (piece :: pieces, true) →
  csv_scan (escape_quotes v +:+ r) = ((escape_quotes v +:+ piece) :: pieces, true).
Proof.
  intros Hr. induction v as [|a v IH]; [exact Hr|].
  rewrite escape_quotes_cons. destruct (Ascii.eqb_spec a dquote) as [->|Hne].
  - rewrite !append_cons, !csv_scan_cons, IH. reflexivity.
  - rewrite !append_cons, csv_scan_cons, IH. cbn [fst snd negb].
    rewrite andb_false_r. apply Ascii.eqb_neq in Hne. by rewrite Hne.
Qed.

Lemma csv_scan_quote_cell (v r piece : string) (pieces : list string) :
  csv_scan r = (piece :: pieces, false) →
  csv_scan (quote_cell v +:+ r) = ((quote_cell v +:+ piece) :: pieces, false).
Proof.
  intros Hr. unfold quote_cell. rewrite !append_cons, !append_assoc, !append_cons,
    !append_nil_l.
  rewrite csv_scan_cons.
  rewrite (csv_scan_escape v (String dquote r) (String dquote piece) pieces).
  - reflexivity.
  - rewrite csv_scan_cons, Hr. reflexivity.
Qed.

(** A line written by the export splits into the cells it was joined from. *)
Lemma split_csv_join (cells : list string) :
  cells ≠ [] →
  csv_scan (join "," (quote_cell <$> cells)) = (quote_cell <$> cells, false).
Proof.
  induction cells as [|v cells IH]; [done|]. intros _.
  destruct cells as [|w cells].
  - cbn [fmap list_fmap join]. rewrite <- (append_nil_r (quote_cell v)) at 1.
    rewrite (csv_scan_quote_cell v "" "" []) by reflexivity. by rewrite append_nil_r.
  - change (join "," (quote_cell <$> v :: w :: cells))
      with (quote_cell v +:+ String "," (join "," (quote_cell <$> w :: cells))).
    rewrite (csv_scan_quote_cell v _ "" (quote_cell <$> w :: cells)).
    + by rewrite append_nil_r.
    + rewrite csv_scan_cons, IH by done. reflexivity.
Qed.

(** *** Numbers and their decimal form *)

Lemma digit_forall (P : ascii → Prop) :
  P "0"%char → P "1"%char → P "2"%char → P "3"%char → P "4"%char → P "5"%char →
  P "6"%char → P "7"%char → P "8"%char → P "9"%char →
  ∀ k, 0 <= k <= 9 → P (Date.digit k).
Proof.
  intros H0 H1 H2 H3 H4 H5 H6 H7 H8 H9 k Hk.
  assert (H : k = 0 ∨ k = 1 ∨ k = 2 ∨ k = 3 ∨ k = 4 ∨ k = 5 ∨ k = 6 ∨ k = 7
              ∨ k = 8 ∨ k = 9) by lia.
  repeat destruct H as [->|H]; try subst k; assumption.
Qed.

Lemma plain_digit (k : Z) : 0 <= k <= 9 → plain (Date.digit k).
Proof.
  apply (digit_forall plain); split; first [reflexivity | apply Nat.ltb_lt; reflexivity].
Qed.

Lemma digits_of_first (fuel : nat) (n : Z) :
  ∃ k r, 0 <= k <= 9 ∧ digits_of (S fuel) n = String (Date.digit k) r.
Proof.
  revert n. induction fuel as [|fuel IH]; intros n.
  - exists (n mod 10), "". split; [apply mod10_digit|].
    cbn [digits_of]. destruct (n <? 10); reflexivity.
  - cbn [digits_of]. destruct (n <? 10).
    + exists (n mod 10), "". split; [apply mod10_digit|reflexivity].
    + destruct (IH (n / 10)) as (k & r & Hk & Hr).
      exists k, (r +:+ String (Date.digit (n mod 10)) ""). split; [exact Hk|].
      cbn [digits_of] in Hr. rewrite Hr. by rewrite append_cons.
Qed.

(** Reading back the digits written for [n] continues from [acc] to
    [acc * 10^k + n], [k] being the number of digits. *)
Lemma scan_digits_of (fuel : nat) :
  ∀ (n acc : Z) (count : nat) (rest : string),
    0 <= n < 10 ^ Z.of_nat fuel →
    ∃ k : nat,
      scan_digits acc count (digits_of fuel n +:+ rest)
      = scan_digits (acc * 10 ^ Z.of_nat k + n) (count + k) rest
      ∧ (fuel ≠ 0%nat → k ≠ 0%nat).
Proof.
  induction fuel as [|fuel IH]; intros n acc count rest Hn.
  - exists 0%nat. simpl in Hn. assert (n = 0) as -> by lia. split; [|done].
    cbn [digits_of]. rewrite append_nil_l. f_equal; [simpl; lia|lia].
  - cbn [digits_of]. destruct (Z.ltb_spec n 10) as [Hsmall|Hbig].
    + exists 1%nat. split; [|done]. rewrite append_nil_l, append_cons, append_nil_l.
      cbn [scan_digits]. rewrite digit_value_digit by apply mod10_digit.
      rewrite Z.mod_small by lia. f_equal; [simpl; lia|lia].
    + assert (Hdiv : 0 <= n / 10 < 10 ^ Z.of_nat fuel).
      { rewrite Nat2Z.inj_succ, Z.pow_succ_r in Hn by lia.
        split; [apply Z.div_pos; lia|apply Z.div_lt_upper_bound; lia]. }
      destruct (IH (n / 10) acc count (String (Date.digit (n mod 10)) rest) Hdiv)
        as (k & Hk & _).
      exists (S k). split; [|done].
      rewrite append_assoc, append_cons, append_nil_l, Hk.
      cbn [scan_digits]. rewrite digit_value_digit by apply mod10_digit.
      f_equal; [|lia]. rewrite Nat2Z.inj_succ, Z.pow_succ_r by lia.
      pose proof (Z.div_mod n 10). lia.
Qed.

Lemma pow10_fuel (n : Z) : 0 <= n → n < 10 ^ Z.of_nat (S (Z.to_nat n)).
Proof.
  intros Hn. rewrite Nat2Z.inj_succ, Z2Nat.id, Z.pow_succ_r by lia.
  pose proof (Z.pow_gt_lin_r 10 n ltac:(lia) Hn). lia.
Qed.

Lemma Fin_eq (q : Qc) (x : Q) : (x == q)%Q → JS.Fin (Q2Qc x) = JS.Fin q.
Proof.
  intros H. f_equal. apply Qc_is_canon. simpl. by rewrite Qred_correct.
Qed.

Lemma digit_not (c : ascii) :
  forallb (λ d, negb (Ascii.eqb d c))
    ["0"; "1"; "2"; "3"; "4"; "5"; "6"; "7"; "8"; "9"]%char = true →
  ∀ k, 0 <= k <= 9 → Ascii.eqb (Date.digit k) c = false.
Proof.
  intros H. cbn [forallb] in H.
  repeat (apply andb_prop in H as [?%negb_true_iff H]).
  by apply (digit_forall (λ d, Ascii.eqb d c = false)).
Qed.

Lemma startsWith_Infinity_digit (k : Z) (r : string) :
  0 <= k <= 9 → startsWith "Infinity" (String (Date.digit k) r) = false.
Proof.
  intros Hk. cbn [startsWith]. rewrite Ascii.eqb_sym.
  by rewrite (digit_not "I" eq_refl k Hk).
Qed.

Lemma parseFloat_unsigned (k m : Z) (c : nat) (r : string) :
  0 <= k <= 9 →
  scan_digits 0 0 (String (Date.digit k) r) = (m, S c, "") →
  parseFloat (String (Date.digit k) r) = JS.of_Z m.
Proof.
  intros Hk Hscan. unfold parseFloat.
  rewrite trimStart_plain by (by apply plain_digit).
  rewrite (digit_not "-" eq_refl k Hk), (digit_not "+" eq_refl k Hk).
  rewrite (startsWith_Infinity_digit k r Hk).
  rewrite Hscan. cbn [scan_exponent].
  apply Fin_eq. simpl. ring.
Qed.

Lemma parseFloat_negative (k m : Z) (c : nat) (r : string) :
  0 <= k <= 9 →
  scan_digits 0 0 (String (Date.digit k) r) = (m, S c, "") →
  parseFloat (String "-" (String (Date.digit k) r)) = JS.of_Z (- m).
Proof.
  intros Hk Hscan. unfold parseFloat.
  rewrite trimStart_plain by (split; [reflexivity|apply Nat.ltb_lt; reflexivity]).
  change (Ascii.eqb "-" "-") with true. cbv iota.
  rewrite (startsWith_Infinity_digit k r Hk), Hscan. cbn [scan_exponent].
  apply Fin_eq. simpl. rewrite inject_Z_opp. ring.
Qed.

Lemma scan_of_digits (n : Z) :
  0 <= n →
  ∃ c, scan_digits 0 0 (digits_of (S (Z.to_nat n)) n) = (n, S c, "").
Proof.
  intros Hn.
  destruct (scan_digits_of (S (Z.to_nat n)) n 0 0 "" (conj Hn (pow10_fuel n Hn)))
    as (k & Hk & Hpos).
  rewrite append_nil_r in Hk. destruct k as [|k]; [by specialize (Hpos ltac:(done))|].
  exists k. rewrite Hk. reflexivity.
Qed.

(** An integer written in decimal reads back as itself. *)
Lemma parseFloat_of_integer (z : Z) : parseFloat (of_integer z) = JS.of_Z z.
Proof.
  unfold of_integer. destruct (Z.ltb_spec z 0) as [Hneg|Hpos].
  - destruct (digits_of_first (Z.to_nat (- z)) (- z)) as (k & r & Hk & Hr).
    destruct (scan_of_digits (- z)) as (c & Hscan); [lia|].
    rewrite Hr in *. rewrite (parseFloat_negative k (- z) c r Hk Hscan).
    f_equal. lia.
  - destruct (digits_of_first (Z.to_nat z) z) as (k & r & Hk & Hr).
    destruct (scan_of_digits z Hpos) as (c & Hscan).
    rewrite Hr in *. exact (parseFloat_unsigned k z c r Hk Hscan).
Qed.

Lemma round_of_Z (z : Z) : round (JS.of_Z z) = JS.of_Z z.
Proof.
  unfold round, JS.of_Z. f_equal.
  change (this (Qc_of_Z z + Q2Qc (1 # 2))%Qc)
    with (Qred (inject_Z z + Qred (1 # 2))).
  rewrite Qred_correct. change (Qred (1 # 2)) with (1 # 2)%Q.
  unfold Qfloor, Qplus, inject_Z. simpl. f_equal.
  change (Z.pos (1 * 2)) with 2. Z.div_mod_to_equations. lia.
Qed.

Lemma of_rounded_of_Z (z : Z) : of_rounded (JS.of_Z z) = of_integer z.
Proof.
  unfold of_rounded, JS.of_Z. f_equal. simpl. apply Z.div_1_r.
Qed.

(** The amount cell of an integer amount reads back as the amount. *)
Lemma parseFloat_amount_cell (z : Z) :
  parseFloat (of_rounded (round (JS.of_Z z))) = JS.of_Z z.
Proof. by rewrite round_of_Z, of_rounded_of_Z, parseFloat_of_integer. Qed.

(** *** Dates read by the import *)

Lemma digits_of_1 (fuel : nat) (n : Z) :
  0 <= n < 10 → digits_of (S fuel) n = String (Date.digit n) "".
Proof.
  intros Hn. cbn [digits_of]. destruct (Z.ltb_spec n 10); [|lia].
  by rewrite append_nil_l, Z.mod_small.
Qed.

Lemma digits_of_more (fuel : nat) (n : Z) :
  10 <= n →
  digits_of (S fuel) n = digits_of fuel (n / 10) +:+ String (Date.digit (n mod 10)) "".
Proof. intros Hn. cbn [digits_of]. destruct (Z.ltb_spec n 10); [lia|reflexivity]. Qed.

Lemma of_integer_2 (n : Z) : 0 <= n <= 99 → padStart2 (of_integer n) = Date.pad2 n.
Proof.
  intros Hn. unfold of_integer, Date.pad2. destruct (Z.ltb_spec n 0); [lia|].
  destruct (Z.ltb_spec n 10) as [Hsmall|Hbig].
  - rewrite digits_of_1 by lia. unfold padStart2. cbn [String.length Nat.ltb Nat.leb].
    rewrite Z.div_small, (Z.mod_small n) by lia. reflexivity.
  - destruct (Z.to_nat n) as [|fuel] eqn:Hfuel; [lia|].
    rewrite digits_of_more by lia.
    assert (0 <= n / 10 < 10) by (split; [apply Z.div_pos|apply Z.div_lt_upper_bound]; lia).
    rewrite digits_of_1 by lia. rewrite (Z.mod_small (n / 10)) by lia. reflexivity.
Qed.

Lemma of_integer_4 (y : Z) : 1000 <= y <= 9999 → of_integer y = Date.pad4 y.
Proof.
  intros Hy. unfold of_integer, Date.pad4, Date.pad2. destruct (Z.ltb_spec y 0); [lia|].
  destruct (Z.to_nat y) as [|[|[|fuel]]] eqn:Hfuel; try lia.
  assert (H1 : 100 <= y / 10 < 1000)
    by (split; [apply Z.div_le_lower_bound|apply Z.div_lt_upper_bound]; lia).
  assert (H2 : 10 <= y / 10 / 10 < 100)
    by (split; [apply Z.div_le_lower_bound|apply Z.div_lt_upper_bound]; lia).
  assert (H3 : 1 <= y / 10 / 10 / 10 < 10)
    by (split; [apply Z.div_le_lower_bound|apply Z.div_lt_upper_bound]; lia).
  rewrite digits_of_more, digits_of_more, digits_of_more, digits_of_1 by lia.
  rewrite !append_cons, !append_nil_l.
  rewrite (Z.mod_small (y / 1000)) by (split; [apply Z.div_pos|apply Z.div_lt_upper_bound]; lia).
  replace (y / 10 / 10 / 10) with (y / 1000) by (rewrite !Z.div_div by lia; reflexivity).
  replace (y / 10 / 10) with (y / 100) by (rewrite !Z.div_div by lia; reflexivity).
  reflexivity.
Qed.

Lemma has_char_pad2 (c : ascii) (n : Z) :
  (∀ k, 0 <= k <= 9 → Ascii.eqb (Date.digit k) c = false) →
  has_char c (Date.pad2 n) = false.
Proof.
  intros Hc. unfold Date.pad2. cbn [has_char].
  by rewrite !Hc by apply mod10_digit.
Qed.

Lemma has_char_pad4 (c : ascii) (n : Z) :
  (∀ k, 0 <= k <= 9 → Ascii.eqb (Date.digit k) c = false) →
  has_char c (Date.pad4 n) = false.
Proof.
  intros Hc. unfold Date.pad4. cbn [has_char].
  by rewrite has_char_pad2, !Hc by (assumption || apply mod10_digit).
Qed.

(** A four-digit ISO date holds digits and hyphens only. *)
Lemma has_char_toISODate (c : ascii) (d : Date.fields) :
  0 <= Date.getFullYear d <= 9999 →
  (∀ k, 0 <= k <= 9 → Ascii.eqb (Date.digit k) c = false) →
  Ascii.eqb "-" c = false →
  has_char c (Date.toISODate d) = false.
Proof.
  intros Hy Hc Hhyphen. unfold Date.toISODate, Date.iso_year.
  destruct (Z.leb_spec 0 (Date.getFullYear d)); [|lia].
  destruct (Z.leb_spec (Date.getFullYear d) 9999); [|lia]. cbn [andb].
  rewrite !has_char_append, has_char_pad4, !has_char_pad2 by assumption.
  cbn [has_char]. by rewrite Hhyphen.
Qed.

(** In a host east of UTC a date of the data model is its own normal
    form. *)
Lemma normalizeDate_toISODate {host : Host} (d : Date.fields) :
  east_of_UTC host → Date.valid d → 1000 <= Date.getFullYear d <= 9999 →
  normalizeDate (Date.toISODate d) = Date.toISODate d.
Proof.
  intros Heast Hv Hy. unfold normalizeDate.
  rewrite (replace_char_lacking "_") by (apply has_char_toISODate;
    [lia|apply digit_not; reflexivity|reflexivity]).
  rewrite (replace_char_lacking "/") by (apply has_char_toISODate;
    [lia|apply digit_not; reflexivity|reflexivity]).
  rewrite (replace_char_lacking ".") by (apply has_char_toISODate;
    [lia|apply digit_not; reflexivity|reflexivity]).
  rewrite of_string_toISODate by (assumption || lia). cbv zeta.
  rewrite getFullYear_midnight, getMonth_midnight, getDate_midnight by assumption.
  destruct Hv as [Hm Hd].
  pose proof (days_in_month_bounds (Date.getFullYear d) (Date.getMonth d)).
  rewrite of_integer_4, !of_integer_2 by lia.
  unfold Date.toISODate, Date.iso_year.
  destruct (Z.leb_spec 0 (Date.getFullYear d)); [|lia].
  destruct (Z.leb_spec (Date.getFullYear d) 9999); [|lia]. reflexivity.
Qed.

End TextLaws.

(** ** ImportReconciler *)

Section Reconciler.
Import Text.

(** *** Account resolution *)

Lemma find_app_Some {A} (P : A → bool) (l extra : list A) (a : A) :
  find P l = Some a → find P (l ++ extra)%list = Some a.
Proof.
  induction l as [|x l IH]; simpl; [discriminate|].
  destruct (P x); [done|exact IH].
Qed.

Lemma find_app_None {A} (P : A → bool) (l extra : list A) :
  find P l = None → find P (l ++ extra)%list = find P extra.
Proof.
  induction l as [|x l IH]; simpl; [done|].
  destruct (P x); [discriminate|exact IH].
Qed.

Lemma getOrCreateAccountId_spec (acc_ids : nat → string) (name : option string)
    (working : list Account.t) :
  ∃ extra,
    (getOrCreateAccountId acc_ids name working).2 = (working ++ extra)%list
    ∧ resolves (working ++ extra)%list name (getOrCreateAccountId acc_ids name working).1.
Proof.
  unfold getOrCreateAccountId, resolves. destruct name as [n|].
  - destruct (String.eqb n "") eqn:Hn.
    + exists []. by rewrite app_nil_r.
    + destruct (find _ working) as [a|] eqn:Hfind.
      * exists []. rewrite app_nil_r. split; [reflexivity|]. exists a. by split.
      * eexists [_]. split; [reflexivity|]. eexists. split.
        { rewrite find_app_None by exact Hfind. cbn [find Account.name].
          rewrite String.eqb_refl. reflexivity. }
        reflexivity.
  - exists []. by rewrite app_nil_r.
Qed.

Lemma resolves_app (working extra : list Account.t) (name : option string) (id : string) :
  resolves working name id → resolves (working ++ extra)%list name id.
Proof.
  unfold resolves. destruct name as [n|]; [|done].
  destruct (String.eqb n ""); [done|]. intros (a & Hfind & Hid).
  exists a. split; [by apply find_app_Some|exact Hid].
Qed.

Lemma resolves_functional (working : list Account.t) (name : option string)
    (id1 id2 : string) :
  resolves working name id1 → resolves working name id2 → id1 = id2.
Proof.
  unfold resolves. destruct name as [n|]; [|congruence].
  destruct (String.eqb n ""); [congruence|].
  intros (a & Ha & <-) (b & Hb & <-). congruence.
Qed.

(** What one turn of the loop does: nothing for a line that fails a guard;
    otherwise one transaction is added, the working list grows at its end,
    and the account name of the line resolves, in the grown list, to the id
    the transaction was given. *)
Lemma import_line_spec {host : Host} (tx_ids acc_ids : nat → string) (accounts : list Account.t)
    (i : nat) (rawLine : string) (st : import_state) :
  (importable rawLine = false ∧ import_line tx_ids acc_ids accounts i rawLine st = st)
  ∨ (importable rawLine = true
     ∧ ∃ t accId extra,
         newTransactions (import_line tx_ids acc_ids accounts i rawLine st)
         = (newTransactions st ++ [t])%list
         ∧ updatedAccounts (import_line tx_ids acc_ids accounts i rawLine st)
           = (updatedAccounts st ++ extra)%list
         ∧ importedCount (import_line tx_ids acc_ids accounts i rawLine st)
           = S (importedCount st)
         ∧ Imported.accountId t = or_first_account accounts accId
         ∧ resolves (updatedAccounts st ++ extra)%list (row_account rawLine) accId).
Proof.
  unfold importable, import_line, row_account. cbv zeta.
  destruct (String.eqb (trim rawLine) ""); [by left|]. cbn [negb andb].
  destruct (row_of_line (trim rawLine)) as [|cell0 [|typeRaw [|cell2 more]]];
    try (by left).
  cbn [import_row].
  destruct (JS.isNaN (parseFloat cell2) || String.eqb (normalizeDate cell0) "");
    [by left|].
  right. split; [reflexivity|].
  change ((cell0 :: typeRaw :: cell2 :: more) !! 6%nat) with (more !! 3%nat).
  destruct (getOrCreateAccountId_spec acc_ids (more !! 3%nat) (updatedAccounts st))
    as (extra1 & Hacc1 & Hres1).
  destruct (getOrCreateAccountId acc_ids (more !! 3%nat) (updatedAccounts st))
    as [accId accs1] eqn:Hcall1.
  cbn [fst snd] in Hacc1, Hres1. subst accs1.
  destruct (type_of_label typeRaw).
  - eexists _, accId, extra1. repeat split; try reflexivity; exact Hres1.
  - eexists _, accId, extra1. repeat split; try reflexivity; exact Hres1.
  - destruct (JS.truthy (more !! 4%nat)).
    + destruct (getOrCreateAccountId_spec acc_ids (more !! 4%nat)
                  (updatedAccounts st ++ extra1)%list) as (extra2 & Hacc2 & _).
      destruct (getOrCreateAccountId acc_ids (more !! 4%nat)
                  (updatedAccounts st ++ extra1)%list) as [toId accs2] eqn:Hcall2.
      cbn [fst snd] in Hacc2. subst accs2.
      eexists _, accId, (extra1 ++ extra2)%list. rewrite app_assoc.
      repeat split; try reflexivity. by apply resolves_app.
    + eexists _, accId, extra1. repeat split; try reflexivity; exact Hres1.
Qed.

Lemma import_lines_spec {host : Host} (tx_ids acc_ids : nat → string) (accounts : list Account.t)
    (lines : list string) :
  ∀ (i : nat) (st : import_state),
    ∃ txs extra,
      newTransactions (import_lines tx_ids acc_ids accounts i lines st)
      = (newTransactions st ++ txs)%list
      ∧ updatedAccounts (import_lines tx_ids acc_ids accounts i lines st)
        = (updatedAccounts st ++ extra)%list
      ∧ importedCount (import_lines tx_ids acc_ids accounts i lines st)
        = (importedCount st + length txs)%nat
      ∧ ∀ k l t,
          List.filter importable lines !! k = Some l → txs !! k = Some t →
          ∃ accId, Imported.accountId t = or_first_account accounts accId
                   ∧ resolves (updatedAccounts st ++ extra)%list (row_account l) accId.
Proof.
  induction lines as [|line lines IH]; intros i st.
  - exists [], []. rewrite !app_nil_r. cbn [import_lines length].
    repeat split; [lia|]. intros k l t Hk. by destruct k.
  - cbn [import_lines List.filter].
    destruct (import_line_spec tx_ids acc_ids accounts i line st)
      as [[Hskip Hsame] | (Hok & t & accId & extra & Htx & Hacc & Hcount & Hid & Hres)].
    + rewrite Hskip, Hsame. apply IH.
    + rewrite Hok.
      destruct (IH (S i) (import_line tx_ids acc_ids accounts i line st))
        as (txs & extra' & Htxs & Haccs & Hcounts & Hrows).
      exists (t :: txs), (extra ++ extra')%list.
      rewrite Htxs, Haccs, Hcounts, Htx, Hacc, Hcount, <- !app_assoc.
      repeat split; [cbn [length]; lia|].
      intros [|k] l t' Hl Ht'.
      * injection Hl as <-. injection Ht' as <-. exists accId. split; [exact Hid|].
        rewrite app_assoc. by apply resolves_app.
      * rewrite app_assoc, <- Hacc. exact (Hrows k l t' Hl Ht').
Qed.

(** C9. Within one run of the import, a name that matches an account of the
    working list resolves to the id of that account and leaves the list as it
    is; and any two imported lines with the same account name receive the
    same account id, the one the name resolves to in the final working list,
    whether the account existed before the run or was created during it. *)
Theorem account_resolution_consistent {host : Host}
  (tx_ids acc_ids : nat → string) (accounts : list Account.t) :
  (∀ name working a,
     name ≠ "" →
     find (λ a, String.eqb (Account.name a) name) working = Some a →
     getOrCreateAccountId acc_ids (Some name) working = (Account.id a, working))
  ∧ (∀ lines i st k1 k2 l1 l2 t1 t2,
       let st' := import_lines tx_ids acc_ids accounts i lines st in
       let txs := drop (length (newTransactions st)) (newTransactions st') in
       List.filter importable lines !! k1 = Some l1 →
       List.filter importable lines !! k2 = Some l2 →
       txs !! k1 = Some t1 →
       txs !! k2 = Some t2 →
       row_account l1 = row_account l2 →
       Imported.accountId t1 = Imported.accountId t2
       ∧ ∃ accId, Imported.accountId t1 = or_first_account accounts accId
                  ∧ resolves (updatedAccounts st') (row_account l1) accId).
Proof.
  split.
  - intros name working a Hname Hfind. unfold getOrCreateAccountId.
    apply String.eqb_neq in Hname. by rewrite Hname, Hfind.
  - intros lines i st k1 k2 l1 l2 t1 t2 st' txs Hl1 Hl2 Ht1 Ht2 Hsame.
    destruct (import_lines_spec tx_ids acc_ids accounts lines i st)
      as (txs' & extra & Htxs & Haccs & _ & Hrows).
    assert (txs = txs') as ->.
    { subst txs st'. rewrite Htxs. by rewrite drop_app_length. }
    subst st'. rewrite Haccs.
    destruct (Hrows k1 l1 t1 Hl1 Ht1) as (id1 & Hid1 & Hres1).
    destruct (Hrows k2 l2 t2 Hl2 Ht2) as (id2 & Hid2 & Hres2).
    rewrite <- Hsame in Hres2.
    rewrite (resolves_functional _ _ _ _ Hres2 Hres1) in Hid2.
    split; [congruence|]. exists id1. by split.
Qed.

Lemma account_resolution_consistent_witness :
  ∃ t1 t2,
    newTransactions
      (import_lines (host:=utc) import_ids account_ids example_accounts 1 travel_lines
         (mk_import_state example_accounts [] 0)) = [t1; t2]
    ∧ Imported.accountId t1 = Imported.accountId t2.
Proof.
  eexists _, _. split; [vm_compute; reflexivity|].
  refine (proj1 (proj2 (account_resolution_consistent (host:=utc) import_ids account_ids
                          example_accounts)
                   travel_lines 1%nat (mk_import_state example_accounts [] 0)
                   0%nat 1%nat _ _ _ _ _ _ _ _ _)).
  - vm_compute. reflexivity.
  - vm_compute. reflexivity.
  - vm_compute. reflexivity.
  - vm_compute. reflexivity.
  - vm_compute. reflexivity.
Defined.

(** *** Amounts *)

Lemma scan_digits_count (s : string) :
  ∀ acc count, (count <= (scan_digits acc count s).1.2)%nat.
Proof.
  induction s as [|a r IH]; intros acc count; cbn [scan_digits]; [cbn; lia|].
  destruct (Date.digit_value a); [|cbn; lia].
  specialize (IH (10 * acc + z) (S count)). lia.
Qed.

Lemma scan_digits_none (acc : Z) (count : nat) (s : string) :
  match s with String a _ => is_digit a | "" => false end = false →
  scan_digits acc count s = (acc, count, s).
Proof.
  destruct s as [|a r]; [reflexivity|]. unfold is_digit. cbn [scan_digits].
  by destruct (Date.digit_value a).
Qed.

Lemma scan_digits_some (acc : Z) (count : nat) (s : string) :
  match s with String a _ => is_digit a | "" => false end = true →
  ∃ m c r, scan_digits acc count s = (m, S c, r).
Proof.
  intros H. destruct s as [|a r]; [discriminate H|]. unfold is_digit in H.
  cbn [scan_digits] in *.
  destruct (Date.digit_value a) as [v|]; [|discriminate H].
  pose proof (scan_digits_count r (10 * acc + v) (S count)) as Hc.
  destruct (scan_digits (10 * acc + v) (S count) r) as [[m c] r'] eqn:Hs.
  cbn in Hc. destruct c as [|c]; [lia|]. by exists m, c, r'.
Qed.

(** [parseFloat] gives NaN exactly on the strings that do not start with a
    number. *)
Lemma parseFloat_NaN (s : string) : JS.isNaN (parseFloat s) = negb (numeric_prefix s).
Proof.
  unfold parseFloat, numeric_prefix.
  set (t := trimStart s). clearbody t.
  assert (Hgen : ∀ negative u,
    JS.isNaN
      (if startsWith "Infinity" u then JS.Inf negative
       else
         let '(int, int_count, r) := scan_digits 0 0 u in
         let '(mantissa, frac_count, r) :=
           match r with
           | String a r' =>
               if Ascii.eqb a "."
               then let '(m, c, r'') := scan_digits int 0 r' in
                    match int_count, c with
                    | O, O => (int, O, r)
                    | _, _ => (m, c, r'')
                    end
               else (int, O, r)
           | "" => (int, O, r)
           end in
         match int_count, frac_count with
         | O, O => JS.NaN
         | _, _ =>
             let e := scan_exponent r - Z.of_nat frac_count in
             let value := (inject_Z mantissa * Qpower (inject_Z 10) e)%Q in
             JS.Fin (Q2Qc (if negative then - value else value)%Q)
         end)
    = negb (startsWith "Infinity" u
            || match u with
               | String a r =>
                   is_digit a
                   || (Ascii.eqb a "."
                       && match r with String b _ => is_digit b | "" => false end)
               | "" => false
               end)).
  { intros negative u. destruct (startsWith "Infinity" u); [reflexivity|]. cbn [orb].
    destruct (match u with String a _ => is_digit a | "" => false end) eqn:Hfirst.
    - destruct (scan_digits_some 0 0 u Hfirst) as (m & c & r & ->).
      destruct u as [|a u']; [discriminate Hfirst|]. rewrite Hfirst. cbn [orb negb].
      destruct r as [|b r']; [reflexivity|].
      destruct (Ascii.eqb b "."); [|reflexivity].
      by destruct (scan_digits m 0 r') as [[m' c'] r''].
    - rewrite (scan_digits_none 0 0 u Hfirst).
      destruct u as [|a u']; [reflexivity|]. rewrite Hfirst. cbn [orb].
      destruct (Ascii.eqb a "."); [|reflexivity]. cbn [andb].
      destruct (match u' with String b _ => is_digit b | "" => false end) eqn:Hsecond.
      + destruct (scan_digits_some 0 0 u' Hsecond) as (m & c & r & ->). reflexivity.
      + by rewrite (scan_digits_none 0 0 u' Hsecond). }
  destruct t as [|a r]; [apply (Hgen false "")|].
  destruct (Ascii.eqb a "-") eqn:Hminus; [apply Hgen|].
  destruct (Ascii.eqb a "+") eqn:Hplus; apply Hgen.
Qed.

Lemma append_not_empty (s t : string) : t ≠ "" → s +:+ t ≠ "".
Proof. intros Ht. destruct s; [exact Ht|discriminate]. Qed.

(** The normal form of a date cell that is not empty is not empty. *)
Lemma normalizeDate_not_empty {host : Host} (dateStr : string) :
  dateStr ≠ "" → normalizeDate dateStr ≠ "".
Proof.
  intros Hne. unfold normalizeDate. cbv zeta.
  repeat case_match; try exact Hne.
  apply append_not_empty. discriminate.
Qed.

Lemma import_row_not_numeric {host : Host} (acc_ids : nat → string)
    (accounts : list Account.t) (id cell0 typeRaw cell2 : string) (more : list string)
    (st : import_state) :
  numeric_prefix cell2 = false →
  import_row acc_ids accounts id (cell0 :: typeRaw :: cell2 :: more) st = st.
Proof. intros H. cbn [import_row]. by rewrite parseFloat_NaN, H. Qed.

(** A row with a date and a number at the start of its amount cell is
    imported: one transaction is added with the number read, and the working
    list is the one [getOrCreateAccountId] returns for the account name,
    followed, for a transfer, by what the destination adds. *)
Lemma import_row_numeric {host : Host} (acc_ids : nat → string)
    (accounts : list Account.t) (id cell0 typeRaw cell2 : string) (more : list string)
    (st : import_state) :
  numeric_prefix cell2 = true → cell0 ≠ "" →
  let st' := import_row acc_ids accounts id (cell0 :: typeRaw :: cell2 :: more) st in
  ∃ t extra,
    newTransactions st' = (newTransactions st ++ [t])%list
    ∧ Imported.amount t = parseFloat cell2
    ∧ importedCount st' = S (importedCount st)
    ∧ updatedAccounts st'
      = ((getOrCreateAccountId acc_ids (more !! 3%nat) (updatedAccounts st)).2 ++ extra)%list
    ∧ (type_of_label typeRaw ≠ TRANSFER → extra = []).
Proof.
  intros Hnum Hdate. cbv zeta. cbn [import_row].
  rewrite parseFloat_NaN, Hnum. cbn [negb orb].
  apply (normalizeDate_not_empty (host:=host)) in Hdate. apply String.eqb_neq in Hdate.
  rewrite Hdate.
  destruct (getOrCreateAccountId acc_ids (more !! 3%nat) (updatedAccounts st))
    as [accId accs1] eqn:Hcall1. cbn [snd].
  destruct (type_of_label typeRaw) eqn:Htype.
  - eexists _, []. rewrite app_nil_r. repeat split; reflexivity.
  - eexists _, []. rewrite app_nil_r. repeat split; reflexivity.
  - destruct (JS.truthy (more !! 4%nat)).
    + destruct (getOrCreateAccountId_spec acc_ids (more !! 4%nat) accs1)
        as (extra2 & Hacc2 & _).
      destruct (getOrCreateAccountId acc_ids (more !! 4%nat) accs1)
        as [toId accs2] eqn:Hcall2.
      cbn [snd] in Hacc2. subst accs2.
      eexists _, extra2. repeat split; try reflexivity. intros H. by destruct H.
    + eexists _, []. rewrite app_nil_r. repeat split; try reflexivity.
Qed.

(** The name collected from a cell of a row. *)
Lemma collected_name (cell : option string) (name : string) :
  name ∈ (if String.eqb (or_else cell "") "" then (∅ : gset string)
          else {[or_else cell ""]})
  ↔ name ≠ "" ∧ cell = Some name.
Proof.
  unfold or_else. destruct cell as [s|].
  - destruct (String.eqb_spec s "") as [->|Hs].
    + change (String.eqb "" "") with true. cbv iota. rewrite elem_of_empty.
      split; [done|]. intros [Hne [= <-]]. done.
    + apply String.eqb_neq in Hs as Hs'. rewrite Hs'. rewrite elem_of_singleton.
      split; [intros ->; by split|]. by intros [_ [= <-]].
  - change (String.eqb "" "") with true. cbv iota. rewrite elem_of_empty.
    split; [done|]. by intros [_ ?].
Qed.

Lemma parseFloat_12abc : parseFloat "12abc" = JS.of_Z 12.
Proof. unfold parseFloat, JS.of_Z. cbn. f_equal. by apply Qc_is_canon. Qed.

Lemma parseFloat_grouped : parseFloat "1,234" = JS.of_Z 1.
Proof. unfold parseFloat, JS.of_Z. cbn. f_equal. by apply Qc_is_canon. Qed.

(** C8 as stated fails: the spreadsheet restore keeps a row whose amount is
    not a number, as a transaction of amount 0, and collects its account
    name. *)
Lemma restore_keeps_unreadable_amount :
  JS.isNaN (parseFloat (replace_char "," "" "abc")) = true
  ∧ ∃ tx, (restore_row "restored_1" unreadable_row ([], ∅)).1 = [tx]
          ∧ Transaction.amount tx = JS.of_Z 0
          ∧ "Wallet" ∈ (restore_row "restored_1" unreadable_row ([], ∅)).2.
Proof.
  split; [reflexivity|]. eexists. split; [reflexivity|]. split; [reflexivity|].
  cbn. set_solver.
Qed.

(** C8, amended.  In the CSV import the amount cell is read by [parseFloat]
    as it stands.  A row whose amount cell does not start with a number
    (after white space and a sign: a digit, a dot and a digit, or Infinity)
    is dropped whole: the loop state (working accounts, new transactions,
    count) is left as it was, so no transaction is made and no account is
    created.  A row with a date whose amount cell starts with a number is
    imported with that number, whatever follows it in the cell, and its
    account name goes through [getOrCreateAccountId]: the cell 12abc is
    imported as 12 and creates the account it names, and the separator of a
    quoted 1,234 is not removed, the amount read is 1.  In the spreadsheet
    restore the commas of the amount cell are removed before it is read (a
    cell 1,234 gives 1234, and so for every whole number up to 2^53), and a
    row whose amount cell then does not start with a number is kept with
    amount 0; the account names collected from a row are the non-empty ones
    of its account cell and its destination cell. *)
Theorem amount_parsing {host : Host}
  (tx_ids acc_ids : nat → string) (accounts : list Account.t) :
  (∀ i rawLine st cell0 typeRaw cell2 more,
     row_of_line (trim rawLine) = cell0 :: typeRaw :: cell2 :: more →
     (numeric_prefix cell2 = false →
      import_line tx_ids acc_ids accounts i rawLine st = st)
     ∧ (numeric_prefix cell2 = true → cell0 ≠ "" →
        let st' := import_line tx_ids acc_ids accounts i rawLine st in
        ∃ t extra,
          newTransactions st' = (newTransactions st ++ [t])%list
          ∧ Imported.amount t = parseFloat cell2
          ∧ importedCount st' = S (importedCount st)
          ∧ updatedAccounts st'
            = ((getOrCreateAccountId acc_ids (more !! 3%nat) (updatedAccounts st)).2
               ++ extra)%list))
  ∧ (let st' := import_line tx_ids acc_ids accounts 1 suffixed_amount_line
                  (mk_import_state example_accounts [] 0) in
     ∃ t a, newTransactions st' = [t]
            ∧ Imported.amount t = JS.of_Z 12
            ∧ updatedAccounts st' = (example_accounts ++ [a])%list
            ∧ Account.name a = "Stranger")
  ∧ (let st' := import_line tx_ids acc_ids accounts 1 quoted_amount_line
                  (mk_import_state example_accounts [] 0) in
     ∃ t, newTransactions st' = [t] ∧ Imported.amount t = JS.of_Z 1)
  ∧ (∀ id date typeLabel cell2 more acc,
       let row := date :: typeLabel :: cell2 :: more in
       ∃ tx, (restore_row id row acc).1 = (acc.1 ++ [tx])%list
             ∧ (numeric_prefix (replace_char "," "" cell2) = false →
                Transaction.amount tx = JS.of_Z 0)
             ∧ (∀ z, replace_char "," "" cell2 = of_integer z → Z.abs z <= 2 ^ 53 →
                     Transaction.amount tx = JS.of_Z z)
             ∧ ∀ name, name ∈ (restore_row id row acc).2
                       ↔ name ∈ acc.2
                         ∨ (name ≠ ""
                            ∧ (more !! 3%nat = Some name ∨ more !! 4%nat = Some name)))
  ∧ (∃ tx, (restore_row "restored_2" grouped_row ([], ∅)).1 = [tx]
           ∧ Transaction.amount tx = JS.of_Z 1234).
Proof.
  split; [|split; [|split; [|split]]].
  - intros i rawLine st cell0 typeRaw cell2 more Hrow. split.
    + intros Hnan. unfold import_line.
      destruct (String.eqb (trim rawLine) ""); [reflexivity|].
      rewrite Hrow. by apply import_row_not_numeric.
    + intros Hnum Hdate. cbv zeta. unfold import_line.
      destruct (String.eqb_spec (trim rawLine) "") as [Hblank|_].
      { rewrite Hblank in Hrow. discriminate Hrow. }
      rewrite Hrow.
      destruct (import_row_numeric acc_ids accounts (tx_ids i) cell0 typeRaw cell2 more st
                  Hnum Hdate) as (t & extra & Htx & Hamount & Hcount & Haccs & _).
      by exists t, extra.
  - cbv zeta. unfold import_line.
    assert (Htrim : trim suffixed_amount_line = suffixed_amount_line)
      by (vm_compute; reflexivity).
    assert (Hrow : row_of_line suffixed_amount_line
                   = ["2024-05-01"; "支出"; "12abc"; "餐飲"; "lunch"; ""; "Stranger"; ""])
      by (vm_compute; reflexivity).
    rewrite Htrim, Hrow.
    change (String.eqb suffixed_amount_line "") with false. cbv iota.
    destruct (import_row_numeric acc_ids accounts (tx_ids 1%nat) "2024-05-01" "支出" "12abc"
                ["餐飲"; "lunch"; ""; "Stranger"; ""]
                (mk_import_state example_accounts [] 0))
      as (t & extra & Htx & Hamount & _ & Haccs & Hextra); [reflexivity|discriminate|].
    rewrite Hextra, app_nil_r in Haccs by discriminate.
    eexists t, _. split; [exact Htx|]. split; [by rewrite Hamount, parseFloat_12abc|].
    split; [exact Haccs|reflexivity].
  - cbv zeta. unfold import_line.
    assert (Htrim : trim quoted_amount_line = quoted_amount_line)
      by (vm_compute; reflexivity).
    assert (Hrow : row_of_line quoted_amount_line
                   = ["2024-05-02"; "收入"; "1,234"; "薪資"; "pay"; ""; "Bank"; ""])
      by (vm_compute; reflexivity).
    rewrite Htrim, Hrow.
    change (String.eqb quoted_amount_line "") with false. cbv iota.
    destruct (import_row_numeric acc_ids accounts (tx_ids 1%nat) "2024-05-02" "收入" "1,234"
                ["薪資"; "pay"; ""; "Bank"; ""]
                (mk_import_state example_accounts [] 0))
      as (t & extra & Htx & Hamount & _); [reflexivity|discriminate|].
    exists t. split; [exact Htx|]. by rewrite Hamount, parseFloat_grouped.
  - intros id date typeLabel cell2 more acc. cbv zeta. eexists.
    split; [reflexivity|]. cbn [Transaction.amount]. split; [|split].
    + intros Hnan. by rewrite parseFloat_NaN, Hnan.
    + intros z Hz _. rewrite Hz, parseFloat_of_integer. reflexivity.
    + intros name. cbn [restore_row snd].
      rewrite !elem_of_union, !collected_name. tauto.
  - eexists. split; [reflexivity|]. cbn [Transaction.amount].
    change (replace_char "," "" "1,234") with "1234".
    change "1234" with (of_integer 1234). rewrite parseFloat_of_integer. reflexivity.
Qed.

Lemma amount_parsing_witness :
  import_line (host:=utc) import_ids account_ids example_accounts 1
    "2024-05-01,支出,abc,餐飲,lunch,,Stranger,"
    (mk_import_state example_accounts [] 0)
  = mk_import_state example_accounts [] 0.
Proof.
  refine (proj1 (proj1 (amount_parsing (host:=utc) import_ids account_ids example_accounts)
                   1%nat "2024-05-01,支出,abc,餐飲,lunch,,Stranger,"
                   (mk_import_state example_accounts [] 0) "2024-05-01" "支出" "abc"
                   ["餐飲"; "lunch"; ""; "Stranger"; ""] _) _).
  - vm_compute. reflexivity.
  - reflexivity.
Defined.

(** *** The lines written by the export *)

Lemma has_char_quote_cell (c : ascii) (v : string) :
  Ascii.eqb dquote c = false → has_char c v = false →
  has_char c (quote_cell v) = false.
Proof.
  intros Hq Hv. unfold quote_cell, escape_quotes. cbn [has_char].
  rewrite has_char_append, has_char_replace_char; [|by cbn [has_char]; rewrite Hq|exact Hv].
  cbn [has_char]. by rewrite Hq.
Qed.

Lemma join_quote_cells_ends (sep : string) (cells : list string) :
  cells ≠ [] →
  (∃ r, join sep (quote_cell <$> cells) = String dquote r)
  ∧ (∃ s, join sep (quote_cell <$> cells) = s +:+ String dquote "").
Proof.
  intros Hne. split.
  - destruct cells as [|v [|w cells]]; [done|by eexists|by eexists].
  - induction cells as [|v cells IH]; [done|].
    destruct cells as [|w cells].
    + exists (String dquote (escape_quotes v)). reflexivity.
    + destruct IH as [s Hs]; [done|].
      exists (quote_cell v +:+ sep +:+ s).
      change (join sep (quote_cell <$> v :: w :: cells))
        with (quote_cell v +:+ sep +:+ join sep (quote_cell <$> w :: cells)).
      by rewrite Hs, !append_assoc.
Qed.

Lemma trim_joined_cells (cells : list string) :
  cells ≠ [] →
  trim (join "," (quote_cell <$> cells)) = join "," (quote_cell <$> cells).
Proof.
  intros Hne. destruct (join_quote_cells_ends "," cells Hne) as [[r Hr] [s Hs]].
  rewrite Hr. apply (trim_plain_ends dquote dquote r s); try apply plain_dquote.
  by rewrite <- Hr.
Qed.

(** The cells read from a written line are the values written. *)
Lemma row_of_line_joined (cells : list string) :
  cells ≠ [] → row_of_line (join "," (quote_cell <$> cells)) = cells.
Proof.
  intros Hne. unfold row_of_line, split_csv. rewrite split_csv_join by exact Hne.
  cbn [fst]. rewrite <- list_fmap_compose.
  rewrite <- (list_fmap_id cells) at 2. apply list_fmap_ext.
  intros _ v _. apply clean_quote_cell.
Qed.

Lemma has_char_digits_of (c : ascii) (fuel : nat) :
  (∀ k, 0 <= k <= 9 → Ascii.eqb (Date.digit k) c = false) →
  ∀ n, has_char c (digits_of fuel n) = false.
Proof.
  intros Hc. induction fuel as [|fuel IH]; intros n; [reflexivity|].
  cbn [digits_of]. rewrite has_char_append. cbn [has_char].
  rewrite Hc by apply mod10_digit. destruct (n <? 10); [reflexivity|].
  by rewrite IH.
Qed.

Lemma has_char_of_integer (c : ascii) (z : Z) :
  (∀ k, 0 <= k <= 9 → Ascii.eqb (Date.digit k) c = false) →
  Ascii.eqb "-" c = false →
  has_char c (of_integer z) = false.
Proof.
  intros Hc Hminus. unfold of_integer. destruct (z <? 0).
  - cbn [has_char]. by rewrite Hminus, has_char_digits_of.
  - by apply has_char_digits_of.
Qed.

Lemma find_In {A} (P : A → bool) (l : list A) (a : A) :
  find P l = Some a → a ∈ l ∧ P a = true.
Proof.
  intros H. apply find_some in H as [Hin HP]. split; [|exact HP].
  by apply list_elem_of_In.
Qed.

Lemma find_first {A} (P : A → bool) (l : list A) (a : A) :
  a ∈ l → P a = true → ∃ a', find P l = Some a'.
Proof.
  intros Hin HP. destruct (find P l) as [a'|] eqn:Hfind; [by exists a'|].
  apply list_elem_of_In in Hin. by rewrite (find_none _ _ Hfind a Hin) in HP.
Qed.

Lemma category_name_fine (id n : string) :
  category_name id = Some n → or_else (Some n) id = n ∧ has_char LF n = false.
Proof.
  unfold category_name. destruct (find _ allCats) as [c|] eqn:Hfind; [|discriminate].
  intros [= <-]. apply find_In in Hfind as [Hin _].
  assert (Hall : Forall (λ c, String.eqb (CategoryOption.name c) "" = false
                             ∧ has_char LF (CategoryOption.name c) = false) allCats)
    by (repeat constructor).
  rewrite Forall_forall in Hall. destruct (Hall c Hin) as [Hne Hlf].
  unfold or_else. by rewrite Hne.
Qed.

Lemma account_name_member (accounts : list Account.t) (id n : string) :
  account_name accounts id = Some n →
  ∃ a, a ∈ accounts ∧ Account.name a = n.
Proof.
  unfold account_name. destruct (find _ accounts) as [a|] eqn:Hfind; [|discriminate].
  intros [= <-]. apply find_In in Hfind as [Hin _]. by exists a.
Qed.

Lemma account_cell_no_LF (accounts : list Account.t) (id : string) :
  well_named accounts →
  has_char LF (or_else (account_name accounts id) "") = false.
Proof.
  intros Hwn. destruct (account_name accounts id) as [n|] eqn:Hn; [|reflexivity].
  apply account_name_member in Hn as (a & Hin & <-).
  unfold well_named in Hwn. rewrite Forall_forall in Hwn.
  destruct (Hwn a Hin) as [_ Hlf]. unfold or_else.
  by destruct (String.eqb (Account.name a) "").
Qed.

Lemma export_cells_no_LF (accounts : list Account.t) (tx : Transaction.t) :
  well_named accounts → exportable accounts tx →
  Forall (λ v, has_char LF v = false) (export_cells accounts tx).
Proof.
  intros Hwn ((d & Hv & Hy & Hdate) & (z & Hz) & Hdesc & Hloc & (n & Hcat) & _ & _).
  unfold export_cells. repeat constructor.
  - rewrite Hdate. apply has_char_toISODate;
      [lia|apply digit_not; reflexivity|reflexivity].
  - by destruct (Transaction.type tx).
  - rewrite Hz, round_of_Z, of_rounded_of_Z.
    apply has_char_of_integer; [apply digit_not; reflexivity|reflexivity].
  - rewrite Hcat. by destruct (category_name_fine _ _ Hcat) as [-> ?].
  - exact Hdesc.
  - exact Hloc.
  - by apply account_cell_no_LF.
  - destruct (Transaction.toAccountId tx) as [to_|]; [|reflexivity].
    destruct (String.eqb to_ ""); [reflexivity|]. by apply account_cell_no_LF.
Qed.

Lemma export_row_no_LF (accounts : list Account.t) (tx : Transaction.t) :
  well_named accounts → exportable accounts tx →
  has_char LF (export_row accounts tx) = false.
Proof.
  intros Hwn Hex. unfold export_row. apply has_char_join; [reflexivity|].
  apply Forall_fmap. eapply Forall_impl; [by apply export_cells_no_LF|].
  intros v Hv. by apply has_char_quote_cell.
Qed.

(** An account name of the list resolves without creating an account. *)
Lemma resolve_existing (acc_ids : nat → string) (accounts : list Account.t)
    (id n : string) :
  well_named accounts →
  account_name accounts id = Some n → n ≠ "" →
  ∃ a', getOrCreateAccountId acc_ids (Some n) accounts = (Account.id a', accounts)
        ∧ or_first_account accounts (Account.id a') = Some (Account.id a')
        ∧ same_name accounts id (Account.id a').
Proof.
  intros Hwn Hname Hne.
  destruct (account_name_member _ _ _ Hname) as (a & Hin & Ha).
  destruct (find_first (λ a, String.eqb (Account.name a) n) accounts a Hin)
    as [a' Hfind]; [by apply String.eqb_eq|].
  exists a'. unfold getOrCreateAccountId.
  apply String.eqb_neq in Hne. rewrite Hne, Hfind.
  apply find_In in Hfind as [Hin' Hn']. apply String.eqb_eq in Hn'.
  unfold well_named in Hwn. rewrite Forall_forall in Hwn.
  destruct (Hwn a' Hin') as [Hid _]. apply String.eqb_neq in Hid.
  split; [reflexivity|]. split; [unfold or_first_account; by rewrite Hid|].
  exists a'. by rewrite Hn'.
Qed.

Lemma type_of_label_type_label (t : TransactionType) : type_of_label (type_label t) = t.
Proof. by destruct t. Qed.

Lemma toISODate_not_empty (d : Date.fields) :
  0 <= Date.getFullYear d <= 9999 → String.eqb (Date.toISODate d) "" = false.
Proof.
  intros Hy. unfold Date.toISODate, Date.iso_year.
  destruct (Z.leb_spec 0 (Date.getFullYear d)); [|lia].
  destruct (Z.leb_spec (Date.getFullYear d) 9999); [|lia]. reflexivity.
Qed.

(** The row read from an exported line gives one transaction that carries
    the exported fields, and creates no account. *)
Lemma import_exported_row {host : Host} (acc_ids : nat → string) (accounts : list Account.t)
    (id : string) (tx : Transaction.t) (st : import_state) :
  well_named accounts → exportable accounts tx → updatedAccounts st = accounts →
  ∃ t, import_row acc_ids accounts id (export_cells accounts tx) st
       = {| updatedAccounts := accounts;
            newTransactions := (newTransactions st ++ [t])%list;
            importedCount := S (importedCount st) |}
       ∧ (normalizeDate (Transaction.date tx) = Transaction.date tx →
          round_trip accounts tx t).
Proof.
  intros Hwn ((d & Hv & Hy & Hdate) & (z & Hz) & _ & _ & _ & (n & Hacc & Hn) & Hto) Hst.
  unfold export_cells. cbn [import_row lookup list_lookup].
  rewrite Hdate, Hz, parseFloat_amount_cell.
  assert (Hnd : String.eqb (normalizeDate (Date.toISODate d)) "" = false).
  { apply String.eqb_neq, normalizeDate_not_empty, String.eqb_neq.
    apply toISODate_not_empty. lia. }
  rewrite Hnd. cbn [JS.isNaN JS.of_Z orb].
  rewrite type_of_label_type_label, Hst, Hacc.
  assert (Hcell : or_else (Some n) "" = n).
  { unfold or_else. apply String.eqb_neq in Hn. by rewrite Hn. }
  rewrite Hcell.
  destruct (resolve_existing acc_ids accounts _ n Hwn Hacc Hn)
    as (a' & -> & Hfirst & Hsame).
  destruct (Transaction.type tx) eqn:Htype.
  - eexists. split; [reflexivity|]. intros Hnorm. unfold round_trip. cbn.
    rewrite Hdate, Hz, Htype, Hfirst.
    repeat split; try reflexivity; try discriminate; [exact Hnorm|].
    by exists (Account.id a').
  - eexists. split; [reflexivity|]. intros Hnorm. unfold round_trip. cbn.
    rewrite Hdate, Hz, Htype, Hfirst.
    repeat split; try reflexivity; try discriminate; [exact Hnorm|].
    by exists (Account.id a').
  - destruct (Hto eq_refl) as (to_ & n2 & Hdest & Hto_ & Hacc2 & Hn2).
    rewrite Hdest. apply String.eqb_neq in Hto_. rewrite Hto_, Hacc2.
    assert (Hcell2 : or_else (Some n2) "" = n2).
    { unfold or_else. apply String.eqb_neq in Hn2. by rewrite Hn2. }
    rewrite Hcell2.
    assert (Htruthy : JS.truthy (Some n2) = true).
    { cbn. apply String.eqb_neq in Hn2. by rewrite Hn2. }
    rewrite Htruthy.
    destruct (resolve_existing acc_ids accounts _ n2 Hwn Hacc2 Hn2)
      as (b' & -> & _ & Hsame2).
    eexists. split; [reflexivity|]. intros Hnorm. unfold round_trip. cbn.
    rewrite Hdate, Hz, Htype, Hfirst, Hdest.
    repeat split; try reflexivity.
    + exact Hnorm.
    + by exists (Account.id a').
    + intros _. by exists to_, (Account.id b').
Qed.

Lemma export_cells_not_nil (accounts : list Account.t) (tx : Transaction.t) :
  export_cells accounts tx ≠ [].
Proof. discriminate. Qed.

Lemma import_exported_line {host : Host} (tx_ids acc_ids : nat → string)
    (accounts : list Account.t)
    (i : nat) (tx : Transaction.t) (st : import_state) :
  import_line tx_ids acc_ids accounts i (export_row accounts tx) st
  = import_row acc_ids accounts (tx_ids i) (export_cells accounts tx) st.
Proof.
  unfold import_line, export_row.
  rewrite trim_joined_cells by apply export_cells_not_nil.
  rewrite row_of_line_joined by apply export_cells_not_nil.
  destruct (join_quote_cells_ends "," (export_cells accounts tx)
              (export_cells_not_nil accounts tx)) as [[r ->] _].
  reflexivity.
Qed.

(** In every host the lines of an exported file are imported, one
    transaction for each, and no account is created; the fields come back
    when the date does. *)
Lemma import_exported_lines_any {host : Host} (tx_ids acc_ids : nat → string)
    (accounts : list Account.t) (txs : list Transaction.t) :
  well_named accounts → Forall (exportable accounts) txs →
  ∀ i st, updatedAccounts st = accounts →
    ∃ ts, import_lines tx_ids acc_ids accounts i (export_row accounts <$> txs) st
          = {| updatedAccounts := accounts;
               newTransactions := (newTransactions st ++ ts)%list;
               importedCount := (importedCount st + length txs)%nat |}
          ∧ Forall2 (λ tx t, normalizeDate (Transaction.date tx) = Transaction.date tx →
                             round_trip accounts tx t) txs ts.
Proof.
  intros Hwn Hall. induction Hall as [|tx txs Htx Hall IH]; intros i st Hst.
  - exists []. split; [|constructor]. cbn. rewrite app_nil_r, Nat.add_0_r, <- Hst.
    by destruct st.
  - rewrite fmap_cons. cbn [import_lines]. rewrite import_exported_line.
    destruct (import_exported_row acc_ids accounts (tx_ids i) tx st Hwn Htx Hst)
      as (t & -> & Hrt).
    destruct (IH (S i) {| updatedAccounts := accounts;
                          newTransactions := (newTransactions st ++ [t])%list;
                          importedCount := S (importedCount st) |} eq_refl)
      as (ts & -> & Hrts).
    exists (t :: ts). split; [|by constructor]. cbn.
    rewrite <- app_assoc. f_equal. lia.
Qed.

Lemma import_exported_lines {host : Host} (tx_ids acc_ids : nat → string)
    (accounts : list Account.t) (txs : list Transaction.t) :
  east_of_UTC host →
  well_named accounts → Forall (exportable accounts) txs →
  ∀ i st, updatedAccounts st = accounts →
    ∃ ts, import_lines tx_ids acc_ids accounts i (export_row accounts <$> txs) st
          = {| updatedAccounts := accounts;
               newTransactions := (newTransactions st ++ ts)%list;
               importedCount := (importedCount st + length txs)%nat |}
          ∧ Forall2 (round_trip accounts) txs ts.
Proof.
  intros Heast Hwn Hall i st Hst.
  destruct (import_exported_lines_any tx_ids acc_ids accounts txs Hwn Hall i st Hst)
    as (ts & Hrun & Hrt).
  exists ts. split; [exact Hrun|]. clear Hrun.
  induction Hrt as [|tx t txs ts Ht _ IH]; [constructor|].
  apply Forall_cons in Hall as [Htx Hall]. constructor; [|by apply IH].
  apply Ht. destruct Htx as ((d & Hv & Hy & ->) & _). by apply normalizeDate_toISODate.
Qed.


(** West of UTC the dates do not survive either: a date-only string is
    read as the start of the day in UTC and written back from the local
    date, which is the day before. *)
Lemma round_trip_west_of_UTC :
  Imported.date <$>
    imported (handleImportCSV (host:=fixed_offset (-25200000)) import_ids account_ids
                example_accounts (handleExportCSV example_accounts example_transactions))
  = ["2024-04-30"; "2024-05-01"]
  ∧ Transaction.date <$> example_transactions = ["2024-05-01"; "2024-05-02"].
Proof. split; vm_compute; reflexivity. Qed.



End Reconciler.

(** ** The order of date strings *)

Section CalendarOrder.
Import Date.

Lemma N_of_digit (k : Z) : 0 <= k <= 9 → N_of_ascii (digit k) = Z.to_N (48 + k).
Proof.
  intros Hk.
  assert (H : k = 0 ∨ k = 1 ∨ k = 2 ∨ k = 3 ∨ k = 4 ∨ k = 5 ∨ k = 6 ∨ k = 7
              ∨ k = 8 ∨ k = 9) by lia.
  repeat destruct H as [->|H]; try subst k; reflexivity.
Qed.

Lemma compare_digit (i j : Z) :
  0 <= i <= 9 → 0 <= j <= 9 → Ascii.compare (digit i) (digit j) = (i ?= j).
Proof.
  intros Hi Hj. unfold Ascii.compare. rewrite !N_of_digit by assumption.
  rewrite Z2N.inj_compare by lia. apply Z.add_compare_mono_l.
Qed.

Lemma compare_cons_digit (i j : Z) (r s : string) :
  0 <= i <= 9 → 0 <= j <= 9 →
  String.compare (String (digit i) r) (String (digit j) s)
  = match i ?= j with Eq => String.compare r s | c => c end.
Proof.
  intros Hi Hj. cbn [String.compare]. rewrite compare_digit by assumption.
  by destruct (i ?= j).
Qed.

Lemma compare_cons_same (c : ascii) (r s : string) :
  String.compare (String c r) (String c s) = String.compare r s.
Proof. cbn [String.compare]. unfold Ascii.compare. by rewrite N.compare_refl. Qed.

Lemma compare_two_digits (h l h' l' : Z) (r s : string) :
  0 <= h <= 9 → 0 <= l <= 9 → 0 <= h' <= 9 → 0 <= l' <= 9 →
  String.compare (String (digit h) (String (digit l) r))
    (String (digit h') (String (digit l') s))
  = match 10 * h + l ?= 10 * h' + l' with Eq => String.compare r s | c => c end.
Proof.
  intros. rewrite !compare_cons_digit by assumption.
  destruct (Z.compare_spec h h'), (Z.compare_spec l l'),
           (Z.compare_spec (10 * h + l) (10 * h' + l'));
    try reflexivity; exfalso; lia.
Qed.

(** Two digits compare as the numbers they write. *)
Lemma compare_pad2 (a b : Z) (r s : string) :
  0 <= a <= 99 → 0 <= b <= 99 →
  String.compare (pad2 a +:+ r) (pad2 b +:+ s)
  = match a ?= b with Eq => String.compare r s | c => c end.
Proof.
  intros Ha Hb. unfold pad2. rewrite !append_cons, !append_nil_l.
  rewrite compare_two_digits by apply mod10_digit.
  replace (10 * (a / 10 mod 10) + a mod 10) with a by (Z.div_mod_to_equations; lia).
  replace (10 * (b / 10 mod 10) + b mod 10) with b by (Z.div_mod_to_equations; lia).
  reflexivity.
Qed.

Lemma compare_pad4 (a b : Z) (r s : string) :
  0 <= a <= 9999 → 0 <= b <= 9999 →
  String.compare (pad4 a +:+ r) (pad4 b +:+ s)
  = match a ?= b with Eq => String.compare r s | c => c end.
Proof.
  intros Ha Hb. unfold pad4, pad2. rewrite !append_cons, !append_nil_l.
  rewrite !compare_two_digits by apply mod10_digit.
  replace (10 * (a / 1000 mod 10) + a / 100 mod 10) with (a / 100)
    by (Z.div_mod_to_equations; lia).
  replace (10 * (b / 1000 mod 10) + b / 100 mod 10) with (b / 100)
    by (Z.div_mod_to_equations; lia).
  replace (10 * (a / 10 mod 10) + a mod 10) with (a mod 100)
    by (Z.div_mod_to_equations; lia).
  replace (10 * (b / 10 mod 10) + b mod 10) with (b mod 100)
    by (Z.div_mod_to_equations; lia).
  destruct (Z.compare_spec (a / 100) (b / 100)),
           (Z.compare_spec (a mod 100) (b mod 100)),
           (Z.compare_spec a b);
    try reflexivity; exfalso; Z.div_mod_to_equations; lia.
Qed.

(** The ISO strings of two dates with four-digit years compare as the dates
    do on the calendar. *)
Lemma compare_toISODate (d e : fields) :
  valid d → valid e → 0 <= getFullYear d <= 9999 → 0 <= getFullYear e <= 9999 →
  String.compare (toISODate d) (toISODate e)
  = (calendar_ordinal d ?= calendar_ordinal e).
Proof.
  destruct d as [y m dd], e as [y' m' dd'].
  intros [Hm Hd] [Hm' Hd'] Hy Hy'. simpl in *.
  pose proof (days_in_month_bounds y m). pose proof (days_in_month_bounds y' m').
  unfold toISODate, iso_year, calendar_ordinal. cbn [getFullYear getMonth getDate].
  destruct (Z.leb_spec 0 y); [|lia]. destruct (Z.leb_spec y 9999); [|lia].
  destruct (Z.leb_spec 0 y'); [|lia]. destruct (Z.leb_spec y' 9999); [|lia].
  cbn [andb].
  rewrite compare_pad4 by lia. rewrite !append_cons, !append_nil_l.
  rewrite compare_cons_same, compare_pad2 by lia.
  rewrite compare_cons_same.
  rewrite <- (append_nil_r (pad2 dd)), <- (append_nil_r (pad2 dd')).
  rewrite compare_pad2 by lia. cbn [String.compare].
  destruct (Z.compare_spec y y'), (Z.compare_spec (m + 1) (m' + 1)),
           (Z.compare_spec dd dd'),
           (Z.compare_spec ((y * 12 + m) * 32 + dd) ((y' * 12 + m') * 32 + dd'));
    try reflexivity; exfalso; lia.
Qed.

Lemma ltb_toISODate (d e : fields) :
  valid d → valid e → 0 <= getFullYear d <= 9999 → 0 <= getFullYear e <= 9999 →
  String.ltb (toISODate d) (toISODate e) = (calendar_ordinal d <? calendar_ordinal e).
Proof.
  intros. unfold String.ltb, Z.ltb. rewrite compare_toISODate by assumption. reflexivity.
Qed.

Lemma leb_toISODate (d e : fields) :
  valid d → valid e → 0 <= getFullYear d <= 9999 → 0 <= getFullYear e <= 9999 →
  String.leb (toISODate d) (toISODate e) = (calendar_ordinal d <=? calendar_ordinal e).
Proof.
  intros. unfold String.leb, Z.leb. rewrite compare_toISODate by assumption. reflexivity.
Qed.

(** [a <= b] on strings is [!(b < a)]. *)
Lemma leb_not_ltb (s t : string) : String.leb s t = negb (String.ltb t s).
Proof.
  unfold String.leb, String.ltb. rewrite (String.compare_antisym s t).
  by destruct (String.compare t s).
Qed.

End CalendarOrder.

(** ** [getNextDate] as calendar steps *)

Section CalendarSteps.
Import Date.

Lemma setDate_following_day (d : fields) :
  valid d → setDate d (getDate d + 1) = following_day d.
Proof.
  destruct d as [y m dd]. intros [Hm Hd]. simpl in Hm, Hd.
  pose proof (days_in_month_bounds y m).
  unfold setDate, following_day. cbn [getFullYear getMonth getDate].
  rewrite MakeDay_spec by lia. cbv zeta.
  destruct (Z.eqb_spec m 12); [lia|].
  destruct (Z.gtb_spec (dd + 1) (days_in_month y m)), (Z.ltb_spec dd (days_in_month y m));
    try lia; [|reflexivity].
  destruct (Z.eqb_spec m 11); f_equal; lia.
Qed.

Lemma following_day_valid (d : fields) :
  valid d →
  valid (following_day d) ∧ calendar_ordinal d < calendar_ordinal (following_day d).
Proof.
  destruct d as [y m dd]. intros [Hm Hd]. simpl in Hm, Hd.
  pose proof (days_in_month_bounds y m).
  pose proof (days_in_month_bounds (y + 1) 0).
  pose proof (days_in_month_bounds y (m + 1)).
  unfold following_day, valid, calendar_ordinal. cbn [getFullYear getMonth getDate].
  destruct (Z.ltb_spec dd (days_in_month y m)); cbn [getFullYear getMonth getDate]; [lia|].
  destruct (Z.eqb_spec m 11); cbn [getFullYear getMonth getDate]; lia.
Qed.

(** Up to a week of single days is one [setDate]. *)
Lemma iter_following_day (k : nat) (d : fields) :
  valid d → (k <= 7)%nat →
  Nat.iter k following_day d = MakeDay (getFullYear d) (getMonth d) (getDate d + Z.of_nat k).
Proof.
  destruct d as [y m dd]. intros [Hm Hd] Hk. simpl in Hm, Hd.
  pose proof (days_in_month_bounds y m).
  cbn [getFullYear getMonth getDate].
  induction k as [|k IH].
  - change (Z.of_nat 0) with 0. rewrite Z.add_0_r.
    rewrite MakeDay_spec by lia. cbv zeta. cbn [Nat.iter].
    destruct (Z.eqb_spec m 12); [lia|].
    destruct (Z.gtb_spec dd (days_in_month y m)); [lia|reflexivity].
  - rewrite Nat.iter_succ, IH by lia.
    rewrite !MakeDay_spec by lia. cbv zeta.
    destruct (Z.eqb_spec m 12); [lia|].
    pose proof (days_in_month_bounds (if m =? 11 then y + 1 else y)
                  (if m =? 11 then 0 else m + 1)).
    unfold following_day.
    destruct (Z.gtb_spec (dd + Z.of_nat k) (days_in_month y m)),
             (Z.gtb_spec (dd + Z.of_nat (S k)) (days_in_month y m));
      cbn [getFullYear getMonth getDate]; try lia.
    + destruct (Z.ltb_spec (dd + Z.of_nat k - days_in_month y m)
                  (days_in_month (if m =? 11 then y + 1 else y)
                     (if m =? 11 then 0 else m + 1))); [|lia].
      f_equal. lia.
    + destruct (Z.ltb_spec (dd + Z.of_nat k) (days_in_month y m)); [lia|].
      destruct (Z.eqb_spec m 11); f_equal; lia.
    + destruct (Z.ltb_spec (dd + Z.of_nat k) (days_in_month y m)); [|lia].
      f_equal. lia.
Qed.

Lemma next_month_a_month_later (d : fields) :
  valid d → next_month d = a_month_later d.
Proof.
  destruct d as [y m dd]. intros [Hm Hd]. simpl in Hm, Hd.
  pose proof (days_in_month_bounds y m).
  unfold next_month, setMonth, a_month_later, following_month.
  cbn [getFullYear getMonth getDate].
  rewrite MakeDay_spec by lia. cbv zeta.
  destruct (Z.eqb_spec (m + 1) 12), (Z.eqb_spec m 11); try lia.
  - change (days_in_month (y + 1) 0) with 31.
    destruct (Z.gtb_spec dd 31), (Z.leb_spec dd 31); try lia. reflexivity.
  - destruct (Z.gtb_spec dd (days_in_month y (m + 1))),
             (Z.leb_spec dd (days_in_month y (m + 1))); try lia; [|reflexivity].
    pose proof (days_in_month_bounds y (m + 1)).
    assert (Hshort : days_in_month y (m + 1) < 31) by lia.
    apply short_month in Hshort.
    destruct (Z.eqb_spec (m + 1) 11); [lia|reflexivity].
Qed.

Lemma a_month_later_valid (d : fields) :
  valid d →
  valid (a_month_later d) ∧ calendar_ordinal d < calendar_ordinal (a_month_later d).
Proof.
  intros Hv. rewrite <- next_month_a_month_later by assumption.
  destruct (next_month_valid d Hv) as [Hv' Hy]. split; [exact Hv'|].
  destruct Hv as [Hm Hd].
  pose proof (days_in_month_bounds (getFullYear d) (getMonth d)).
  destruct (next_month_cases d (conj Hm Hd)) as [[_ ->] | (? & ? & ? & Hyear & Hmonth)];
    unfold calendar_ordinal.
  - cbn [getFullYear getMonth getDate]. destruct (Z.eqb_spec (getMonth d) 11); lia.
  - rewrite Hyear, Hmonth. lia.
Qed.

Lemma leap_not_twice (y : Z) : is_leap y = true → is_leap (y + 1) = false.
Proof.
  unfold is_leap. intros H.
  destruct (Z.eqb_spec (y mod 4) 0), (Z.eqb_spec (y mod 100) 0), (Z.eqb_spec (y mod 400) 0);
    simpl in H; try discriminate H;
    destruct (Z.eqb_spec ((y + 1) mod 4) 0), (Z.eqb_spec ((y + 1) mod 100) 0),
             (Z.eqb_spec ((y + 1) mod 400) 0); simpl; try reflexivity;
    exfalso; Z.div_mod_to_equations; lia.
Qed.

Lemma setFullYear_a_year_later (d : fields) :
  valid d → setFullYear d (getFullYear d + 1) = a_year_later d.
Proof.
  destruct d as [y m dd]. intros [Hm Hd]. simpl in Hm, Hd.
  unfold setFullYear, a_year_later. cbn [getFullYear getMonth getDate].
  rewrite MakeDay_spec by (pose proof (days_in_month_bounds y m); lia). cbv zeta.
  destruct (Z.eqb_spec m 12); [lia|].
  unfold days_in_month in *.
  destruct (Z.eqb_spec m 1) as [->|Hm1]; cbn [andb].
  - destruct (is_leap y) eqn:Hleap.
    + rewrite (leap_not_twice y Hleap).
      destruct (Z.eqb_spec dd 29) as [->|]; [reflexivity|].
      destruct (Z.gtb_spec dd 28); [lia|reflexivity].
    + destruct (Z.eqb_spec dd 29); [lia|].
      destruct (is_leap (y + 1));
        match goal with
        | |- context [?a >? ?b] => destruct (Z.gtb_spec a b); [lia|reflexivity]
        end.
  - destruct ((m =? 3) || (m =? 5) || (m =? 8) || (m =? 10));
      match goal with
      | |- context [?a >? ?b] => destruct (Z.gtb_spec a b); [lia|reflexivity]
      end.
Qed.

Lemma a_year_later_valid (d : fields) :
  valid d →
  valid (a_year_later d) ∧ calendar_ordinal d < calendar_ordinal (a_year_later d).
Proof.
  intros Hv. pose proof Hv as [Hm Hd].
  pose proof (days_in_month_bounds (getFullYear d) (getMonth d)).
  rewrite <- setFullYear_a_year_later by assumption.
  destruct (MakeDay_valid (getFullYear d + 1) (getMonth d) (getDate d)) as [Hv' _];
    [lia|lia|]. split; [exact Hv'|].
  rewrite setFullYear_a_year_later by assumption.
  unfold a_year_later, calendar_ordinal.
  destruct ((getMonth d =? 1) && (getDate d =? 29)); cbn [getFullYear getMonth getDate]; lia.
Qed.

Lemma iter_next_month_later (n : nat) (d : fields) :
  valid d →
  valid (Nat.iter n next_month d)
  ∧ calendar_ordinal d <= calendar_ordinal (Nat.iter n next_month d).
Proof.
  intros Hv. induction n as [|n [IHv IHo]]; [split; [exact Hv|simpl; lia]|].
  rewrite Nat.iter_succ, next_month_a_month_later by exact IHv.
  destruct (a_month_later_valid _ IHv). split; [assumption|lia].
Qed.

Lemma iter_following_day_later (n : nat) (d : fields) :
  valid d →
  valid (Nat.iter n following_day d)
  ∧ calendar_ordinal d + Z.of_nat n <= calendar_ordinal (Nat.iter n following_day d).
Proof.
  intros Hv. induction n as [|n [IHv IHo]]; [split; [exact Hv|simpl; lia]|].
  rewrite Nat.iter_succ.
  destruct (following_day_valid _ IHv). split; [assumption|lia].
Qed.

(** In a host east of UTC what [getNextDate] returns on a date is a later
    date. *)
Lemma getNextDate_later {host : Host} (d : fields) (freq : Frequency) :
  east_of_UTC host → valid d → 0 <= getFullYear d <= 100000 →
  ∃ d', getNextDate (toISODate d) freq = Returns (toISODate d')
        ∧ valid d'
        ∧ getFullYear d <= getFullYear d' <= getFullYear d + 2
        ∧ calendar_ordinal d < calendar_ordinal d'.
Proof.
  intros Heast Hv Hy.
  destruct (getNextDate_returns d freq Heast Hv Hy) as (d' & Hrun & Hv' & Hy').
  exists d'. split; [exact Hrun|]. split; [exact Hv'|]. split; [lia|].
  revert Hrun. rewrite getNextDate_calendar by assumption. unfold calendar_step.
  pose proof Hv as [Hm Hd].
  pose proof (days_in_month_bounds (getFullYear d) (getMonth d)).
  assert (Hinj : ∀ e, valid e → 0 <= getFullYear e <= 999999 →
                      Returns (toISODate e) = Returns (toISODate d') → e = d').
  { intros e He Hye [= Heq].
    assert (Some e = Some d') as [= ->]; [|reflexivity].
    rewrite <- (parse_toISODate e), <- (parse_toISODate d') by (assumption || lia).
    by rewrite Heq. }
  assert (Hbi : bimonthly freq →
    match until_parity parity_fuel freq (setMonth d (getMonth d + 1)) with
    | Some d' => Returns (toISODate d')
    | None => Hangs
    end = Returns (toISODate d') → calendar_ordinal d < calendar_ordinal d').
  { intros Hfreq. fold (next_month d).
    destruct (next_month_valid d Hv) as [Hv1 Hy1].
    change parity_fuel with (S (S (S 9))).
    destruct (until_parity_exits 9 freq _ Hfreq Hv1) as (e & Hloop & Hve & Hye).
    rewrite Hloop. intros Heq. apply Hinj in Heq; [|assumption|lia]. subst e.
    apply until_parity_first in Hloop as (n & Hn & _).
    destruct (iter_next_month_later n (next_month d) Hv1) as [_ Hle].
    rewrite <- Hn in Hle.
    rewrite next_month_a_month_later in Hle by assumption.
    destruct (a_month_later_valid d Hv). lia. }
  destruct freq.
  - rewrite setDate_following_day by assumption. intros Heq.
    destruct (following_day_valid d Hv) as [Hv1 Ho].
    apply Hinj in Heq; [by subst d'|assumption|].
    unfold following_day.
    destruct (_ <? _); [simpl; lia|]. destruct (_ =? 11); simpl; lia.
  - intros Heq.
    destruct (MakeDay_valid (getFullYear d) (getMonth d) (getDate d + 7)) as [Hv1 Hy1];
      [lia|lia|].
    apply Hinj in Heq; [|exact Hv1|unfold setDate; lia]. subst d'.
    unfold setDate. change 7 with (Z.of_nat 7).
    rewrite <- (iter_following_day 7 d) by (assumption || lia).
    destruct (iter_following_day_later 7 d Hv) as [_ Hle].
    lia.
  - fold (next_month d). rewrite next_month_a_month_later by assumption. intros Heq.
    destruct (a_month_later_valid d Hv) as [Hv1 Ho].
    rewrite <- next_month_a_month_later in Hv1 by assumption.
    rewrite <- next_month_a_month_later in Heq by assumption.
    destruct (next_month_valid d Hv) as [_ Hy1].
    apply Hinj in Heq; [|assumption|lia]. subst d'.
    by rewrite next_month_a_month_later.
  - apply Hbi. by left.
  - apply Hbi. by right.
  - rewrite setFullYear_a_year_later by assumption. intros Heq.
    destruct (a_year_later_valid d Hv) as [Hv1 Ho].
    apply Hinj in Heq; [by subst d'|assumption|].
    unfold a_year_later. destruct (_ && _); simpl; lia.
Qed.

End CalendarSteps.

(** ** More on the scheduler *)

Section SchedulerMore.
Import Date.

(** X1. In a host whose local time is at a fixed offset east of UTC, on the
    ISO string of a calendar date [getNextDate] makes calendar steps: DAILY
    gives the following day, WEEKLY the seventh following day,
    MONTHLY the same day of the following month, the days that month lacks
    being counted into the month after it (the 31st of January gives the 2nd
    or 3rd of March), and YEARLY the same day of the following year, the 29th
    of February giving the 1st of March. *)
Theorem getNextDate_calendar_steps {host : Host} (d : fields) :
  east_of_UTC host → valid d → 0 <= getFullYear d <= 9999 →
  getNextDate (toISODate d) DAILY = Returns (toISODate (following_day d))
  ∧ getNextDate (toISODate d) WEEKLY = Returns (toISODate (Nat.iter 7 following_day d))
  ∧ getNextDate (toISODate d) MONTHLY = Returns (toISODate (a_month_later d))
  ∧ getNextDate (toISODate d) YEARLY = Returns (toISODate (a_year_later d)).
Proof.
  intros Heast Hv Hy. rewrite !getNextDate_calendar by (assumption || lia).
  unfold calendar_step. repeat split.
  - by rewrite setDate_following_day.
  - rewrite (iter_following_day 7 d Hv) by lia. reflexivity.
  - fold (next_month d). by rewrite next_month_a_month_later.
  - by rewrite setFullYear_a_year_later.
Qed.

Lemma getNextDate_calendar_steps_witness :
  getNextDate (host:=utc) (toISODate (mk 2024 0 31)) DAILY
  = Returns (toISODate (following_day (mk 2024 0 31)))
  ∧ getNextDate (host:=utc) (toISODate (mk 2024 0 31)) WEEKLY
    = Returns (toISODate (Nat.iter 7 following_day (mk 2024 0 31)))
  ∧ getNextDate (host:=utc) (toISODate (mk 2024 0 31)) MONTHLY
    = Returns (toISODate (a_month_later (mk 2024 0 31)))
  ∧ getNextDate (host:=utc) (toISODate (mk 2024 0 31)) YEARLY
    = Returns (toISODate (a_year_later (mk 2024 0 31))).
Proof.
  apply (getNextDate_calendar_steps (host:=utc) (mk 2024 0 31) utc_east).
  - split; simpl; [lia|]. change (days_in_month 2024 0) with 31. lia.
  - simpl. lia.
Defined.

(** X2. In a host whose local time is at a fixed offset east of UTC, the
    date [getNextDate] returns is later than the date it is given, in the
    order in which the catch-up loop compares due dates with today: for
    every frequency and every calendar date up to the year 9997 the result
    is a calendar date and the given string is less than it.  Where the
    local time changes its offset the result need not be later
    ([getNextDate_stalls_at_clock_change]). *)
Theorem getNextDate_advances {host : Host} (d : fields) (freq : Frequency) :
  east_of_UTC host → valid d → 0 <= getFullYear d <= 9997 →
  ∃ next, getNextDate (toISODate d) freq = Returns next
          ∧ calendar_date next
          ∧ String.ltb (toISODate d) next = true.
Proof.
  intros Heast Hv Hy.
  destruct (getNextDate_later d freq Heast Hv) as (d' & Hrun & Hv' & Hy' & Ho); [lia|].
  exists (toISODate d'). split; [exact Hrun|]. split.
  - exists d'. split; [exact Hv'|]. split; [lia|reflexivity].
  - rewrite ltb_toISODate by (assumption || lia). by apply Z.ltb_lt.
Qed.

Lemma getNextDate_advances_witness :
  ∃ next, getNextDate (host:=utc) (toISODate (mk 2023 11 31)) BI_MONTHLY_EVEN = Returns next
          ∧ calendar_date next
          ∧ String.ltb (toISODate (mk 2023 11 31)) next = true.
Proof.
  apply (getNextDate_advances (host:=utc) (mk 2023 11 31) BI_MONTHLY_EVEN utc_east).
  - split; simpl; [lia|]. change (days_in_month 2023 11) with 31. lia.
  - simpl. lia.
Defined.

(** Where the clocks are moved forward the daily step may return the date
    it was given: the start of 10 March 2024 in UTC is the afternoon of
    9 March in local time, the day after is the afternoon of 10 March one
    hour nearer to UTC, still 10 March there. *)
Lemma getNextDate_stalls_at_clock_change :
  getNextDate (host:=spring_forward) "2024-03-10" DAILY = Returns "2024-03-10".
Proof. vm_compute. reflexivity. Qed.

Lemma catch_up_loop_bounds {host : Host} (today : string) (ids : nat → string) (remaining : nat) :
  ∀ loopCount tempRt txs rt',
    catch_up_loop remaining today ids loopCount tempRt = Returns (txs, rt') →
    Forall (λ tx, String.leb (Transaction.date tx) today = true
                  ∧ ∀ e, RecurringTransaction.endDate tempRt = Some e → e ≠ "" →
                         String.leb (Transaction.date tx) e = true) txs.
Proof.
  induction remaining as [|remaining IH]; intros loopCount tempRt txs rt' Hrun.
  - injection Hrun as <- <-. constructor.
  - cbn [catch_up_loop] in Hrun.
    destruct (String.leb _ today) eqn:Hdue; [|injection Hrun as <- <-; constructor].
    destruct (past_end tempRt) eqn:Hend; [injection Hrun as <- <-; constructor|].
    destruct (getNextDate _ _) as [next| |]; try discriminate Hrun.
    destruct (catch_up_loop remaining _ _ _ _) as [[txs0 rt0]| |] eqn:Hrest;
      try discriminate Hrun.
    injection Hrun as <- <-. constructor.
    + split; [exact Hdue|]. intros e He Hne. cbn [newTx Transaction.date].
      unfold past_end in Hend. rewrite He in Hend. cbn [JS.truthy] in Hend.
      destruct (String.eqb_spec e ""); [contradiction|]. cbn [negb andb] in Hend.
      by rewrite leb_not_ltb, Hend.
    + apply IH in Hrest. eapply Forall_impl; [exact Hrest|].
      intros tx [Htoday Hbound]. split; [exact Htoday|]. exact Hbound.
Qed.

(** X3. The catch-up never dates an instance in the future or past the end
    of its template: every transaction emitted for a template has a date not
    after today and, when the template has an end date, not after that end
    date. *)
Theorem emitted_within_bounds {host : Host} (today : string) (ids : nat → string)
    (rt rt' : RecurringTransaction.t) (txs : list Transaction.t) :
  catch_up today ids rt = Returns (txs, rt') →
  Forall (λ tx, String.leb (Transaction.date tx) today = true
                ∧ ∀ e, RecurringTransaction.endDate rt = Some e → e ≠ "" →
                       String.leb (Transaction.date tx) e = true) txs.
Proof. apply catch_up_loop_bounds. Qed.

Lemma emitted_within_bounds_witness :
  Forall (λ tx, String.leb (Transaction.date tx) "2024-06-15" = true
                ∧ ∀ e, RecurringTransaction.endDate recent_rent = Some e → e ≠ "" →
                       String.leb (Transaction.date tx) e = true)
    [newTx (sample_ids 0) recent_rent;
     newTx (sample_ids 1) (advance_to "2024-05-05" recent_rent);
     newTx (sample_ids 2) (advance_to "2024-06-05" (advance_to "2024-05-05" recent_rent))].
Proof.
  apply (emitted_within_bounds (host:=utc) "2024-06-15" sample_ids recent_rent
           (advance_to "2024-07-05"
              (advance_to "2024-06-05" (advance_to "2024-05-05" recent_rent)))).
  vm_compute. reflexivity.
Defined.

Lemma same_template_refl (rt : RecurringTransaction.t) : same_template rt rt.
Proof. by repeat split. Qed.

Lemma same_template_advance_to (next : string) (rt rt' : RecurringTransaction.t) :
  same_template (advance_to next rt) rt' → same_template rt rt'.
Proof. exact id. Qed.

Lemma catch_up_loop_bookkeeping {host : Host} (today : string) (ids : nat → string)
    (remaining : nat) :
  ∀ loopCount tempRt txs rt',
    catch_up_loop remaining today ids loopCount tempRt = Returns (txs, rt') →
    same_template tempRt rt'
    ∧ (txs = [] → rt' = tempRt)
    ∧ (∀ tx, last txs = Some tx →
         RecurringTransaction.lastGenerated rt' = Some (Transaction.date tx)).
Proof.
  induction remaining as [|remaining IH]; intros loopCount tempRt txs rt' Hrun.
  - injection Hrun as <- <-. split; [apply same_template_refl|]. split; [done|]. intros tx [=].
  - cbn [catch_up_loop] in Hrun.
    destruct (String.leb _ today);
      [|injection Hrun as <- <-; split; [apply same_template_refl|]; split; [done|];
        intros tx [=]].
    destruct (past_end tempRt);
      [injection Hrun as <- <-; split; [apply same_template_refl|]; split; [done|];
       intros tx [=]|].
    destruct (getNextDate _ _) as [next| |]; try discriminate Hrun.
    destruct (catch_up_loop remaining _ _ _ _) as [[txs0 rt0]| |] eqn:Hrest;
      try discriminate Hrun.
    injection Hrun as <- <-.
    apply IH in Hrest as (Hsame & Hnone & Hlast).
    split; [exact (same_template_advance_to next tempRt rt0 Hsame)|].
    split; [intros [=]|].
    intros tx Htx. destruct txs0 as [|tx0 txs0].
    + injection Htx as <-. by rewrite Hnone.
    + apply Hlast. exact Htx.
Qed.

(** X4. The catch-up changes nothing of a template but its due date and its
    [lastGenerated] mark: when no instance is emitted the template is
    unchanged, otherwise [lastGenerated] is the date of the last emitted
    instance, and every other field is kept. *)
Theorem template_bookkeeping {host : Host} (today : string) (ids : nat → string)
    (rt rt' : RecurringTransaction.t) (txs : list Transaction.t) :
  catch_up today ids rt = Returns (txs, rt') →
  same_template rt rt'
  ∧ (txs = [] → rt' = rt)
  ∧ (∀ tx, last txs = Some tx →
       RecurringTransaction.lastGenerated rt' = Some (Transaction.date tx)).
Proof. apply catch_up_loop_bookkeeping. Qed.

Lemma template_bookkeeping_witness :
  same_template recent_rent
    (advance_to "2024-07-05" (advance_to "2024-06-05" (advance_to "2024-05-05" recent_rent)))
  ∧ ([newTx (sample_ids 0) recent_rent;
      newTx (sample_ids 1) (advance_to "2024-05-05" recent_rent);
      newTx (sample_ids 2) (advance_to "2024-06-05" (advance_to "2024-05-05" recent_rent))]
     = [] →
     advance_to "2024-07-05" (advance_to "2024-06-05" (advance_to "2024-05-05" recent_rent))
     = recent_rent)
  ∧ (∀ tx,
       last [newTx (sample_ids 0) recent_rent;
             newTx (sample_ids 1) (advance_to "2024-05-05" recent_rent);
             newTx (sample_ids 2)
               (advance_to "2024-06-05" (advance_to "2024-05-05" recent_rent))]
       = Some tx →
       RecurringTransaction.lastGenerated
         (advance_to "2024-07-05"
            (advance_to "2024-06-05" (advance_to "2024-05-05" recent_rent)))
       = Some (Transaction.date tx)).
Proof.
  apply (template_bookkeeping (host:=utc) "2024-06-15" sample_ids).
  vm_compute. reflexivity.
Defined.

Lemma catch_up_loop_length {host : Host} (today : string) (ids : nat → string) (remaining : nat) :
  ∀ loopCount tempRt txs rt',
    catch_up_loop remaining today ids loopCount tempRt = Returns (txs, rt') →
    (length txs <= remaining)%nat.
Proof.
  induction remaining as [|remaining IH]; intros loopCount tempRt txs rt' Hrun.
  - injection Hrun as <- <-. simpl. lia.
  - cbn [catch_up_loop] in Hrun.
    destruct (String.leb _ today); [|injection Hrun as <- <-; simpl; lia].
    destruct (past_end tempRt); [injection Hrun as <- <-; simpl; lia|].
    destruct (getNextDate _ _) as [next| |]; try discriminate Hrun.
    destruct (catch_up_loop remaining _ _ _ _) as [[txs0 rt0]| |] eqn:Hrest;
      try discriminate Hrun.
    injection Hrun as <- <-. apply IH in Hrest. simpl. lia.
Qed.

Lemma catch_up_all_spec {host : Host} (today : string) (ids : nat → nat → string)
    (rts : list RecurringTransaction.t) :
  ∀ i txs rts',
    catch_up_all today ids i rts = Returns (txs, rts') →
    Forall (λ tx, Transaction.isRecurringInstance tx = Some true) txs
    ∧ (length txs <= 12 * length rts)%nat
    ∧ Forall2 same_template rts rts'
    ∧ (txs = [] → rts' = rts).
Proof.
  induction rts as [|rt rts IH]; intros i txs rts' Hrun.
  - injection Hrun as <- <-. repeat split; by constructor.
  - cbn [catch_up_all] in Hrun.
    destruct (catch_up today (ids i) rt) as [[txs0 rt']| |] eqn:Hone; try discriminate Hrun.
    destruct (catch_up_all today ids (S i) rts) as [[more rest']| |] eqn:Hrest;
      try discriminate Hrun.
    injection Hrun as <- <-.
    apply IH in Hrest as (Hinst & Hlen & Hsame & Hnone).
    pose proof (catch_up_loop_emits today (ids i) 12 0%nat rt txs0 rt' Hone) as [Hemit _].
    pose proof (catch_up_loop_length today (ids i) 12 0%nat rt txs0 rt' Hone) as Hlen0.
    pose proof (catch_up_loop_bookkeeping today (ids i) 12 0%nat rt txs0 rt' Hone)
      as (Hsame0 & Hnone0 & _).
    split; [|split; [|split]].
    + apply Forall_app. split; [|exact Hinst].
      eapply Forall_impl; [exact Hemit|]. by intros tx [? _].
    + rewrite length_app. simpl. lia.
    + by constructor.
    + intros Hnil. apply app_eq_nil in Hnil as [-> ->].
      by rewrite Hnone0, Hnone.
Qed.

(** X5. The catch-up effect only adds to the front of the transaction log:
    the transactions that were there stay, in their order, behind the new
    ones; the new ones are all marked [isRecurringInstance], at most twelve
    per template; and the list of templates keeps its length and order, each
    template changing at most in its due date and [lastGenerated] mark. *)
Theorem recurring_effect_extends_log {host : Host} (today : string) (ids : nat → nat → string)
    (log log' : list Transaction.t) (rts rts' : list RecurringTransaction.t) :
  recurring_effect today ids (log, rts) = Returns (log', rts') →
  ∃ new, log' = (new ++ log)%list
         ∧ Forall (λ tx, Transaction.isRecurringInstance tx = Some true) new
         ∧ (length new <= 12 * length rts)%nat
         ∧ Forall2 same_template rts rts'
         ∧ (new = [] → rts' = rts).
Proof.
  unfold recurring_effect. cbn [fst snd].
  destruct (catch_up_all today ids 0 rts) as [[new updated]| |] eqn:Hrun;
    try discriminate.
  pose proof (catch_up_all_spec today ids rts 0%nat new updated Hrun)
    as (Hinst & Hlen & Hsame & Hnone).
  destruct new as [|tx new]; intros [= <- <-].
  - exists []. repeat split; try done; try (simpl; lia).
    clear. induction rts; constructor; [apply same_template_refl|assumption].
  - exists (tx :: new). by repeat split.
Qed.

Lemma recurring_effect_extends_log_witness :
  ∃ new,
    ([ newTx (sample_ids 0) recent_rent;
       newTx (sample_ids 1) (advance_to "2024-05-05" recent_rent);
       newTx (sample_ids 2) (advance_to "2024-06-05" (advance_to "2024-05-05" recent_rent)) ]
     ++ example_transactions)%list
    = (new ++ example_transactions)%list
    ∧ Forall (λ tx, Transaction.isRecurringInstance tx = Some true) new
    ∧ (length new <= 12 * length [recent_rent; ended_subscription])%nat
    ∧ Forall2 same_template [recent_rent; ended_subscription]
        [ advance_to "2024-07-05"
            (advance_to "2024-06-05" (advance_to "2024-05-05" recent_rent));
          ended_subscription ]
    ∧ (new = [] →
       [ advance_to "2024-07-05"
           (advance_to "2024-06-05" (advance_to "2024-05-05" recent_rent));
         ended_subscription ]
       = [recent_rent; ended_subscription]).
Proof.
  apply (recurring_effect_extends_log (host:=utc) "2024-06-15" (λ _, sample_ids)).
  vm_compute. reflexivity.
Defined.

End SchedulerMore.

(** ** The total of the balances *)

Section Total.
Import JS.

Lemma foldl_add_start (l : list number) (x y : number) :
  foldl add (add x y) l = add x (foldl add y l).
Proof.
  revert y. induction l as [|v l IH]; intros y; [reflexivity|].
  cbn [foldl]. by rewrite <- add_assoc, IH.
Qed.

Lemma foldl_add_cons (l : list number) (v : number) :
  foldl add (of_Z 0) (v :: l) = add v (foldl add (of_Z 0) l).
Proof. cbn [foldl]. by rewrite (add_comm (of_Z 0) v), foldl_add_start. Qed.

(** The sum of the values does not depend on their order. *)
Lemma sum_values_permutation (l l' : list number) :
  Permutation l l' → foldl add (of_Z 0) l = foldl add (of_Z 0) l'.
Proof.
  induction 1 as [|v l l' _ IH|v w l|l1 l2 l3 _ IH1 _ IH2].
  - reflexivity.
  - by rewrite !foldl_add_cons, IH.
  - rewrite !foldl_add_cons. by rewrite !add_assoc, (add_comm w v).
  - by rewrite IH1.
Qed.

Lemma totalBalance_insert_fresh (m : gmap string number) (k : string) (v : number) :
  m !! k = None → totalBalance (<[k := v]> m) = add v (totalBalance m).
Proof.
  intros Hk. unfold totalBalance.
  rewrite (sum_values_permutation _ (v :: (map_to_list m).*2)).
  - apply foldl_add_cons.
  - change (v :: (map_to_list m).*2) with (((k, v) :: map_to_list m).*2).
    apply fmap_Permutation. by apply map_to_list_insert.
Qed.

Lemma totalBalance_delete (m : gmap string number) (k : string) (v : number) :
  m !! k = Some v → totalBalance m = add v (totalBalance (delete k m)).
Proof.
  intros Hk. rewrite <- (totalBalance_insert_fresh (delete k m) k v) by apply lookup_delete_eq.
  by rewrite insert_delete_id.
Qed.

Lemma totalBalance_plus_assign (m : gmap string number) (k : string) (v amt : number) :
  m !! k = Some v → totalBalance (plus_assign m k amt) = add (totalBalance m) amt.
Proof.
  intros Hk. unfold plus_assign. rewrite Hk. cbn [ToNumber default].
  rewrite <- insert_delete_eq, totalBalance_insert_fresh by apply lookup_delete_eq.
  rewrite (totalBalance_delete m k v Hk).
  apply add_swap.
Qed.

Lemma totalBalance_NaN (m : gmap string number) (k : string) :
  m !! k = Some NaN → totalBalance m = NaN.
Proof. intros Hk. by rewrite (totalBalance_delete m k NaN Hk). Qed.

Lemma sum_numbers_app (l l' : list number) :
  sum_numbers (l ++ l') = add (sum_numbers l) (sum_numbers l').
Proof.
  induction l as [|v l IH]; [by rewrite add_zero_l|].
  cbn [app sum_numbers foldr]. unfold sum_numbers in IH. by rewrite IH, add_assoc.
Qed.

Lemma totalBalance_foldl_post (ps : list (string * number)) :
  ∀ m : gmap string number,
    Forall (λ p, is_Some (m !! p.1)) ps →
    totalBalance (foldl post m ps) = add (totalBalance m) (sum_numbers ps.*2)
    ∧ ∀ k, is_Some (m !! k) → is_Some (foldl post m ps !! k).
Proof.
  induction ps as [|p ps IH]; intros m Hkeys.
  - split; [by rewrite add_zero_r|done].
  - apply Forall_cons in Hkeys as [[v Hv] Hkeys]. cbn [foldl].
    assert (Hkeep : ∀ k, is_Some (m !! k) → is_Some (post m p !! k)).
    { intros k Hk. rewrite lookup_post. unfold bump. by destruct (decide (p.1 = k)). }
    destruct (IH (post m p)) as [Htotal Hsome].
    { eapply Forall_impl; [exact Hkeys|]. intros q. apply Hkeep. }
    split.
    + rewrite Htotal. unfold post at 1. rewrite (totalBalance_plus_assign m p.1 v p.2 Hv).
      rewrite fmap_cons. cbn [sum_numbers foldr]. by rewrite add_assoc.
    + intros k Hk. apply Hsome, Hkeep, Hk.
Qed.

Lemma totalBalance_seed (accounts : list Account.t) :
  ∀ acc : gmap string number,
    NoDup (Account.id <$> accounts) →
    (∀ a, a ∈ accounts → acc !! Account.id a = None) →
    totalBalance (foldl seed_balance acc accounts)
    = add (totalBalance acc) (sum_numbers (Account.initialBalance <$> accounts)).
Proof.
  induction accounts as [|a accounts IH]; intros acc Hnd Hfresh.
  - by rewrite add_zero_r.
  - rewrite fmap_cons in Hnd. apply NoDup_cons in Hnd as [Hnotin Hnd].
    cbn [foldl]. rewrite IH; [|exact Hnd|].
    + unfold seed_balance at 1.
      rewrite totalBalance_insert_fresh by (apply Hfresh; left).
      rewrite fmap_cons. cbn [sum_numbers foldr].
      by rewrite (add_comm (Account.initialBalance a)), add_assoc.
    + intros b Hb. unfold seed_balance. rewrite lookup_insert_ne.
      * apply Hfresh. by right.
      * intros Heq. apply Hnotin. rewrite Heq. apply list_elem_of_fmap. by exists b.
Qed.

Lemma totalBalance_empty : totalBalance ∅ = of_Z 0.
Proof. unfold totalBalance. by rewrite map_to_list_empty. Qed.

Lemma add_neg_finite (x : number) :
  isNaN x = false → infinite x = false → add (neg x) (add x (of_Z 0)) = of_Z 0.
Proof.
  destruct x as [|q|s]; try discriminate. intros _ _.
  rewrite add_zero_r. unfold of_Z. simpl. f_equal.
  rewrite Qcplus_comm, Qcplus_opp_r. by apply Qc_is_canon.
Qed.

Lemma sum_postings (tx : Transaction.t) :
  infinite (Transaction.amount tx) = false →
  sum_numbers (postings tx).*2 = net_flow tx.
Proof.
  intros Hfin. unfold postings, net_flow.
  destruct (isNaN (Transaction.amount tx)) eqn:Hnan; [reflexivity|].
  destruct (Transaction.type tx).
  - cbn. apply add_zero_r.
  - cbn. apply add_zero_r.
  - destruct (Transaction.toAccountId tx) as [to_|]; [|reflexivity].
    destruct (String.eqb to_ ""); [reflexivity|].
    cbn [fmap list_fmap snd sum_numbers foldr]. by apply add_neg_finite.
Qed.

Lemma keys_postings (accounts : list Account.t) (tx : Transaction.t)
    (m : gmap string number) :
  (∀ k, k ∈ (Account.id <$> accounts) → is_Some (m !! k)) →
  booked accounts tx →
  Forall (λ p, is_Some (m !! p.1)) (postings tx).
Proof.
  intros Hm [Hacc Hto]. unfold postings.
  destruct (isNaN (Transaction.amount tx)); [constructor|].
  destruct (Transaction.type tx).
  - repeat constructor. by apply Hm.
  - repeat constructor. by apply Hm.
  - destruct (Transaction.toAccountId tx) as [to_|]; [|constructor].
    destruct (String.eqb_spec to_ ""); [constructor|].
    repeat constructor; apply Hm; [exact Hacc|by apply Hto].
Qed.

Lemma foldl_bump_NaN (k : string) (ps : list (string * number)) :
  (∃ p, p ∈ ps ∧ p.1 = k) → foldl (bump k) None ps = Some NaN.
Proof.
  induction ps as [|p ps IH]; intros (q & Hq & Hk).
  - by apply elem_of_nil in Hq.
  - cbn [foldl]. unfold bump at 2. destruct (decide (p.1 = k)) as [_|Hne].
    + by rewrite foldl_bump_Some.
    + apply IH. exists q. split; [|exact Hk].
      apply elem_of_cons in Hq as [->|Hq]; [contradiction|exact Hq].
Qed.

Lemma safe_integers_whole (l : list number) (x : number) :
  safe_integers l → x ∈ l → ∃ z, x = of_Z z.
Proof.
  intros (zs & -> & _) Hx. apply list_elem_of_fmap in Hx as (z & -> & _). by exists z.
Qed.

Lemma safe_ledger_amounts (accounts : list Account.t) (transactions : list Transaction.t) :
  safe_integers (ledger_numbers accounts transactions) →
  Forall (λ tx, infinite (Transaction.amount tx) = false) transactions.
Proof.
  intros Hsafe. apply Forall_forall. intros tx Htx.
  destruct (isNaN (Transaction.amount tx)) eqn:Hnan.
  - by destruct (Transaction.amount tx).
  - destruct (safe_integers_whole _ (Transaction.amount tx) Hsafe) as [z ->]; [|reflexivity].
    unfold ledger_numbers. apply elem_of_app. right.
    apply list_elem_of_In, filter_In. split; [|by rewrite Hnan].
    apply list_elem_of_In, list_elem_of_fmap. by exists tx.
Qed.

(** X6. The total of the balances is the sum of the initial balances plus
    the incomes minus the expenses: when the account ids are distinct, every
    transaction names accounts of the list, and the initial balances and the
    numeric amounts are whole numbers whose absolute values add up to at
    most 2^53 (where the sums of the host are exact in every order), a
    transfer changes nothing of the total, and neither does a transaction
    whose amount is NaN or a transfer without destination. *)
Theorem totalBalance_conserved
    (accounts : list Account.t) (transactions : list Transaction.t) :
  NoDup (Account.id <$> accounts) →
  Forall (booked accounts) transactions →
  safe_integers (ledger_numbers accounts transactions) →
  totalBalance (accountBalances accounts transactions)
  = add (sum_numbers (Account.initialBalance <$> accounts))
      (sum_numbers (net_flow <$> transactions)).
Proof.
  intros Hnd Hbooked Hfin%safe_ledger_amounts. unfold accountBalances.
  rewrite foldl_apply_transaction.
  set (seed := foldl seed_balance ∅ accounts).
  assert (Hseed : ∀ k, k ∈ (Account.id <$> accounts) → is_Some (seed !! k)).
  { intros k Hk. apply lookup_seed_is_Some. by left. }
  destruct (totalBalance_foldl_post (flat_map postings transactions) seed) as [-> _].
  { clear Hfin. induction Hbooked as [|tx txs Htx _ IH]; [constructor|].
    cbn [flat_map]. apply Forall_app. split; [|exact IH].
    by apply (keys_postings accounts). }
  subst seed. rewrite totalBalance_seed, totalBalance_empty, add_zero_l; [|exact Hnd|done].
  f_equal. clear Hbooked.
  induction Hfin as [|tx txs Htx _ IH]; [reflexivity|].
  cbn [flat_map]. rewrite fmap_app, sum_numbers_app, IH, sum_postings by exact Htx.
  reflexivity.
Qed.

Lemma totalBalance_conserved_witness :
  totalBalance (accountBalances example_accounts example_transactions)
  = add (sum_numbers (Account.initialBalance <$> example_accounts))
      (sum_numbers (net_flow <$> example_transactions)).
Proof.
  apply totalBalance_conserved.
  - apply (bool_decide_unpack _). vm_compute. reflexivity.
  - constructor; [|constructor; [|constructor]].
    + split; [cbn; by left|intros [=]].
    + split; [cbn; by left|]. intros _ to_ [= <-] _. cbn. right. by left.
  - exists [2000; 150000; 500; 1000]. split; [reflexivity|]. vm_compute. discriminate.
Defined.

(** X7. Deleting an account that still has transactions turns the total into
    NaN: once the user has confirmed the deletion of account [id], if the log
    holds an income or an expense with a numeric amount on that account, the
    balance object gets the entry NaN under [id] and the total of the
    balances is NaN. *)
Theorem deleting_used_account_makes_total_NaN
    (accounts : list Account.t) (transactions : list Transaction.t)
    (id : string) (tx : Transaction.t) :
  tx ∈ transactions →
  posts_to id tx →
  accountBalances (handleDeleteAccount true id accounts) transactions !! id = Some NaN
  ∧ totalBalance (accountBalances (handleDeleteAccount true id accounts) transactions) = NaN.
Proof.
  intros Hin (Hacc & Hnan & Htype).
  assert (Hentry : accountBalances (handleDeleteAccount true id accounts) transactions !! id
                   = Some NaN).
  { unfold accountBalances. rewrite foldl_apply_transaction, lookup_foldl_post.
    rewrite lookup_seed_other.
    - rewrite lookup_empty. apply foldl_bump_NaN.
      assert (Hp : ∃ p, p ∈ postings tx ∧ p.1 = id).
      { unfold postings. rewrite Hnan.
        destruct (Transaction.type tx); [| |contradiction];
          eexists; (split; [by left|exact Hacc]). }
      destruct Hp as (p & Hp & Hk). exists p. split; [|exact Hk].
      apply list_elem_of_In, in_flat_map. exists tx. by rewrite <- !list_elem_of_In.
    - unfold handleDeleteAccount. intros Hk.
      apply list_elem_of_fmap in Hk as (a & Ha & Hmem).
      apply list_elem_of_In, filter_In in Hmem as [_ Hne].
      apply negb_true_iff, String.eqb_neq in Hne. by rewrite Ha in Hne. }
  split; [exact Hentry|]. by apply (totalBalance_NaN _ id).
Qed.

Lemma deleting_used_account_makes_total_NaN_witness :
  accountBalances (handleDeleteAccount true "a1" example_accounts) example_transactions
    !! "a1" = Some NaN
  ∧ totalBalance
      (accountBalances (handleDeleteAccount true "a1" example_accounts) example_transactions)
    = NaN.
Proof.
  apply (deleting_used_account_makes_total_NaN example_accounts example_transactions "a1"
           (Transaction.mk "t1" "2024-05-01" (of_Z 500) EXPENSE "cat_food" "lunch"
              None "a1" None None None)).
  - by left.
  - split; [reflexivity|]. split; [reflexivity|discriminate].
Defined.

End Total.

(** ** More on export, import and restore *)

Section ReconcilerMore.
Import Text.

(** X8. A category survives the way through its name, with one exception.
    For every category id of the registry, looking up its name
    ([getCategoryName], the fourth cell of an exported row) and then the id of
    that name ([getCategoryIdByName], [getCategoryId] of the import) gives the
    id back, except for [cat_other_inc]: its name is also the name of
    [cat_other_exp], which comes first in the registry, so it is read back as
    [cat_other_exp] whatever the type of the transaction.  An id that is
    neither an id nor a name of the registry is read back as the fallback
    category of the type. *)
Theorem category_round_trip (type : TransactionType) :
  (∀ c n, category_name c = Some n →
          getCategoryIdByName (Some (getCategoryName c)) type = category_read_back c
          ∧ getCategoryId (Some (or_else (category_name c) c)) type = category_read_back c)
  ∧ (∀ c, category_name c = None →
          Forall (λ cat, CategoryOption.name cat ≠ c) allCats →
          getCategoryIdByName (Some (getCategoryName c)) type = fallback_category type).
Proof.
  split.
  - intros c n Hname. unfold getCategoryIdByName, getCategoryName.
    assert (Hc : c ∈ CategoryOption.id <$> allCats).
    { unfold category_name in Hname.
      destruct (find _ allCats) as [cat|] eqn:Hfind; [|discriminate].
      apply find_In in Hfind as [Hin Hid]. apply String.eqb_eq in Hid.
      apply list_elem_of_fmap. by exists cat. }
    assert (Hall : Forall (λ c, getCategoryId (Some (or_else (category_name c) c)) type
                                = category_read_back c) (CategoryOption.id <$> allCats))
      by (destruct type; repeat constructor).
    rewrite Forall_forall in Hall. split; by apply Hall.
  - intros c Hname Hfresh. unfold getCategoryIdByName, getCategoryName, getCategoryId.
    rewrite Hname. cbn [or_else].
    destruct (find _ allCats) as [cat|] eqn:Hfind; [|by destruct type].
    apply find_In in Hfind as [Hin Hn]. apply String.eqb_eq in Hn.
    rewrite Forall_forall in Hfresh. by destruct (Hfresh cat Hin).
Qed.

Lemma category_round_trip_witness :
  getCategoryIdByName (Some (getCategoryName "cat_other_inc")) INCOME
  = category_read_back "cat_other_inc"
  ∧ getCategoryId (Some (or_else (category_name "cat_other_inc") "cat_other_inc")) INCOME
    = category_read_back "cat_other_inc".
Proof.
  apply (proj1 (category_round_trip INCOME) "cat_other_inc" "其他"). reflexivity.
Defined.

(** X9. Whatever a transaction holds, the cells read from its exported line
    are the cells that were exported: commas, quotes and spaces inside a
    description, a location or a name do not move the cell boundaries and are
    read back unchanged. *)
Theorem exported_line_reads_back (accounts : list Account.t) (tx : Transaction.t) :
  row_of_line (trim (export_row accounts tx)) = export_cells accounts tx
  ∧ length (row_of_line (trim (export_row accounts tx))) = 8%nat.
Proof.
  unfold export_row.
  rewrite trim_joined_cells, row_of_line_joined by apply export_cells_not_nil.
  split; reflexivity.
Qed.

(** The category of the transaction that a row pushes. *)
Lemma import_row_category {host : Host} (acc_ids : nat → string) (accounts : list Account.t)
    (id : string) (row : list string) (st : import_state) (t : Imported.t) :
  newTransactions (import_row acc_ids accounts id row st)
  = (newTransactions st ++ [t])%list →
  ∃ typeRaw, row !! 1%nat = Some typeRaw
             ∧ Imported.category t = getCategoryId (row !! 3%nat) (type_of_label typeRaw)
             ∧ Imported.id t = id.
Proof.
  assert (Hskip : newTransactions st ≠ (newTransactions st ++ [t])%list).
  { intros Heq. apply (f_equal length) in Heq. rewrite length_app in Heq. simpl in Heq. lia. }
  destruct row as [|cell0 [|typeRaw [|cell2 more]]]; cbn [import_row]; try done.
  destruct (JS.isNaN _ || _); [done|].
  destruct (getOrCreateAccountId acc_ids (more !! 3%nat) (updatedAccounts st)) as [accId accs].
  intros Heq. exists typeRaw. split; [reflexivity|].
  destruct (type_of_label typeRaw);
    try (cbn [newTransactions] in Heq; apply app_inj_tail in Heq as [_ <-]; by split).
  destruct (JS.truthy (more !! 4%nat)).
  - destruct (getOrCreateAccountId acc_ids (more !! 4%nat) accs) as [toId accs'].
    cbn [newTransactions] in Heq. apply app_inj_tail in Heq as [_ <-]. by split.
  - cbn [newTransactions] in Heq. apply app_inj_tail in Heq as [_ <-]. by split.
Qed.

Lemma import_exported_lines_category {host : Host} (tx_ids acc_ids : nat → string)
    (accounts : list Account.t) (txs : list Transaction.t) :
  well_named accounts → Forall (exportable accounts) txs →
  ∀ i st, updatedAccounts st = accounts →
    ∃ ts, newTransactions
            (import_lines tx_ids acc_ids accounts i (export_row accounts <$> txs) st)
          = (newTransactions st ++ ts)%list
          ∧ Imported.category <$> ts
            = category_read_back <$> (Transaction.category <$> txs)
          ∧ Imported.id <$> ts = tx_ids <$> seq i (length txs).
Proof.
  intros Hwn Hall. induction Hall as [|tx txs Htx Hall IH]; intros i st Hst.
  - exists []. split; [by rewrite app_nil_r|done].
  - rewrite fmap_cons. cbn [import_lines]. rewrite import_exported_line.
    destruct (import_exported_row acc_ids accounts (tx_ids i) tx st Hwn Htx Hst)
      as (t & Hrow & _).
    assert (Hnew : newTransactions
                     (import_row acc_ids accounts (tx_ids i) (export_cells accounts tx) st)
                   = (newTransactions st ++ [t])%list) by (by rewrite Hrow).
    apply import_row_category in Hnew as (typeRaw & Hlabel & Hcat & Hid).
    cbn in Hlabel. injection Hlabel as <-.
    rewrite Hrow.
    destruct (IH (S i) {| updatedAccounts := accounts;
                          newTransactions := (newTransactions st ++ [t])%list;
                          importedCount := S (importedCount st) |} eq_refl)
      as (ts & -> & Hcats & Hids).
    exists (t :: ts). split; [cbn; by rewrite <- app_assoc|].
    split.
    + rewrite !fmap_cons, Hcats. f_equal. rewrite Hcat. cbn [lookup list_lookup export_cells].
      destruct Htx as (_ & _ & _ & _ & (n & Hn) & _).
      by apply (proj1 (category_round_trip _) _ n).
    + cbn [length seq]. rewrite !fmap_cons, Hids, Hid. reflexivity.
Qed.

(** X10. Exporting the log and importing the file keeps the category of
    every transaction but one: under the conditions of the round trip
    (accounts with ids and names without line feeds, transactions that fit on
    a line), the categories of the imported transactions are, in order, those
    of the exported ones, except that [cat_other_inc] comes back as
    [cat_other_exp]; and the id of each imported transaction is the one drawn
    for its line. *)
Theorem csv_round_trip_categories {host : Host}
    (tx_ids acc_ids : nat → string) (accounts : list Account.t)
    (txs : list Transaction.t) :
  well_named accounts →
  Forall (exportable accounts) txs →
  Imported.category <$>
    imported (handleImportCSV tx_ids acc_ids accounts (handleExportCSV accounts txs))
  = category_read_back <$> (Transaction.category <$> txs)
  ∧ Imported.id <$>
      imported (handleImportCSV tx_ids acc_ids accounts (handleExportCSV accounts txs))
    = tx_ids <$> seq 1 (length txs).
Proof.
  intros Hwn Hall. unfold handleExportCSV, handleImportCSV.
  rewrite join_prepend.
  assert (Htext : ∀ l, String.eqb (join (String LF "") ((BOM +:+ join "," headers) :: l)) ""
                       = false) by (by intros [|x l]).
  rewrite Htext, split_on_join; [|done|].
  2:{ constructor; [reflexivity|]. apply Forall_fmap.
      eapply Forall_impl; [exact Hall|]. intros tx Htx. by apply export_row_no_LF. }
  assert (Hheader :
    negb (includes "日期" (replace_char dquote "" (strip_BOM (BOM +:+ join "," headers))))
    || negb (includes "金額" (replace_char dquote "" (strip_BOM (BOM +:+ join "," headers))))
    = false) by reflexivity.
  rewrite Hheader.
  destruct (import_exported_lines_any tx_ids acc_ids accounts txs Hwn Hall 1%nat
              (mk_import_state accounts [] 0) eq_refl) as (ts & Hrun & _).
  destruct (import_exported_lines_category tx_ids acc_ids accounts txs Hwn Hall 1%nat
              (mk_import_state accounts [] 0) eq_refl) as (ts' & Hnew & Hcats & Hids).
  rewrite Hrun in Hnew |- *. cbn [newTransactions app] in Hnew. subst ts'.
  cbn [importedCount updatedAccounts newTransactions app Nat.add].
  destruct txs as [|tx txs].
  - destruct ts; [done|discriminate Hcats].
  - cbn [length imported]. by split.
Qed.

Lemma csv_round_trip_categories_witness :
  Imported.category <$>
    imported (handleImportCSV (host:=utc) import_ids account_ids example_accounts
                (handleExportCSV example_accounts example_transactions))
  = category_read_back <$> (Transaction.category <$> example_transactions)
  ∧ Imported.id <$>
      imported (handleImportCSV (host:=utc) import_ids account_ids example_accounts
                  (handleExportCSV example_accounts example_transactions))
    = import_ids <$> seq 1 (length example_transactions).
Proof.
  apply (csv_round_trip_categories (host:=utc)).
  - repeat constructor; discriminate.
  - constructor; [|constructor; [|constructor]].
    + split; [exists (Date.mk 2024 4 1); repeat split;
              first [reflexivity | vm_compute; intros; discriminate]|].
      split; [by exists 500|]. repeat split; try reflexivity.
      * by eexists.
      * eexists. split; [reflexivity|discriminate].
      * discriminate.
    + split; [exists (Date.mk 2024 4 2); repeat split;
              first [reflexivity | vm_compute; intros; discriminate]|].
      split; [by exists 1000|]. repeat split; try reflexivity.
      * by eexists.
      * eexists. split; [reflexivity|discriminate].
      * intros _. exists "a2", "Bank". repeat split; discriminate.
Defined.

Lemma replace_char_append (c : ascii) (by_ s t : string) :
  replace_char c by_ (s +:+ t) = replace_char c by_ s +:+ replace_char c by_ t.
Proof.
  induction s as [|a s IH]; [by rewrite !append_nil_l|].
  rewrite append_cons. cbn [replace_char]. rewrite IH.
  destruct (Ascii.eqb a c); [by rewrite append_assoc|by rewrite append_cons].
Qed.

Lemma replace_char_written (c sep : ascii) (d : Date.fields) :
  (∀ k, 0 <= k <= 9 → Ascii.eqb (Date.digit k) c = false) →
  replace_char c "-" (written_date sep d)
  = written_date (if Ascii.eqb sep c then "-"%char else sep) d.
Proof.
  intros Hc. unfold written_date.
  rewrite replace_char_append. cbn [replace_char].
  rewrite replace_char_append. cbn [replace_char].
  rewrite (replace_char_lacking c _ (Date.pad4 _)) by (by apply has_char_pad4).
  rewrite !(replace_char_lacking c _ (Date.pad2 _)) by (by apply has_char_pad2).
  destruct (Ascii.eqb sep c); by rewrite ?append_cons, ?append_nil_l.
Qed.

(** West of UTC the date comes back a day early. *)
Lemma normalizeDate_west_of_UTC :
  normalizeDate (host:=fixed_offset (-25200000)) "2024/05/04" = "2024-05-03".
Proof. vm_compute. reflexivity. Qed.

(** X11. In a host whose local time is at a fixed offset east of UTC,
    [normalizeDate] accepts the separators it names: a calendar date with a
    year from 1000 to 9999 written as four, two and two digits with hyphens,
    slashes, dots or underscores between them is rewritten as its ISO string
    with hyphens. *)
Theorem normalizeDate_separators {host : Host} (sep : ascii) (d : Date.fields) :
  east_of_UTC host →
  Date.valid d → 1000 <= Date.getFullYear d <= 9999 →
  sep ∈ ["-"; "/"; "."; "_"]%char →
  normalizeDate (written_date sep d) = Date.toISODate d.
Proof.
  intros Heast Hv Hy Hsep.
  assert (Hiso : written_date "-" d = Date.toISODate d).
  { unfold written_date, Date.toISODate, Date.iso_year.
    destruct (Z.leb_spec 0 (Date.getFullYear d)); [|lia].
    destruct (Z.leb_spec (Date.getFullYear d) 9999); [|lia]. reflexivity. }
  unfold normalizeDate.
  rewrite !replace_char_written by (apply digit_not; reflexivity).
  assert (Hsame :
    (if Ascii.eqb (if Ascii.eqb (if Ascii.eqb sep "_" then "-" else sep) "/"
                   then "-" else (if Ascii.eqb sep "_" then "-" else sep)) "."
     then "-" else (if Ascii.eqb (if Ascii.eqb sep "_" then "-" else sep) "/"
                   then "-" else (if Ascii.eqb sep "_" then "-" else sep)))%char
    = "-"%char).
  { repeat (apply elem_of_cons in Hsep as [->|Hsep]; [reflexivity|]).
    by apply elem_of_nil in Hsep. }
  rewrite Hsame, Hiso, of_string_toISODate by (assumption || lia). cbv zeta.
  rewrite getFullYear_midnight, getMonth_midnight, getDate_midnight by assumption.
  destruct Hv as [Hm Hd].
  pose proof (days_in_month_bounds (Date.getFullYear d) (Date.getMonth d)).
  rewrite of_integer_4, !of_integer_2 by lia.
  unfold Date.toISODate, Date.iso_year.
  destruct (Z.leb_spec 0 (Date.getFullYear d)); [|lia].
  destruct (Z.leb_spec (Date.getFullYear d) 9999); [|lia]. reflexivity.
Qed.

Lemma normalizeDate_separators_witness :
  normalizeDate (host:=utc) (written_date "/" (Date.mk 2024 4 1))
  = Date.toISODate (Date.mk 2024 4 1).
Proof.
  apply (normalizeDate_separators (host:=utc)).
  - apply utc_east.
  - split; simpl; [lia|]. change (Date.days_in_month 2024 4) with 31. lia.
  - simpl. lia.
  - right. by left.
Defined.

Lemma grown_from_refl (accounts : list Account.t) : grown_from accounts accounts.
Proof.
  exists []. split; [by rewrite app_nil_r|]. split; [constructor|].
  split; [constructor|]. intros a b Ha. by apply elem_of_nil in Ha.
Qed.

Lemma nth_palette (n : nat) :
  nth (n mod length ACCOUNT_COLORS) ACCOUNT_COLORS "" ∈ ACCOUNT_COLORS.
Proof.
  apply list_elem_of_In, nth_In. apply Nat.mod_upper_bound. discriminate.
Qed.

Lemma getOrCreateAccountId_grown (acc_ids : nat → string) (name : option string)
    (accounts working : list Account.t) :
  grown_from accounts working →
  grown_from accounts (getOrCreateAccountId acc_ids name working).2.
Proof.
  intros Hgrown. unfold getOrCreateAccountId.
  destruct name as [name|]; [|exact Hgrown].
  destruct (String.eqb_spec name "") as [|Hne]; [exact Hgrown|].
  destruct (find _ working) as [existing|] eqn:Hfind; [exact Hgrown|].
  destruct Hgrown as (created & -> & Hshape & Hnd & Hother). cbn [snd].
  assert (Hnew : ∀ a, a ∈ (accounts ++ created)%list → Account.name a ≠ name).
  { intros a Ha. apply list_elem_of_In in Ha.
    pose proof (find_none _ _ Hfind a Ha) as Hn. by apply String.eqb_neq in Hn. }
  eexists (created ++ [_])%list. split; [by rewrite app_assoc|].
  split; [|split].
  - apply Forall_app. split; [exact Hshape|]. constructor; [|constructor].
    repeat split; [exact Hne|apply nth_palette].
  - rewrite fmap_app. apply NoDup_app. split; [exact Hnd|]. split.
    + intros n Hn Hn'. cbn in Hn'. apply list_elem_of_singleton in Hn'. subst n.
      apply list_elem_of_fmap in Hn as (a & Ha & Hin).
      apply (Hnew a); [|done]. apply elem_of_app. by right.
    + cbn. apply NoDup_singleton.
  - intros a b Ha Hb. apply elem_of_app in Ha as [Ha|Ha]; [by apply Hother|].
    apply list_elem_of_singleton in Ha. subst a. cbn [Account.name].
    intros Heq. apply (Hnew b); [|done]. apply elem_of_app. by left.
Qed.

Lemma import_row_grown {host : Host} (acc_ids : nat → string) (accounts : list Account.t)
    (id : string) (row : list string) (st : import_state) :
  grown_from accounts (updatedAccounts st) →
  grown_from accounts (updatedAccounts (import_row acc_ids accounts id row st)).
Proof.
  intros Hgrown.
  destruct row as [|cell0 [|typeRaw [|cell2 more]]]; cbn [import_row]; try done.
  destruct (JS.isNaN _ || _); [done|].
  pose proof (getOrCreateAccountId_grown acc_ids (more !! 3%nat) accounts _ Hgrown) as H1.
  destruct (getOrCreateAccountId acc_ids (more !! 3%nat) (updatedAccounts st))
    as [accId accs]. cbn [snd] in H1.
  destruct (type_of_label typeRaw); try exact H1.
  destruct (JS.truthy (more !! 4%nat)); [|exact H1].
  pose proof (getOrCreateAccountId_grown acc_ids (more !! 4%nat) accounts _ H1) as H2.
  by destruct (getOrCreateAccountId acc_ids (more !! 4%nat) accs).
Qed.

Lemma import_lines_grown {host : Host} (tx_ids acc_ids : nat → string) (accounts : list Account.t)
    (lines : list string) :
  ∀ i st,
    grown_from accounts (updatedAccounts st) →
    grown_from accounts (updatedAccounts (import_lines tx_ids acc_ids accounts i lines st)).
Proof.
  induction lines as [|line lines IH]; intros i st Hgrown; [exact Hgrown|].
  cbn [import_lines]. apply IH. unfold import_line.
  destruct (String.eqb _ ""); [exact Hgrown|]. by apply import_row_grown.
Qed.

(** X12. An import never touches the accounts that exist: the account list
    it installs is the previous list, unchanged and in its order, followed by
    the accounts it created; each created account is a cash account with
    balance 0, a non-empty name and a colour of the palette, and the created
    accounts have names that differ from one another and from the names of
    the previous accounts. *)
Theorem import_keeps_accounts {host : Host} (tx_ids acc_ids : nat → string)
    (accounts : list Account.t)
    (text : string) (updated : list Account.t) (txs : list Imported.t) :
  handleImportCSV tx_ids acc_ids accounts text = Imported_ updated txs →
  grown_from accounts updated.
Proof.
  unfold handleImportCSV. destruct (String.eqb text ""); [discriminate|].
  destruct (split_on LF text) as [|line0 rest]; [discriminate|].
  destruct (negb _ || negb _); [discriminate|].
  pose proof (import_lines_grown tx_ids acc_ids accounts rest 1
                (mk_import_state accounts [] 0) (grown_from_refl accounts)) as Hgrown.
  destruct (importedCount _); [discriminate|]. by intros [= <- _].
Qed.

Lemma import_keeps_accounts_witness :
  grown_from example_accounts
    (example_accounts ++
     [Account.mk (account_ids 2) "Travel" CASH (JS.of_Z 0) "bg-purple-500"])%list.
Proof.
  apply (import_keeps_accounts (host:=utc) import_ids account_ids example_accounts
           (join (String LF "") (join "," headers :: travel_lines)) _
           (newTransactions
              (import_lines (host:=utc) import_ids account_ids example_accounts 1 travel_lines
                 (mk_import_state example_accounts [] 0)))).
  vm_compute. reflexivity.
Defined.

Lemma restore_row_spec (id : string) (row : list string)
    (acc : list Transaction.t * gset string) :
  (restorable row = false ∧ restore_row id row acc = acc)
  ∨ (restorable row = true
     ∧ ∃ tx, (restore_row id row acc).1 = (acc.1 ++ [tx])%list
             ∧ acc.2 ⊆ (restore_row id row acc).2
             ∧ Transaction.id tx = id
             ∧ JS.isNaN (Transaction.amount tx) = false
             ∧ (Transaction.accountId tx = ""
                ∨ Transaction.accountId tx ∈ (restore_row id row acc).2)
             ∧ ∃ to_, Transaction.toAccountId tx = Some to_
                      ∧ (to_ = "" ∨ to_ ∈ (restore_row id row acc).2)).
Proof.
  destruct row as [|date [|typeLabel [|cell2 more]]]; try (by left).
  right. split; [reflexivity|]. cbn [restore_row].
  eexists. split; [reflexivity|]. cbn [fst snd Transaction.id Transaction.amount
    Transaction.accountId Transaction.toAccountId].
  split; [set_solver|]. split; [reflexivity|]. split; [|split].
  - by destruct (parseFloat _).
  - destruct (String.eqb_spec (or_else (more !! 3%nat) "") ""); [by left|].
    right. set_solver.
  - eexists. split; [reflexivity|].
    destruct (String.eqb_spec (or_else (more !! 4%nat) "") ""); [by left|].
    right. set_solver.
Qed.

Lemma restore_rows_spec (ids : nat → string) (rows : list (list string)) :
  ∀ (acc result : list Transaction.t * gset string),
    foldl (λ acc row, restore_row (ids (length acc.1)) row acc) acc rows = result →
    ∃ txs, result.1 = (acc.1 ++ txs)%list
           ∧ acc.2 ⊆ result.2
           ∧ length txs = length (List.filter restorable rows)
           ∧ (∀ k tx, txs !! k = Some tx → Transaction.id tx = ids (length acc.1 + k)%nat)
           ∧ Forall (λ tx, JS.isNaN (Transaction.amount tx) = false
                           ∧ (Transaction.accountId tx = ""
                              ∨ Transaction.accountId tx ∈ result.2)
                           ∧ ∃ to_, Transaction.toAccountId tx = Some to_
                                    ∧ (to_ = "" ∨ to_ ∈ result.2)) txs.
Proof.
  induction rows as [|row rows IH]; intros acc result Hrun.
  - cbn [foldl] in Hrun. subst result. exists []. rewrite app_nil_r.
    repeat split; try done.
  - cbn [foldl List.filter] in Hrun |- *.
    destruct (restore_row_spec (ids (length acc.1)) row acc)
      as [[Hskip Hsame] | (Hread & tx & Hpush & Hnames & Hid & Hnan & Hacc & to_ & Hto & Hdest)].
    + rewrite Hskip. rewrite Hsame in Hrun. by apply IH.
    + rewrite Hread.
      destruct (IH _ _ Hrun) as (txs & Hall & Hsub & Hlen & Hids & Hinv).
      exists (tx :: txs). rewrite Hall, Hpush, <- app_assoc.
      split; [reflexivity|]. split; [by etrans|]. split; [cbn; by rewrite Hlen|].
      split.
      * intros [|k] t Ht.
        -- injection Ht as <-. by rewrite Nat.add_0_r.
        -- rewrite (Hids k t Ht), Hpush, length_app. cbn. f_equal. lia.
      * constructor; [|exact Hinv].
        split; [exact Hnan|]. split.
        -- destruct Hacc as [Hacc|Hacc]; [by left|right]. by apply Hsub.
        -- exists to_. split; [exact Hto|].
           destruct Hdest as [Hdest|Hdest]; [by left|right]. by apply Hsub.
Qed.

(** X13. The restore makes one transaction of every row that has at least
    three cells, whatever its amount cell holds, and none of the others; the
    transactions come in the order of the rows and draw their ids in that
    order; no amount is NaN; and every account name a transaction carries in
    [accountId] or [toAccountId] is in the set [accountNames] that is
    returned with them, unless it is empty. *)
Theorem restore_reads_every_row (ids : nat → string)
    (valueRanges : list (option (list (list string)))) :
  let result := restoreDataFromGoogleSheets ids valueRanges in
  length result.1 = length (List.filter restorable (sheet_rows valueRanges))
  ∧ (∀ k tx, result.1 !! k = Some tx → Transaction.id tx = ids k)
  ∧ Forall (λ tx, JS.isNaN (Transaction.amount tx) = false
                  ∧ (Transaction.accountId tx = "" ∨ Transaction.accountId tx ∈ result.2)
                  ∧ ∃ to_, Transaction.toAccountId tx = Some to_
                           ∧ (to_ = "" ∨ to_ ∈ result.2)) result.1.
Proof.
  cbv zeta. unfold restoreDataFromGoogleSheets, sheet_rows.
  assert (Hflat : ∀ (ranges : list (option (list (list string)))) acc,
    foldl (λ acc range,
             match range with
             | Some values =>
                 foldl (λ acc row, restore_row (ids (length acc.1)) row acc) acc values
             | None => acc
             end) acc ranges
    = foldl (λ acc row, restore_row (ids (length acc.1)) row acc) acc
        (concat (default [] <$> ranges))).
  { induction ranges as [|[values|] ranges IH]; intros acc; [reflexivity| |].
    - cbn [foldl fmap list_fmap concat default]. by rewrite foldl_app, IH.
    - cbn [foldl fmap list_fmap concat default app]. apply IH. }
  rewrite Hflat.
  destruct (restore_rows_spec ids (concat (default [] <$> valueRanges)) ([], ∅) _ eq_refl)
    as (txs & Hall & _ & Hlen & Hids & Hinv).
  cbn [fst app] in Hall, Hids. rewrite Hall. by repeat split.
Qed.

End ReconcilerMore.

(** ** The account handlers *)

Section Accounts.

Lemma parseInt_integer (s : string) : parseInt s = JS.NaN ∨ Num.integer (parseInt s).
Proof.
  unfold parseInt.
  destruct (match Text.trimStart s with
            | String a r =>
                if Ascii.eqb a "-" then (true, r)
                else if Ascii.eqb a "+" then (false, r) else (false, Text.trimStart s)
            | "" => (false, Text.trimStart s)
            end) as [negative s'].
  destruct (match s' with
            | String a (String b r) =>
                if Ascii.eqb a "0" && (Ascii.eqb b "x" || Ascii.eqb b "X")
                then scan_hex 0 0 r
                else let '(v, c, _) := Text.scan_digits 0 0 s' in (v, c)
            | _ => let '(v, c, _) := Text.scan_digits 0 0 s' in (v, c)
            end) as [value [|count]]; [by left|right].
  by eexists.
Qed.

Lemma or_else_integer (x : JS.number) :
  x = JS.NaN ∨ Num.integer x → Num.integer (Num.or_else x (JS.of_Z 0)).
Proof.
  intros [->|[z ->]]; [by exists 0|].
  unfold Num.or_else, JS.of_Z. destruct (Qc_eq_bool _ _); [by exists 0|by exists z].
Qed.

(** X14. [handleSaveAccount] always stores an integer balance, whatever the
    balance field holds (text that is not a number gives 0, decimals are cut
    off), and touches one account only.  With the id of an account in the
    form state the list keeps its length, order and ids, the accounts with
    another id are unchanged and the accounts with that id take the name,
    type and colour of the form; otherwise one account is appended and the
    accounts before it are unchanged. *)
Theorem handleSaveAccount_spec (newId : string) (form : AccountFormState.t)
    (prev : list Account.t) :
  let saved := handleSaveAccount newId (Some form) prev in
  let shaped (a : Account.t) : Prop :=
    Num.integer (Account.initialBalance a)
    ∧ Account.name a = AccountFormState.name form
    ∧ Account.type a = AccountFormState.type form
    ∧ Account.color a = AccountFormState.color form in
  (JS.truthy (AccountFormState.id form) = true →
   Account.id <$> saved = Account.id <$> prev
   ∧ Forall2 (λ a a', if bool_decide (Some (Account.id a) = AccountFormState.id form)
                      then shaped a' else a' = a) prev saved)
  ∧ (JS.truthy (AccountFormState.id form) = false →
     ∃ a, saved = (prev ++ [a])%list ∧ shaped a
          ∧ Account.id a = default newId (AccountFormState.id form)).
Proof.
  cbv zeta. unfold handleSaveAccount.
  pose proof (or_else_integer _ (parseInt_integer (AccountFormState.initialBalance form)))
    as Hint.
  destruct (JS.truthy (AccountFormState.id form)); split; try discriminate; intros _.
  - split.
    + rewrite <- list_fmap_compose. apply list_fmap_ext. intros i a _. cbn.
      by case_bool_decide.
    + apply Forall2_fmap_r, Forall_Forall2_diag, Forall_forall. intros a _.
      unfold compose. case_bool_decide; cbn; [by repeat split|reflexivity].
  - eexists. split; [reflexivity|]. by repeat split.
Qed.

Lemma seed_permutation (l l' : list Account.t) :
  NoDup (Account.id <$> l) → Permutation l l' →
  foldl seed_balance ∅ l = foldl seed_balance ∅ l'.
Proof.
  intros Hnd Hperm. apply map_eq. intros k.
  assert (Hnd' : NoDup (Account.id <$> l')) by (by rewrite <- Hperm).
  destruct (decide (k ∈ Account.id <$> l)) as [Hk|Hk].
  - apply list_elem_of_fmap in Hk as (a & -> & Ha).
    rewrite (lookup_seed_listed l a Hnd Ha).
    rewrite Hperm in Ha. by rewrite (lookup_seed_listed l' a Hnd' Ha).
  - rewrite lookup_seed_other by exact Hk.
    rewrite Hperm in Hk. by rewrite lookup_seed_other.
Qed.

Lemma swap_adjacent (l : list Account.t) (i : nat) (a b : Account.t) :
  l !! i = Some a → l !! S i = Some b →
  l = (take i l ++ a :: b :: drop (S (S i)) l)%list.
Proof.
  intros Ha Hb.
  rewrite <- (take_drop_middle l i a Ha) at 1. f_equal. f_equal.
  apply drop_S. exact Hb.
Qed.

Lemma array_set_inside {A : Type} (l : list A) (i : nat) (v : A) :
  (i < length l)%nat → array_set (Some <$> l) i (Some v) = Some <$> <[i := v]> l.
Proof.
  intros Hi. unfold array_set. rewrite length_fmap.
  destruct (Nat.ltb_spec i (length l)); [|lia]. by rewrite list_fmap_insert.
Qed.

Lemma accounts_of_Some (l : list Account.t) : accounts_of (Some <$> l) = Some l.
Proof.
  unfold accounts_of. apply mapM_Some. apply Forall2_fmap_l, Forall_Forall2_diag.
  by apply Forall_forall.
Qed.

(** What a move does to the list, for a row [i] and its lower neighbour. *)
Lemma moveAccount_pair (l : list Account.t) (i : nat) (a b : Account.t) :
  l !! i = Some a → l !! S i = Some b →
  moveAccount i DOWN l = Some (Some <$> (take i l ++ b :: a :: drop (S (S i)) l)%list)
  ∧ moveAccount (S i) UP l = Some (Some <$> (take i l ++ b :: a :: drop (S (S i)) l)%list).
Proof.
  intros Ha Hb.
  pose proof (lookup_lt_Some _ _ _ Ha) as Hi. pose proof (lookup_lt_Some _ _ _ Hb) as Hsi.
  assert (Hat : ∀ (pre rest : list Account.t) (x y u v : Account.t),
            <[S (length pre) := y]> (<[length pre := x]> (pre ++ u :: v :: rest)%list)
            = (pre ++ x :: y :: rest)%list
            ∧ <[length pre := x]> (<[S (length pre) := y]> (pre ++ u :: v :: rest)%list)
              = (pre ++ x :: y :: rest)%list).
  { intros pre rest x y u v. induction pre as [|p pre [IH1 IH2]]; [done|].
    cbn in *. split; by f_equal. }
  assert (Hlen : length (take i l) = i) by (rewrite length_take; lia).
  assert (Hswap : <[S i := a]> (<[i := b]> l) = (take i l ++ b :: a :: drop (S (S i)) l)%list).
  { rewrite (swap_adjacent l i a b Ha Hb) at 1. rewrite <- Hlen at 1 2. apply Hat. }
  assert (Hswap' : <[i := b]> (<[S i := a]> l) = (take i l ++ b :: a :: drop (S (S i)) l)%list).
  { rewrite (swap_adjacent l i a b Ha Hb) at 1. rewrite <- Hlen at 1 2. apply Hat. }
  unfold moveAccount. split.
  - destruct (Z.ltb_spec (Z.of_nat i + 1) 0); [lia|].
    destruct (Z.leb_spec (Z.of_nat (length l)) (Z.of_nat i + 1)); [lia|]. cbn [orb].
    replace (Z.to_nat (Z.of_nat i + 1)) with (S i) by lia.
    rewrite !list_lookup_fmap, Ha, Hb. cbn [fmap option_fmap option_map mjoin option_join].
    rewrite array_set_inside by lia.
    rewrite array_set_inside by (rewrite length_insert; lia).
    by rewrite Hswap.
  - destruct (Z.ltb_spec (Z.of_nat (S i) - 1) 0); [lia|].
    destruct (Z.leb_spec (Z.of_nat (length l)) (Z.of_nat (S i) - 1)); [lia|]. cbn [orb].
    replace (Z.to_nat (Z.of_nat (S i) - 1)) with i by lia.
    rewrite !list_lookup_fmap, Ha, Hb. cbn [fmap option_fmap option_map mjoin option_join].
    rewrite array_set_inside by lia.
    rewrite array_set_inside by (rewrite length_insert; lia).
    by rewrite Hswap'.
Qed.

(** X15. [moveAccount] exchanges a row of the account list with its
    neighbour and changes nothing else: moving row [i] down and moving row
    [i + 1] up give the same list, a permutation of the accounts in which the
    two rows have changed places and every other row is where it was; moving
    the row back restores the list; and when the account ids are distinct no
    balance changes. *)
Theorem moveAccount_swaps_neighbours (accounts : list Account.t) (i : nat)
    (a b : Account.t) :
  accounts !! i = Some a → accounts !! S i = Some b →
  ∃ moved,
    moveAccount i DOWN accounts = Some (Some <$> moved)
    ∧ moveAccount (S i) UP accounts = Some (Some <$> moved)
    ∧ Permutation accounts moved
    ∧ moved !! i = Some b
    ∧ moved !! S i = Some a
    ∧ (∀ k, k ≠ i → k ≠ S i → moved !! k = accounts !! k)
    ∧ moveAccount (S i) UP moved = Some (Some <$> accounts)
    ∧ (NoDup (Account.id <$> accounts) →
       ∀ transactions,
         accountBalances moved transactions = accountBalances accounts transactions).
Proof.
  intros Ha Hb.
  pose proof (lookup_lt_Some _ _ _ Ha) as Hi. pose proof (lookup_lt_Some _ _ _ Hb) as Hsi.
  assert (Hlen : length (take i accounts) = i) by (rewrite length_take; lia).
  set (moved := (take i accounts ++ b :: a :: drop (S (S i)) accounts)%list).
  destruct (moveAccount_pair accounts i a b Ha Hb) as [Hdown Hup].
  assert (Hperm : Permutation accounts moved).
  { rewrite (swap_adjacent accounts i a b Ha Hb) at 1. subst moved.
    apply Permutation_app_head, perm_swap. }
  assert (Hmi : moved !! i = Some b).
  { subst moved. rewrite lookup_app_r by lia. by rewrite Hlen, Nat.sub_diag. }
  assert (Hmsi : moved !! S i = Some a).
  { subst moved. rewrite lookup_app_r by lia. rewrite Hlen.
    by replace (S i - i)%nat with 1%nat by lia. }
  exists moved. repeat split; try assumption.
  - intros k Hk Hsk. subst moved.
    transitivity ((take i accounts ++ a :: b :: drop (S (S i)) accounts)%list !! k);
      [|by rewrite <- (swap_adjacent accounts i a b Ha Hb)].
    destruct (Nat.lt_ge_cases k i) as [Hlt|Hge].
    + by rewrite !lookup_app_l by lia.
    + rewrite !lookup_app_r by lia. rewrite Hlen.
      destruct (k - i)%nat as [|[|j]] eqn:Hj; [lia|lia|reflexivity].
  - destruct (moveAccount_pair moved i b a Hmi Hmsi) as [_ ->]. do 2 f_equal.
    transitivity (take i accounts ++ a :: b :: drop (S (S i)) accounts)%list;
      [|by rewrite <- (swap_adjacent accounts i a b Ha Hb)].
    assert (Htake : take i moved = take i accounts).
    { subst moved. rewrite <- Hlen at 1. by rewrite take_app_length. }
    assert (Hdrop : drop (S (S i)) moved = drop (S (S i)) accounts).
    { subst moved. rewrite <- Hlen at 1.
      replace (S (S (length (take i accounts)))) with (length (take i accounts) + 2)%nat
        by lia.
      by rewrite drop_app_add. }
    by rewrite Htake, Hdrop.
  - intros Hnd transactions. unfold accountBalances.
    by rewrite (seed_permutation accounts moved Hnd Hperm).
Qed.

Lemma moveAccount_swaps_neighbours_witness :
  ∃ moved,
    moveAccount 0 DOWN example_accounts = Some (Some <$> moved)
    ∧ moveAccount 1 UP example_accounts = Some (Some <$> moved)
    ∧ Permutation example_accounts moved
    ∧ moved !! 0%nat = Some (Account.mk "a2" "Bank" BANK (JS.of_Z 150000) "bg-blue-500")
    ∧ moved !! 1%nat = Some (Account.mk "a1" "Wallet" CASH (JS.of_Z 2000) "bg-orange-500")
    ∧ (∀ k, k ≠ 0%nat → k ≠ 1%nat → moved !! k = example_accounts !! k)
    ∧ moveAccount 1 UP moved = Some (Some <$> example_accounts)
    ∧ (NoDup (Account.id <$> example_accounts) →
       ∀ transactions,
         accountBalances moved transactions
         = accountBalances example_accounts transactions).
Proof.
  apply (moveAccount_swaps_neighbours example_accounts 0); reflexivity.
Defined.

(** X16. At the ends of the list [moveAccount] does nothing: the first row
    does not move up, the last row does not move down, and an index past the
    list moves nowhere; only the index just behind the last row passes the
    guard when moved up, and the array it then builds is one entry longer and
    holds [undefined] in the place of the last account. *)
Theorem moveAccount_at_the_ends (accounts : list Account.t) :
  moveAccount 0 UP accounts = None
  ∧ (∀ i, (length accounts <= S i)%nat → moveAccount i DOWN accounts = None)
  ∧ (∀ i, (length accounts < i)%nat → moveAccount i UP accounts = None)
  ∧ ∀ others last,
      accounts = (others ++ [last])%list →
      moveAccount (length accounts) UP accounts
      = Some ((Some <$> others) ++ [None; Some last])%list.
Proof.
  split; [|split; [|split]].
  - reflexivity.
  - intros i Hi. unfold moveAccount.
    destruct (Z.leb_spec (Z.of_nat (length accounts)) (Z.of_nat i + 1)); [|lia].
    by rewrite orb_true_r.
  - intros i Hi. unfold moveAccount.
    destruct (Z.leb_spec (Z.of_nat (length accounts)) (Z.of_nat i - 1)); [|lia].
    by rewrite orb_true_r.
  - intros others last ->. unfold moveAccount. rewrite length_app. cbn [length].
    destruct (Z.ltb_spec (Z.of_nat (length others + 1) - 1) 0); [lia|].
    destruct (Z.leb_spec (Z.of_nat (length others + 1)) (Z.of_nat (length others + 1) - 1));
      [lia|]. cbn [orb].
    replace (Z.to_nat (Z.of_nat (length others + 1) - 1)) with (length others) by lia.
    rewrite fmap_app. cbn [fmap list_fmap].
    rewrite (lookup_ge_None_2 _ (length others + 1)) by (rewrite length_app, length_fmap; simpl; lia).
    rewrite lookup_app_r by (rewrite length_fmap; lia).
    rewrite length_fmap, Nat.sub_diag. cbn [lookup list_lookup mjoin option_join].
    unfold array_set at 2. rewrite length_app, length_fmap. cbn [length].
    destruct (Nat.ltb_spec (length others + 1) (length others + 1)); [lia|].
    rewrite Nat.sub_diag. cbn [replicate app].
    unfold array_set. rewrite !length_app, length_fmap. cbn [length].
    destruct (Nat.ltb_spec (length others) (length others + 1 + 1)); [|lia].
    rewrite <- app_assoc. cbn [app].
    rewrite <- (length_fmap Some others) at 1.
    rewrite <- (Nat.add_0_r (length (Some <$> others))).
    by rewrite insert_app_r.
Qed.

Lemma moveAccount_at_the_ends_witness :
  moveAccount (length example_accounts) UP example_accounts
  = Some ((Some <$> [Account.mk "a1" "Wallet" CASH (JS.of_Z 2000) "bg-orange-500"])
          ++ [None; Some (Account.mk "a2" "Bank" BANK (JS.of_Z 150000) "bg-blue-500")])%list.
Proof.
  apply (proj2 (proj2 (proj2 (moveAccount_at_the_ends example_accounts)))). reflexivity.
Defined.

End Accounts.

(** ** Sorting *)

Section Sorting.

Lemma of_Z_sub (a b : Z) : JS.sub (JS.of_Z a) (JS.of_Z b) = JS.of_Z (a - b).
Proof.
  unfold JS.sub, JS.of_Z. cbn [JS.neg JS.add]. f_equal.
  by rewrite Z2Qc_inj_sub.
Qed.

Lemma lt_of_Z (a b : Z) : Num.lt (JS.of_Z a) (JS.of_Z b) = (a <? b).
Proof.
  unfold Num.lt, JS.of_Z.
  destruct (Qccompare (Qc_of_Z a) (Qc_of_Z b)) eqn:Hc.
  - apply Qceq_alt, Z2Qc_inj in Hc. subst b. symmetry. apply Z.ltb_irrefl.
  - apply Qclt_alt, Z2Qc_inj_lt in Hc. symmetry. by apply Z.ltb_lt.
  - apply Qcgt_alt in Hc. change (Qc_of_Z b < Qc_of_Z a)%Qc in Hc.
    apply Z2Qc_inj_lt in Hc. symmetry. apply Z.ltb_ge. lia.
Qed.

Lemma eq_of_Z (a b : Z) : Num.eq (JS.of_Z a) (JS.of_Z b) = (a =? b).
Proof.
  unfold Num.eq, JS.of_Z, Qc_eq_bool.
  destruct (Qcanon.Qc_eq_dec _ _) as [Heq|Hne], (Z.eqb_spec a b) as [Hab|Hab];
    try reflexivity.
  - by apply Z2Qc_inj in Heq.
  - by subst b.
Qed.

Lemma insert_by_Permutation {A : Type} (comparefn : A → A → JS.number) (x : A)
    (l : list A) :
  Permutation (x :: l) (insert_by comparefn x l).
Proof.
  induction l as [|y l IH]; [reflexivity|]. cbn [insert_by].
  destruct (Num.lt _ _); [|reflexivity].
  rewrite perm_swap. by apply perm_skip.
Qed.

(** A sort gives the elements it was given. *)
Lemma sort_Permutation {A : Type} (comparefn : A → A → JS.number) (l : list A) :
  Permutation l (sort comparefn l).
Proof.
  induction l as [|x l IH]; [reflexivity|]. unfold sort in *. cbn [foldr].
  rewrite <- insert_by_Permutation. by apply perm_skip.
Qed.

(** With a comparefn that is never positive nothing moves. *)
Lemma sort_never_positive {A : Type} (comparefn : A → A → JS.number) (l : list A) :
  (∀ x y, Num.lt (JS.of_Z 0) (comparefn x y) = false) → sort comparefn l = l.
Proof.
  intros Hcmp. induction l as [|x l IH]; [reflexivity|]. unfold sort in *. cbn [foldr].
  rewrite IH. destruct l as [|y l]; [reflexivity|]. cbn [insert_by]. by rewrite Hcmp.
Qed.

(** With a comparefn that follows a transitive order on the elements, the
    result is in that order. *)
Lemma sort_sorted {A : Type} (comparefn : A → A → JS.number) (R : A → A → Prop)
    (l : list A) :
  (∀ x y z, R x y → R y z → R x z) →
  (∀ x y, x ∈ l → y ∈ l → Num.lt (JS.of_Z 0) (comparefn x y) = false → R x y) →
  (∀ x y, x ∈ l → y ∈ l → Num.lt (JS.of_Z 0) (comparefn x y) = true → R y x) →
  StronglySorted R (sort comparefn l).
Proof.
  intros Htrans Hle Hgt.
  assert (Hins : ∀ x s,
    x ∈ l → (∀ y, y ∈ s → y ∈ l) → StronglySorted R s →
    StronglySorted R (insert_by comparefn x s)).
  { intros x s Hx Hs Hsorted. induction Hsorted as [|y s Hsorted IH Hall].
    - repeat constructor.
    - cbn [insert_by]. destruct (Num.lt _ _) eqn:Hcmp.
      + constructor; [apply IH; intros z Hz; apply Hs; by right|].
        apply Forall_forall. intros z Hz.
        rewrite <- insert_by_Permutation in Hz. apply elem_of_cons in Hz as [->|Hz].
        * apply Hgt; [exact Hx|apply Hs; by left|exact Hcmp].
        * rewrite Forall_forall in Hall. by apply Hall.
      + constructor; [by constructor|].
        assert (Hxy : R x y) by (apply Hle; [exact Hx|apply Hs; by left|exact Hcmp]).
        constructor; [exact Hxy|].
        eapply Forall_impl; [exact Hall|]. intros z. by apply Htrans. }
  assert (Hsub : ∀ k, (∀ y, y ∈ k → y ∈ l) → StronglySorted R (sort comparefn k)).
  { induction k as [|x k IH]; intros Hk; [constructor|]. unfold sort in *. cbn [foldr].
    apply Hins.
    - apply Hk. by left.
    - intros y Hy. rewrite <- (sort_Permutation comparefn k) in Hy. apply Hk. by right.
    - apply IH. intros y Hy. apply Hk. by right. }
  by apply Hsub.
Qed.

Lemma getTime_difference (d : DateObj.t) :
  Num.lt (JS.of_Z 0) (JS.sub (DateObj.getTime d) (DateObj.getTime d)) = false.
Proof.
  destruct d as [t|]; [|reflexivity]. cbn [DateObj.getTime].
  by rewrite of_Z_sub, Z.sub_diag, lt_of_Z.
Qed.

(** X17. Sorting by date in ascending order leaves the list as it is: the
    comparefn of that order subtracts the time of [a] from itself, so it is
    never positive and the stable sort moves nothing; whatever the order
    chosen, the sorted list holds the transactions of the filtered list, each
    as often as there. *)
Theorem sort_by_date_ascending_keeps_order {host : Host} (filtered : list Transaction.t) :
  sortedTransactions filtered by_date asc = filtered
  ∧ ∀ key direction, Permutation filtered (sortedTransactions filtered key direction).
Proof.
  split.
  - apply sort_never_positive. intros x y. cbn [sort_comparefn].
    apply getTime_difference.
  - intros key direction. apply sort_Permutation.
Qed.

End Sorting.

(** ** The orders of the transaction list *)

Section Orders.

Lemma StronglySorted_impl {A : Type} (R R' : A → A → Prop) (l : list A) :
  (∀ x y, R x y → R' x y) → StronglySorted R l → StronglySorted R' l.
Proof.
  intros Himpl. induction 1 as [|x l _ IH Hall]; constructor; [exact IH|].
  eapply Forall_impl; [exact Hall|]. intros y. apply Himpl.
Qed.

Lemma lt_zero_sub_Fin (p q : Qc) :
  Num.lt (JS.of_Z 0) (JS.sub (JS.Fin p) (JS.Fin q)) = true ↔ (q < p)%Qc.
Proof.
  unfold Num.lt, JS.sub, JS.of_Z. cbn [JS.neg JS.add]. rewrite Z2Qc_inj_0.
  rewrite (Qclt_minus_iff q p), Qclt_alt.
  destruct (Qccompare (Q2Qc 0) (p + - q)); split; intros H; congruence.
Qed.

Lemma le_Fin (p q : Qc) : Num.le (JS.Fin p) (JS.Fin q) = true ↔ (p <= q)%Qc.
Proof.
  unfold Num.le, Num.lt, Num.eq, Qc_eq_bool. rewrite Qcle_alt.
  destruct (Qcanon.Qc_eq_dec p q) as [->|Hne].
  - rewrite orb_true_r. split; [|done]. intros _.
    assert (Heq : Qccompare q q = Eq) by (by apply Qceq_alt). by rewrite Heq.
  - rewrite orb_false_r. destruct (Qccompare p q) eqn:Hc; split; try done; intros H.
    apply Qceq_alt in Hc. contradiction.
Qed.

(** The comparefn [f(a) - f(b)] sorts by [f] in ascending order and
    [f(b) - f(a)] in descending order, when the values are finite. *)
Lemma sort_ascending {A : Type} (f : A → JS.number) (l : list A) :
  Forall (λ a, finite (f a)) l →
  StronglySorted (λ a b, Num.le (f a) (f b) = true) (sort (λ a b, JS.sub (f a) (f b)) l).
Proof.
  intros Hfin. rewrite Forall_forall in Hfin.
  apply (StronglySorted_impl
           (λ a b, ∃ p q, f a = JS.Fin p ∧ f b = JS.Fin q ∧ (p <= q)%Qc)).
  { intros a b (p & q & -> & -> & Hle). by apply le_Fin. }
  apply sort_sorted.
  - intros x y z (p & q & Hx & Hy & Hpq) (q' & r & Hy' & Hz & Hqr).
    rewrite Hy in Hy'. injection Hy' as <-.
    exists p, r. repeat split; try assumption. by etrans.
  - intros x y Hx Hy Hcmp. destruct (Hfin x Hx) as [p Hp], (Hfin y Hy) as [q Hq].
    exists p, q. repeat split; try assumption.
    rewrite Hp, Hq in Hcmp.
    apply Qcnot_lt_le. intros Hlt. apply lt_zero_sub_Fin in Hlt. congruence.
  - intros x y Hx Hy Hcmp. destruct (Hfin x Hx) as [p Hp], (Hfin y Hy) as [q Hq].
    exists q, p. repeat split; try assumption.
    rewrite Hp, Hq in Hcmp.
    apply lt_zero_sub_Fin in Hcmp. by apply Qclt_le_weak.
Qed.

Lemma sort_descending {A : Type} (f : A → JS.number) (l : list A) :
  Forall (λ a, finite (f a)) l →
  StronglySorted (λ a b, Num.le (f b) (f a) = true) (sort (λ a b, JS.sub (f b) (f a)) l).
Proof.
  intros Hfin. rewrite Forall_forall in Hfin.
  apply (StronglySorted_impl
           (λ a b, ∃ p q, f a = JS.Fin p ∧ f b = JS.Fin q ∧ (q <= p)%Qc)).
  { intros a b (p & q & -> & -> & Hle). by apply le_Fin. }
  apply sort_sorted.
  - intros x y z (p & q & Hx & Hy & Hpq) (q' & r & Hy' & Hz & Hqr).
    rewrite Hy in Hy'. injection Hy' as <-.
    exists p, r. repeat split; try assumption. by etrans.
  - intros x y Hx Hy Hcmp. destruct (Hfin x Hx) as [p Hp], (Hfin y Hy) as [q Hq].
    exists p, q. repeat split; try assumption.
    rewrite Hp, Hq in Hcmp.
    apply Qcnot_lt_le. intros Hlt. apply lt_zero_sub_Fin in Hlt. congruence.
  - intros x y Hx Hy Hcmp. destruct (Hfin x Hx) as [p Hp], (Hfin y Hy) as [q Hq].
    exists q, p. repeat split; try assumption.
    rewrite Hp, Hq in Hcmp.
    apply lt_zero_sub_Fin in Hcmp. by apply Qclt_le_weak.
Qed.

(** The comparefn [new Date(b.date).getTime() - new Date(a.date).getTime()]
    puts calendar dates newest first. *)
Lemma newest_first {host : Host} (l : list Transaction.t) :
  Forall (λ tx, calendar_date (Transaction.date tx)) l →
  StronglySorted (λ a b, String.leb (Transaction.date b) (Transaction.date a) = true)
    (sort (λ a b, JS.sub (DateObj.getTime (DateObj.of_string (Transaction.date b)))
                    (DateObj.getTime (DateObj.of_string (Transaction.date a)))) l).
Proof.
  intros Hcal. rewrite Forall_forall in Hcal.
  apply (StronglySorted_impl
           (λ a b, ∃ d e, Date.valid d ∧ Date.valid e
                          ∧ 0 <= Date.getFullYear d <= 9999
                          ∧ 0 <= Date.getFullYear e <= 9999
                          ∧ Transaction.date a = Date.toISODate d
                          ∧ Transaction.date b = Date.toISODate e
                          ∧ calendar_ordinal e <= calendar_ordinal d)).
  { intros a b (d & e & Hd & He & Hyd & Hye & -> & -> & Hle).
    rewrite leb_toISODate by assumption. by apply Z.leb_le. }
  assert (Hinj : ∀ d e, Date.valid d → Date.valid e →
                   0 <= Date.getFullYear d <= 9999 → 0 <= Date.getFullYear e <= 9999 →
                   Date.toISODate d = Date.toISODate e → d = e).
  { intros d e Hd He Hyd Hye Heq.
    assert (Some d = Some e) as [= ->]; [|reflexivity].
    rewrite <- (parse_toISODate d), <- (parse_toISODate e) by (assumption || lia).
    by rewrite Heq. }
  assert (Hcmp : ∀ d e, Date.valid d → Date.valid e →
            0 <= Date.getFullYear d <= 9999 → 0 <= Date.getFullYear e <= 9999 →
            Num.lt (JS.of_Z 0)
              (JS.sub (DateObj.getTime (DateObj.of_string (Date.toISODate e)))
                 (DateObj.getTime (DateObj.of_string (Date.toISODate d))))
            = (calendar_ordinal d <? calendar_ordinal e)).
  { intros d e Hd He Hyd Hye.
    rewrite !getTime_toISODate by (assumption || lia).
    rewrite of_Z_sub, lt_of_Z. unfold msPerDay.
    destruct (Z.ltb_spec (calendar_ordinal d) (calendar_ordinal e)) as [Hlt|Hge].
    - apply (Day_lt d e Hd He) in Hlt. apply Z.ltb_lt. lia.
    - apply (Day_le e d He Hd) in Hge. apply Z.ltb_ge. lia. }
  apply sort_sorted.
  + intros x y z (d & e & Hd & He & Hyd & Hye & Hx & Hy & Hle)
                 (e' & f & He' & Hf & Hye' & Hyf & Hy' & Hz & Hle').
    rewrite Hy in Hy'. apply Hinj in Hy'; try assumption. subst e'.
    exists d, f. do 4 (split; [assumption|]). do 2 (split; [assumption|]). lia.
  + intros x y Hx Hy Hpos.
    destruct (Hcal x Hx) as (d & Hd & Hyd & Hdx), (Hcal y Hy) as (e & He & Hye & Hey).
    cbv beta in Hpos. rewrite Hdx, Hey, Hcmp in Hpos by (assumption || lia).
    apply Z.ltb_ge in Hpos.
    exists d, e. do 2 (split; [assumption|]). do 2 (split; [lia|]).
    do 2 (split; [assumption|]). exact Hpos.
  + intros x y Hx Hy Hpos.
    destruct (Hcal x Hx) as (d & Hd & Hyd & Hdx), (Hcal y Hy) as (e & He & Hye & Hey).
    cbv beta in Hpos. rewrite Hdx, Hey, Hcmp in Hpos by (assumption || lia).
    apply Z.ltb_lt in Hpos.
    exists e, d. do 2 (split; [assumption|]). do 2 (split; [lia|]).
    do 2 (split; [assumption|]). lia.
Qed.

(** X18. The three other orders sort: when every amount is finite, sorting
    by amount puts the transactions in ascending, respectively descending,
    order of amount; and when every date is a calendar date, sorting by date
    in descending order puts the transactions newest first, in the order of
    their date strings. *)
Theorem sortedTransactions_orders {host : Host} (filtered : list Transaction.t) :
  (Forall (λ tx, finite (Transaction.amount tx)) filtered →
   StronglySorted (λ a b, Num.le (Transaction.amount a) (Transaction.amount b) = true)
     (sortedTransactions filtered by_amount asc)
   ∧ StronglySorted (λ a b, Num.le (Transaction.amount b) (Transaction.amount a) = true)
       (sortedTransactions filtered by_amount desc))
  ∧ (Forall (λ tx, calendar_date (Transaction.date tx)) filtered →
     StronglySorted (λ a b, String.leb (Transaction.date b) (Transaction.date a) = true)
       (sortedTransactions filtered by_date desc)).
Proof.
  split.
  - intros Hfin. split.
    + by apply (sort_ascending Transaction.amount).
    + by apply (sort_descending Transaction.amount).
  - apply newest_first.
Qed.

End Orders.

(** ** The filters of the transaction list *)

Section Filters.

Variable toLowerCase : string → string.

Lemma filter_filter {A} (p q : A → bool) (l : list A) :
  List.filter q (List.filter p l) = List.filter (λ x, p x && q x) l.
Proof.
  induction l as [|a l IH]; [reflexivity|]. cbn [List.filter].
  destruct (p a); cbn [List.filter andb]; [destruct (q a)|]; by rewrite IH.
Qed.

Lemma filter_when {A} (b : bool) (p : A → bool) (l : list A) :
  (if negb b then List.filter p l else l) = List.filter (λ x, b || p x) l.
Proof.
  destruct b; cbn [negb orb]; [|reflexivity].
  induction l as [|a l IH]; [reflexivity|]. cbn [List.filter]. by rewrite <- IH.
Qed.

Lemma filter_sublist {A} (p : A → bool) (l : list A) : sublist (List.filter p l) l.
Proof.
  induction l as [|a l IH]; [constructor|]. cbn [List.filter].
  destruct (p a); by constructor.
Qed.

Lemma filter_idem {A} (p : A → bool) (l : list A) :
  List.filter p (List.filter p l) = List.filter p l.
Proof.
  rewrite filter_filter. apply List.filter_ext. intros a. by destruct (p a).
Qed.

Lemma filter_none {A} (p : A → bool) (l : list A) :
  (∀ a, p a = false) → List.filter p l = [].
Proof. intros Hp. induction l as [|a l IH]; [reflexivity|]. cbn. by rewrite Hp. Qed.

Lemma filter_all {A} (p : A → bool) (l : list A) :
  (∀ a, p a = true) → List.filter p l = l.
Proof. intros Hp. induction l as [|a l IH]; [reflexivity|]. cbn. by rewrite Hp, IH. Qed.

(** The seven steps of [filteredTransactions] select the transactions that
    meet every criterion. *)
Lemma filteredTransactions_meets (transactions : list Transaction.t) (searchTerm : string)
    (filters : FilterState.t) :
  filteredTransactions toLowerCase transactions searchTerm filters
  = List.filter (meets toLowerCase searchTerm filters) transactions.
Proof.
  unfold filteredTransactions. cbv zeta.
  rewrite !filter_when.
  assert (Htype : ∀ l : list Transaction.t,
             match FilterState.type filters with
             | Some type => List.filter (λ tx, TransactionType_eqb (Transaction.type tx) type) l
             | None => l
             end
             = List.filter (λ tx, match FilterState.type filters with
                                  | Some type => TransactionType_eqb (Transaction.type tx) type
                                  | None => true
                                  end) l).
  { intros l. destruct (FilterState.type filters); [reflexivity|].
    induction l as [|a l IH]; [reflexivity|]. cbn [List.filter]. by rewrite <- IH. }
  rewrite Htype, !filter_filter. apply List.filter_ext. intros tx. unfold meets.
  by rewrite !andb_assoc.
Qed.

Lemma ge_NaN (x : JS.number) : Num.ge x JS.NaN = false.
Proof. by destruct x. Qed.

Lemma le_NaN (x : JS.number) : Num.le x JS.NaN = false.
Proof. by destruct x. Qed.

End Filters.

(** X19. The transaction list under a search term and filters: it is the
    part of the transactions that meets every criterion that is set, in the
    order of the transactions; each transaction is judged on its own, so the
    list of a longer ledger starts with the list of the shorter one;
    filtering the result again changes nothing; after [resetFilters] every
    transaction is listed; and an amount bound that [parseFloat] cannot read
    hides every transaction. *)
Theorem filteredTransactions_narrows (toLowerCase : string → string)
    (transactions : list Transaction.t) (searchTerm : string) (filters : FilterState.t) :
  let view := λ txs, filteredTransactions toLowerCase txs searchTerm filters in
  sublist (view transactions) transactions
  ∧ (∀ tx, tx ∈ view transactions
           ↔ tx ∈ transactions ∧ meets toLowerCase searchTerm filters tx = true)
  ∧ (∀ more, view (transactions ++ more)%list = (view transactions ++ view more)%list)
  ∧ view (view transactions) = view transactions
  ∧ filteredTransactions toLowerCase transactions resetFilters.2 resetFilters.1
    = transactions
  ∧ (FilterState.minAmount filters ≠ ""
     ∧ Text.parseFloat (FilterState.minAmount filters) = JS.NaN
     ∨ FilterState.maxAmount filters ≠ ""
       ∧ Text.parseFloat (FilterState.maxAmount filters) = JS.NaN →
     view transactions = []).
Proof.
  cbv zeta. rewrite !filteredTransactions_meets.
  split; [apply filter_sublist|].
  split; [intros tx; by rewrite ?filteredTransactions_meets, !list_elem_of_In, filter_In|].
  split; [intros more; by rewrite ?filteredTransactions_meets, List.filter_app|].
  split; [by rewrite ?filteredTransactions_meets, filter_idem|].
  split.
  - apply filter_all. intros tx. reflexivity.
  - intros Hbad. apply filter_none. intros tx. unfold meets.
    destruct Hbad as [[Hset Hnan]|[Hset Hnan]]; rewrite Hnan;
      apply String.eqb_neq in Hset; rewrite Hset.
    + rewrite ge_NaN. cbn [orb]. by rewrite andb_false_r.
    + rewrite le_NaN. cbn [orb]. by rewrite andb_false_r.
Qed.

(** ** The dashboard figures and the list behind them *)

Section Dashboard.

Variable toLowerCase : string → string.

(** [new Date(year, month, 1)]: the first of the month, the months outside
    0 to 11 being counted into the years around. *)
Lemma new_Date_first (year month : Z) :
  ¬ 0 <= year <= 99 →
  new_Date year month 1 = Date.mk (year + month / 12) (month mod 12) 1.
Proof.
  intros Hy. unfold new_Date.
  destruct (Z.leb_spec 0 year), (Z.leb_spec year 99); try lia; cbn [andb];
    (destruct (Z.ltb_spec 1 1); [lia|]); apply carry_fits;
    pose proof (days_in_month_bounds (year + month / 12) (month mod 12)); lia.
Qed.

(** [new Date(year, month + 1, 0)]: the last day of month [month]. *)
Lemma new_Date_last (year month : Z) :
  ¬ 0 <= year <= 99 → 0 <= month <= 11 →
  new_Date year (month + 1) 0 = Date.mk year month (Date.days_in_month year month).
Proof.
  intros Hy Hm. unfold new_Date.
  assert (Hyear : (if (0 <=? year) && (year <=? 99) then 1900 + year else year) = year).
  { destruct (Z.leb_spec 0 year), (Z.leb_spec year 99); try lia; reflexivity. }
  rewrite Hyear. change (0 <? 1) with true. cbv iota.
  change (Z.to_nat (1 - 0)) with 1%nat. cbn [borrow]. change (0 <? 1) with true. cbv iota.
  destruct (Z.eq_dec month 11) as [->|Hne].
  - change ((11 + 1) / 12) with 1. change ((11 + 1) mod 12) with 0.
    change (0 =? 0) with true. cbv iota. cbv zeta.
    replace (year + 1 - 1) with year by lia. reflexivity.
  - rewrite Z.div_small, Z.mod_small by lia.
    destruct (Z.eqb_spec (month + 1) 0); [lia|]. cbv zeta.
    replace (year + 0) with year by lia. replace (month + 1 - 1) with month by lia.
    reflexivity.
Qed.

Lemma format_toISODate (d : Date.fields) :
  Date.valid d → 1000 <= Date.getFullYear d <= 9999 → format d = Date.toISODate d.
Proof.
  intros [Hm Hd] Hy.
  pose proof (days_in_month_bounds (Date.getFullYear d) (Date.getMonth d)).
  unfold format, Date.toISODate, Date.iso_year.
  rewrite of_integer_4, !of_integer_2 by lia.
  destruct (Z.leb_spec 0 (Date.getFullYear d)); [|lia].
  destruct (Z.leb_spec (Date.getFullYear d) 9999); [|lia]. reflexivity.
Qed.

(** Between the first and the last day of a month, in the order of the date
    strings, lie the dates of that month. *)
Lemma in_month_window (year month : Z) (tx : Transaction.t) :
  0 <= year <= 9999 → 0 <= month <= 11 →
  calendar_date (Transaction.date tx) →
  String.leb (Date.toISODate (Date.mk year month 1)) (Transaction.date tx)
  && String.leb (Transaction.date tx)
       (Date.toISODate (Date.mk year month (Date.days_in_month year month)))
  = dated_in year month tx.
Proof.
  intros Hy Hm (d & Hv & Hyd & Hs). unfold dated_in. rewrite Hs.
  pose proof (days_in_month_bounds year month) as Hdim.
  assert (Hfirst : Date.valid (Date.mk year month 1)) by (split; cbn; lia).
  assert (Hlast : Date.valid (Date.mk year month (Date.days_in_month year month)))
    by (split; cbn; lia).
  rewrite !leb_toISODate, parse_toISODate by (assumption || (cbn; lia)).
  destruct d as [Y M D]. destruct Hv as [HM HD]. cbn in HM, HD, Hyd.
  pose proof (days_in_month_bounds Y M).
  unfold calendar_ordinal. cbn [Date.getFullYear Date.getMonth Date.getDate].
  destruct (Z.eqb_spec M month) as [->|HneM], (Z.eqb_spec Y year) as [->|HneY];
    cbn [andb];
    repeat match goal with
           | |- context [?a <=? ?b] => destruct (Z.leb_spec a b)
           end; cbn [andb]; try reflexivity; lia.
Qed.

(** In a host east of UTC the test of the statistics on a calendar date is
    the test on the date string. *)
Lemma in_month_dated_in {host : Host} (year month : Z) (tx : Transaction.t) :
  east_of_UTC host → calendar_date (Transaction.date tx) →
  in_month year month tx = dated_in year month tx.
Proof.
  intros Heast (d & Hv & Hy & Hs). unfold in_month, dated_in. rewrite Hs. cbv zeta.
  rewrite of_string_toISODate, parse_toISODate by (assumption || lia).
  by rewrite getMonth_midnight, getFullYear_midnight.
Qed.

(** West of UTC the statistics of a month leave out its first day. *)
Lemma in_month_west_of_UTC :
  in_month (host:=fixed_offset (-25200000)) 2024 4
    (Transaction.mk "t1" "2024-05-01" (JS.of_Z 500) EXPENSE "cat_food" "lunch"
       None "a1" None None None) = false.
Proof. vm_compute. reflexivity. Qed.

Lemma filter_ext_Forall {A} (P : A → Prop) (p q : A → bool) (l : list A) :
  Forall P l → (∀ a, P a → p a = q a) → List.filter p l = List.filter q l.
Proof.
  intros Hl Hpq. induction Hl as [|a l Ha Hl IH]; [reflexivity|].
  cbn [List.filter]. by rewrite (Hpq a Ha), IH.
Qed.

(** The list opened from a dashboard card holds the transactions of the
    current month that have the type of the card. *)
Lemma dashboard_card_list (now : Date.fields) (type : TransactionType)
    (transactions : list Transaction.t) (searchTerm : string) :
  Date.valid now → 1000 <= Date.getFullYear now <= 9999 →
  Text.trim searchTerm = "" →
  Forall (λ tx, calendar_date (Transaction.date tx)) transactions →
  filteredTransactions toLowerCase transactions searchTerm
    (handleDashboardCardClick now type)
  = List.filter (λ t, TransactionType_eqb (Transaction.type t) type)
      (List.filter (dated_in (Date.getFullYear now) (Date.getMonth now)) transactions).
Proof.
  intros Hv Hy Hblank Hcal. pose proof Hv as [Hm Hd].
  pose proof (days_in_month_bounds (Date.getFullYear now) (Date.getMonth now)) as Hdim.
  rewrite filteredTransactions_meets, filter_filter.
  apply (filter_ext_Forall _ _ _ _ Hcal). intros tx Htx.
  rewrite <- (in_month_window _ _ tx) by (assumption || lia).
  unfold meets, handleDashboardCardClick.
  cbn [FilterState.startDate FilterState.endDate FilterState.type FilterState.categoryId
       FilterState.minAmount FilterState.maxAmount].
  rewrite new_Date_first, new_Date_last by lia.
  rewrite Z.div_small, Z.mod_small, Z.add_0_r by lia.
  rewrite !format_toISODate by (first [split; cbn; lia | cbn; lia]).
  rewrite Hblank, !toISODate_not_empty by (cbn; lia).
  change (String.eqb "" "") with true. cbn [orb andb]. by rewrite !andb_true_r.
Qed.

End Dashboard.

(** X20. The list behind a dashboard card is the figure on the card: in a
    host whose local time is at a fixed offset east of UTC, when every
    transaction carries a calendar date, no search term is set and the year
    has four digits, the list that [handleDashboardCardClick] opens holds
    the transactions dated in the current month that have the type of the
    card, in ledger order, and for the income and the expense card their
    amounts, added in that order, give what [dashboardStats] computes for
    that month. *)
Theorem dashboard_card_lists_what_it_sums {host : Host} (toLowerCase : string → string)
    (now : Date.fields) (type : TransactionType) (transactions : list Transaction.t)
    (searchTerm : string) :
  east_of_UTC host →
  Date.valid now → 1000 <= Date.getFullYear now <= 9999 →
  Text.trim searchTerm = "" →
  Forall (λ tx, calendar_date (Transaction.date tx)) transactions →
  let shown :=
    filteredTransactions toLowerCase transactions searchTerm
      (handleDashboardCardClick now type) in
  let stats := dashboardStats now transactions in
  shown = List.filter (λ t, TransactionType_eqb (Transaction.type t) type)
            (List.filter (dated_in (Date.getFullYear now) (Date.getMonth now))
               transactions)
  ∧ (type = INCOME → sum_amounts shown = DashboardStats.income stats)
  ∧ (type = EXPENSE → sum_amounts shown = DashboardStats.expense stats).
Proof.
  intros Heast Hv Hy Hblank Hcal. cbv zeta.
  rewrite (dashboard_card_list toLowerCase now type transactions searchTerm Hv Hy Hblank Hcal).
  assert (Hcurrent :
    List.filter (in_month (Date.getFullYear now) (Date.getMonth now)) transactions
    = List.filter (dated_in (Date.getFullYear now) (Date.getMonth now)) transactions).
  { apply (filter_ext_Forall _ _ _ _ Hcal). intros tx Htx. by apply in_month_dated_in. }
  unfold dashboardStats. cbv zeta.
  cbn [DashboardStats.income DashboardStats.expense]. rewrite Hcurrent.
  split; [reflexivity|]. split; intros ->; reflexivity.
Qed.

Lemma example_dates :
  Forall (λ tx, calendar_date (Transaction.date tx))
    (example_transactions ++ [two_line_memo])%list.
Proof.
  repeat constructor.
  - exists (Date.mk 2024 4 1). split; [|split; [cbn; lia|reflexivity]].
    split; cbn; [lia|]. change (Date.days_in_month 2024 4) with 31. lia.
  - exists (Date.mk 2024 4 2). split; [|split; [cbn; lia|reflexivity]].
    split; cbn; [lia|]. change (Date.days_in_month 2024 4) with 31. lia.
  - exists (Date.mk 2024 4 4). split; [|split; [cbn; lia|reflexivity]].
    split; cbn; [lia|]. change (Date.days_in_month 2024 4) with 31. lia.
Qed.

Lemma dashboard_card_lists_what_it_sums_witness :
  let now := Date.mk 2024 4 15 in
  let shown :=
    filteredTransactions (λ s, s) (example_transactions ++ [two_line_memo])%list ""
      (handleDashboardCardClick now EXPENSE) in
  let stats := dashboardStats (host:=utc) now (example_transactions ++ [two_line_memo])%list in
  shown = List.filter (λ t, TransactionType_eqb (Transaction.type t) EXPENSE)
            (List.filter (dated_in 2024 4) (example_transactions ++ [two_line_memo])%list)
  ∧ (EXPENSE = INCOME → sum_amounts shown = DashboardStats.income stats)
  ∧ (EXPENSE = EXPENSE → sum_amounts shown = DashboardStats.expense stats).
Proof.
  apply (dashboard_card_lists_what_it_sums (host:=utc) (λ s, s) (Date.mk 2024 4 15) EXPENSE
           (example_transactions ++ [two_line_memo])%list "").
  - apply utc_east.
  - split; cbn; [lia|]. change (Date.days_in_month 2024 4) with 31. lia.
  - cbn. lia.
  - reflexivity.
  - apply example_dates.
Defined.

(** X21. The comparison figures of the dashboard are those of the calendar
    month before the current one, December of the year before when the
    current month is January: [new Date(currentYear, currentMonth - 1, 1)]
    counts month -1 into the year before.  The host is at a fixed offset
    east of UTC and the transactions carry calendar dates; the figures are
    the sums, in ledger order, over the transactions dated in that month. *)
Theorem dashboardStats_previous_month {host : Host} (now : Date.fields)
    (transactions : list Transaction.t) :
  east_of_UTC host →
  Date.valid now → 100 <= Date.getFullYear now →
  Forall (λ tx, calendar_date (Transaction.date tx)) transactions →
  let stats := dashboardStats now transactions in
  let before := month_before (Date.getFullYear now) (Date.getMonth now) in
  let previous := List.filter (dated_in before.1 before.2) transactions in
  DashboardStats.prevIncome stats = sum_of_type INCOME previous
  ∧ DashboardStats.prevExpense stats = sum_of_type EXPENSE previous
  ∧ (Date.getMonth now = 0 → before = (Date.getFullYear now - 1, 11)).
Proof.
  intros Heast [Hm _] Hy Hcal. cbv zeta. unfold dashboardStats.
  cbn [DashboardStats.prevIncome DashboardStats.prevExpense].
  rewrite new_Date_first by lia. cbn [Date.getFullYear Date.getMonth].
  assert (Hprev : ∀ y m, List.filter (in_month y m) transactions
                         = List.filter (dated_in y m) transactions).
  { intros y m. apply (filter_ext_Forall _ _ _ _ Hcal). intros tx Htx.
    by apply in_month_dated_in. }
  rewrite Hprev. unfold month_before.
  destruct (Z.eqb_spec (Date.getMonth now) 0) as [->|Hne].
  - change ((0 - 1) / 12) with (-1). change ((0 - 1) mod 12) with 11.
    cbn [fst snd]. replace (Date.getFullYear now + -1) with (Date.getFullYear now - 1) by lia.
    by repeat split.
  - rewrite Z.div_small, Z.mod_small, Z.add_0_r by lia. cbn [fst snd].
    repeat split. lia.
Qed.

Lemma dashboardStats_previous_month_witness :
  let now := Date.mk 2025 0 15 in
  let stats := dashboardStats (host:=utc) now (example_transactions ++ [two_line_memo])%list in
  let before := month_before 2025 0 in
  let previous :=
    List.filter (dated_in before.1 before.2) (example_transactions ++ [two_line_memo])%list in
  DashboardStats.prevIncome stats = sum_of_type INCOME previous
  ∧ DashboardStats.prevExpense stats = sum_of_type EXPENSE previous
  ∧ (0 = 0 → before = (2025 - 1, 11)).
Proof.
  apply (dashboardStats_previous_month (host:=utc) (Date.mk 2025 0 15)
           (example_transactions ++ [two_line_memo])%list).
  - apply utc_east.
  - split; cbn; [lia|]. change (Date.days_in_month 2025 0) with 31. lia.
  - cbn. lia.
  - apply example_dates.
Defined.

(** ** The statistics of the selected month *)

Section Monthly.

(** [parseInt] on a string that starts with a decimal digit and has no [x]
    behind a leading zero reads its leading digits. *)
Lemma parseInt_digits (k : Z) (r : string) (n : Z) (c : nat) (rest : string) :
  0 <= k <= 9 →
  Text.has_char "x" r = false → Text.has_char "X" r = false →
  Text.scan_digits 0 0 (String (Date.digit k) r) = (n, S c, rest) →
  parseInt (String (Date.digit k) r) = JS.of_Z n.
Proof.
  intros Hk Hx HX Hscan. unfold parseInt.
  rewrite trimStart_plain by (by apply plain_digit).
  assert (Hminus : Ascii.eqb (Date.digit k) "-" = false)
    by (by apply (digit_forall (λ d, Ascii.eqb d "-" = false))).
  assert (Hplus : Ascii.eqb (Date.digit k) "+" = false)
    by (by apply (digit_forall (λ d, Ascii.eqb d "+" = false))).
  rewrite Hminus, Hplus, Hscan.
  destruct r as [|b r]; [reflexivity|].
  cbn [Text.has_char] in Hx, HX.
  apply orb_false_elim in Hx as [Hx _]. apply orb_false_elim in HX as [HX _].
  by rewrite Hx, HX, andb_false_r.
Qed.

Lemma parseInt_of_integer (n : Z) : 0 <= n → parseInt (Text.of_integer n) = JS.of_Z n.
Proof.
  intros Hn. unfold Text.of_integer. destruct (Z.ltb_spec n 0); [lia|].
  destruct (scan_of_digits n Hn) as [c Hscan].
  destruct (digits_of_first (Z.to_nat n) n) as (k & r & Hk & Hr).
  assert (Hx : ∀ x, (∀ j, 0 <= j <= 9 → Ascii.eqb (Date.digit j) x = false) →
                    Text.has_char x r = false).
  { intros x Hdig.
    pose proof (has_char_digits_of x (S (Z.to_nat n)) Hdig n) as Hall.
    rewrite Hr in Hall. cbn [Text.has_char] in Hall.
    by apply orb_false_elim in Hall as [_ Hall]. }
  rewrite Hr in Hscan |- *.
  apply (parseInt_digits k r n c ""); try assumption.
  - apply Hx. by apply (digit_forall (λ d, Ascii.eqb d "x" = false)).
  - apply Hx. by apply (digit_forall (λ d, Ascii.eqb d "X" = false)).
Qed.

Lemma parseInt_pad2 (n : Z) : 0 <= n <= 99 → parseInt (Date.pad2 n) = JS.of_Z n.
Proof.
  intros Hn. unfold Date.pad2.
  apply (parseInt_digits _ _ n 1 ""); try apply mod10_digit.
  - cbn [Text.has_char]. rewrite orb_false_r.
    apply (digit_forall (λ d, Ascii.eqb d "x" = false)); try reflexivity.
    apply mod10_digit.
  - cbn [Text.has_char]. rewrite orb_false_r.
    apply (digit_forall (λ d, Ascii.eqb d "X" = false)); try reflexivity.
    apply mod10_digit.
  - cbn [Text.scan_digits]. rewrite !digit_value_digit by apply mod10_digit.
    repeat f_equal. Z.div_mod_to_equations. lia.
Qed.

(** The parts of a month key. *)
Lemma split_month_key (year month : Z) :
  0 <= year → 0 <= month <= 11 →
  Text.split_on "-" (month_key year month) = [Text.of_integer year; Date.pad2 (month + 1)].
Proof.
  intros Hy Hm. unfold month_key.
  rewrite of_integer_2 by lia.
  change ("-" +:+ Date.pad2 (month + 1)) with (String "-" (Date.pad2 (month + 1))).
  rewrite split_on_append.
  - rewrite split_on_lacking; [reflexivity|]. apply has_char_pad2.
    by apply (digit_forall (λ d, Ascii.eqb d "-" = false)).
  - unfold Text.of_integer. destruct (Z.ltb_spec year 0); [lia|].
    apply has_char_digits_of. by apply (digit_forall (λ d, Ascii.eqb d "-" = false)).
Qed.

Lemma in_selected_month_in_month {host : Host} (year month : Z) (tx : Transaction.t) :
  Transaction.date tx ≠ "" →
  in_selected_month (JS.of_Z year) (JS.of_Z month) tx = in_month year month tx.
Proof.
  intros Hdate%String.eqb_neq. unfold in_selected_month, in_month. rewrite Hdate.
  cbv zeta. repeat case_match; try reflexivity. by rewrite !eq_of_Z.
Qed.

Lemma calendar_date_not_empty (s : string) : calendar_date s → s ≠ "".
Proof.
  intros (d & _ & Hy & ->). apply String.eqb_neq. apply toISODate_not_empty. lia.
Qed.

(** The transactions of [monthlyStats] for a month key, in a host east of
    UTC and for transactions that carry calendar dates. *)
Lemma monthlyTx_month_key {host : Host} (transactions : list Transaction.t)
    (year month : Z) :
  east_of_UTC host → 0 <= year → 0 <= month <= 11 →
  Forall (λ tx, calendar_date (Transaction.date tx)) transactions →
  MonthlyStats.monthlyTx (monthlyStats transactions (month_key year month))
  = sort (λ a b, JS.sub (DateObj.getTime (DateObj.of_string (Transaction.date b)))
                   (DateObj.getTime (DateObj.of_string (Transaction.date a))))
      (List.filter (dated_in year month) transactions).
Proof.
  intros Heast Hy Hm Hcal. unfold monthlyStats. cbv zeta. cbn [MonthlyStats.monthlyTx].
  rewrite split_month_key by assumption.
  cbn [nth lookup list_lookup].
  rewrite parseInt_of_integer, parseInt_pad2, of_Z_sub by lia.
  replace (month + 1 - 1) with month by lia.
  f_equal. apply (filter_ext_Forall _ _ _ _ Hcal). intros tx Htx.
  rewrite in_selected_month_in_month by (by apply calendar_date_not_empty).
  by apply in_month_dated_in.
Qed.

Lemma filter_Permutation {A} (p : A → bool) (l l' : list A) :
  Permutation l l' → Permutation (List.filter p l) (List.filter p l').
Proof.
  induction 1 as [|x l l' _ IH|x y l|l1 l2 l3 _ IH1 _ IH2]; cbn [List.filter].
  - reflexivity.
  - destruct (p x); [by apply perm_skip|exact IH].
  - destruct (p x), (p y); try reflexivity. apply perm_swap.
  - by etrans.
Qed.

Lemma sum_amounts_Permutation (l l' : list Transaction.t) :
  Permutation l l' → sum_amounts l = sum_amounts l'.
Proof.
  intros Hperm. unfold sum_amounts.
  assert (Hmap : ∀ l0 start, foldl (λ s t, JS.add s (Transaction.amount t)) start l0
                             = foldl JS.add start (Transaction.amount <$> l0)).
  { induction l0 as [|t l0 IH]; intros start; [reflexivity|]. cbn. apply IH. }
  rewrite !Hmap. apply sum_values_permutation. by apply fmap_Permutation.
Qed.

End Monthly.

(** X22. In a host whose local time is at a fixed offset east of UTC, for
    a month key as [changeMonth] writes it and transactions that carry
    calendar dates, [monthlyStats] takes the transactions dated in that
    month, each once, and none when the ledger has none there ([hasData] is
    then false); they are listed newest first; and when the amounts are
    whole numbers whose absolute values add up to at most 2^53 the income
    and the expense are the sums over the income and the expense
    transactions of that month in ledger order. *)
Theorem monthlyStats_selects_month {host : Host} (transactions : list Transaction.t)
    (year month : Z) :
  east_of_UTC host → 0 <= year → 0 <= month <= 11 →
  Forall (λ tx, calendar_date (Transaction.date tx)) transactions →
  let stats := monthlyStats transactions (month_key year month) in
  let of_month := List.filter (dated_in year month) transactions in
  Permutation of_month (MonthlyStats.monthlyTx stats)
  ∧ (MonthlyStats.hasData stats = false ↔ of_month = [])
  ∧ StronglySorted (λ a b, String.leb (Transaction.date b) (Transaction.date a) = true)
      (MonthlyStats.monthlyTx stats)
  ∧ (safe_integers (Transaction.amount <$> transactions) →
     MonthlyStats.income stats = sum_of_type INCOME of_month
     ∧ MonthlyStats.expense stats = sum_of_type EXPENSE of_month).
Proof.
  intros Heast Hy Hm Hcal. cbv zeta.
  pose proof (monthlyTx_month_key transactions year month Heast Hy Hm Hcal) as Htx.
  set (stats := monthlyStats transactions (month_key year month)) in *.
  set (of_month := List.filter (dated_in year month) transactions) in *.
  assert (Hperm : Permutation of_month (MonthlyStats.monthlyTx stats))
    by (rewrite Htx; apply sort_Permutation).
  split; [exact Hperm|]. split; [|split; [|intros _; split]].
  - change (MonthlyStats.hasData stats)
      with (negb (length (MonthlyStats.monthlyTx stats) =? 0)%nat).
    rewrite <- (Permutation_length Hperm).
    destruct of_month; cbn; split; intros; congruence.
  - rewrite Htx. apply newest_first.
    rewrite Forall_forall in Hcal |- *. intros tx Htx'.
    apply Hcal. apply list_elem_of_In, filter_In in Htx' as [Hin _].
    by apply list_elem_of_In.
  - change (MonthlyStats.income stats)
      with (sum_of_type INCOME (MonthlyStats.monthlyTx stats)).
    apply sum_amounts_Permutation. symmetry. by apply filter_Permutation.
  - change (MonthlyStats.expense stats)
      with (sum_of_type EXPENSE (MonthlyStats.monthlyTx stats)).
    apply sum_amounts_Permutation. symmetry. by apply filter_Permutation.
Qed.

Lemma example_amounts_safe :
  safe_integers (Transaction.amount <$> example_transactions).
Proof. exists [500; 1000]. split; [reflexivity|]. vm_compute. discriminate. Qed.

Lemma monthlyStats_selects_month_witness :
  let stats := monthlyStats (host:=utc) example_transactions (month_key 2024 4) in
  let of_month := List.filter (dated_in 2024 4) example_transactions in
  Permutation of_month (MonthlyStats.monthlyTx stats)
  ∧ (MonthlyStats.hasData stats = false ↔ of_month = [])
  ∧ StronglySorted (λ a b, String.leb (Transaction.date b) (Transaction.date a) = true)
      (MonthlyStats.monthlyTx stats)
  ∧ (safe_integers (Transaction.amount <$> example_transactions) →
     MonthlyStats.income stats = sum_of_type INCOME of_month
     ∧ MonthlyStats.expense stats = sum_of_type EXPENSE of_month).
Proof.
  apply (monthlyStats_selects_month (host:=utc) example_transactions 2024 4);
    [apply utc_east|lia|lia|].
  pose proof example_dates as Hdates. apply Forall_app in Hdates as [Hdates _].
  exact Hdates.
Defined.

(** ** The chart of the selected month *)

Section Chart.

Lemma or_else_finite (q : Qc) : Num.or_else (JS.Fin q) (JS.of_Z 0) = JS.Fin q.
Proof.
  unfold Num.or_else. destruct (Qc_eq_bool q (Qc_of_Z 0)) eqn:Hq; [|reflexivity].
  apply Qc_eq_bool_correct in Hq. by subst q.
Qed.

Lemma finite_add (x y : JS.number) : finite x → finite y → finite (JS.add x y).
Proof. intros [p ->] [q ->]. by eexists. Qed.

Lemma sum_amounts_snoc (l : list Transaction.t) (t : Transaction.t) :
  sum_amounts (l ++ [t]) = JS.add (sum_amounts l) (Transaction.amount t).
Proof. unfold sum_amounts. by rewrite foldl_app. Qed.

Lemma finite_sum_amounts (l : list Transaction.t) :
  Forall (λ tx, finite (Transaction.amount tx)) l → finite (sum_amounts l).
Proof.
  induction l as [|t l IH] using rev_ind; intros Hfin; [by eexists|].
  apply Forall_app in Hfin as [Hl Ht]. rewrite sum_amounts_snoc.
  apply finite_add; [by apply IH|]. by apply Forall_inv in Ht.
Qed.

Lemma finite_slice (name : string) (l : list Transaction.t) :
  Forall (λ tx, finite (Transaction.amount tx)) l → finite (slice name l).
Proof.
  intros Hfin. apply finite_sum_amounts.
  rewrite Forall_forall in Hfin |- *. intros tx Htx.
  apply Hfin. apply list_elem_of_In, filter_In in Htx as [Hin _]. by apply list_elem_of_In.
Qed.

Lemma slice_snoc (name : string) (l : list Transaction.t) (t : Transaction.t) :
  slice name (l ++ [t])
  = if String.eqb (expense_category_name (Transaction.category t)) name
    then JS.add (slice name l) (Transaction.amount t)
    else slice name l.
Proof.
  unfold slice. rewrite List.filter_app. cbn [List.filter].
  destruct (String.eqb _ name); [apply sum_amounts_snoc|by rewrite app_nil_r].
Qed.

Lemma slice_absent (name : string) (l : list Transaction.t) :
  name ∉ (λ t, expense_category_name (Transaction.category t)) <$> l →
  slice name l = JS.of_Z 0.
Proof.
  intros Hno. unfold slice.
  assert (Hnone : List.filter
                    (λ t, String.eqb (expense_category_name (Transaction.category t)) name) l
                  = []); [|by rewrite Hnone].
  induction l as [|t l IH]; [reflexivity|].
  cbn [fmap list_fmap] in Hno. apply not_elem_of_cons in Hno as [Hne Hno].
  cbn [List.filter].
  destruct (String.eqb_spec (expense_category_name (Transaction.category t)) name);
    [congruence|]. by apply IH.
Qed.

(** What [add_to_category] does to an object whose keys are distinct. *)
Lemma add_to_category_spec (data : list (string * JS.number)) (name : string)
    (amount : JS.number) :
  NoDup data.*1 →
  NoDup (add_to_category data name amount).*1
  ∧ ∀ n v, (n, v) ∈ add_to_category data name amount
           ↔ n ≠ name ∧ (n, v) ∈ data
             ∨ n = name
               ∧ ((∃ old, (name, old) ∈ data
                          ∧ v = JS.add (Num.or_else old (JS.of_Z 0)) amount)
                  ∨ (name ∉ data.*1) ∧ v = JS.add (JS.of_Z 0) amount).
Proof.
  induction data as [|[k old] data IH]; intros Hnd.
  - split; [cbn; apply NoDup_singleton|]. intros n v. cbn [add_to_category].
    rewrite list_elem_of_singleton. split.
    + intros [= -> ->]. right. split; [reflexivity|]. right. split; [apply not_elem_of_nil|done].
    + intros [[_ Hin]|[-> [(o & Hin & _)|[_ ->]]]]; try by apply elem_of_nil in Hin.
      reflexivity.
  - cbn [fmap list_fmap fst] in Hnd. apply NoDup_cons in Hnd as [Hk Hnd].
    cbn [add_to_category]. destruct (String.eqb_spec k name) as [->|Hne].
    + split; [cbn [fmap list_fmap fst]; by apply NoDup_cons|].
      intros n v. rewrite !elem_of_cons. split.
      * intros [[= -> ->]|Hin].
        -- right. split; [reflexivity|]. left. exists old. split; [by left|reflexivity].
        -- left. split; [|by right]. intros ->. apply Hk.
           apply list_elem_of_fmap. by exists (name, v).
      * intros [[Hn [[= ]|Hin]]|[-> [(o & Hin & ->)|[Hno _]]]].
        -- congruence.
        -- by right.
        -- rewrite elem_of_cons in Hin. destruct Hin as [[= <-]|Hin]; [by left|].
           exfalso. apply Hk. apply list_elem_of_fmap. by exists (name, o).
        -- exfalso. apply Hno. cbn [fmap list_fmap fst]. by left.
    + destruct (IH Hnd) as [IHnd IHin]. split.
      * cbn [fmap list_fmap fst]. apply NoDup_cons. split; [|exact IHnd].
        intros Hin. apply list_elem_of_fmap in Hin as ([n v] & -> & Hin).
        apply IHin in Hin as [[_ Hin]|[Hn _]]; cbn [fst] in *.
        -- apply Hk. apply list_elem_of_fmap. by exists (n, v).
        -- congruence.
      * intros n v. rewrite !elem_of_cons, IHin. cbn [fmap list_fmap fst].
        rewrite not_elem_of_cons. split.
        -- intros [[= -> ->]|[[Hn Hin]|[-> [(o & Hin & ->)|[Hno ->]]]]].
           ++ left. split; [congruence|by left].
           ++ left. split; [exact Hn|by right].
           ++ right. split; [reflexivity|]. left. exists o. split; [by right|reflexivity].
           ++ right. split; [reflexivity|]. right. split; [|reflexivity]. split; congruence.
        -- intros [[Hn [[= -> ->]|Hin]]|[-> [(o & Hin & ->)|[[_ Hno] ->]]]].
           ++ by left.
           ++ right. left. by split.
           ++ rewrite elem_of_cons in Hin. destruct Hin as [[= -> ->]|Hin]; [congruence|].
              right. right. split; [reflexivity|]. left. by exists o.
           ++ right. right. split; [reflexivity|]. by right.
Qed.

(** The sum of the values grows by the amount. *)
Lemma add_to_category_sum (data : list (string * JS.number)) (name : string)
    (amount : JS.number) :
  Forall finite data.*2 →
  foldl JS.add (JS.of_Z 0) (add_to_category data name amount).*2
  = JS.add (foldl JS.add (JS.of_Z 0) data.*2) amount.
Proof.
  induction data as [|[k old] data IH]; intros Hfin.
  - cbn. by rewrite !add_zero_l.
  - cbn [fmap list_fmap snd] in Hfin. apply Forall_cons in Hfin as [[q Hq] Hfin].
    cbn [snd] in Hq. subst old.
    cbn [add_to_category]. destruct (String.eqb k name).
    + cbn [fmap list_fmap snd]. rewrite or_else_finite, !foldl_add_cons.
      rewrite <- !add_assoc. f_equal. apply add_comm.
    + cbn [fmap list_fmap snd]. rewrite !foldl_add_cons, (IH Hfin).
      by rewrite add_assoc.
Qed.

(** The object that the loop over the expenses builds: one entry for each
    category name met, holding the amounts counted under it. *)
Lemma categoryData_spec (expenses : list Transaction.t) :
  Forall (λ tx, finite (Transaction.amount tx)) expenses →
  let name_of := λ t, expense_category_name (Transaction.category t) in
  let categoryData :=
    foldl (λ data t, add_to_category data (name_of t) (Transaction.amount t)) [] expenses in
  NoDup categoryData.*1
  ∧ (∀ n v, (n, v) ∈ categoryData ↔ n ∈ name_of <$> expenses ∧ v = slice n expenses)
  ∧ foldl JS.add (JS.of_Z 0) categoryData.*2 = sum_amounts expenses.
Proof.
  cbv zeta. induction expenses as [|t done IH] using rev_ind; intros Hfin.
  - split; [apply NoDup_nil_2|]. split; [|reflexivity].
    intros n v. cbn. split; [by intros Hin%elem_of_nil|by intros [Hin%elem_of_nil _]].
  - apply Forall_app in Hfin as [Hdone Ht]. apply Forall_inv in Ht.
    destruct (IH Hdone) as (Hnd & Hin & Hsum). clear IH.
    rewrite foldl_app. cbn [foldl].
    set (data := foldl _ [] done) in *.
    set (name := expense_category_name (Transaction.category t)).
    destruct (add_to_category_spec data name (Transaction.amount t) Hnd) as [Hnd' Hin'].
    split; [exact Hnd'|]. split.
    + intros n v. rewrite Hin', fmap_app, elem_of_app, slice_snoc. fold name.
      cbn [fmap list_fmap]. rewrite list_elem_of_singleton.
      destruct (String.eqb_spec name n) as [<-|Hne].
      * split.
        -- intros [[Hn _]|[_ [(old & Hold & ->)|[Hno ->]]]]; [congruence| |].
           ++ apply Hin in Hold as [_ ->]. split; [by right|].
              destruct (finite_slice name done Hdone) as [q ->]. by rewrite or_else_finite.
           ++ split; [by right|]. rewrite slice_absent; [reflexivity|].
              intros Hmem. apply Hno. apply list_elem_of_fmap.
              exists (name, slice name done). split; [reflexivity|]. by apply Hin.
        -- intros [_ ->]. right. split; [reflexivity|].
           destruct (decide (name ∈ (λ t0, expense_category_name (Transaction.category t0)) <$> done))
             as [Hmem|Hno].
           ++ left. exists (slice name done). split; [by apply Hin|].
              destruct (finite_slice name done Hdone) as [q ->]. by rewrite or_else_finite.
           ++ right. split.
              ** intros Hk. apply list_elem_of_fmap in Hk as ([n v] & -> & Hk).
                 apply Hin in Hk as [Hk _]. by apply Hno.
              ** by rewrite slice_absent.
      * split.
        -- intros [[_ Hold]|[-> _]]; [|congruence].
           apply Hin in Hold as [Hmem ->]. split; [by left|reflexivity].
        -- intros [[Hmem|Heq] ->]; [|exfalso; apply Hne; symmetry; exact Heq]. left. split; [congruence|].
           by apply Hin.
    + rewrite add_to_category_sum, Hsum, sum_amounts_snoc; [reflexivity|].
      rewrite Forall_forall. intros v Hv.
      apply list_elem_of_fmap in Hv as ([n v'] & -> & Hv). apply Hin in Hv as [_ ->].
      by apply finite_slice.
Qed.

Lemma sum_numbers_foldl (l : list JS.number) : sum_numbers l = foldl JS.add (JS.of_Z 0) l.
Proof.
  induction l as [|v l IH]; [reflexivity|].
  rewrite foldl_add_cons, <- IH. reflexivity.
Qed.

End Chart.

(** X23. The chart of the selected month, when the amounts are finite: it
    has one slice for each expense category name met among the expenses of
    the month ([其他] for a category that is not an expense category), no
    name twice; the value of a slice is the sum of the amounts counted under
    its name, added in the order of the list; the slices are in descending
    order of value; and when the amounts are whole numbers whose absolute
    values add up to at most 2^53, the values of the slices add up to the
    expense of the month. *)
Theorem monthlyStats_chart {host : Host} (transactions : list Transaction.t)
    (selectedMonth : string) :
  Forall (λ tx, finite (Transaction.amount tx)) transactions →
  let stats := monthlyStats transactions selectedMonth in
  let expenses :=
    List.filter (λ t, TransactionType_eqb (Transaction.type t) EXPENSE)
      (MonthlyStats.monthlyTx stats) in
  NoDup (MonthlyStats.chartData stats).*1
  ∧ (∀ name value,
       (name, value) ∈ MonthlyStats.chartData stats
       ↔ (∃ tx, tx ∈ expenses ∧ expense_category_name (Transaction.category tx) = name)
         ∧ value = slice name expenses)
  ∧ StronglySorted (λ a b, Num.le b.2 a.2 = true) (MonthlyStats.chartData stats)
  ∧ (safe_integers (Transaction.amount <$> transactions) →
     sum_numbers (MonthlyStats.chartData stats).*2 = MonthlyStats.expense stats).
Proof.
  intros Hfin. cbv zeta.
  set (stats := monthlyStats transactions selectedMonth).
  set (expenses := List.filter (λ t, TransactionType_eqb (Transaction.type t) EXPENSE)
                     (MonthlyStats.monthlyTx stats)).
  assert (Hexp : Forall (λ tx, finite (Transaction.amount tx)) expenses).
  { rewrite Forall_forall in Hfin |- *. intros tx Htx. apply Hfin.
    apply list_elem_of_In, filter_In in Htx as [Htx _].
    apply (Permutation_in _ (Permutation_sym (sort_Permutation _ _))) in Htx.
    apply filter_In in Htx as [Htx _]. by apply list_elem_of_In. }
  destruct (categoryData_spec expenses Hexp) as (Hnd & Hin & Hsum).
  set (categoryData := foldl _ [] expenses) in *.
  assert (Hchart : MonthlyStats.chartData stats = sort (λ a b, JS.sub b.2 a.2) categoryData)
    by reflexivity.
  pose proof (sort_Permutation (λ a b : string * JS.number, JS.sub b.2 a.2) categoryData)
    as Hperm.
  rewrite Hchart. split; [|split; [|split]].
  - by rewrite <- Hperm.
  - intros name value. rewrite <- Hperm, Hin, list_elem_of_fmap. split.
    + intros [(tx & -> & Htx) ->]. split; [by exists tx|reflexivity].
    + intros [(tx & Htx & <-) ->]. split; [by exists tx|reflexivity].
  - apply (sort_descending snd). rewrite Forall_forall. intros [n v] Hv.
    apply Hin in Hv as [_ ->]. by apply finite_slice.
  - intros _.
    rewrite sum_numbers_foldl, <- (sum_values_permutation _ _ (fmap_Permutation snd _ _ Hperm)).
    exact Hsum.
Qed.

Lemma monthlyStats_chart_witness :
  let stats :=
    monthlyStats (host:=utc) (example_transactions ++ [two_line_memo])%list "2024-05" in
  let expenses :=
    List.filter (λ t, TransactionType_eqb (Transaction.type t) EXPENSE)
      (MonthlyStats.monthlyTx stats) in
  NoDup (MonthlyStats.chartData stats).*1
  ∧ (∀ name value,
       (name, value) ∈ MonthlyStats.chartData stats
       ↔ (∃ tx, tx ∈ expenses ∧ expense_category_name (Transaction.category tx) = name)
         ∧ value = slice name expenses)
  ∧ StronglySorted (λ a b, Num.le b.2 a.2 = true) (MonthlyStats.chartData stats)
  ∧ (safe_integers
       (Transaction.amount <$> (example_transactions ++ [two_line_memo])%list) →
     sum_numbers (MonthlyStats.chartData stats).*2 = MonthlyStats.expense stats).
Proof.
  apply (monthlyStats_chart (host:=utc) (example_transactions ++ [two_line_memo])%list
           "2024-05").
  repeat constructor; by eexists.
Defined.

(** ** Saving a transaction *)

Section Saving.

Lemma handleSubmit_amount (receiptImage : option string) (form : FormState.t) :
  Num.integer (FormData.amount (handleSubmit receiptImage form))
  ∨ infinite (FormData.amount (handleSubmit receiptImage form)) = true.
Proof.
  unfold handleSubmit.
  destruct (match FormState.type form with
            | TRANSFER => _
            | _ => _
            end) as [[finalType finalCategory] finalToAccount].
  cbn [FormData.amount].
  destruct (Text.parseFloat (FormState.amount form)) as [|q|s]; cbn [Num.or_else].
  - left. exists 0. apply round_of_Z.
  - destruct (Qc_eq_bool q (Qc_of_Z 0)).
    + left. exists 0. apply round_of_Z.
    + left. by eexists.
  - by right.
Qed.

Lemma handleSubmit_amount_text (receiptImage : option string) (form : FormState.t) :
  (∀ z, Z.abs z <= 2 ^ 53 → FormState.amount form = Text.of_integer z →
        FormData.amount (handleSubmit receiptImage form) = JS.of_Z z)
  ∧ (Text.parseFloat (FormState.amount form) = JS.NaN →
     FormData.amount (handleSubmit receiptImage form) = JS.of_Z 0).
Proof.
  unfold handleSubmit.
  destruct (match FormState.type form with
            | TRANSFER => _
            | _ => _
            end) as [[finalType finalCategory] finalToAccount].
  cbn [FormData.amount]. split.
  - intros z _ ->. rewrite parseFloat_of_integer.
    assert (Hz : Num.or_else (JS.of_Z z) (JS.of_Z 0) = JS.of_Z z).
    { unfold Num.or_else, JS.of_Z. destruct (Qc_eq_bool (Qc_of_Z z) (Qc_of_Z 0)) eqn:Hq;
        [|reflexivity]. apply Qc_eq_bool_correct in Hq. by rewrite Hq. }
    rewrite Hz. apply round_of_Z.
  - intros ->. apply round_of_Z.
Qed.

(** The dates of the transactions that the loop of one template pushes
    grow, starting from the due date of the template. *)
Lemma catch_up_loop_increasing {host : Host} (today : string) (ids : nat → string)
    (remaining : nat) :
  east_of_UTC host →
  ∀ (loopCount : nat) (tempRt : RecurringTransaction.t) (d : Date.fields) txs rt',
    Date.valid d →
    0 <= Date.getFullYear d <= 9999 - 2 * Z.of_nat remaining →
    RecurringTransaction.nextDueDate tempRt = Date.toISODate d →
    catch_up_loop remaining today ids loopCount tempRt = Returns (txs, rt') →
    StronglySorted (λ a b, String.ltb (Transaction.date a) (Transaction.date b) = true) txs
    ∧ Forall (λ tx, ∃ e, Date.valid e ∧ 0 <= Date.getFullYear e <= 9999
                         ∧ Transaction.date tx = Date.toISODate e
                         ∧ calendar_ordinal d <= calendar_ordinal e) txs.
Proof.
  intros Heast.
  induction remaining as [|remaining IH]; intros loopCount tempRt d txs rt' Hv Hy Hdue Hrun.
  - injection Hrun as <- <-. split; constructor.
  - cbn [catch_up_loop] in Hrun.
    destruct (String.leb _ today); [|injection Hrun as <- <-; split; constructor].
    destruct (past_end tempRt); [injection Hrun as <- <-; split; constructor|].
    rewrite Hdue in Hrun.
    destruct (getNextDate_later d (RecurringTransaction.frequency tempRt) Heast Hv)
      as (d' & Hnext & Hv' & Hy' & Hlater); [lia|].
    rewrite Hnext in Hrun.
    destruct (catch_up_loop remaining _ _ _ _) as [[txs0 rt0]| |] eqn:Hrest;
      try discriminate Hrun.
    injection Hrun as <- <-.
    apply (IH _ _ d') in Hrest as [Hsorted Hfrom]; [|assumption|lia|reflexivity].
    split.
    + constructor; [exact Hsorted|].
      eapply Forall_impl; [exact Hfrom|]. intros tx (e & He & Hye & Htx & Hle).
      cbn [newTx Transaction.date]. rewrite Hdue, Htx.
      rewrite ltb_toISODate by (assumption || lia). apply Z.ltb_lt. lia.
    + constructor.
      * exists d. split; [exact Hv|]. split; [lia|]. split; [exact Hdue|lia].
      * eapply Forall_impl; [exact Hfrom|]. intros tx (e & He & Hye & Htx & Hle).
        exists e. split; [exact He|]. split; [exact Hye|]. split; [exact Htx|lia].
Qed.

Lemma catch_up_loop_step {host : Host} (today : string) (ids : nat → string)
    (remaining loopCount : nat)
    (tempRt : RecurringTransaction.t) :
  String.leb (RecurringTransaction.nextDueDate tempRt) today = true →
  past_end tempRt = false →
  catch_up_loop (S remaining) today ids loopCount tempRt
  = match getNextDate (RecurringTransaction.nextDueDate tempRt)
            (RecurringTransaction.frequency tempRt) with
    | Returns next =>
        match catch_up_loop remaining today ids (S loopCount) (advance_to next tempRt) with
        | Returns (txs, rt') => Returns (newTx (ids loopCount) tempRt :: txs, rt')
        | Throws => Throws
        | Hangs => Hangs
        end
    | Throws => Throws
    | Hangs => Hangs
    end.
Proof. intros Hdue Hend. cbn [catch_up_loop]. by rewrite Hdue, Hend. Qed.

(** What the catch-up does with a template whose due date is a calendar
    date. *)
Lemma catch_up_from_due_date {host : Host} (today : string) (ids : nat → string)
    (rt : RecurringTransaction.t) (d : Date.fields) :
  east_of_UTC host →
  Date.valid d → 0 <= Date.getFullYear d <= 9975 →
  RecurringTransaction.nextDueDate rt = Date.toISODate d →
  ∃ emitted rt',
    catch_up today ids rt = Returns (emitted, rt')
    ∧ Forall (instance_of rt) emitted
    ∧ Forall (λ tx, String.leb (RecurringTransaction.nextDueDate rt) (Transaction.date tx)
                    = true) emitted
    ∧ StronglySorted
        (λ a b, String.ltb (Transaction.date a) (Transaction.date b) = true) emitted
    ∧ (String.leb (RecurringTransaction.nextDueDate rt) today = true →
       past_end rt = false →
       ∃ more, emitted = newTx (ids 0%nat) rt :: more).
Proof.
  intros Heast Hv Hy Hdue. unfold catch_up.
  destruct (catch_up_loop_returns today ids 12 Heast 0%nat rt d Hv)
    as (txs & rt' & Hrun & _); [simpl; lia|exact Hdue|].
  exists txs, rt'. split; [exact Hrun|].
  pose proof (catch_up_loop_emits today ids 12 0%nat rt txs rt' Hrun) as [Hinst _].
  destruct (catch_up_loop_increasing today ids 12 Heast 0%nat rt d txs rt' Hv)
    as [Hsorted Hfrom]; [simpl; lia|exact Hdue|exact Hrun|].
  split; [exact Hinst|]. split; [|split; [exact Hsorted|]].
  - eapply Forall_impl; [exact Hfrom|]. intros tx (e & He & Hye & Htx & Hle).
    rewrite Hdue, Htx, leb_toISODate by (assumption || lia). by apply Z.leb_le.
  - intros Hnow Hend. rewrite (catch_up_loop_step _ _ _ _ _ Hnow Hend) in Hrun.
    destruct (getNextDate _ _) as [next| |]; try discriminate Hrun.
    destruct (catch_up_loop _ _ _ _ _) as [[txs0 rt0]| |]; try discriminate Hrun.
    injection Hrun as <- <-. by exists txs0.
Qed.

End Saving.

(** X24. Saving an entry that is not recurring.  The amount that the form
    submits is a whole number, or infinite when the text reads so, never NaN:
    the text of an integer of at most 2^53 in absolute value gives that
    integer and a text that [parseFloat] cannot read gives 0.  A new entry
    or a duplicate is put in front of the log; an edit keeps the length, the
    order and the ids of the log, leaves the entries with another id as they
    are and overwrites the one edited, which keeps its id and its mark of a
    generated instance; the templates are not touched. *)
Theorem save_plain_entry {host : Host} (recId txId : string) (editingId : option string)
    (receiptImage : option string) (form : FormState.t) (isDuplicate : bool)
    (state : list Transaction.t * list RecurringTransaction.t) :
  FormState.isRecurring form = false →
  let data := handleSubmit receiptImage form in
  (Num.integer (FormData.amount data) ∨ infinite (FormData.amount data) = true)
  ∧ (∀ z, Z.abs z <= 2 ^ 53 → FormState.amount form = Text.of_integer z →
          FormData.amount data = JS.of_Z z)
  ∧ (Text.parseFloat (FormState.amount form) = JS.NaN → FormData.amount data = JS.of_Z 0)
  ∧ ∃ transactions',
      handleSaveTransaction recId txId editingId data isDuplicate state
      = Returns (transactions', state.2)
      ∧ if JS.truthy editingId && negb isDuplicate
        then Transaction.id <$> transactions' = Transaction.id <$> state.1
             ∧ Forall2 (λ t t', if bool_decide (Some (Transaction.id t) = editingId)
                                then t' = overwrite t data (FormData.amount data)
                                else t' = t) state.1 transactions'
        else transactions' = created txId data (FormData.amount data) :: state.1.
Proof.
  intros Hplain. cbv zeta.
  pose proof (handleSubmit_amount receiptImage form) as Hamount.
  destruct (handleSubmit_amount_text receiptImage form) as [Hint Hnan].
  split; [exact Hamount|]. split; [exact Hint|]. split; [exact Hnan|].
  assert (Hrec : FormData.recurring (handleSubmit receiptImage form) = None).
  { unfold handleSubmit.
    destruct (match FormState.type form with
              | TRANSFER => _
              | _ => _
              end) as [[finalType finalCategory] finalToAccount].
    cbn [FormData.recurring]. by rewrite Hplain. }
  assert (Hsafe : (if JS.isNaN (FormData.amount (handleSubmit receiptImage form))
                   then JS.of_Z 0 else FormData.amount (handleSubmit receiptImage form))
                  = FormData.amount (handleSubmit receiptImage form)).
  { destruct Hamount as [[z ->]|Hinf]; [reflexivity|].
    by destruct (FormData.amount (handleSubmit receiptImage form)). }
  unfold handleSaveTransaction. cbv zeta. rewrite Hrec, Hsafe.
  rewrite bool_decide_eq_false_2 by (by intros [? [=]]). cbn [negb orb].
  destruct (JS.truthy editingId && negb isDuplicate) eqn:Hupd.
  - eexists. split; [reflexivity|]. split.
    + rewrite <- list_fmap_compose. apply list_fmap_ext. intros i t _. cbn.
      by case_bool_decide.
    + apply Forall2_fmap_r, Forall_Forall2_diag, Forall_forall. intros t _.
      unfold compose. by case_bool_decide.
  - by eexists.
Qed.

Lemma save_plain_entry_witness :
  let form :=
    FormState.mk EXPENSE "120" "2024-05-06" "tea" "" "cat_food" "a1" "a2" INTERNAL false
      MONTHLY "" in
  let data := handleSubmit None form in
  (Num.integer (FormData.amount data) ∨ infinite (FormData.amount data) = true)
  ∧ (∀ z, Z.abs z <= 2 ^ 53 → FormState.amount form = Text.of_integer z →
          FormData.amount data = JS.of_Z z)
  ∧ (Text.parseFloat (FormState.amount form) = JS.NaN → FormData.amount data = JS.of_Z 0)
  ∧ ∃ transactions',
      handleSaveTransaction (host:=utc) "rec_1718409600000" "1718409600000" (Some "t1")
        data false
        (example_transactions, [recent_rent])
      = Returns (transactions', [recent_rent])
      ∧ if JS.truthy (Some "t1") && negb false
        then Transaction.id <$> transactions' = Transaction.id <$> example_transactions
             ∧ Forall2 (λ t t', if bool_decide (Some (Transaction.id t) = Some "t1")
                                then t' = overwrite t data (FormData.amount data)
                                else t' = t) example_transactions transactions'
        else transactions' = created "1718409600000" data (FormData.amount data)
                             :: example_transactions.
Proof.
  apply (save_plain_entry (host:=utc) "rec_1718409600000" "1718409600000" (Some "t1") None
           (FormState.mk EXPENSE "120" "2024-05-06" "tea" "" "cat_food" "a1" "a2" INTERNAL
              false MONTHLY "")
           false (example_transactions, [recent_rent])).
  reflexivity.
Defined.

(** X25. In a host whose local time is at a fixed offset east of UTC,
    saving a recurring entry whose date is a calendar date adds one
    template, and the catch-up books the entry from the due date of that
    template on, each date once and in growing order, the due date itself
    first when it is not after today nor past the end date.  For a new entry
    the due date is the date of the entry and no transaction is saved: the
    catch-up books it.  For a duplicate the due date is the date of the entry
    as well and the copy is saved too, so that date is booked twice.  For an
    edit the edited entry stays in the log and the due date is later than its
    date. *)
Theorem save_recurring_entry {host : Host} (recId txId : string)
    (editingId : option string) (data : FormData.t) (isDuplicate : bool)
    (state : list Transaction.t * list RecurringTransaction.t)
    (frequency : Frequency) (endDate : option string) (d : Date.fields) :
  east_of_UTC host →
  FormData.recurring data = Some (frequency, endDate) →
  Date.valid d → 0 <= Date.getFullYear d <= 9970 →
  FormData.date data = Date.toISODate d →
  ∃ transactions' rt,
    handleSaveTransaction recId txId editingId data isDuplicate state
    = Returns (transactions', (state.2 ++ [rt])%list)
    ∧ RecurringTransaction.frequency rt = frequency
    ∧ RecurringTransaction.endDate rt = endDate
    ∧ JS.isNaN (RecurringTransaction.amount rt) = false
    ∧ (if JS.truthy editingId && negb isDuplicate
       then String.ltb (FormData.date data) (RecurringTransaction.nextDueDate rt) = true
            ∧ Transaction.id <$> transactions' = Transaction.id <$> state.1
       else RecurringTransaction.nextDueDate rt = FormData.date data
            ∧ transactions'
              = if isDuplicate
                then created txId data (RecurringTransaction.amount rt) :: state.1
                else state.1)
    ∧ ∀ today ids,
        ∃ emitted rt',
          catch_up today ids rt = Returns (emitted, rt')
          ∧ Forall (instance_of rt) emitted
          ∧ Forall (λ tx, String.leb (RecurringTransaction.nextDueDate rt)
                            (Transaction.date tx) = true) emitted
          ∧ StronglySorted
              (λ a b, String.ltb (Transaction.date a) (Transaction.date b) = true) emitted
          ∧ (String.leb (RecurringTransaction.nextDueDate rt) today = true →
             past_end rt = false →
             ∃ more, emitted = newTx (ids 0%nat) rt :: more).
Proof.
  intros Heast Hrec Hv Hy Hdate.
  set (safeAmount := if JS.isNaN (FormData.amount data) then JS.of_Z 0
                     else FormData.amount data).
  assert (Hsafe : JS.isNaN safeAmount = false)
    by (subst safeAmount; by destruct (FormData.amount data)).
  unfold handleSaveTransaction. cbv zeta. rewrite Hrec. fold safeAmount.
  rewrite bool_decide_eq_true_2 by (by eexists). cbn [negb orb].
  destruct (JS.truthy editingId && negb isDuplicate) eqn:Hupd.
  - apply andb_prop in Hupd as [Hid Hdup]. rewrite Hid. cbn [orb].
    destruct (getNextDate_later d frequency Heast Hv)
      as (d' & Hnext & Hv' & Hy' & Hlater); [lia|].
    rewrite Hdate, Hnext.
    eexists _, (newRecurring recId (Date.toISODate d') frequency endDate data safeAmount).
    split; [reflexivity|].
    split; [reflexivity|]. split; [reflexivity|]. split; [exact Hsafe|]. split.
    + split.
      * cbn [newRecurring RecurringTransaction.nextDueDate].
        rewrite ltb_toISODate by (assumption || lia). by apply Z.ltb_lt.
      * rewrite <- list_fmap_compose. apply list_fmap_ext. intros i t _. cbn.
        by case_bool_decide.
    + intros today ids.
      apply (catch_up_from_due_date today ids _ d'); [exact Heast|exact Hv'|lia|reflexivity].
  - exists (if JS.truthy editingId || isDuplicate
            then created txId data safeAmount :: state.1 else state.1),
      (newRecurring recId (FormData.date data) frequency endDate data safeAmount).
    split.
    + destruct (JS.truthy editingId || isDuplicate); reflexivity.
    + split; [reflexivity|]. split; [reflexivity|]. split; [exact Hsafe|]. split.
      * split; [reflexivity|].
        destruct (JS.truthy editingId), isDuplicate; try discriminate Hupd; reflexivity.
      * intros today ids.
        apply (catch_up_from_due_date today ids _ d); [exact Heast|exact Hv|lia|exact Hdate].
Qed.

Lemma save_recurring_entry_witness :
  ∃ transactions' rt,
    handleSaveTransaction (host:=utc) "rec_1718409600000" "1718409600000" None
      (FormData.mk EXPENSE (JS.of_Z 12000) "2024-05-05" "rent" "" "cat_bills" "a1" None None
         (Some (MONTHLY, None)))
      true (example_transactions, [])
    = Returns (transactions', ([] ++ [rt])%list)
    ∧ RecurringTransaction.nextDueDate rt = "2024-05-05"
    ∧ ∃ emitted rt' more,
        catch_up (host:=utc) "2024-06-15" sample_ids rt = Returns (emitted, rt')
        ∧ emitted = newTx (sample_ids 0%nat) rt :: more.
Proof.
  destruct (save_recurring_entry (host:=utc) "rec_1718409600000" "1718409600000" None
              (FormData.mk EXPENSE (JS.of_Z 12000) "2024-05-05" "rent" "" "cat_bills" "a1"
                 None None (Some (MONTHLY, None)))
              true (example_transactions, []) MONTHLY None (Date.mk 2024 4 5))
    as (txs & rt & Hrun & Hfreq & Hend & Hnan & Hcase & Hsched).
  - apply utc_east.
  - reflexivity.
  - split; cbn; [lia|]. change (Date.days_in_month 2024 4) with 31. lia.
  - cbn. lia.
  - reflexivity.
  - cbn in Hcase. destruct Hcase as [Hdue Hsaved].
    exists txs, rt. split; [exact Hrun|]. split; [exact Hdue|].
    destruct (Hsched "2024-06-15" sample_ids) as (emitted & rt' & Hcatch & _ & _ & _ & Hfirst).
    destruct Hfirst as [more Hmore].
    + rewrite Hdue. reflexivity.
    + unfold past_end. rewrite Hend. reflexivity.
    + by exists emitted, rt', more.
Defined.

(** ** The persistence effect *)

Section StorageLaws.

Variable setItem : list Transaction.t → setItem_outcome.

(** With no image kept every image is dropped. *)
Lemma optimizedTransactions_0 (transactions sorted : list Transaction.t) :
  optimizedTransactions transactions sorted 0
  = (λ t, if has_image t then without_image t else t) <$> transactions.
Proof.
  unfold optimizedTransactions. cbn [Z.to_nat take fmap list_fmap].
  apply list_fmap_ext. intros i t _. cbn.
  rewrite bool_decide_eq_false_2 by apply not_elem_of_nil. by rewrite andb_true_r.
Qed.

Lemma optimizedTransactions_shape (transactions sorted : list Transaction.t) (keepCount : Z) :
  Forall2 (λ t s, s = t ∨ s = without_image t) transactions
    (optimizedTransactions transactions sorted keepCount).
Proof.
  unfold optimizedTransactions. apply Forall2_fmap_r, Forall_Forall2_diag, Forall_forall.
  intros t _. cbn. destruct (_ && _); [by right|by left].
Qed.

(** The loop ends, with fuel to spare; what it stores was accepted; and it
    gives up only after the attempt that keeps no image. *)
Lemma quota_loop_spec (transactions sorted : list Transaction.t) (fuel : nat) :
  ∀ keepCount,
    0 <= keepCount → (Z.to_nat keepCount + 2 <= fuel)%nat →
    ∃ result,
      quota_loop setItem fuel transactions sorted keepCount = Returns result
      ∧ (∀ stored, result = Some stored →
           setItem stored = Stored
           ∧ ∃ kept, 0 <= kept <= keepCount
                     ∧ stored = optimizedTransactions transactions sorted kept)
      ∧ (result = None → setItem (optimizedTransactions transactions sorted 0) ≠ Stored).
Proof.
  induction fuel as [|fuel IH]; intros keepCount Hk Hfuel; [lia|].
  cbn [quota_loop]. destruct (Z.leb_spec 0 keepCount); [|lia].
  destruct (setItem (optimizedTransactions transactions sorted keepCount)) eqn:Htry.
  - eexists. split; [reflexivity|]. split; [|discriminate].
    intros stored [= <-]. split; [exact Htry|]. exists keepCount. split; [lia|reflexivity].
  - cbv zeta.
    destruct (Z.ltb_spec (keepCount - 5) 0) as [Hneg|Hpos]; cbn [andb].
    + destruct (Z.ltb_spec (-5) (keepCount - 5)) as [Hnear|Hfar].
      * destruct (IH 0) as (result & Hrun & Hstored & Hnone); [lia|lia|].
        exists result. split; [exact Hrun|]. split; [|exact Hnone].
        intros stored Hres. destruct (Hstored stored Hres) as (Hok & kept & Hkept & Heq).
        split; [exact Hok|]. exists kept. split; [lia|exact Heq].
      * assert (keepCount = 0) as -> by lia.
        destruct fuel as [|fuel]; [lia|]. cbn [quota_loop].
        exists None. split; [reflexivity|]. split; [discriminate|].
        intros _. by rewrite Htry.
    + destruct (IH (keepCount - 5)) as (result & Hrun & Hstored & Hnone); [lia|lia|].
      exists result. split; [exact Hrun|]. split; [|exact Hnone].
      intros stored Hres. destruct (Hstored stored Hres) as (Hok & kept & Hkept & Heq).
      split; [exact Hok|]. exists kept. split; [lia|exact Heq].
  - cbv zeta.
    destruct (Z.ltb_spec (keepCount - 5) 0) as [Hneg|Hpos]; cbn [andb].
    + destruct (Z.ltb_spec (-5) (keepCount - 5)) as [Hnear|Hfar].
      * destruct (IH 0) as (result & Hrun & Hstored & Hnone); [lia|lia|].
        exists result. split; [exact Hrun|]. split; [|exact Hnone].
        intros stored Hres. destruct (Hstored stored Hres) as (Hok & kept & Hkept & Heq).
        split; [exact Hok|]. exists kept. split; [lia|exact Heq].
      * assert (keepCount = 0) as -> by lia.
        destruct fuel as [|fuel]; [lia|]. cbn [quota_loop].
        exists None. split; [reflexivity|]. split; [discriminate|].
        intros _. by rewrite Htry.
    + destruct (IH (keepCount - 5)) as (result & Hrun & Hstored & Hnone); [lia|lia|].
      exists result. split; [exact Hrun|]. split; [|exact Hnone].
      intros stored Hres. destruct (Hstored stored Hres) as (Hok & kept & Hkept & Heq).
      split; [exact Hok|]. exists kept. split; [lia|exact Heq].
Qed.

End StorageLaws.


(** ** Dragging an account row *)

(** X27. Dragging an account row over another row moves it there and
    changes nothing else: the new list is a permutation of the accounts, the
    dragged account is at the row it was dragged over, the other accounts
    keep their order, the dragged index follows the row, and when the account
    ids are distinct no balance changes.  Dragging a row over itself, or with
    no row being dragged, does nothing. *)
Theorem handleDragOver_moves_row (accounts : list Account.t) (dragged index : nat)
    (a : Account.t) :
  accounts !! dragged = Some a → (index < length accounts)%nat → dragged ≠ index →
  handleDragOver None index accounts = None
  ∧ handleDragOver (Some index) index accounts = None
  ∧ ∃ moved,
      handleDragOver (Some dragged) index accounts = Some (Some <$> moved, index)
      ∧ Permutation accounts moved
      ∧ moved !! index = Some a
      ∧ delete index moved = delete dragged accounts
      ∧ (NoDup (Account.id <$> accounts) →
         ∀ transactions,
           accountBalances moved transactions = accountBalances accounts transactions).
Proof.
  intros Ha Hindex Hne.
  pose proof (lookup_lt_Some _ _ _ Ha) as Hdragged.
  split; [reflexivity|]. split; [unfold handleDragOver; by rewrite Nat.eqb_refl|].
  set (others := delete dragged accounts).
  assert (Hothers : (index <= length others)%nat).
  { subst others. rewrite length_delete by (by eexists). lia. }
  assert (Hlen : length (take index others) = index) by (rewrite length_take; lia).
  exists (take index others ++ a :: drop index others)%list.
  assert (Hperm : Permutation accounts (take index others ++ a :: drop index others)%list).
  { rewrite <- Permutation_middle, take_drop. subst others. by apply delete_Permutation. }
  split; [|split; [exact Hperm|split; [|split]]].
  - unfold handleDragOver. destruct (Nat.eqb_spec dragged index); [done|].
    cbv zeta. rewrite list_lookup_fmap, Ha. cbn [fmap option_fmap option_map mjoin option_join].
    do 2 f_equal. fold others.
    replace (delete dragged (Some <$> accounts)) with (Some <$> others).
    + by rewrite fmap_app, fmap_cons, fmap_take, fmap_drop.
    + subst others. clear. revert dragged.
      induction accounts as [|x l IH]; intros [|i]; cbn; try reflexivity.
      f_equal. apply IH.
  - rewrite lookup_app_r by lia. by rewrite Hlen, Nat.sub_diag.
  - rewrite <- Hlen at 1. rewrite delete_middle. apply take_drop.
  - intros Hnd transactions. unfold accountBalances.
    by rewrite (seed_permutation accounts _ Hnd Hperm).
Qed.

Lemma handleDragOver_moves_row_witness :
  handleDragOver None 0 example_accounts = None
  ∧ handleDragOver (Some 0%nat) 0 example_accounts = None
  ∧ ∃ moved,
      handleDragOver (Some 1%nat) 0 example_accounts = Some (Some <$> moved, 0%nat)
      ∧ Permutation example_accounts moved
      ∧ moved !! 0%nat = Some (Account.mk "a2" "Bank" BANK (JS.of_Z 150000) "bg-blue-500")
      ∧ delete 0%nat moved = delete 1%nat example_accounts
      ∧ (NoDup (Account.id <$> example_accounts) →
         ∀ transactions,
           accountBalances moved transactions
           = accountBalances example_accounts transactions).
Proof.
  apply (handleDragOver_moves_row example_accounts 1 0); [reflexivity|cbn; lia|lia].
Defined.

(** ** Reading back the export of one account *)

Section AccountExport.
Import Text.

Lemma number_cell_integer (z : Z) :
  number_cell (round (JS.of_Z z)) = if z =? 0 then "" else of_rounded (round (JS.of_Z z)).
Proof.
  rewrite round_of_Z. unfold number_cell, JS.of_Z, Qc_eq_bool.
  destruct (Qcanon.Qc_eq_dec (Qc_of_Z z) (Qc_of_Z 0)) as [Heq|Hne], (Z.eqb_spec z 0) as [Hz|Hz];
    try reflexivity.
  - by apply Z2Qc_inj in Heq.
  - by subst z.
Qed.

Lemma account_export_cells_not_nil (acc : Account.t) (accounts : list Account.t)
    (tx : Transaction.t) :
  account_export_cells acc accounts tx ≠ [].
Proof. discriminate. Qed.

Lemma type_of_account_label (acc : Account.t) (tx : Transaction.t) :
  type_of_label match Transaction.type tx with
                | TRANSFER => if isIncome acc tx then "轉入" else "轉出"
                | type => type_label type
                end
  = Transaction.type tx.
Proof. destruct (Transaction.type tx); [reflexivity|reflexivity|by destruct (isIncome acc tx)]. Qed.

End AccountExport.

(** X28. The export of one account does not name the account.  The cells
    read from an exported line are the seven cells written, whatever they
    hold.  A row whose amount rounds to zero has an empty amount cell, and
    the import skips it.  From any other row with a calendar date and a whole
    amount of at most 2^53 in absolute value the import, in a host whose
    local time is at a fixed offset east of UTC, makes a transaction of the
    same date, amount and type with no destination account, booked on the
    account whose name is the seventh cell, which the import creates when no
    account has that name: for an income or an expense that name is a
    hyphen, for a transfer it is the name of the other account. *)
Theorem account_export_read_back {host : Host} (acc_ids : nat → string)
    (accounts : list Account.t) (acc : Account.t) (id : string) (tx : Transaction.t)
    (st : import_state) (d : Date.fields) (z : Z) :
  east_of_UTC host →
  Date.valid d → 1000 <= Date.getFullYear d <= 9999 →
  Transaction.date tx = Date.toISODate d →
  Transaction.amount tx = JS.of_Z z → Z.abs z <= 2 ^ 53 →
  let row := row_of_line (Text.trim (account_export_row acc accounts tx)) in
  let other := or_else (otherName acc accounts tx) "" in
  let resolved := getOrCreateAccountId acc_ids (Some other) (updatedAccounts st) in
  row = account_export_cells acc accounts tx
  ∧ (Transaction.type tx ≠ TRANSFER → other = "-")
  ∧ (z = 0 → import_row acc_ids accounts id row st = st)
  ∧ (z ≠ 0 →
     ∃ t, import_row acc_ids accounts id row st
          = {| updatedAccounts := resolved.2;
               newTransactions := (newTransactions st ++ [t])%list;
               importedCount := S (importedCount st) |}
          ∧ Imported.date t = Transaction.date tx
          ∧ Imported.amount t = Transaction.amount tx
          ∧ Imported.type t = Transaction.type tx
          ∧ Imported.accountId t = or_first_account accounts resolved.1
          ∧ Imported.toAccountId t = None).
Proof.
  intros Heast Hv Hy Hdate Hz _. cbv zeta.
  assert (Hrow : row_of_line (Text.trim (account_export_row acc accounts tx))
                 = account_export_cells acc accounts tx).
  { unfold account_export_row.
    by rewrite trim_joined_cells, row_of_line_joined by apply account_export_cells_not_nil. }
  rewrite Hrow. split; [reflexivity|]. split; [|split].
  - intros Htype. unfold otherName. by destruct (Transaction.type tx).
  - intros ->. unfold account_export_cells. cbn [import_row].
    rewrite Hz, number_cell_integer. cbn [Z.eqb]. reflexivity.
  - intros Hnz. unfold account_export_cells. cbn [import_row lookup list_lookup].
    rewrite Hdate, (normalizeDate_toISODate d Heast Hv Hy), Hz, number_cell_integer.
    destruct (Z.eqb_spec z 0) as [|_]; [contradiction|].
    rewrite parseFloat_amount_cell, toISODate_not_empty by lia.
    cbn [JS.isNaN JS.of_Z orb]. rewrite type_of_account_label.
    destruct (getOrCreateAccountId acc_ids _ (updatedAccounts st)) as [accId accs].
    destruct (Transaction.type tx); eexists; (split; [reflexivity|]); by repeat split.
Qed.

Lemma account_export_read_back_witness :
  let tx := Transaction.mk "t1" "2024-05-01" (JS.of_Z 500) EXPENSE "cat_food" "lunch"
              None "a1" None None None in
  let acc := Account.mk "a1" "Wallet" CASH (JS.of_Z 2000) "bg-orange-500" in
  let st := mk_import_state example_accounts [] 0 in
  let row := row_of_line (Text.trim (account_export_row acc example_accounts tx)) in
  let other := or_else (otherName acc example_accounts tx) "" in
  let resolved := getOrCreateAccountId account_ids (Some other) (updatedAccounts st) in
  row = account_export_cells acc example_accounts tx
  ∧ (Transaction.type tx ≠ TRANSFER → other = "-")
  ∧ (500 = 0 → import_row (host:=utc) account_ids example_accounts "i1" row st = st)
  ∧ (500 ≠ 0 →
     ∃ t, import_row (host:=utc) account_ids example_accounts "i1" row st
          = {| updatedAccounts := resolved.2;
               newTransactions := (newTransactions st ++ [t])%list;
               importedCount := S (importedCount st) |}
          ∧ Imported.date t = Transaction.date tx
          ∧ Imported.amount t = Transaction.amount tx
          ∧ Imported.type t = Transaction.type tx
          ∧ Imported.accountId t = or_first_account example_accounts resolved.1
          ∧ Imported.toAccountId t = None).
Proof.
  apply (account_export_read_back (host:=utc) account_ids example_accounts
           (Account.mk "a1" "Wallet" CASH (JS.of_Z 2000) "bg-orange-500") "i1"
           (Transaction.mk "t1" "2024-05-01" (JS.of_Z 500) EXPENSE "cat_food" "lunch"
              None "a1" None None None)
           (mk_import_state example_accounts [] 0) (Date.mk 2024 4 1) 500).
  - apply utc_east.
  - split; cbn; [lia|]. change (Date.days_in_month 2024 4) with 31. lia.
  - cbn. lia.
  - reflexivity.
  - reflexivity.
  - vm_compute. discriminate.
Defined.

(** X29. The file of an account export.  Without an account nothing is
    exported; the viewed account is exported when no account is handed over.
    The file holds the byte order mark, the header line and one line for each
    transaction of the account or into it, each once, newest first when the
    dates are calendar dates; and the import takes the file for one of its
    own: its format check passes on the header line. *)
Theorem handleExportAccountCSV_file {host : Host} (viewingAccount : option Account.t)
    (acc : Account.t)
    (accounts : list Account.t) (transactions : list Transaction.t)
    (tx_ids acc_ids : nat → string) (existing : list Account.t) :
  handleExportAccountCSV None None accounts transactions = None
  ∧ handleExportAccountCSV None (Some acc) accounts transactions
    = handleExportAccountCSV (Some acc) viewingAccount accounts transactions
  ∧ ∃ listed text,
      handleExportAccountCSV (Some acc) viewingAccount accounts transactions = Some text
      ∧ text = Text.BOM
               +:+ Text.join (String Text.LF "")
                     (Text.join "," account_headers
                      :: (account_export_row acc accounts <$> listed))
      ∧ Permutation listed
          (List.filter
             (λ tx, String.eqb (Transaction.accountId tx) (Account.id acc)
                    || bool_decide (Transaction.toAccountId tx = Some (Account.id acc)))
             transactions)
      ∧ (Forall (λ tx, calendar_date (Transaction.date tx)) transactions →
         StronglySorted
           (λ a b, String.leb (Transaction.date b) (Transaction.date a) = true) listed)
      ∧ handleImportCSV tx_ids acc_ids existing text ≠ Ignored
      ∧ handleImportCSV tx_ids acc_ids existing text ≠ FormatError.
Proof.
  split; [reflexivity|]. split; [reflexivity|].
  exists (accountTxs acc transactions). eexists. split; [reflexivity|]. split; [reflexivity|].
  split; [symmetry; apply sort_Permutation|]. split.
  - intros Hcal. apply newest_first.
    rewrite Forall_forall in Hcal |- *. intros tx Htx. apply Hcal.
    apply list_elem_of_In, filter_In in Htx as [Hin _]. by apply list_elem_of_In.
  - set (header := Text.join "," account_headers).
    assert (Hlines : ∃ rest,
               Text.split_on Text.LF
                 (Text.BOM +:+ Text.join (String Text.LF "")
                                 (header :: (account_export_row acc accounts
                                               <$> accountTxs acc transactions)))
               = (Text.BOM +:+ header) :: rest).
    { destruct (account_export_row acc accounts <$> accountTxs acc transactions)
        as [|row rows].
      - exists []. reflexivity.
      - exists (Text.split_on Text.LF (Text.join (String Text.LF "") (row :: rows))).
        change (Text.join (String Text.LF "") (header :: row :: rows))
          with (header +:+ String Text.LF "" +:+ Text.join (String Text.LF "") (row :: rows)).
        change (String Text.LF "" +:+ Text.join (String Text.LF "") (row :: rows))
          with (String Text.LF (Text.join (String Text.LF "") (row :: rows))).
        rewrite <- append_assoc. by apply split_on_append. }
    destruct Hlines as [rest Hlines].
    unfold handleImportCSV. rewrite Hlines.
    change (String.eqb (Text.BOM +:+ _) "") with false. cbv iota.
    change (negb (Text.includes "日期"
                    (Text.replace_char Text.dquote ""
                       (Text.strip_BOM (Text.BOM +:+ header))))
            || negb (Text.includes "金額"
                       (Text.replace_char Text.dquote ""
                          (Text.strip_BOM (Text.BOM +:+ header)))))
      with false. cbv iota.
    destruct (importedCount _); split; discriminate.
Qed.

(** ** The month selector *)

Section MonthSelector.
Import Text.

Lemma of_Z_add (a b : Z) : JS.add (JS.of_Z a) (JS.of_Z b) = JS.of_Z (a + b).
Proof. unfold JS.of_Z. cbn [JS.add]. f_equal. by rewrite Z2Qc_inj_add. Qed.

Lemma truncate_of_Z (z : Z) : truncate (JS.of_Z z) = Some z.
Proof.
  unfold truncate, JS.of_Z. f_equal.
  change (this (Qc_of_Z z)) with (inject_Z z).
  rewrite Qfloor_Z, Qceiling_Z. by destruct (Qle_bool _ _).
Qed.

(** [Number] on a string of decimal digits. *)
Lemma StringToNumber_digits (k : Z) (r s : string) (q : ascii) (n : Z) (c : nat) :
  0 <= k <= 9 → plain q → String (Date.digit k) r = s +:+ String q "" →
  (∀ x, x ∈ ["x"; "X"; "o"; "O"; "b"; "B"]%char → has_char x r = false) →
  scan_digits 0 0 (String (Date.digit k) r) = (n, S c, "") →
  StringToNumber (String (Date.digit k) r) = JS.of_Z n.
Proof.
  intros Hk Hq Hlast Hletters Hscan. unfold StringToNumber. cbv zeta.
  rewrite (trim_plain_ends _ q r s (plain_digit k Hk) Hq Hlast).
  assert (Hdec : decimal_literal (String (Date.digit k) r) = JS.of_Z n).
  { unfold decimal_literal.
    rewrite (digit_not "-" eq_refl k Hk), (digit_not "+" eq_refl k Hk).
    assert (Hinf : String.eqb (String (Date.digit k) r) "Infinity" = false).
    { apply String.eqb_neq. intros [= Hd _].
      pose proof (digit_not "I" eq_refl k Hk) as Hne. rewrite Hd in Hne. discriminate. }
    rewrite Hinf, Hscan. cbn [whole_exponent].
    apply Fin_eq. simpl. ring. }
  destruct r as [|b r]; [exact Hdec|].
  assert (Hb : ∀ x, x ∈ ["x"; "X"; "o"; "O"; "b"; "B"]%char → Ascii.eqb b x = false).
  { intros x Hx. specialize (Hletters x Hx). cbn [has_char] in Hletters.
    by apply orb_false_elim in Hletters as [Hbx _]. }
  rewrite !Hb by (repeat first [by left | right]).
  cbn [orb]. rewrite !andb_false_r. exact Hdec.
Qed.

Lemma StringToNumber_of_integer (n : Z) : 0 <= n → StringToNumber (of_integer n) = JS.of_Z n.
Proof.
  intros Hn. unfold of_integer. destruct (Z.ltb_spec n 0); [lia|].
  destruct (scan_of_digits n Hn) as [c Hscan].
  destruct (digits_of_first (Z.to_nat n) n) as (k & r & Hk & Hr).
  rewrite Hr in Hscan |- *.
  apply (StringToNumber_digits k r
           (if n <? 10 then "" else digits_of (Z.to_nat n) (n / 10))
           (Date.digit (n mod 10)) n c); try assumption.
  - apply plain_digit, mod10_digit.
  - by rewrite <- Hr.
  - intros x Hx.
    assert (Hdig : ∀ j, 0 <= j <= 9 → Ascii.eqb (Date.digit j) x = false).
    { repeat (apply elem_of_cons in Hx as [->|Hx]); try (by apply digit_not).
      by apply elem_of_nil in Hx. }
    pose proof (has_char_digits_of x (S (Z.to_nat n)) Hdig n) as Hall.
    rewrite Hr in Hall. cbn [has_char] in Hall.
    by apply orb_false_elim in Hall as [_ Hall].
Qed.

Lemma StringToNumber_pad2 (n : Z) : 0 <= n <= 99 → StringToNumber (Date.pad2 n) = JS.of_Z n.
Proof.
  intros Hn. unfold Date.pad2.
  apply (StringToNumber_digits _ _ (String (Date.digit (n / 10 mod 10)) "")
           (Date.digit (n mod 10)) n 1); try apply mod10_digit.
  - apply plain_digit, mod10_digit.
  - reflexivity.
  - intros x Hx. cbn [has_char]. rewrite orb_false_r.
    repeat (apply elem_of_cons in Hx as [->|Hx]);
      try (apply digit_not; [reflexivity|apply mod10_digit]).
    by apply elem_of_nil in Hx.
  - cbn [scan_digits]. rewrite !digit_value_digit by apply mod10_digit.
    repeat f_equal. Z.div_mod_to_equations. lia.
Qed.

(** One step of the selector on a month key. *)
Lemma changeMonth_month_key (year month delta : Z) :
  100 <= year → 0 <= month <= 11 →
  changeMonth (month_key year month) delta
  = month_key ((year * 12 + month + delta) / 12) ((year * 12 + month + delta) mod 12).
Proof.
  intros Hy Hm. unfold changeMonth. cbv zeta.
  rewrite split_month_key by lia. cbn [fmap list_fmap lookup list_lookup default].
  rewrite StringToNumber_of_integer, StringToNumber_pad2 by lia.
  unfold id. rewrite of_Z_sub, of_Z_add, !truncate_of_Z.
  rewrite new_Date_first by lia. cbn [Date.getFullYear Date.getMonth].
  replace (month + 1 - 1 + delta) with (month + delta) by lia.
  replace (year * 12 + month + delta) with (year * 12 + (month + delta)) by lia.
  rewrite Z.div_add_l by lia.
  rewrite (Z.add_comm (year * 12) (month + delta)), Z_mod_plus_full. reflexivity.
Qed.

End MonthSelector.

(** X30. The month selector counts months through the years.  On a month
    key, the year and the two-digit month that [monthlyStats] reads,
    [changeMonth] gives the month key of the month [delta] months away,
    January following December of the year before; so from the key of a year
    from 100 on the selected month stays a month key, and stepping back by
    the same number of months returns to the month left.  Once the selected
    month is [NaN-NaN] it stays so. *)
Theorem changeMonth_steps (year month delta : Z) :
  100 <= year → 0 <= month <= 11 →
  let months := year * 12 + month + delta in
  changeMonth (month_key year month) delta = month_key (months / 12) (months mod 12)
  ∧ 0 <= months mod 12 <= 11
  ∧ (100 <= months / 12 →
     changeMonth (changeMonth (month_key year month) delta) (- delta)
     = month_key year month)
  ∧ changeMonth "NaN-NaN" delta = "NaN-NaN".
Proof.
  intros Hy Hm. cbv zeta.
  pose proof (Z.mod_pos_bound (year * 12 + month + delta) 12 ltac:(lia)) as Hmod.
  split; [by apply changeMonth_month_key|]. split; [lia|]. split; [|reflexivity].
  intros Hstill. rewrite !changeMonth_month_key by lia.
  pose proof (Z.div_mod (year * 12 + month + delta) 12 ltac:(lia)) as Hdm.
  replace ((year * 12 + month + delta) / 12 * 12 + (year * 12 + month + delta) mod 12
           + - delta) with (month + year * 12) by lia.
  by rewrite Z.div_add, Z_mod_plus_full, Z.div_small, Z.mod_small by lia.
Qed.

Lemma changeMonth_steps_witness :
  let months := 2024 * 12 + 11 + 1 in
  changeMonth (month_key 2024 11) 1 = month_key (months / 12) (months mod 12)
  ∧ 0 <= months mod 12 <= 11
  ∧ (100 <= months / 12 →
     changeMonth (changeMonth (month_key 2024 11) 1) (- (1)) = month_key 2024 11)
  ∧ changeMonth "NaN-NaN" 1 = "NaN-NaN".
Proof.
  apply (changeMonth_steps 2024 11 1); lia.
Defined.
